(* ===== verification/_CoqProject ===== *)
-Q . S2P
Prelude.v
CLib.v
Unicode.v
ProcessFilter.v
ProcessFilterTable.v
Jsonl.v
BpfFormat.v
BpfMap.v
Tracer.v
ProcessBpf.v
ProcessBpfSpec.v
MapFlush.v
MapFlushSpec.v
ProcUtils.v
FileAgg.v
Userspace.v
ProcessMain.v
EventLines.v
ProcessLines.v
ProcessTrack.v
ProcessMainSpec.v
ProcessRun.v
UserMem.v
SslBpf.v
SslBpfSpec.v
SslCalls.v
Offsets.v
OffsetsSpec.v
CFloat.v
SslSniff.v
SslSniffSpec.v
Stdiocap.v
StdiocapSpec.v
StdioTrace.v
BrowserBpf.v
BrowserBpfSpec.v
Browser.v
BrowserSpec.v
BrowserFind.v
