(* ===== verification/Prelude.v ===== *)
(** * AgentSight tracers: a verification development

    AgentSight observes AI agents from the kernel.  Its C code, under src/bpf,
    is a set of tracers; each is a pair of programs: BPF probes that run at
    system calls, tracepoints or library functions, keep their state in BPF
    maps and submit samples to a ring buffer; and a userspace program that
    loads the probes, consumes the samples and prints one JSON object per line,
    which the collector reads.  This library models all four tracers (processes,
    TLS, standard streams, browsers) completely: every probe, the helpers they
    share and the programs up to their exit status.

    ** How the model is built

    Integers of the C code are [Z] with their wrap-around written out ([u32],
    [s32], [u64], [wrapu], [wraps]); buffers and strings are lists of bytes,
    and accesses out of range are [None] where the code does not exclude them
    by construction.  A probe is a total function from the state (maps and
    ring buffer) and the context of one invocation (ids, clock, arguments, user
    memory, the stale contents of the reserved sample) to the next state;
    concurrency is an arbitrary sequence of invocations of all threads, each
    probe being atomic.  A program is a function of its options, of what the
    system answers and of a schedule of polls.  BPF maps are a parameter with
    the behaviour bpf(2) documents: the classes [BpfHash] (operations),
    [BpfHashLaws] (laws) and [BpfRoom] (capacity) of [BpfMap], whose instance
    [bounded] the witnesses compute with.  libbpf, /proc, readlink, getsid,
    the shell, the clocks and the contents of files are parameters too.

    ** Files

    Shared: [Prelude] (bytes, machine integers, tactics), [CLib] (strings,
    printf, strtol, fgets), [CFloat] (doubles and [%.3f]), [Unicode] (reference
    definitions of UTF-8 and JSON, and the layout of a line), [BpfMap],
    [Tracer] (what the tracers have in common: a record of the probes of a
    tracer, [probe_system], and classes of laws from which one section proves
    that samples are only added, keep an invariant, and do not depend on the
    interleaving), [UserMem] (reads of user memory), [Jsonl] (jsonl.h),
    [ProcUtils] (process_utils.h and container_info.h).

    Process tracer: [BpfFormat] (formatters of process_ext/bpf_*.h),
    [ProcessBpf] (process.bpf.c and the probes of process_ext), [MapFlush]
    (map_flush.h), [ProcessFilter] (process_filter.h), [FileAgg] (limiter and
    deduplication of process.c), [Userspace] (userspace.h), [ProcessMain] (the
    rest of process.c, to [main]).  Their theorems are there and in
    [ProcessBpfSpec], [MapFlushSpec], [ProcessFilterTable], [EventLines] (a reader
    of lines byte by byte and what a line reports), [ProcessLines] (printers and
    handler), [ProcessTrack], [ProcessMainSpec] and [ProcessRun], which composes
    the probes, the maps and the program.

    TLS tracer: [SslBpf] (sslsniff.bpf.c, sslsniff.h), [Offsets]
    (codex_offsets.h and the BoringSSL detector of sslsniff.c), [SslSniff] (the
    rest of sslsniff.c); theorems in [SslBpfSpec], [SslCalls], [OffsetsSpec]
    and [SslSniffSpec].

    Standard-stream tracer: [Stdiocap] (stdiocap.bpf.c, stdiocap.c and
    stdiocap.h), theorems in [StdiocapSpec] (probes, filter, lines) and
    [StdioTrace] (from the probes to the output).

    Browser tracer: [BrowserBpf] (browsertrace.bpf.c, browsertrace.h), with the
    invocations and samples of [SslBpf], and [Browser] (browsertrace.c, whose
    UTF-8 validator and printing loop are copies of those of jsonl.h and share
    their model); theorems in [BrowserBpfSpec] (probes), [BrowserSpec] (process
    filter, lines, attachments) and [BrowserFind] (wrappers, copy points).

    ** What the theorems show

    Nothing is lost or counted twice: over any run of the process probes and of
    the reports, what was reported plus what is in the map or the overflow
    counters is what happened ([tracer_reports_every_event]), and in any run of
    the program, by processes whose names, paths and arguments hold any bytes,
    the counts read off the lines it printed say so
    ([process_run_counts_every_event], which also says what is reported twice),
    each probe counting its event under the documented key
    ([probe_counts_its_event], [probes_lose_no_event]).

    Data go to the right owner under any interleaving: bytes written to the
    descriptor of the call ([write_exit_credits_entry]), a TLS sample to the
    buffer of the call of its thread ([ssl_exit_reports_entry_buffer]), a
    stream or browser sample likewise ([stdio_exit_reports_its_call],
    [nss_exit_reports_its_call]), a lifetime to the exec of its process
    ([exit_reports_lifetime]).  What a tracer submits for a thread depends on
    that thread's own invocations only, so that two interleavings of the same
    invocations submit the same samples ([ssl_interleaving_independent],
    [stdio_interleaving_independent], [browser_interleaving_independent]).

    Samples are well typed ([ssl_samples_well_typed]) and captures are what
    they say, a loss being always marked ([rustls_vectored_capture],
    [rustls_plaintext_capture]).

    Every line is JSON that decodes to what was observed: the escaper on any
    bytes ([json_print_escaped_roundtrip], [validate_utf8_char_exact]), the
    lines of the tracers ([handled_events_print_lines], [summary_line_parses],
    [ssl_line_roundtrip], [stdio_line_roundtrip], [browser_line_roundtrip]),
    and the whole path from the probes to the output of every tracer: one
    faithful line per sample ([ssl_trace_prints_samples],
    [browser_trace_prints_samples], and, poll by poll and in order,
    [stdio_trace_prints_samples]).  For the process tracer no schedule and no
    bytes in the strings of the processes make the program fail or print
    anything but lines whose members can be told apart, which are JSON when the
    strings are plain text ([process_run_prints_lines]): the printers and the
    handler are verified once ([ProcessLines], [ProcessRun]), for the strings
    with a property [good] or the characters of a class [ch], with all strings
    and the plain ones as instances.

    The right processes are traced: the linear-probing table is a finite map
    ([pid_table_refines_map]), tracking is the abstract process tree
    ([tracking_follows_process_tree], [shown_iff_reported]), the filters are
    exact ([untracked_cgroup_untouched], [cgroup_filter_is_subtree],
    [stdio_filter_exact], [session_tree_is_captured]), the descriptors traced in
    Firefox are the imported ones ([nss_traces_imported_fds]), and the cached
    filter on the executable is the uncached one ([target_filter_exact]).

    The right code is instrumented: the two pattern searches agree, the tables
    and detectors are exact, the chunked scan misses no marker
    ([pattern_searches_agree], [rustls_offsets_exact],
    [boringssl_offsets_exact], [chrome_offsets_exact],
    [marker_scan_whole_file]), a wrapper leads to the executable it runs
    ([resolution_finds_executable]), and a binary or a browser is traced
    completely or not at all ([binary_path_all_or_nothing],
    [browser_attach_all_or_nothing]).

    Some theorems and lemmas state what the code does where it does not do what
    a comment or its purpose says (for instance [flush_pid_over_256_repeats],
    [ex_megabyte_captured_empty], [handshake_filter_takes_pid_for_uid],
    [gnutls_never_attached], [stale_entry_reported], [comm_forges_pid],
    [cut_path_not_json]).

    ** Bounds and fuel

    Loops of the code are structural recursions where their data are lists, and
    otherwise take a fuel that is the code's own bound (probes, hash table,
    walks limited by a constant) or one shown to be enough: the length of a
    text for the loops that consume it ([json_print_loop], [codex_find_loop],
    [writev_loop], [fgets_loop]), the number of entries of a map for the
    flushes, the depth of a finite tree for the cgroup walk; the theorems state
    that the result is reached, never that a result is right if there is one.

    ** Not modelled

    Messages to stderr have no counterpart, nor has the failure of a small
    allocation that the code does not test.  What a faulting read leaves in the
    destination is unspecified.  The order of samples in the ring buffer is
    that of their submission.  The vmlinux headers are generated; the collector,
    the analyzers and the web programs are not C. *)

From Stdlib Require Export ZArith Lia.
From stdpp Require Export base numbers list strings gmap.

#[global] Open Scope Z_scope.

(** ** Bytes, buffers and literals *)

(** A byte is an integer in [0, 256); a char array or a C string is a list of
    bytes.  [Abbreviation] keeps stdpp's list lemmas applicable. *)
Abbreviation bytes := (list Z).

Definition byte_ok (b : Z) : Prop := 0 <= b < 256.

Definition bytes_ok (l : bytes) : Prop := Forall byte_ok l.

Definition Z_of_ascii (a : Ascii.ascii) : Z := Z.of_N (Ascii.N_of_ascii a).

(** [lit s] is the text of the C literal [s]. *)
Definition lit (s : string) : bytes := map Z_of_ascii (String.list_ascii_of_string s).

(** [jlit s] is the text of a C literal that holds JSON: the single quote
    stands for the double quote, which Rocq strings cannot hold readably. *)
Definition jlit (s : string) : bytes :=
  map (fun c => if c =? 39 then 34 else c) (lit s).

(** ** Machine integers *)

Definition wrapu (w x : Z) : Z := x mod 2 ^ w.

Definition wraps (w x : Z) : Z := (x + 2 ^ (w - 1)) mod 2 ^ w - 2 ^ (w - 1).

Abbreviation u8 := (wrapu 8).
Abbreviation u16 := (wrapu 16).
Abbreviation u32 := (wrapu 32).
Abbreviation u64 := (wrapu 64).
Abbreviation s8 := (wraps 8).
Abbreviation s32 := (wraps 32).
Abbreviation s64 := (wraps 64).

(** ** Checked buffer access

    An access outside the array is [None]: the theorems that a routine returns
    [Some] are its memory-safety theorems. *)

Definition in_range (buf : bytes) (i : Z) : bool := (0 <=? i) && (i <? Z.of_nat (length buf)).

Definition load (buf : bytes) (i : Z) : option Z :=
  if in_range buf i then buf !! Z.to_nat i else None.

Definition store (buf : bytes) (i b : Z) : option bytes :=
  if in_range buf i then Some (<[Z.to_nat i := b]> buf) else None.

(** [store_all buf i l] is [memcpy(buf + i, l, |l|)]. *)
Fixpoint store_all (buf : bytes) (i : Z) (l : bytes) : option bytes :=
  match l with
  | [] => Some buf
  | b :: l' => buf' ← store buf i b; store_all buf' (i + 1) l'
  end.

(** ** Loops *)

(** A [for] loop over [l] whose body may fail. *)
Fixpoint fold_opt {A B} (f : A -> B -> option A) (a : A) (l : list B) : option A :=
  match l with
  | [] => Some a
  | b :: l' => a' ← f a b; fold_opt f a' l'
  end.

(** ** Tactics *)

(** Linear arithmetic with division and remainder by constants. *)
Ltac lia_mod := Z.to_euclidean_division_equations; lia.

(** Turn the boolean tests of the C code into propositions. *)
Ltac bool_to_prop :=
  repeat match goal with
  | H : _ && _ = true |- _ => apply andb_true_iff in H as [? ?]
  | H : _ || _ = false |- _ => apply orb_false_iff in H as [? ?]
  | H : negb _ = true |- _ => apply negb_true_iff in H
  | H : negb _ = false |- _ => apply negb_false_iff in H
  | H : (_ =? _) = true |- _ => apply Z.eqb_eq in H
  | H : (_ =? _) = false |- _ => apply Z.eqb_neq in H
  | H : (_ <? _) = true |- _ => apply Z.ltb_lt in H
  | H : (_ <? _) = false |- _ => apply Z.ltb_ge in H
  | H : (_ <=? _) = true |- _ => apply Z.leb_le in H
  | H : (_ <=? _) = false |- _ => apply Z.leb_gt in H
  end.

(** Case analysis on the innermost test of the goal. *)
Ltac case_test :=
  match goal with
  | |- context [if ?b then _ else _] =>
      lazymatch b with
      | context [if _ then _ else _] => fail
      | _ => let E := fresh "E" in destruct b eqn:E
      end
  end.

Ltac case_tests := repeat (case_test; bool_to_prop; simplify_eq/=).

(** Discharge a test whose outcome linear arithmetic knows. *)
Ltac test_true := rewrite (proj2 (Z.ltb_lt _ _)) || rewrite (proj2 (Z.leb_le _ _)) || rewrite (proj2 (Z.eqb_eq _ _)).
Ltac test_false := rewrite (proj2 (Z.ltb_ge _ _)) || rewrite (proj2 (Z.leb_gt _ _)) || rewrite (proj2 (Z.eqb_neq _ _)).

(** Rewrite every test of the goal that linear arithmetic decides. *)
Ltac decide_tests :=
  repeat match goal with
  | |- context [?a <=? ?b] =>
      first [rewrite (proj2 (Z.leb_le a b)) by lia | rewrite (proj2 (Z.leb_gt a b)) by lia]
  | |- context [?a <? ?b] =>
      first [rewrite (proj2 (Z.ltb_lt a b)) by lia | rewrite (proj2 (Z.ltb_ge a b)) by lia]
  | |- context [?a =? ?b] =>
      first [rewrite (proj2 (Z.eqb_eq a b)) by lia | rewrite (proj2 (Z.eqb_neq a b)) by lia]
  end.

(** ** Hint databases *)

Create HintDb cbuf.

(** ** Machine integer lemmas *)

Lemma wrapu_bound w x : 0 < 2 ^ w -> 0 <= wrapu w x < 2 ^ w.
Proof. unfold wrapu. intros. by apply Z.mod_pos_bound. Qed.

Lemma wrapu_id w x : 0 <= x < 2 ^ w -> wrapu w x = x.
Proof. apply Z.mod_small. Qed.

Lemma wraps_id w x : 0 < w -> - 2 ^ (w - 1) <= x < 2 ^ (w - 1) -> wraps w x = x.
Proof.
  intros Hw Hx. unfold wraps.
  assert (2 ^ w = 2 * 2 ^ (w - 1)) as E.
  { rewrite <- Z.pow_succ_r by lia. f_equal. lia. }
  rewrite Z.mod_small; lia.
Qed.

Lemma wraps_bound w x : 0 < w -> - 2 ^ (w - 1) <= wraps w x < 2 ^ (w - 1).
Proof.
  intros Hw. unfold wraps.
  assert (2 ^ w = 2 * 2 ^ (w - 1)) as E.
  { rewrite <- Z.pow_succ_r by lia. f_equal. lia. }
  assert (0 < 2 ^ (w - 1)) by (apply Z.pow_pos_nonneg; lia).
  pose proof (Z.mod_pos_bound (x + 2 ^ (w - 1)) (2 ^ w)). lia.
Qed.

Lemma land_mask n x : 0 <= n -> Z.land x (2 ^ n - 1) = x mod 2 ^ n.
Proof.
  intros. rewrite <- Z.land_ones by lia.
  f_equal. rewrite Z.ones_equiv. lia.
Qed.

(** ** Buffer lemmas *)

Lemma in_range_true buf i : in_range buf i = true <-> 0 <= i < Z.of_nat (length buf).
Proof. unfold in_range. rewrite andb_true_iff, Z.leb_le, Z.ltb_lt. done. Qed.

Lemma store_Some buf i b :
  0 <= i < Z.of_nat (length buf) -> store buf i b = Some (<[Z.to_nat i := b]> buf).
Proof. intros H. unfold store. apply in_range_true in H. by rewrite H. Qed.

Lemma store_inv buf i b buf' :
  store buf i b = Some buf' ->
  0 <= i < Z.of_nat (length buf) /\ buf' = <[Z.to_nat i := b]> buf.
Proof.
  unfold store. destruct (in_range buf i) eqn:E; [|done].
  apply in_range_true in E. naive_solver.
Qed.

(** A store at the end of a written prefix extends the prefix. *)
Lemma store_app (l : bytes) x r b :
  store (l ++ x :: r) (Z.of_nat (length l)) b = Some (l ++ b :: r).
Proof.
  rewrite store_Some by (rewrite length_app; simpl; lia).
  by rewrite Nat2Z.id, insert_app_r_alt, Nat.sub_diag by lia.
Qed.

Lemma store_all_app (l r1 r2 m : bytes) :
  length r1 = length m ->
  store_all (l ++ r1 ++ r2) (Z.of_nat (length l)) m = Some (l ++ m ++ r2).
Proof.
  revert l r1. induction m as [|b m IH]; intros l r1 Hl.
  - by destruct r1.
  - destruct r1 as [|x r1]; [done|]. simpl in *.
    rewrite store_app. simpl.
    specialize (IH (l ++ [b]) r1). rewrite length_app in IH. simpl in IH.
    rewrite <- !app_assoc in IH. simpl in IH.
    replace (Z.of_nat (length l) + 1) with (Z.of_nat (length l + 1)) by lia.
    apply IH. lia.
Qed.

Lemma bytes_ok_app l1 l2 : bytes_ok (l1 ++ l2) <-> bytes_ok l1 /\ bytes_ok l2.
Proof. apply Forall_app. Qed.

Lemma bytes_ok_cons b l : bytes_ok (b :: l) <-> byte_ok b /\ bytes_ok l.
Proof. apply Forall_cons. Qed.

Lemma bytes_ok_test l : forallb (fun b => (0 <=? b) && (b <? 256)) l = true -> bytes_ok l.
Proof.
  intros H. apply Forall_forall. intros b Hb. apply list_elem_of_In in Hb.
  apply (proj1 (forallb_forall _ _) H) in Hb. bool_to_prop. done.
Qed.

(** ** List lemmas *)

Lemma filter_ext_in {A} (P Q : A -> Prop) `{!forall x, Decision (P x)} `{!forall x, Decision (Q x)} (l : list A) :
  (forall x, x ∈ l -> (P x <-> Q x)) -> filter P l = filter Q l.
Proof.
  induction l as [|x l IH]; intros Hx; [done|]. rewrite !filter_cons.
  rewrite IH by (intros y Hy; apply Hx; by right).
  destruct (decide (P x)) as [Hp|Hp], (decide (Q x)) as [Hq|Hq]; try done; exfalso.
  - apply Hq, (Hx x); [left|done].
  - apply Hp, (Hx x); [left|done].
Qed.

Lemma filter_perm {A} (p : A -> bool) l l' : l ≡ₚ l' -> List.filter p l ≡ₚ List.filter p l'.
Proof.
  induction 1 as [|x l l' _ IH|x y l|l1 l2 l3 _ IH1 _ IH2]; cbn [List.filter].
  - done.
  - destruct (p x); [by constructor|done].
  - destruct (p x), (p y); try done. constructor.
  - by rewrite IH1.
Qed.

Lemma not_elem_test (x : Z) l : existsb (Z.eqb x) l = false -> x ∉ l.
Proof.
  intros H Hx. apply list_elem_of_In in Hx. assert (existsb (Z.eqb x) l = true) as E; [|congruence].
  apply existsb_exists. exists x. split; [done|apply Z.eqb_refl].
Qed.

Lemma elem_test (x : Z) l : existsb (Z.eqb x) l = true -> x ∈ l.
Proof.
  intros H. apply existsb_exists in H as (y & Hy & E). apply Z.eqb_eq in E as ->. by apply list_elem_of_In.
Qed.

#[export] Hint Resolve store_Some : cbuf.
