(* ===== verification/CLib.v ===== *)
(** * C library model

    The parts of the C library the tracers use on strings and numbers, at byte
    level: NUL-terminated strings inside buffers, comparison, [strtol], the
    [%d], [%u] and [%x] conversions of [printf], [strncpy], [memchr] and the
    line reading of [fgets]. *)

From S2P Require Import Prelude.

(** ** Strings in buffers *)

Fixpoint take_while (p : Z -> bool) (l : bytes) : bytes :=
  match l with
  | [] => []
  | b :: l' => if p b then b :: take_while p l' else []
  end.

(** The C string that starts a buffer: the bytes before the first NUL. *)
Definition cstr (buf : bytes) : bytes := take_while (fun b => negb (b =? 0)) buf.

(** [strcmp(a, b) == 0] *)
Definition streq (a b : bytes) : bool := bool_decide (cstr a = cstr b).

(** [strncmp(a, b, n) == 0] *)
Definition strneq (a b : bytes) (n : nat) : bool :=
  bool_decide (take n (cstr a) = take n (cstr b)).

(** The array after [strncpy(dst, src, n)]. *)
Definition strncpy (dst src : bytes) (n : nat) : bytes :=
  take n (cstr src ++ replicate n 0) ++ drop n dst.

(** The array after [strncpy(dst, src, size - 1); dst[size - 1] = 0], the
    idiom of the sources, for an array of [size] bytes. *)
Definition strncpy_term (src : bytes) (size : nat) : bytes :=
  take (size - 1) (cstr src ++ replicate (size - 1) 0) ++ [0].

(** [memcmp(data + i, p, |p|) == 0] *)
Definition memeq_at (data : bytes) (i : nat) (p : bytes) : bool :=
  bool_decide (take (length p) (drop i data) = p).

(** [memchr]: the index of the first [c] of [l]. *)
Definition memchr (l : bytes) (c : Z) : option nat := fst <$> list_find (fun b => b = c) l.

(** ** Numbers *)

Definition is_space (c : Z) : bool := (c =? 32) || ((9 <=? c) && (c <=? 13)).

Definition is_digit (c : Z) : bool := (48 <=? c) && (c <=? 57).

Definition dec_value (ds : bytes) : Z := foldl (fun a d => a * 10 + (d - 48)) 0 ds.

Fixpoint udigits (fuel : nat) (n : Z) (acc : bytes) : bytes :=
  match fuel with
  | O => acc
  | S f =>
      let acc' := (48 + n mod 10) :: acc in
      if n <? 10 then acc' else udigits f (n / 10) acc'
  end.

(** [printf("%u")] and [printf("%llu")] of a non-negative number: log2 n + 1
    digits are enough. *)
Definition fmt_u (n : Z) : bytes := udigits (S (Z.to_nat (Z.log2 n))) n [].

(** [printf("%d")] *)
Definition fmt_d (n : Z) : bytes := if n <? 0 then 45 :: fmt_u (- n) else fmt_u n.

Definition hex_digit (d : Z) : Z := if d <? 10 then 48 + d else 87 + d.

(** [printf("%02x")] of a byte and [printf("%04x")] of a 16-bit number *)
Definition fmt_x2 (c : Z) : bytes := [hex_digit (c / 16); hex_digit (c mod 16)].

Definition fmt_x4 (c : Z) : bytes := fmt_x2 (c / 256) ++ fmt_x2 (c mod 256).

Definition LONG_MAX : Z := 2 ^ 63 - 1.
Definition LONG_MIN : Z := - 2 ^ 63.

(** The outcome of [strtol(s, &end, 10)]: the value, the offset of [end] in
    [s] (0 when there is no conversion) and whether errno is ERANGE. *)
Record strtol_result := StrtolResult { st_val : Z; st_end : nat; st_erange : bool }.

Definition strtol10 (s : bytes) : strtol_result :=
  let ws := length (take_while is_space s) in
  let s1 := drop ws s in
  let '(neg, sg) :=
    match s1 with
    | c :: _ => if c =? 45 then (true, 1%nat) else if c =? 43 then (false, 1%nat) else (false, O)
    | [] => (false, O)
    end in
  let ds := take_while is_digit (drop sg s1) in
  match ds with
  | [] => StrtolResult 0 0 false
  | _ =>
      let v := if neg : bool then - dec_value ds else dec_value ds in
      let e := (ws + sg + length ds)%nat in
      if LONG_MAX <? v then StrtolResult LONG_MAX e true
      else if v <? LONG_MIN then StrtolResult LONG_MIN e true
      else StrtolResult v e false
  end.

(** [atoi]: the conversion of [strtol], truncated to int. *)
Definition atoi (s : bytes) : Z := s32 (st_val (strtol10 s)).

(** ** Lines

    [fgets(line, size, f)] returns at most size - 1 bytes and stops after a
    newline; [fgets_lines] is the sequence of buffers of a
    [while (fgets(...))] loop over a file's contents. *)
Fixpoint fgets_one (n : nat) (l : bytes) : bytes * bytes :=
  match n, l with
  | O, _ => ([], l)
  | _, [] => ([], [])
  | S n', b :: l' =>
      if b =? 10 then ([b], l')
      else let '(x, r) := fgets_one n' l' in (b :: x, r)
  end.

Fixpoint fgets_loop (fuel size : nat) (l : bytes) : list bytes :=
  match fuel, l with
  | O, _ | _, [] => []
  | S f, _ =>
      let '(x, r) := fgets_one (size - 1) l in x :: fgets_loop f size r
  end.

(** Each line takes at least one byte, so the length of the file is enough
    fuel. *)
Definition fgets_lines (size : nat) (l : bytes) : list bytes :=
  fgets_loop (length l) size l.

(** [snprintf(out, size, "%s", s)]: at most size - 1 bytes and a NUL. *)
Definition snprintf_s (size : nat) (s : bytes) : bytes := take (size - 1) s.

Definition PATH_MAX : nat := 32 * 128.

(** [strstr]: the first occurrence of a non-empty string. *)
Definition strstr (hay needle : bytes) : option nat :=
  fst <$> list_find (fun i => memeq_at hay i needle = true) (seq 0 (S (length hay - length needle))).

(** [strrchr]: the last occurrence of a character. *)
Definition strrchr (l : bytes) (c : Z) : option nat := (fun i => length l - 1 - i)%nat <$> memchr (rev l) c.

(** ** Lemmas: strings *)

Lemma take_while_prefix p l : exists r, l = take_while p l ++ r.
Proof.
  induction l as [|b l [r IH]]; simpl; [by exists []|].
  destruct (p b); [|by eexists]. exists r. simpl. by f_equal.
Qed.

Lemma take_while_rest p l : take_while p l ++ drop (length (take_while p l)) l = l.
Proof. destruct (take_while_prefix p l) as [r E]. rewrite E at 3. by rewrite drop_app_length. Qed.

Lemma take_while_all p l : Forall (fun b => p b = true) (take_while p l).
Proof. induction l as [|b l IH]; simpl; [done|]. destruct (p b) eqn:E; auto. Qed.

Lemma take_while_length p l : (length (take_while p l) <= length l)%nat.
Proof. induction l as [|b l IH]; simpl; [lia|]. destruct (p b); simpl; lia. Qed.

(** [take_while] of a run followed by a stopping byte, or by nothing. *)
Lemma take_while_app p l r :
  Forall (fun b => p b = true) l ->
  match r with [] => True | b :: _ => p b = false end ->
  take_while p (l ++ r) = l.
Proof.
  intros Hl Hr. induction Hl as [|b l Hb Hl IH]; simpl.
  - destruct r as [|b r]; [done|]. simpl. by rewrite Hr.
  - by rewrite Hb, IH.
Qed.

Definition no_nul (l : bytes) : Prop := Forall (fun b => b <> 0) l.

Lemma no_nul_test l : forallb (fun b => negb (b =? 0)) l = true -> no_nul l.
Proof.
  intros H. apply Forall_forall. intros b Hb. apply list_elem_of_In in Hb.
  apply (proj1 (forallb_forall _ _) H) in Hb. by apply negb_true_iff, Z.eqb_neq in Hb.
Qed.

Lemma no_nul_app l1 l2 : no_nul l1 -> no_nul l2 -> no_nul (l1 ++ l2).
Proof. intros. by apply Forall_app. Qed.

Lemma cstr_app l r : no_nul l -> cstr (l ++ 0 :: r) = l.
Proof.
  intros Hl. apply take_while_app; [|done].
  eapply Forall_impl; [exact Hl|]. intros b Hb. simpl.
  apply negb_true_iff, Z.eqb_neq, Hb.
Qed.

Lemma cstr_id l : no_nul l -> cstr l = l.
Proof.
  intros Hl. rewrite <- (app_nil_r l) at 1. apply take_while_app; [|done].
  eapply Forall_impl; [exact Hl|]. intros b Hb. simpl.
  apply negb_true_iff, Z.eqb_neq, Hb.
Qed.

Lemma cstr_no_nul l : no_nul (cstr l).
Proof.
  eapply Forall_impl; [apply take_while_all|]. intros b Hb. simpl in Hb.
  by apply negb_true_iff, Z.eqb_neq in Hb.
Qed.

Lemma cstr_cstr l : cstr (cstr l) = cstr l.
Proof. apply cstr_id, cstr_no_nul. Qed.

Lemma cstr_bytes_ok l : bytes_ok l -> bytes_ok (cstr l).
Proof.
  intros H. destruct (take_while_prefix (fun b => negb (b =? 0)) l) as [r Hr].
  unfold cstr. rewrite Hr in H. by apply bytes_ok_app in H as [? _].
Qed.

Lemma streq_spec a b : streq a b = true <-> cstr a = cstr b.
Proof. unfold streq. by rewrite bool_decide_eq_true. Qed.

Lemma memeq_at_spec data i p :
  memeq_at data i p = true <-> exists r, drop i data = p ++ r.
Proof.
  unfold memeq_at. rewrite bool_decide_eq_true. split.
  - intros H. exists (drop (length p) (drop i data)).
    rewrite <- H at 1. by rewrite take_drop.
  - intros [r ->]. by rewrite take_app_length.
Qed.

Lemma memchr_Some l c i :
  memchr l c = Some i <->
  l !! i = Some c /\ forall j, (j < i)%nat -> l !! j <> Some c.
Proof.
  unfold memchr. rewrite fmap_Some. split.
  - intros ([k b] & Hf & ->). apply list_find_Some in Hf as (H1 & -> & H2).
    split; [done|]. intros j Hj Hc. exact (H2 _ _ Hc Hj eq_refl).
  - intros [H1 H2]. exists (i, c). split; [|done].
    apply list_find_Some. split_and!; [done|done|].
    intros j y Hy Hj ->. by apply (H2 j).
Qed.

Lemma memchr_None l c : memchr l c = None <-> c ∉ l.
Proof.
  unfold memchr. rewrite fmap_None, list_find_None, Forall_forall.
  split; [intros H Hc; by apply (H c)|intros H x Hx ->; done].
Qed.

(** ** Lemmas: decimal numbers *)

Definition all_digits (l : bytes) : Prop := Forall (fun d => is_digit d = true) l.

Lemma is_digit_spec d : is_digit d = true <-> 48 <= d <= 57.
Proof. unfold is_digit. rewrite andb_true_iff, !Z.leb_le. lia. Qed.

Lemma dec_value_app l1 l2 :
  dec_value (l1 ++ l2) = foldl (fun a d => a * 10 + (d - 48)) (dec_value l1) l2.
Proof. unfold dec_value. by rewrite foldl_app. Qed.

(** The digit loop writes the decimal expansion in front of [acc]. *)
Lemma udigits_spec fuel n acc :
  0 <= n < 10 ^ Z.of_nat fuel -> (0 < fuel)%nat ->
  exists ds : bytes, udigits fuel n acc = ds ++ acc /\ all_digits ds /\
    (0 < length ds)%nat /\ dec_value ds = n /\ (1 <= n -> head ds <> Some 48).
Proof.
  revert n acc. induction fuel as [|f IH]; intros n acc Hn Hf; [lia|].
  simpl. rewrite Nat2Z.inj_succ, Z.pow_succ_r in Hn by lia.
  assert (is_digit (48 + n mod 10) = true) as Hd.
  { apply is_digit_spec. pose proof (Z.mod_pos_bound n 10). lia. }
  destruct (Z.ltb_spec n 10) as [Hs|Hs].
  - exists [48 + n mod 10]. rewrite Z.mod_small in * by lia. split_and!.
    + done.
    + by constructor.
    + simpl. lia.
    + unfold dec_value. simpl. lia.
    + intros. simpl. intros [=]. lia.
  - destruct (IH (n / 10) ((48 + n mod 10) :: acc)) as (ds & -> & H1 & H2 & H3 & H4).
    + split; [apply Z.div_pos; lia|apply Z.div_lt_upper_bound; lia].
    + destruct f; [simpl in Hn; lia|lia].
    + exists (ds ++ [48 + n mod 10]). split_and!.
      * by rewrite <- app_assoc.
      * apply Forall_app. split; [done|by constructor].
      * rewrite length_app. lia.
      * rewrite dec_value_app, H3. simpl. pose proof (Z.div_mod n 10). lia.
      * intros _. assert (1 <= n / 10) as Hq by (apply Z.div_le_lower_bound; lia).
        specialize (H4 Hq). destruct ds; [simpl in H2; lia|done].
Qed.

Lemma log2_fuel n : 0 <= n -> n < 10 ^ Z.of_nat (S (Z.to_nat (Z.log2 n))).
Proof.
  intros Hn. destruct (Z.eq_dec n 0) as [->|H0]; [done|].
  pose proof (Z.log2_spec n). pose proof (Z.log2_nonneg n).
  rewrite Nat2Z.inj_succ, Z2Nat.id by lia.
  assert (2 ^ Z.succ (Z.log2 n) <= 10 ^ Z.succ (Z.log2 n)) by (apply Z.pow_le_mono_l; lia).
  lia.
Qed.

(** [%u] prints the decimal expansion: digits only, at least one, no leading
    zero, of the right value. *)
Lemma fmt_u_spec n :
  0 <= n ->
  all_digits (fmt_u n) /\ (0 < length (fmt_u n))%nat /\ dec_value (fmt_u n) = n /\
  (1 <= n -> head (fmt_u n) <> Some 48).
Proof.
  intros Hn. unfold fmt_u.
  destruct (udigits_spec (S (Z.to_nat (Z.log2 n))) n []) as (ds & -> & ?).
  - split; [done|by apply log2_fuel].
  - lia.
  - by rewrite app_nil_r.
Qed.

Lemma fmt_u_inj n m : 0 <= n -> 0 <= m -> fmt_u n = fmt_u m -> n = m.
Proof.
  intros Hn Hm E. destruct (fmt_u_spec n Hn) as (_ & _ & <- & _).
  destruct (fmt_u_spec m Hm) as (_ & _ & <- & _). by rewrite E.
Qed.

Lemma take_while_digits ds r :
  all_digits ds -> match r with [] => True | c :: _ => is_digit c = false end ->
  take_while is_digit (ds ++ r) = ds.
Proof. apply take_while_app. Qed.

Lemma digit_not_space d : is_digit d = true -> is_space d = false.
Proof.
  rewrite is_digit_spec. intros. unfold is_space.
  apply orb_false_iff. split; [apply Z.eqb_neq; lia|].
  apply andb_false_iff. right. apply Z.leb_gt. lia.
Qed.

Lemma digit_not_sign d : is_digit d = true -> (d =? 45) = false /\ (d =? 43) = false.
Proof. rewrite is_digit_spec. intros. rewrite !Z.eqb_neq. lia. Qed.

(** [strtol] of a run of digits. *)
Lemma strtol10_digits ds r :
  all_digits ds -> (0 < length ds)%nat -> dec_value ds <= LONG_MAX ->
  0 <= dec_value ds ->
  match r with [] => True | c :: _ => is_digit c = false end ->
  strtol10 (ds ++ r) = StrtolResult (dec_value ds) (length ds) false.
Proof.
  intros Hd Hl Hmax Hpos Hr. unfold strtol10.
  destruct ds as [|d ds]; [simpl in Hl; lia|].
  pose proof Hd as Hd'. inversion Hd' as [|? ? Hd0 _]; subst.
  assert (take_while is_space ((d :: ds) ++ r) = []) as ->.
  { simpl. by rewrite (digit_not_space d Hd0). }
  destruct (digit_not_sign d Hd0) as [E1 E2].
  cbn [length drop app]. rewrite E1, E2. cbn [drop].
  change (d :: ds ++ r) with ((d :: ds) ++ r).
  rewrite (take_while_digits (d :: ds) r) by done.
  destruct (Z.ltb_spec LONG_MAX (dec_value (d :: ds))); [lia|].
  destruct (Z.ltb_spec (dec_value (d :: ds)) LONG_MIN); [unfold LONG_MIN in *; lia|].
  done.
Qed.

(** [strtol] reads back what [%d] prints. *)
Lemma strtol10_fmt_d n r :
  LONG_MIN <= n <= LONG_MAX ->
  match r with [] => True | c :: _ => is_digit c = false end ->
  strtol10 (fmt_d n ++ r) = StrtolResult n (length (fmt_d n)) false.
Proof.
  intros Hn Hr. unfold fmt_d. destruct (Z.ltb_spec n 0) as [Hs|Hs].
  - destruct (fmt_u_spec (- n)) as (H1 & H2 & H3 & _); [lia|].
    destruct (fmt_u (- n)) as [|d ds] eqn:E; [simpl in H2; lia|].
    unfold strtol10.
    assert (take_while is_space ((45 :: d :: ds) ++ r) = []) as -> by done.
    cbn [length drop app]. change (45 =? 45) with true. cbn [drop].
    change (d :: ds ++ r) with ((d :: ds) ++ r).
    rewrite (take_while_digits (d :: ds) r) by done. rewrite H3.
    replace (- - n) with n by lia.
    destruct (Z.ltb_spec LONG_MAX n); [lia|].
    destruct (Z.ltb_spec n LONG_MIN); [lia|]. done.
  - destruct (fmt_u_spec n) as (H1 & H2 & H3 & _); [lia|].
    rewrite strtol10_digits by (rewrite ?H3; done || lia). by rewrite H3.
Qed.

(** ** Lemmas: bytes of formatted output *)

Lemma all_digits_ok ds : all_digits ds -> bytes_ok ds.
Proof.
  intros H. eapply Forall_impl; [exact H|].
  intros d Hd. apply is_digit_spec in Hd. unfold byte_ok. lia.
Qed.

Lemma fmt_d_chars n : Forall (fun c => is_digit c = true \/ c = 45) (fmt_d n).
Proof.
  unfold fmt_d. destruct (Z.ltb_spec n 0).
  - constructor; [by right|]. destruct (fmt_u_spec (- n)) as [H1 _]; [lia|].
    eapply Forall_impl; [exact H1|]. by left.
  - destruct (fmt_u_spec n) as [H1 _]; [lia|].
    eapply Forall_impl; [exact H1|]. by left.
Qed.

Lemma fmt_u_no_nul n : 0 <= n -> no_nul (fmt_u n).
Proof.
  intros Hn. destruct (fmt_u_spec n Hn) as [Hd _]. eapply Forall_impl; [exact Hd|].
  intros c Hc. apply is_digit_spec in Hc. lia.
Qed.

Lemma fmt_d_no_nul n : no_nul (fmt_d n).
Proof.
  eapply Forall_impl; [apply fmt_d_chars|]. intros c [Hc| ->]; [|lia].
  apply is_digit_spec in Hc. lia.
Qed.

(** Texts without a NUL: literals, numbers and their concatenations. *)
Create HintDb nonul.
#[export] Hint Resolve no_nul_app fmt_u_no_nul fmt_d_no_nul cstr_no_nul : nonul.
#[export] Hint Extern 2 (no_nul (lit _)) => (apply no_nul_test; reflexivity) : nonul.
#[export] Hint Extern 3 (0 <= _) => lia : nonul.

(** ** Lemmas: lines *)

Lemma fgets_one_line n l rest :
  10 ∉ l -> (length l < n)%nat -> fgets_one n (l ++ 10 :: rest) = (l ++ [10], rest).
Proof.
  revert n. induction l as [|c l IH]; intros n Hl Hn; (destruct n as [|n]; [simpl in Hn; lia|]); cbn [app fgets_one].
  - done.
  - apply not_elem_of_cons in Hl as [Hc Hl]. rewrite (proj2 (Z.eqb_neq c 10)) by (intros ->; by apply Hc).
    simpl in Hn. by rewrite IH by (done || lia).
Qed.

Lemma fgets_one_length n l x r : fgets_one n l = (x, r) -> (length l = length x + length r)%nat.
Proof.
  revert l x r. induction n as [|n IH]; intros l x r; cbn [fgets_one]; [by intros [= <- <-]|].
  destruct l as [|c l]; [by intros [= <- <-]|]. destruct (c =? 10); [by intros [= <- <-]|].
  destruct (fgets_one n l) as [x' r'] eqn:E. intros [= <- <-]. apply IH in E. simpl. lia.
Qed.

Lemma fgets_one_progress n l x r : fgets_one (S n) l = (x, r) -> l <> [] -> (length r < length l)%nat.
Proof.
  cbn [fgets_one]. destruct l as [|c l]; [done|]. intros E _. destruct (c =? 10); [injection E as <- <-; simpl; lia|].
  destruct (fgets_one n l) as [x' r'] eqn:E'. injection E as <- <-. apply fgets_one_length in E'. simpl. lia.
Qed.

Lemma fgets_loop_enough size f f' l :
  (2 <= size)%nat -> (length l <= f)%nat -> (length l <= f')%nat -> fgets_loop f size l = fgets_loop f' size l.
Proof.
  intros Hs. revert f' l. induction f as [|f IH]; intros f' l Hf Hf'; destruct l as [|c l], f' as [|f']; simpl in Hf, Hf'; try done || lia.
  cbn [fgets_loop]. destruct (fgets_one (size - 1) (c :: l)) as [x r] eqn:E. f_equal.
  destruct size as [|[|n]]; [lia..|]. replace (S (S n) - 1)%nat with (S n) in E by lia.
  apply fgets_one_progress in E; [|done]. simpl in E. apply IH; lia.
Qed.

(** A line that fits the buffer is read whole. *)
Lemma fgets_lines_line size l rest :
  (2 <= size)%nat -> 10 ∉ l -> (length l + 1 < size)%nat ->
  fgets_lines size (l ++ 10 :: rest) = (l ++ [10]) :: fgets_lines size rest.
Proof.
  intros Hs Hl Hn. unfold fgets_lines. destruct (length (l ++ 10 :: rest)) as [|f] eqn:E.
  { rewrite length_app in E. simpl in E. lia. }
  cbn [fgets_loop]. destruct (l ++ 10 :: rest) as [|c t] eqn:Ec; [by destruct l|]. rewrite <- Ec in *.
  rewrite fgets_one_line by (done || lia). f_equal. rewrite length_app in E. simpl in E.
  apply fgets_loop_enough; lia.
Qed.
