(* ===== verification/Unicode.v ===== *)
(** * UTF-8 and JSON, as specifications

    Independent reference definitions: the UTF-8 encoding of a Unicode scalar
    value, the decoding of one character, the value of a JSON string body, and
    a parser for one line holding a flat JSON object.  The emitters of the
    tracers are proved against them. *)

From S2P Require Import Prelude CLib.

(** ** UTF-8 *)

Definition scalar (cp : Z) : Prop := 0 <= cp < 0xD800 \/ 0xDFFF < cp <= 0x10FFFF.

Definition utf8_encode (cp : Z) : bytes :=
  if cp <? 0x80 then [cp]
  else if cp <? 0x800 then [0xC0 + cp / 64; 0x80 + cp mod 64]
  else if cp <? 0x10000 then [0xE0 + cp / 4096; 0x80 + (cp / 64) mod 64; 0x80 + cp mod 64]
  else [0xF0 + cp / 262144; 0x80 + (cp / 4096) mod 64; 0x80 + (cp / 64) mod 64; 0x80 + cp mod 64].

Definition is_cont (b : Z) : bool := (0x80 <=? b) && (b <? 0xC0).

(** The character at the front: its code point and its length. *)
Definition utf8_next (s : bytes) : option (Z * nat) :=
  match s with
  | [] => None
  | c :: s1 =>
      if c <? 0x80 then Some (c, 1%nat)
      else match s1 with
      | [] => None
      | d :: s2 =>
          if (0xC0 <=? c) && (c <? 0xE0) then
            let cp := (c - 0xC0) * 64 + (d - 0x80) in
            if is_cont d && (0x80 <=? cp) then Some (cp, 2%nat) else None
          else match s2 with
          | [] => None
          | e :: s3 =>
              if (0xE0 <=? c) && (c <? 0xF0) then
                let cp := (c - 0xE0) * 4096 + (d - 0x80) * 64 + (e - 0x80) in
                if is_cont d && is_cont e && (0x800 <=? cp) &&
                   negb ((0xD800 <=? cp) && (cp <=? 0xDFFF))
                then Some (cp, 3%nat) else None
              else match s3 with
              | [] => None
              | f :: _ =>
                  if (0xF0 <=? c) && (c <? 0xF8) then
                    let cp := (c - 0xF0) * 262144 + (d - 0x80) * 4096 + (e - 0x80) * 64 + (f - 0x80) in
                    if is_cont d && is_cont e && is_cont f && (0x10000 <=? cp) && (cp <=? 0x10FFFF)
                    then Some (cp, 4%nat) else None
                  else None
              end
          end
      end
  end.

(** Decoding a whole byte string; [None] when it is not UTF-8. *)
Fixpoint utf8_decode_fuel (fuel : nat) (s : bytes) : option (list Z) :=
  match fuel, s with
  | _, [] => Some []
  | O, _ => None
  | S f, _ => '(cp, n) ← utf8_next s; cps ← utf8_decode_fuel f (drop n s); Some (cp :: cps)
  end.

Definition utf8_decode (s : bytes) : option (list Z) := utf8_decode_fuel (length s) s.

(** Decoding with every byte that starts no character read as Latin-1. *)
Fixpoint utf8_latin1_fuel (fuel : nat) (s : bytes) : list Z :=
  match fuel, s with
  | S f, c :: s' =>
      match utf8_next s with
      | Some (cp, n) => cp :: utf8_latin1_fuel f (drop n s)
      | None => c :: utf8_latin1_fuel f s'
      end
  | _, _ => []
  end.

Definition utf8_latin1 (s : bytes) : list Z := utf8_latin1_fuel (length s) s.

(** ** JSON strings *)

Definition hex_val (c : Z) : option Z :=
  if (48 <=? c) && (c <=? 57) then Some (c - 48)
  else if (97 <=? c) && (c <=? 102) then Some (c - 87)
  else if (65 <=? c) && (c <=? 70) then Some (c - 55)
  else None.

Definition simple_escape (e : Z) : option Z :=
  if e =? 34 then Some 34 else if e =? 92 then Some 92 else if e =? 47 then Some 47
  else if e =? 98 then Some 8 else if e =? 102 then Some 12 else if e =? 110 then Some 10
  else if e =? 114 then Some 13 else if e =? 116 then Some 9 else None.

(** The code points of a JSON string body (the text between the quotes);
    [None] when the body is not valid JSON.  Surrogate escapes are refused:
    the tracers never emit them. *)
Fixpoint json_body_fuel (fuel : nat) (s : bytes) : option (list Z) :=
  match fuel, s with
  | _, [] => Some []
  | O, _ => None
  | S f, c :: s1 =>
      if c =? 92 then
        match s1 with
        | e :: s2 =>
            if e =? 117 then
              match s2 with
              | h3 :: h2 :: h1 :: h0 :: s3 =>
                  a ← hex_val h3; b ← hex_val h2; x ← hex_val h1; d ← hex_val h0;
                  let cp := ((a * 16 + b) * 16 + x) * 16 + d in
                  if (0xD800 <=? cp) && (cp <=? 0xDFFF) then None
                  else cps ← json_body_fuel f s3; Some (cp :: cps)
              | _ => None
              end
            else cp ← simple_escape e; cps ← json_body_fuel f s2; Some (cp :: cps)
        | [] => None
        end
      else if (c =? 34) || (c <? 32) then None
      else '(cp, n) ← utf8_next s; cps ← json_body_fuel f (drop n s); Some (cp :: cps)
  end.

Definition json_body (s : bytes) : option (list Z) := json_body_fuel (length s) s.

(** ** One JSON object per line *)

Inductive jval :=
  | JStr (cps : list Z)
  | JNum (text : bytes)
  | JBool (b : bool)
  | JNull.

(** The body of a string whose opening quote is consumed, and what follows
    the closing quote. *)
Fixpoint split_string (s : bytes) : option (bytes * bytes) :=
  match s with
  | [] => None
  | c :: s1 =>
      if c =? 34 then Some ([], s1)
      else if c =? 92 then
        match s1 with
        | e :: s2 => '(b, r) ← split_string s2; Some (c :: e :: b, r)
        | [] => None
        end
      else '(b, r) ← split_string s1; Some (c :: b, r)
  end.

Definition num_char (c : Z) : bool := is_digit c || (c =? 45) || (c =? 46).

(** The number tokens the tracers emit: an optional sign, digits without a
    leading zero, and an optional fraction. *)
Definition int_text (t : bytes) : bool :=
  match t with
  | [] => false
  | c :: t' => forallb is_digit t && (negb (c =? 48) || bool_decide (t' = []))
  end.

Definition frac_text (t : bytes) : bool :=
  let i := take_while is_digit t in
  match drop (length i) t with
  | [] => int_text i
  | c :: f => int_text i && (c =? 46) && negb (bool_decide (f = [])) && forallb is_digit f
  end.

Definition num_text (t : bytes) : bool :=
  match t with
  | c :: t' => if c =? 45 then frac_text t' else frac_text t
  | [] => false
  end.

Definition parse_value (s : bytes) : option (jval * bytes) :=
  match s with
  | [] => None
  | c :: s1 =>
      if c =? 34 then
        '(b, r) ← split_string s1; cps ← json_body b; Some (JStr cps, r)
      else if num_char c then
        let t := take_while num_char s in
        if num_text t then Some (JNum t, drop (length t) s) else None
      else if bool_decide (take 4 s = lit "true") then Some (JBool true, drop 4 s)
      else if bool_decide (take 5 s = lit "false") then Some (JBool false, drop 5 s)
      else if bool_decide (take 4 s = lit "null") then Some (JNull, drop 4 s)
      else None
  end.

(** ["key":value], then [,] and more members or [}] and the end of line. *)
Fixpoint parse_members (fuel : nat) (s : bytes) : option (list (list Z * jval)) :=
  match fuel, s with
  | S f, 34 :: s1 =>
      '(k, r) ← split_string s1; key ← json_body k;
      match r with
      | 58 :: r1 =>
          '(v, r2) ← parse_value r1;
          match r2 with
          | 44 :: r3 => ms ← parse_members f r3; Some ((key, v) :: ms)
          | [125; 10] => Some [(key, v)]
          | _ => None
          end
      | _ => None
      end
  | _, _ => None
  end.

(** A line [{"k":v,...}\n] with at least one member. *)
Definition parse_line (s : bytes) : option (list (list Z * jval)) :=
  match s with
  | 123 :: s1 => parse_members (length s1) s1
  | _ => None
  end.

(** The text of an object line from the texts of its members. *)
Fixpoint render_members (ms : list (bytes * bytes)) : bytes :=
  match ms with
  | [] => []
  | [(k, v)] => [34] ++ k ++ [34; 58] ++ v
  | (k, v) :: ms' => [34] ++ k ++ [34; 58] ++ v ++ [44] ++ render_members ms'
  end.

Definition render_line (ms : list (bytes * bytes)) : bytes :=
  [123] ++ render_members ms ++ [125; 10].

Definition quoted (body : bytes) : bytes := [34] ++ body ++ [34].

Example parse_line_ex :
  parse_line (jlit "{'a':-12,'b':'x\n','c':null,'d':0.250}" ++ [10]) =
  Some [(lit "a", JNum (lit "-12")); (lit "b", JStr [120; 10]); (lit "c", JNull);
        (lit "d", JNum (lit "0.250"))].
Proof. vm_compute. reflexivity. Qed.

(** ** Lemmas: UTF-8 *)

Lemma is_cont_spec b : is_cont b = true <-> 0x80 <= b < 0xC0.
Proof. unfold is_cont. rewrite andb_true_iff, Z.leb_le, Z.ltb_lt. lia. Qed.

Lemma utf8_next_ascii c s : c < 0x80 -> utf8_next (c :: s) = Some (c, 1%nat).
Proof. intros H. unfold utf8_next. by rewrite (proj2 (Z.ltb_lt _ _) H). Qed.

(** A character takes between one and four bytes of the string; those after
    the first are continuation bytes, and a multi-byte character starts with
    a byte from 0xC0 up. *)
Lemma utf8_next_inv s cp n :
  utf8_next s = Some (cp, n) ->
  exists c cs r, s = (c :: cs) ++ r /\ n = S (length cs) /\ (length cs <= 3)%nat /\
    Forall (fun b => is_cont b = true) cs /\
    ((c < 0x80 /\ cs = [] /\ cp = c) \/ (0xC0 <= c < 0xF8 /\ cs <> [] /\ scalar cp /\ 0x80 <= cp)).
Proof.
  unfold utf8_next, scalar. destruct s as [|c [|d [|e [|f s]]]]; intros H;
    repeat case_match; simplify_eq; bool_to_prop;
    [eexists _, [], _|eexists _, [], _|eexists _, [_], _|eexists _, [], _
    |eexists _, [_], _|eexists _, [_; _], _|eexists _, [], _|eexists _, [_], _
    |eexists _, [_; _], _|eexists _, [_; _; _], _];
    (split; [reflexivity|]); (split; [reflexivity|]); (split; [simpl; lia|]);
    (split; [auto|]); (try (left; split; [done|split; done]));
    right; rewrite ?negb_true_iff, ?andb_false_iff, ?Z.leb_gt in *;
    (split; [lia|split; [done|]]); repeat match goal with H : is_cont _ = true |- _ => apply is_cont_spec in H end;
    lia.
Qed.

Lemma utf8_next_length s cp n :
  utf8_next s = Some (cp, n) -> (1 <= n <= length s)%nat.
Proof.
  intros H. apply utf8_next_inv in H as (c & cs & r & -> & -> & _).
  rewrite length_app. simpl. lia.
Qed.

(** What follows a character does not matter. *)
Lemma utf8_next_app s r cp n :
  utf8_next s = Some (cp, n) -> utf8_next (s ++ r) = Some (cp, n).
Proof.
  unfold utf8_next. destruct s as [|c [|d [|e [|f s]]]]; simpl; intros H;
    repeat case_match; simplify_eq; done.
Qed.

Lemma utf8_next_take s cp n :
  utf8_next s = Some (cp, n) -> utf8_next (take n s) = Some (cp, n).
Proof.
  intros H. pose proof H as Hi.
  apply utf8_next_inv in Hi as (c & cs & r & -> & -> & Hl & _).
  rewrite take_app_length' by done. revert H. unfold utf8_next.
  destruct cs as [|d [|e [|f [|g cs]]]]; cbn [app]; [..|simpl in Hl; lia];
    destruct r as [|r1 [|r2 [|r3 r]]]; intros H; repeat case_match; simplify_eq; done.
Qed.

(** ** Lemmas: JSON string bodies *)

Lemma json_body_fuel_more f s x :
  json_body_fuel f s = Some x -> forall f', (length s <= f')%nat -> json_body_fuel f' s = Some x.
Proof.
  revert s x. induction f as [|f IH]; intros s x H f' Hf'.
  - destruct s; [|done]. by destruct f'.
  - destruct s as [|c s1]; [by destruct f'|]. destruct f' as [|f']; [simpl in Hf'; lia|].
    cbn [json_body_fuel] in *. cbn [length] in Hf'.
    destruct (c =? 92).
    + destruct s1 as [|e s2]; [done|]. destruct (e =? 117).
      * destruct s2 as [|h3 [|h2 [|h1 [|h0 s3]]]]; try done.
        cbn [length] in Hf'.
        destruct (hex_val h3); [|done]. destruct (hex_val h2); [|done].
        destruct (hex_val h1); [|done]. destruct (hex_val h0); [|done].
        cbn [mbind option_bind] in *. destruct (_ && _); [done|].
        destruct (json_body_fuel f s3) as [y|] eqn:E; [|done].
        by rewrite (IH _ _ E) by lia.
      * destruct (simple_escape e); [|done]. cbn [mbind option_bind] in *. cbn [length] in Hf'.
        destruct (json_body_fuel f s2) as [y|] eqn:E; [|done].
        by rewrite (IH _ _ E) by lia.
    + destruct (_ || _); [done|].
      destruct (utf8_next (c :: s1)) as [[cp n]|] eqn:Eu; [|done].
      cbn [mbind option_bind] in *.
      destruct (json_body_fuel f (drop n (c :: s1))) as [y|] eqn:E; [|done].
      apply utf8_next_length in Eu.
      rewrite (IH _ _ E); [done|]. rewrite length_drop. simpl in *. lia.
Qed.

Lemma json_body_eq f s x :
  json_body_fuel f s = Some x -> json_body s = Some x.
Proof. intros H. unfold json_body. eapply json_body_fuel_more; [exact H|lia]. Qed.

Lemma json_body_app a b x y :
  json_body a = Some x -> json_body b = Some y -> json_body (a ++ b) = Some (x ++ y).
Proof.
  intros Ha Hb. apply (json_body_eq (length a + length b)).
  unfold json_body in Ha. revert Ha. generalize (length a) as f. intros f.
  revert a x. induction f as [|f IH]; intros a x Ha.
  - destruct a; [|done]. simplify_eq/=. exact Hb.
  - destruct a as [|c s1].
    { assert (x = []) as -> by by inversion Ha.
      cbn [app]. eapply json_body_fuel_more; [exact Hb|]. lia. }
    cbn [json_body_fuel app Nat.add] in *. destruct (c =? 92).
    + destruct s1 as [|e s2]; [done|]. cbn [app]. destruct (e =? 117).
      * destruct s2 as [|h3 [|h2 [|h1 [|h0 s3]]]]; try done. cbn [app].
        destruct (hex_val h3); [|done]. destruct (hex_val h2); [|done].
        destruct (hex_val h1); [|done]. destruct (hex_val h0); [|done].
        cbn [mbind option_bind] in *. destruct (_ && _); [done|].
        destruct (json_body_fuel f s3) as [zs|] eqn:E; [|done]. simplify_eq/=.
        by rewrite (IH _ _ E).
      * destruct (simple_escape e); [|done]. cbn [mbind option_bind] in *.
        destruct (json_body_fuel f s2) as [zs|] eqn:E; [|done]. simplify_eq/=.
        by rewrite (IH _ _ E).
    + destruct (_ || _); [done|].
      destruct (utf8_next (c :: s1)) as [[cp n]|] eqn:Eu; [|done].
      pose proof (utf8_next_app _ b _ _ Eu) as Eu'. cbn [app] in Eu'. rewrite Eu'.
      cbn [mbind option_bind] in *.
      apply utf8_next_length in Eu.
      destruct (json_body_fuel f (drop n (c :: s1))) as [zs|] eqn:E; [|done].
      cbn [mbind option_bind] in Ha. injection Ha as <-.
      change (c :: s1 ++ b) with ((c :: s1) ++ b).
      rewrite drop_app_le by lia. by rewrite (IH _ _ E).
Qed.

Lemma json_body_nil : json_body [] = Some [].
Proof. reflexivity. Qed.

Lemma json_body_concat (l : list bytes) (xs : list (list Z)) :
  Forall2 (fun a x => json_body a = Some x) l xs -> json_body (concat l) = Some (concat xs).
Proof. induction 1; simpl; [done|]. by apply json_body_app. Qed.

(** The end of a valid body is found where the closing quote is. *)
Lemma split_string_cont cs s :
  Forall (fun b => is_cont b = true) cs ->
  split_string (cs ++ s) = '(b, r) ← split_string s; Some (cs ++ b, r).
Proof.
  induction 1 as [|c cs Hc _ IH]; [cbn [app]; by destruct (split_string s) as [[??]|]|].
  apply is_cont_spec in Hc. cbn [app split_string].
  do 2 (rewrite (proj2 (Z.eqb_neq c _)) by lia). rewrite IH.
  by destruct (split_string s) as [[??]|].
Qed.

Lemma hex_val_plain h d : hex_val h = Some d -> (h =? 34) = false /\ (h =? 92) = false.
Proof.
  unfold hex_val. rewrite !Z.eqb_neq. repeat case_match; intros; bool_to_prop; try done; lia.
Qed.

Lemma split_string_body b x r :
  json_body b = Some x -> split_string (b ++ 34 :: r) = Some (b, r).
Proof.
  unfold json_body. generalize (length b) as f. intros f. revert b x.
  induction f as [|f IH]; intros b x H; [by destruct b|].
  destruct b as [|c s1]; [done|]. cbn [json_body_fuel] in H.
  destruct (c =? 92) eqn:E92.
  - apply Z.eqb_eq in E92 as ->. destruct s1 as [|e s2]; [done|].
    cbn [app split_string]. change (92 =? 34) with false. change (92 =? 92) with true. cbn match.
    destruct (e =? 117).
    + destruct s2 as [|h3 [|h2 [|h1 [|h0 s3]]]]; try done.
      destruct (hex_val h3) eqn:E3; [|done]. destruct (hex_val h2) eqn:E2; [|done].
      destruct (hex_val h1) eqn:E1; [|done]. destruct (hex_val h0) eqn:E0; [|done].
      cbn [mbind option_bind] in H. destruct (_ && _); [done|].
      destruct (json_body_fuel f s3) as [zs|] eqn:E; [|done].
      cbn [app split_string].
      destruct (hex_val_plain _ _ E3) as [-> ->], (hex_val_plain _ _ E2) as [-> ->],
        (hex_val_plain _ _ E1) as [-> ->], (hex_val_plain _ _ E0) as [-> ->].
      by rewrite (IH _ _ E).
    + destruct (simple_escape e); [|done]. cbn [mbind option_bind] in H.
      destruct (json_body_fuel f s2) as [zs|] eqn:E; [|done]. by rewrite (IH _ _ E).
  - destruct (_ || _) eqn:Eq; [done|]. bool_to_prop.
    destruct (utf8_next (c :: s1)) as [[cp n]|] eqn:Eu; [|done].
    cbn [mbind option_bind] in H.
    destruct (json_body_fuel f (drop n (c :: s1))) as [zs|] eqn:E; [|done].
    apply utf8_next_inv in Eu as (c' & cs & t & Hs & -> & _ & Hcs & _).
    simplify_eq/=. rewrite drop_app_length in E.
    rewrite <- app_assoc, (proj2 (Z.eqb_neq c' 34)), (proj2 (Z.eqb_neq c' 92)) by done.
    rewrite split_string_cont by done. by rewrite (IH _ _ E).
Qed.

(** ** Lemmas: object lines *)

(** [value_text t v]: the text [t] of a member's value is the JSON value [v]. *)
Inductive value_text : bytes -> jval -> Prop :=
  | vt_str b cps : json_body b = Some cps -> value_text (quoted b) (JStr cps)
  | vt_num t : num_text t = true -> Forall (fun c => num_char c = true) t -> value_text t (JNum t)
  | vt_true : value_text (lit "true") (JBool true)
  | vt_false : value_text (lit "false") (JBool false)
  | vt_null : value_text (lit "null") JNull.

Definition member_text (m : bytes * bytes) (o : list Z * jval) : Prop :=
  json_body (fst m) = Some (fst o) /\ value_text (snd m) (snd o).

Lemma parse_value_text t v r :
  value_text t v -> match r with [] => True | c :: _ => num_char c = false end ->
  parse_value (t ++ r) = Some (v, r).
Proof.
  intros Ht Hr. destruct Ht as [b cps Hb|t Hn Hc| | |]; [| |reflexivity..].
  - unfold quoted. cbn [app]. rewrite <- app_assoc. cbn [app parse_value].
    change (34 =? 34) with true. cbn match.
    by rewrite (split_string_body _ _ _ Hb); cbn [mbind option_bind]; rewrite Hb.
  - destruct t as [|c t]; [done|]. cbn [app parse_value]. inversion_clear Hc as [|? ? Hc0 Hct].
    rewrite (proj2 (Z.eqb_neq c 34)).
    2:{ intros ->. vm_compute in Hc0. done. }
    rewrite Hc0. change (c :: t ++ r) with ((c :: t) ++ r).
    rewrite (take_while_app num_char (c :: t) r) by (by try constructor).
    by rewrite Hn, drop_app_length.
Qed.

Lemma parse_members_render ms out f :
  ms <> [] -> Forall2 member_text ms out -> (length ms <= f)%nat ->
  parse_members f (render_members ms ++ [125; 10]) = Some out.
Proof.
  intros Hne Hms. revert f Hne. induction Hms as [|[k v] [key val] ms out [Hk Hv] Hms IH];
    intros f Hne Hf; [done|]. cbn [fst snd] in *.
  destruct f as [|f]; [simpl in Hf; lia|]. simpl in Hf.
  assert (exists tl, render_members ((k, v) :: ms) ++ [125; 10] =
    34 :: k ++ 34 :: 58 :: v ++ tl /\
    ((ms = [] /\ tl = [125; 10]) \/ (ms <> [] /\ tl = 44 :: render_members ms ++ [125; 10])))
    as (tl & -> & Htl).
  { destruct ms as [|m ms]; [exists [125; 10]|eexists]; cbn [render_members app];
      rewrite <- !app_assoc; cbn [app]; rewrite <- ?app_assoc; eauto. }
  cbn [parse_members]. rewrite (split_string_body _ _ _ Hk). cbn [mbind option_bind].
  rewrite Hk. cbn [mbind option_bind].
  destruct Htl as [[-> ->]|[Hms' ->]]; rewrite (parse_value_text _ _ _ Hv) by done;
    cbn [mbind option_bind].
  - by inversion_clear Hms.
  - by rewrite IH by (done || lia).
Qed.

Lemma render_members_length (ms : list (bytes * bytes)) : (length ms <= length (render_members ms))%nat.
Proof.
  induction ms as [|[k v] l IH]; [done|]. cbn [render_members].
  destruct l; cbn [app length] in *; rewrite ?length_app; cbn [length]; rewrite ?length_app; cbn [length] in *;
    rewrite ?length_app in *; cbn [length] in *; lia.
Qed.

(** A line built from members that are valid texts parses to their values. *)
Lemma parse_line_render ms out :
  ms <> [] -> Forall2 member_text ms out -> parse_line (render_line ms) = Some out.
Proof.
  intros Hne Hms. unfold render_line. cbn [app parse_line]. apply parse_members_render; [done|done|].
  rewrite length_app. pose proof (render_members_length ms). lia.
Qed.

(** ** Lemmas: number texts *)

Lemma all_digits_forallb t : all_digits t -> forallb is_digit t = true.
Proof. intros H. apply forallb_forall. intros d Hd. by eapply (proj1 (Forall_forall _ _) H), list_elem_of_In. Qed.

Lemma dec_value_ge t : all_digits t -> forall a, 0 <= a -> a <= foldl (fun a d => a * 10 + (d - 48)) a t.
Proof.
  induction 1 as [|d t Hd _ IH]; intros a Ha; simpl; [lia|].
  apply is_digit_spec in Hd. specialize (IH (a * 10 + (d - 48)) ltac:(lia)). lia.
Qed.

Lemma fmt_u_int n : 0 <= n -> int_text (fmt_u n) = true.
Proof.
  intros Hn. destruct (Z.eq_dec n 0) as [->|H0]; [reflexivity|].
  destruct (fmt_u_spec n Hn) as (H1 & H2 & H3 & H4).
  destruct (fmt_u n) as [|d ds] eqn:E; [simpl in H2; lia|]. unfold int_text.
  apply andb_true_iff. split; [by apply all_digits_forallb|].
  apply orb_true_iff. left. apply negb_true_iff, Z.eqb_neq. intros ->. by apply H4; [lia|].
Qed.

Lemma digit_num_char d : is_digit d = true -> num_char d = true.
Proof. unfold num_char. by intros ->. Qed.

Lemma fmt_u_frac n : 0 <= n -> frac_text (fmt_u n) = true.
Proof.
  intros Hn. destruct (fmt_u_spec n Hn) as (H1 & _).
  assert (take_while is_digit (fmt_u n) = fmt_u n) as E.
  { rewrite <- (app_nil_r (fmt_u n)) at 1. by apply take_while_digits. }
  unfold frac_text. rewrite E, drop_all. by apply fmt_u_int.
Qed.

Lemma fmt_u_num n : 0 <= n -> num_text (fmt_u n) = true.
Proof.
  intros Hn. pose proof (fmt_u_frac n Hn) as Hf. destruct (fmt_u_spec n Hn) as (H1 & H2 & _).
  destruct (fmt_u n) as [|d ds] eqn:E; [simpl in H2; lia|]. unfold num_text.
  inversion_clear H1 as [|? ? Hd _]. by destruct (digit_not_sign d Hd) as [-> _].
Qed.

Lemma fmt_d_num n : num_text (fmt_d n) = true.
Proof.
  unfold fmt_d. destruct (Z.ltb_spec n 0); [|by apply fmt_u_num].
  cbn [num_text]. change (45 =? 45) with true. cbn match. apply fmt_u_frac. lia.
Qed.

(** The integer texts of [%u] and [%d] are JSON numbers. *)
Lemma fmt_u_value n : 0 <= n -> value_text (fmt_u n) (JNum (fmt_u n)).
Proof.
  intros Hn. constructor; [by apply fmt_u_num|].
  destruct (fmt_u_spec n Hn) as [H1 _].
  eapply Forall_impl; [exact H1|]. intros d Hd. by apply digit_num_char.
Qed.

Lemma fmt_d_value n : value_text (fmt_d n) (JNum (fmt_d n)).
Proof.
  constructor; [by apply fmt_d_num|]. eapply Forall_impl; [apply fmt_d_chars|].
  intros c [Hc| ->]; [by apply digit_num_char|done].
Qed.

Lemma vt_bool (b : bool) : value_text (if b then lit "true" else lit "false") (JBool b).
Proof. destruct b; constructor. Qed.

Create HintDb json.
#[export] Hint Constructors value_text : json.
#[export] Hint Resolve fmt_u_value fmt_d_value vt_bool : json.

(** [utf8_next] reads back exactly the encodings of scalar values. *)
Lemma utf8_next_encode cp r :
  0 <= cp -> scalar cp -> utf8_next (utf8_encode cp ++ r) = Some (cp, length (utf8_encode cp)).
Proof.
  intros H0 Hs. unfold utf8_encode, utf8_next, is_cont, scalar in *.
  pose proof (Z.mod_pos_bound cp 64). pose proof (Z.mod_pos_bound (cp / 64) 64).
  pose proof (Z.mod_pos_bound (cp / 4096) 64).
  assert (cp = cp / 64 * 64 + cp mod 64) by lia_mod.
  assert (cp / 64 = cp / 4096 * 64 + (cp / 64) mod 64) by lia_mod.
  assert (cp / 4096 = cp / 262144 * 64 + (cp / 4096) mod 64) by lia_mod.
  assert (0 <= cp / 64 /\ 0 <= cp / 4096 /\ 0 <= cp / 262144) by (split_and!; apply Z.div_pos; lia).
  destruct (Z.ltb_spec cp 0x80); [cbn [app]; by decide_tests|].
  destruct (Z.ltb_spec cp 0x800); [|destruct (Z.ltb_spec cp 0x10000)];
    cbn [app length]; decide_tests; cbn [andb negb];
    repeat case_match; bool_to_prop; (lia || (do 2 f_equal; lia) || idtac).
  all: repeat match goal with H : _ && _ = false |- _ => apply andb_false_iff in H end; naive_solver lia.
Qed.


(** Base-64 digits of a sum of payloads. *)
Lemma digit64 q r : 0 <= r < 64 -> (q * 64 + r) / 64 = q /\ (q * 64 + r) mod 64 = r.
Proof. intros. split; lia_mod. Qed.

Lemma utf8_next_sound s cp n :
  bytes_ok s -> utf8_next s = Some (cp, n) ->
  0 <= cp /\ scalar cp /\ take n s = utf8_encode cp /\ n = length (utf8_encode cp).
Proof.
  intros Hok Hu. apply utf8_next_inv in Hu as Hi.
  destruct Hi as (c & cs & r & -> & -> & Hl & Hcs & Hc).
  rewrite take_app_length' by done. apply bytes_ok_app in Hok as [Hok _].
  apply bytes_ok_cons in Hok as [[Hc0 Hc1] _].
  destruct Hc as [(Hc & -> & ->)|(Hc & Hne & Hs & Hcp)].
  { unfold utf8_encode, scalar. decide_tests. split_and!; (lia || done). }
  split; [lia|]. split; [done|]. revert Hu. unfold utf8_next, utf8_encode.
  destruct cs as [|d cs]; [done|]. cbn [app]. rewrite (proj2 (Z.ltb_ge c 0x80)) by lia.
  apply Forall_cons in Hcs as [Hd Hcs]. rewrite Hd. apply is_cont_spec in Hd.
  destruct cs as [|e cs].
  { destruct (_ && (c <? 0xE0)) eqn:E1; [|intros Hu; repeat case_match; simplify_eq].
    bool_to_prop. intros Hu. repeat case_match; simplify_eq; bool_to_prop; try lia.
    destruct (digit64 (c - 0xC0) (d - 0x80)) as [-> ->]; [lia|]. split; [do 2 f_equal; lia|done]. }
  cbn [app]. apply Forall_cons in Hcs as [He Hcs]. rewrite He. apply is_cont_spec in He.
  destruct cs as [|f cs].
  { destruct (_ && (c <? 0xE0)) eqn:E1; [intros Hu; repeat case_match; simplify_eq|].
    destruct (_ && (c <? 0xF0)) eqn:E2; [|intros Hu; repeat case_match; simplify_eq].
    bool_to_prop. intros Hu. repeat case_match; simplify_eq; bool_to_prop; try lia.
    set (q := (c - 0xE0) * 64 + (d - 0x80)) in *.
    replace ((c - 0xE0) * 4096 + (d - 0x80) * 64 + (e - 0x80)) with (q * 64 + (e - 0x80)) by lia.
    change 4096 with (64 * 64) at 1. rewrite <- Z.div_div by lia.
    destruct (digit64 q (e - 0x80)) as [-> ->]; [lia|]. unfold q.
    destruct (digit64 (c - 0xE0) (d - 0x80)) as [-> ->]; [lia|].
    split; [repeat f_equal; lia|done]. }
  cbn [app]. apply Forall_cons in Hcs as [Hf Hcs]. rewrite Hf. apply is_cont_spec in Hf.
  destruct cs; [|simpl in Hl; lia].
  destruct (_ && (c <? 0xE0)) eqn:E1; [intros Hu; repeat case_match; simplify_eq|].
  destruct (_ && (c <? 0xF0)) eqn:E2; [intros Hu; repeat case_match; simplify_eq|].
  destruct (_ && (c <? 0xF8)) eqn:E3; [|done].
  bool_to_prop. intros Hu. repeat case_match; simplify_eq; bool_to_prop; try lia.
  set (p := (c - 0xF0) * 64 + (d - 0x80)) in *. set (q := p * 64 + (e - 0x80)) in *.
  replace ((c - 0xF0) * 262144 + (d - 0x80) * 4096 + (e - 0x80) * 64 + (f - 0x80))
    with (q * 64 + (f - 0x80)) by lia.
  change 262144 with (64 * 64 * 64). change 4096 with (64 * 64). rewrite <- !Z.div_div by lia.
  destruct (digit64 q (f - 0x80)) as [-> ->]; [lia|]. unfold q.
  destruct (digit64 p (e - 0x80)) as [-> ->]; [lia|]. unfold p.
  destruct (digit64 (c - 0xF0) (d - 0x80)) as [-> ->]; [lia|].
  split; [repeat f_equal; lia|done].
Qed.

(** The members after the first of a line, each after a comma: what an emitter
    appends. *)
Definition members_tail (ms : list (bytes * bytes)) : bytes :=
  concat (map (fun m => [44; 34] ++ m.1 ++ [34; 58] ++ m.2) ms).

(** A line is its first member followed by the others, each after a comma. *)
Lemma render_members_cons k v ms :
  render_members ((k, v) :: ms) = [34] ++ k ++ [34; 58] ++ v ++ members_tail ms.
Proof.
  unfold members_tail. revert k v. induction ms as [|[k' v'] ms IH]; intros k v; [cbn; by rewrite app_nil_r|].
  change (render_members ((k, v) :: (k', v') :: ms)) with ([34] ++ k ++ [34; 58] ++ v ++ [44] ++ render_members ((k', v') :: ms)).
  rewrite IH. cbn [map concat fst snd app]. by rewrite <- !app_assoc.
Qed.

Lemma members_tail_app l1 l2 : members_tail (l1 ++ l2) = members_tail l1 ++ members_tail l2.
Proof. unfold members_tail. by rewrite map_app, concat_app. Qed.

(** Members whose texts are valid. *)
Definition members_ok (ms : list (bytes * bytes)) : Prop := exists vals, Forall2 member_text ms vals.

Lemma members_ok_nil : members_ok [].
Proof. by exists []. Qed.

Lemma members_ok_cons k v key val ms :
  json_body k = Some key -> value_text v val -> members_ok ms -> members_ok ((k, v) :: ms).
Proof. intros Hk Hv [vals Hms]. exists ((key, val) :: vals). by constructor. Qed.

(** A member whose key is a plain literal. *)
Lemma members_ok_lit k v val ms :
  json_body k = Some k -> value_text v val -> members_ok ms -> members_ok ((k, v) :: ms).
Proof. apply members_ok_cons. Qed.

Lemma members_ok_app l1 l2 : members_ok l1 -> members_ok l2 -> members_ok (l1 ++ l2).
Proof. intros [v1 H1] [v2 H2]. exists (v1 ++ v2). by apply Forall2_app. Qed.

(** A text is a JSON line when it is one object of valid members. *)
Definition json_line (out : bytes) : Prop := exists m ms, out = render_line (m :: ms) /\ members_ok (m :: ms).

Lemma json_line_parses out : json_line out -> is_Some (parse_line out).
Proof.
  intros (m & ms & -> & vals & H). exists vals. by apply parse_line_render.
Qed.

(** A line built from members and a tail of members. *)
Lemma line_tail_render k v ms tail :
  lit "{" ++ [34] ++ k ++ [34; 58] ++ v ++ members_tail ms ++ members_tail tail ++ lit "}" ++ [10] = render_line (((k, v) :: ms) ++ tail).
Proof.
  unfold render_line. cbn [app]. rewrite render_members_cons, members_tail_app.
  repeat (rewrite <- ?app_assoc; cbn [app]). done.
Qed.

Lemma json_line_tail k v ms tail :
  members_ok ((k, v) :: ms) -> members_ok tail ->
  json_line (lit "{" ++ [34] ++ k ++ [34; 58] ++ v ++ members_tail ms ++ members_tail tail ++ lit "}" ++ [10]).
Proof.
  intros Hms Ht. exists (k, v), (ms ++ tail). split; [apply line_tail_render|by apply (members_ok_app ((k, v) :: ms))].
Qed.

Lemma ascii_test s : forallb (fun c => (32 <=? c) && (c <? 128) && negb (c =? 34) && negb (c =? 92)) s = true ->
  Forall (fun c => 32 <= c < 128 /\ c <> 34 /\ c <> 92) s.
Proof.
  intros H. apply Forall_forall. intros c Hc. apply list_elem_of_In in Hc. apply (proj1 (forallb_forall _ _) H) in Hc. bool_to_prop. lia.
Qed.

(** Printable ASCII other than the quote and the backslash is its own text. *)
Lemma ascii_body s : Forall (fun c => 32 <= c < 128 /\ c <> 34 /\ c <> 92) s -> json_body s = Some s.
Proof.
  induction 1 as [|c s (H1 & H2 & H3) _ IH]; [done|]. apply (json_body_app [c] s [c] s); [|done].
  unfold json_body. cbn [length json_body_fuel]. decide_tests. cbn [orb]. rewrite utf8_next_ascii by lia. reflexivity.
Qed.

Lemma digits_body s : all_digits s -> json_body s = Some s.
Proof.
  intros Hs. apply ascii_body. eapply Forall_impl; [exact Hs|]. intros c Hc. apply is_digit_spec in Hc. lia.
Qed.

(** The next member of a line: its key is a literal, its value one of the
    known texts. *)
Ltac jmember := eapply members_ok_lit; [reflexivity| |].
