(* ===== verification/ProcessFilter.v ===== *)
(** * Userspace PID tracking (src/bpf/process_filter.h)

    The open-addressing table of tracked PIDs with its linear probing, the
    delete that re-inserts the rest of the cluster, and the decisions built on
    it: which processes to track and which of their events to report. *)

From S2P Require Import Prelude CLib.

(** ** Data *)

Definition TRACKED_PIDS_HASH_SIZE : Z := 4096.
Definition TRACKED_PIDS_HASH_MASK : Z := TRACKED_PIDS_HASH_SIZE - 1.

Inductive filter_mode := FILTER_MODE_ALL | FILTER_MODE_PROC | FILTER_MODE_FILTER.

#[export] Instance filter_mode_eq_dec : EqDecision filter_mode.
Proof. solve_decision. Defined.

Record tracked_pid_entry := TrackedPidEntry {
  te_pid : Z;
  te_ppid : Z;
  is_tracked : bool;
  is_active : bool;  (* false = empty slot *)
}.

#[export] Instance tracked_pid_entry_eq_dec : EqDecision tracked_pid_entry.
Proof. solve_decision. Defined.

(** The all-zero entry of [memset]. *)
Definition zero_entry : tracked_pid_entry := TrackedPidEntry 0 0 false false.

Record pid_tracker := PidTracker {
  entries : list tracked_pid_entry;
  command_filters : list bytes;
  command_filter_count : Z;
  tr_filter_mode : filter_mode;
  target_pid : Z;
}.

Definition set_entries (t : pid_tracker) (es : list tracked_pid_entry) : pid_tracker :=
  PidTracker es (command_filters t) (command_filter_count t) (tr_filter_mode t) (target_pid t).

(** ** Operations *)

Definition pid_hash (pid : Z) : Z := Z.land (u32 pid) TRACKED_PIDS_HASH_MASK.

Definition pid_tracker_init (command_filters : list bytes) (command_filter_count : Z)
    (mode : filter_mode) (target_pid : Z) : pid_tracker :=
  PidTracker (replicate (Z.to_nat TRACKED_PIDS_HASH_SIZE) zero_entry)
    command_filters command_filter_count mode target_pid.

(** The slot the [i]-th probe from [hash] visits. *)
Definition probe_index (hash : Z) (i : Z) : nat :=
  Z.to_nat (Z.land (hash + i) TRACKED_PIDS_HASH_MASK).

(** The linear-probing loop of [pid_tracker_find], [fuel] iterations from [i];
    the result is the index of the entry the C code points to. *)
Fixpoint find_loop (es : list tracked_pid_entry) (hash pid i : Z) (fuel : nat) : option nat :=
  match fuel with
  | O => None  (* Table full or not found *)
  | S fuel' =>
      let idx := probe_index hash i in
      match es !! idx with
      | None => None
      | Some entry =>
          if negb (is_active entry) then None  (* Empty slot, not found *)
          else if te_pid entry =? pid then Some idx
          else find_loop es hash pid (i + 1) fuel'
      end
  end.

Definition find_entry (es : list tracked_pid_entry) (pid : Z) : option nat :=
  find_loop es (pid_hash pid) pid 0 (Z.to_nat TRACKED_PIDS_HASH_SIZE).

Definition pid_tracker_find (t : pid_tracker) (pid : Z) : option nat := find_entry (entries t) pid.

(** The second loop of [pid_tracker_add]: fill the first empty slot. *)
Fixpoint add_loop (es : list tracked_pid_entry) (hash pid ppid i : Z) (fuel : nat)
    : list tracked_pid_entry * bool :=
  match fuel with
  | O => (es, false)  (* Table full *)
  | S fuel' =>
      let idx := probe_index hash i in
      match es !! idx with
      | None => (es, false)
      | Some entry =>
          if negb (is_active entry) then (<[idx := TrackedPidEntry pid ppid true true]> es, true)
          else add_loop es hash pid ppid (i + 1) fuel'
      end
  end.

Definition add_entry (es : list tracked_pid_entry) (pid ppid : Z) : list tracked_pid_entry * bool :=
  match find_entry es pid with
  | Some _ => (es, true)  (* Already tracked *)
  | None => add_loop es (pid_hash pid) pid ppid 0 (Z.to_nat TRACKED_PIDS_HASH_SIZE)
  end.

Definition pid_tracker_add (t : pid_tracker) (pid ppid : Z) : pid_tracker * bool :=
  let '(es, ok) := add_entry (entries t) pid ppid in (set_entries t es, ok).

Definition deactivate (es : list tracked_pid_entry) (i : nat) : list tracked_pid_entry :=
  match es !! i with
  | Some e => <[i := TrackedPidEntry (te_pid e) (te_ppid e) (is_tracked e) false]> es
  | None => es
  end.

(** The inner loop of [pid_tracker_remove]: re-insert the rest of the
    cluster, stopping at the first empty slot. *)
Fixpoint rehash_loop (es : list tracked_pid_entry) (idx n : Z) (fuel : nat)
    : list tracked_pid_entry :=
  match fuel with
  | O => es
  | S fuel' =>
      let j := probe_index idx n in
      match es !! j with
      | None => es
      | Some moved =>
          if negb (is_active moved) then es
          else
            let es1 := deactivate es j in
            let es2 := if is_tracked moved
                       then fst (add_entry es1 (te_pid moved) (te_ppid moved)) else es1 in
            rehash_loop es2 idx (n + 1) fuel'
      end
  end.

Fixpoint remove_loop (es : list tracked_pid_entry) (hash pid i : Z) (fuel : nat)
    : list tracked_pid_entry :=
  match fuel with
  | O => es
  | S fuel' =>
      let idx := probe_index hash i in
      match es !! idx with
      | None => es
      | Some entry =>
          if negb (is_active entry) then es
          else if negb (te_pid entry =? pid) then remove_loop es hash pid (i + 1) fuel'
          else rehash_loop (deactivate es idx) (Z.of_nat idx) 1
                 (Z.to_nat TRACKED_PIDS_HASH_SIZE - 1)
      end
  end.

Definition remove_entry (es : list tracked_pid_entry) (pid : Z) : list tracked_pid_entry :=
  remove_loop es (pid_hash pid) pid 0 (Z.to_nat TRACKED_PIDS_HASH_SIZE).

Definition pid_tracker_remove (t : pid_tracker) (pid : Z) : pid_tracker :=
  set_entries t (remove_entry (entries t) pid).

Definition pid_tracker_is_tracked (t : pid_tracker) (pid : Z) : bool :=
  match pid_tracker_find t pid with
  | Some i => match entries t !! i with Some entry => is_tracked entry | None => false end
  | None => false
  end.

(** [command_filters[i]] for i < count. *)
Fixpoint command_matches_loop (comm : bytes) (filters : list bytes) (i : nat) (fuel : nat) : bool :=
  match fuel with
  | O => false
  | S fuel' =>
      match filters !! i with
      | Some f => if streq comm f then true else command_matches_loop comm filters (S i) fuel'
      | None => false
      end
  end.

Definition command_matches_any_filter (comm : bytes) (filters : list bytes) (count : Z) : bool :=
  command_matches_loop comm filters 0 (Z.to_nat count).

Definition should_track_process (t : pid_tracker) (comm : bytes) (pid ppid : Z) : bool :=
  match tr_filter_mode t with
  | FILTER_MODE_ALL => true
  | FILTER_MODE_PROC => true
  | FILTER_MODE_FILTER =>
      if (0 <? target_pid t) && (pid =? target_pid t) then true
      else if pid_tracker_is_tracked t ppid then true
      else if (0 <? command_filter_count t) &&
              command_matches_any_filter comm (command_filters t) (command_filter_count t)
      then true
      else false
  end.

Definition should_report_file_ops (t : pid_tracker) (pid : Z) : bool :=
  match tr_filter_mode t with
  | FILTER_MODE_ALL => true
  | _ => pid_tracker_is_tracked t pid
  end.

(** The visits of [pid_tracker_foreach], in order. *)
Definition pid_tracker_foreach (t : pid_tracker) : list (Z * Z) :=
  omap (fun e => if is_active e then Some (te_pid e, te_ppid e) else None) (entries t).

Definition should_report_bash_readline (t : pid_tracker) (pid : Z) : bool :=
  match tr_filter_mode t with
  | FILTER_MODE_FILTER => pid_tracker_is_tracked t pid
  | _ => true
  end.

Example tracker_probe :
  let t0 := pid_tracker_init [] 0 FILTER_MODE_PROC 0 in
  let t := fst (pid_tracker_add (fst (pid_tracker_add t0 5 1)) 4101 1) in
  (pid_tracker_find t 5, pid_tracker_find t 4101, pid_tracker_find (pid_tracker_remove t 5) 4101)
  = (Some 5%nat, Some 6%nat, Some 5%nat).
Proof. vm_compute. reflexivity. Qed.
