(* ===== verification/ProcessFilterTable.v ===== *)
(** * The PID table refines a finite map

    Linear probing on the cyclic array of [ProcessFilter]: probe distances,
    the representation invariant [table_ok], and the refinement of find, add
    and remove to lookup, insert and delete of a [gmap] from PID to parent
    PID.  The deletion proof follows the hole that the rehash loop moves
    through the cluster, also when the table is full and the cluster wraps. *)

From S2P Require Import Prelude CLib ProcessFilter.

Create HintDb tracker.

(** ** Cyclic positions *)

(** The number of slots; kept folded so that arithmetic treats it as an
    unknown positive number. *)
Definition slots : nat := Z.to_nat TRACKED_PIDS_HASH_SIZE.

Lemma slots_eq : Z.of_nat slots = TRACKED_PIDS_HASH_SIZE.
Proof. unfold slots. rewrite Z2Nat.id; done. Qed.

Lemma slots_pos : (0 < slots)%nat.
Proof. pose proof slots_eq. unfold TRACKED_PIDS_HASH_SIZE in *. lia. Qed.

#[global] Opaque slots.

Definition padd (h i : nat) : nat := if decide (h + i < slots)%nat then h + i else h + i - slots.

(** Probe distance from slot [h] to slot [k]. *)
Definition cdist (h k : nat) : nat := if decide (h <= k)%nat then k - h else k + slots - h.

Definition home (pid : Z) : nat := Z.to_nat (pid_hash pid).

(** Slot [k] is probed strictly before slot [j] when probing from [h]. *)
Definition on_path (h j k : nat) : Prop := (cdist h k < cdist h j)%nat.

#[export] Instance on_path_dec h j k : Decision (on_path h j k).
Proof. unfold on_path. apply _. Defined.

Ltac cyc :=
  unfold on_path, cdist, padd in *; pose proof slots_pos;
  repeat case_decide; lia.

Lemma padd_lt h i : (h < slots)%nat -> (i < slots)%nat -> (padd h i < slots)%nat.
Proof. intros. cyc. Qed.

Lemma cdist_lt h k : (h < slots)%nat -> (k < slots)%nat -> (cdist h k < slots)%nat.
Proof. intros. cyc. Qed.

Lemma padd_cdist h k : (h < slots)%nat -> (k < slots)%nat -> padd h (cdist h k) = k.
Proof. intros. cyc. Qed.

Lemma cdist_padd h i : (h < slots)%nat -> (i < slots)%nat -> cdist h (padd h i) = i.
Proof. intros. cyc. Qed.

(** Probing towards offset [m] from [h] through a later offset passes every
    offset in between. *)
Lemma on_path_between h idx m m' n :
  (h < slots)%nat -> (idx < slots)%nat -> (n < m' < m)%nat -> (m < slots)%nat ->
  on_path h (padd idx m) (padd idx n) -> on_path h (padd idx m) (padd idx m').
Proof. intros. cyc. Qed.

Lemma home_bound pid : (home pid < slots)%nat.
Proof.
  unfold home, pid_hash, TRACKED_PIDS_HASH_MASK, TRACKED_PIDS_HASH_SIZE.
  pose proof slots_eq as E. unfold TRACKED_PIDS_HASH_SIZE in E.
  change (4096 - 1) with (2 ^ 12 - 1). rewrite land_mask by lia.
  pose proof (Z.mod_pos_bound (u32 pid) (2 ^ 12)). change (2 ^ 12) with 4096 in *. lia.
Qed.

Lemma pid_hash_home pid : pid_hash pid = Z.of_nat (home pid).
Proof.
  unfold home. rewrite Z2Nat.id; [done|].
  unfold pid_hash, TRACKED_PIDS_HASH_MASK, TRACKED_PIDS_HASH_SIZE.
  change (4096 - 1) with (2 ^ 12 - 1). rewrite land_mask by lia.
  pose proof (Z.mod_pos_bound (u32 pid) (2 ^ 12)). lia.
Qed.

Lemma probe_index_padd h i :
  (h < slots)%nat -> (i < slots)%nat -> probe_index (Z.of_nat h) (Z.of_nat i) = padd h i.
Proof.
  intros Hh Hi. unfold probe_index, padd, TRACKED_PIDS_HASH_MASK.
  pose proof slots_eq as E. unfold TRACKED_PIDS_HASH_SIZE in *.
  change (4096 - 1) with (2 ^ 12 - 1). rewrite land_mask by lia. change (2 ^ 12) with 4096.
  case_decide.
  - rewrite Z.mod_small by lia. lia.
  - replace (Z.of_nat h + Z.of_nat i) with ((Z.of_nat h + Z.of_nat i - 4096) + 1 * 4096) by lia.
    rewrite Z.mod_add, Z.mod_small by lia. lia.
Qed.

(** ** The representation invariant *)

Abbreviation table := (list tracked_pid_entry).

Definition occ (es : table) (j : nat) (e : tracked_pid_entry) : Prop :=
  es !! j = Some e /\ is_active e = true.

Definition free (es : table) (j : nat) : Prop :=
  exists e, es !! j = Some e /\ is_active e = false.

(** No two active slots hold the same PID. *)
Definition unique (es : table) : Prop :=
  forall i j e e', occ es i e -> occ es j e' -> te_pid e = te_pid e' -> i = j.

Definition all_tracked (es : table) : Prop := forall j e, occ es j e -> is_tracked e = true.

(** Every slot on the probe path of an entry is active, and was filled before
    it: [rank] is an insertion order, which matters when the table is full. *)
Definition paths_ok (es : table) : Prop :=
  exists rank : nat -> nat, forall j e, occ es j e ->
    forall k, (k < slots)%nat -> on_path (home (te_pid e)) j k ->
    (exists e', occ es k e') /\ (rank k < rank j)%nat.

Record table_ok (es : table) : Prop := {
  ok_length : length es = slots;
  ok_unique : unique es;
  ok_tracked : all_tracked es;
  ok_paths : paths_ok es;
}.

Lemma occ_lt es j e : length es = slots -> occ es j e -> (j < slots)%nat.
Proof. intros <- [H _]. by apply lookup_lt_Some in H. Qed.

Lemma occ_or_free es j :
  length es = slots -> (j < slots)%nat -> (exists e, occ es j e) \/ free es j.
Proof.
  intros HL Hj. destruct (lookup_lt_is_Some_2 es j) as [e He]; [lia|].
  unfold occ, free. destruct (is_active e) eqn:E; eauto.
Qed.

Lemma free_not_occ es j e : free es j -> occ es j e -> False.
Proof. intros (e' & H1 & H2) [H3 H4]. congruence. Qed.

(** Occupied slots after an update. *)
Lemma occ_insert es i x j e :
  (i < length es)%nat ->
  occ (<[i := x]> es) j e <->
  (i = j /\ x = e /\ is_active x = true) \/ (i <> j /\ occ es j e).
Proof.
  intros Hi. unfold occ. rewrite list_lookup_insert_Some.
  split; [|intros [(-> & -> & ?)|(? & ? & ?)]; naive_solver].
  intros [[(-> & -> & _)|[? ?]] ?]; naive_solver.
Qed.

(** ** The search loops *)

Lemma find_loop_Some es h pid i fuel j :
  find_loop es h pid i fuel = Some j ->
  exists e, occ es j e /\ te_pid e = pid.
Proof.
  revert i. induction fuel as [|f IH]; intros i; simpl; [done|].
  destruct (es !! probe_index h i) as [e|] eqn:E; [|done].
  destruct (is_active e) eqn:Ea; simpl; [|done].
  destruct (Z.eqb_spec (te_pid e) pid); [|apply IH].
  intros [= <-]. unfold occ. eauto.
Qed.

Lemma find_entry_Some es pid j :
  find_entry es pid = Some j -> exists e, occ es j e /\ te_pid e = pid.
Proof. apply find_loop_Some. Qed.

(** The loop reaches the slot at distance [d] when all slots before it hold
    other PIDs. *)
Lemma find_loop_reach es h pid e d i fuel :
  (h < slots)%nat -> (d < slots)%nat -> (i <= d < i + fuel)%nat ->
  occ es (padd h d) e -> te_pid e = pid ->
  (forall d', (i <= d' < d)%nat -> exists e', occ es (padd h d') e' /\ te_pid e' <> pid) ->
  find_loop es (Z.of_nat h) pid (Z.of_nat i) fuel = Some (padd h d).
Proof.
  intros Hh Hd. revert i. induction fuel as [|f IH]; intros i Hi Hocc Hpid Hpre; [lia|].
  simpl. rewrite probe_index_padd by lia.
  destruct (decide (i = d)) as [->|Hne].
  - destruct Hocc as [-> ->]. simpl. by rewrite (proj2 (Z.eqb_eq _ _) Hpid).
  - destruct (Hpre i) as (e' & [-> ->] & Hp); [lia|]. simpl.
    rewrite (proj2 (Z.eqb_neq _ _) Hp).
    replace (Z.of_nat i + 1) with (Z.of_nat (S i)) by lia.
    apply IH; [lia|done|done|]. intros d' Hd'. apply Hpre. lia.
Qed.

Lemma find_entry_occ es j e :
  table_ok es -> occ es j e -> find_entry es (te_pid e) = Some j.
Proof.
  intros [HL HU _ [r HP]] Hocc. pose proof (occ_lt _ _ _ HL Hocc) as Hj.
  pose proof (home_bound (te_pid e)) as Hh.
  unfold find_entry. rewrite pid_hash_home.
  assert (padd (home (te_pid e)) (cdist (home (te_pid e)) j) = j) as Ej by cyc.
  transitivity (Some (padd (home (te_pid e)) (cdist (home (te_pid e)) j))); [|by rewrite Ej].
  apply (find_loop_reach es (home (te_pid e)) (te_pid e) e _ 0); try done.
  - cyc.
  - change (Z.to_nat TRACKED_PIDS_HASH_SIZE) with slots. cyc.
  - by rewrite Ej.
  - intros d' Hd'. destruct (HP j e Hocc (padd (home (te_pid e)) d')) as [[e' He'] _].
    + cyc.
    + cyc.
    + exists e'. split; [done|]. intros Hp. pose proof (HU _ _ _ _ He' Hocc Hp). cyc.
Qed.

Lemma find_entry_None es pid :
  (forall j e, occ es j e -> te_pid e <> pid) -> find_entry es pid = None.
Proof.
  intros H. destruct (find_entry es pid) as [j|] eqn:E; [|done].
  apply find_entry_Some in E as (e & He & Hp). by destruct (H _ _ He).
Qed.

Lemma add_loop_reach es h pid ppid d i fuel :
  (h < slots)%nat -> (d < slots)%nat -> (i <= d < i + fuel)%nat ->
  free es (padd h d) ->
  (forall d', (i <= d' < d)%nat -> exists e', occ es (padd h d') e') ->
  add_loop es (Z.of_nat h) pid ppid (Z.of_nat i) fuel
  = (<[padd h d := TrackedPidEntry pid ppid true true]> es, true).
Proof.
  intros Hh Hd. revert i. induction fuel as [|f IH]; intros i Hi Hfree Hpre; [lia|].
  simpl. rewrite probe_index_padd by lia.
  destruct (decide (i = d)) as [->|Hne].
  - destruct Hfree as (e & -> & ->). done.
  - destruct (Hpre i) as (e' & [-> ->]); [lia|]. simpl.
    replace (Z.of_nat i + 1) with (Z.of_nat (S i)) by lia.
    apply IH; [lia|done|]. intros d' Hd'. apply Hpre. lia.
Qed.

Lemma add_loop_full es h pid ppid i fuel :
  (h < slots)%nat -> (i + fuel <= slots)%nat ->
  (forall j, (j < slots)%nat -> exists e, occ es j e) ->
  add_loop es (Z.of_nat h) pid ppid (Z.of_nat i) fuel = (es, false).
Proof.
  intros Hh. revert i. induction fuel as [|f IH]; intros i Hi Hall; [done|].
  simpl. rewrite probe_index_padd by lia.
  destruct (Hall (padd h i)) as (e & [-> ->]); [cyc|]. simpl.
  replace (Z.of_nat i + 1) with (Z.of_nat (S i)) by lia. apply IH; [lia|done].
Qed.

(** Either every slot is active, or probing from [h] meets a first free one. *)
Lemma first_free es h :
  length es = slots -> (h < slots)%nat ->
  (forall j, (j < slots)%nat -> exists e, occ es j e) \/
  exists d, (d < slots)%nat /\ free es (padd h d) /\
    forall d', (d' < d)%nat -> exists e, occ es (padd h d') e.
Proof.
  intros HL Hh.
  assert (forall n, (n <= slots)%nat ->
    (forall d', (d' < n)%nat -> exists e, occ es (padd h d') e) \/
    exists d, (d < slots)%nat /\ free es (padd h d) /\
      forall d', (d' < d)%nat -> exists e, occ es (padd h d') e) as Hn.
  { induction n as [|n IH]; intros Hle; [left; lia|].
    destruct IH as [IH|IH]; [lia| |by right].
    destruct (occ_or_free es (padd h n) HL) as [Ho|Hf]; [cyc| |right; exists n; split_and!; done || lia].
    left. intros d' Hd'. destruct (decide (d' = n)) as [->|]; [done|]. apply IH. lia. }
  destruct (Hn slots) as [Ha|Hf]; [lia| |by right].
  left. intros j Hj. assert (padd h (cdist h j) = j) as <- by cyc. apply Ha. cyc.
Qed.

(** ** Adding *)

(** A fresh PID goes to the first free slot of its probe sequence. *)
Lemma add_entry_fresh es pid ppid d :
  length es = slots ->
  (forall j e, occ es j e -> te_pid e <> pid) ->
  (d < slots)%nat -> free es (padd (home pid) d) ->
  (forall d', (d' < d)%nat -> exists e, occ es (padd (home pid) d') e) ->
  add_entry es pid ppid = (<[padd (home pid) d := TrackedPidEntry pid ppid true true]> es, true).
Proof.
  intros HL Hfresh Hd Hfree Hpre. unfold add_entry.
  rewrite find_entry_None by done. rewrite pid_hash_home.
  apply (add_loop_reach es (home pid) pid ppid d 0); try done.
  - apply home_bound.
  - change (Z.to_nat TRACKED_PIDS_HASH_SIZE) with slots. lia.
  - intros d' Hd'. apply Hpre. lia.
Qed.

Lemma add_entry_full es pid ppid :
  (forall j e, occ es j e -> te_pid e <> pid) ->
  (forall j, (j < slots)%nat -> exists e, occ es j e) ->
  add_entry es pid ppid = (es, false).
Proof.
  intros Hfresh Hall. unfold add_entry. rewrite find_entry_None by done. rewrite pid_hash_home.
  apply (add_loop_full es (home pid) pid ppid 0); [apply home_bound| |done].
  change (Z.to_nat TRACKED_PIDS_HASH_SIZE) with slots. lia.
Qed.

Lemma add_entry_present es j e ppid :
  table_ok es -> occ es j e -> add_entry es (te_pid e) ppid = (es, true).
Proof. intros Hok Ho. unfold add_entry. by rewrite (find_entry_occ es j e). Qed.

(** Filling the first free slot of a probe sequence keeps the invariant. *)
Lemma insert_first_free es x d :
  table_ok es -> is_active x = true -> is_tracked x = true ->
  (forall j e, occ es j e -> te_pid e <> te_pid x) ->
  (d < slots)%nat -> free es (padd (home (te_pid x)) d) ->
  (forall d', (d' < d)%nat -> exists e, occ es (padd (home (te_pid x)) d') e) ->
  table_ok (<[padd (home (te_pid x)) d := x]> es).
Proof.
  intros [HL HU HT [r HP]] Hact Htr Hfresh Hd Hfree Hpre.
  set (h := home (te_pid x)) in *. pose proof (home_bound (te_pid x) : (h < slots)%nat) as Hh.
  set (s := padd h d) in *. assert (s < slots)%nat as Hs by (subst s; cyc).
  assert (s < length es)%nat as Hs' by lia.
  split.
  - by rewrite length_insert.
  - intros i j e e' Hi Hj Hp. rewrite occ_insert in Hi, Hj by done.
    destruct Hi as [(<- & <- & _)|[Hi1 Hi2]], Hj as [(<- & <- & _)|[Hj1 Hj2]]; [done| | |].
    + by destruct (Hfresh _ _ Hj2).
    + by destruct (Hfresh _ _ Hi2).
    + by eapply HU.
  - intros j e Hj. rewrite occ_insert in Hj by done.
    destruct Hj as [(<- & <- & _)|[_ Hj]]; [done|by eapply HT].
  - exists (fun k => if decide (k = s) then S (list_max (map r (seq 0 slots))) else r k).
    intros j e Hj k Hk Hpath. rewrite occ_insert in Hj by done.
    destruct Hj as [(<- & <- & _)|[Hne Hj]].
    + assert (k <> s) as Hks by (intros ->; unfold on_path in Hpath; lia).
      destruct (Hpre (cdist h k)) as [e Ho]; [subst s; fold h in Hpath; clearbody h; cyc|].
      assert (padd h (cdist h k) = k) as Ek by (clearbody h; cyc). rewrite Ek in Ho.
      split.
      * exists e. apply occ_insert; [done|]. right. done.
      * rewrite decide_False by done. rewrite decide_True by done.
        assert (r k <= list_max (map r (seq 0 slots)))%nat; [|lia].
        pose proof (proj1 (list_max_le (map r (seq 0 slots)) _) (Nat.le_refl _)) as Hm.
        rewrite Forall_forall in Hm. apply Hm. apply list_elem_of_In, in_map, in_seq. lia.
    + destruct (HP j e Hj k Hk Hpath) as [[e' Ho] Hr].
      assert (k <> s) as Hks by (intros ->; by eapply free_not_occ).
      split.
      * exists e'. apply occ_insert; [done|]. by right.
      * rewrite !decide_False by done. done.
Qed.

(** ** Removing: the moving hole *)

Lemma occ_deactivate es i j e :
  occ (deactivate es i) j e <-> j <> i /\ occ es j e.
Proof.
  unfold deactivate. destruct (es !! i) as [x|] eqn:Ei.
  - rewrite occ_insert by by eapply lookup_lt_Some. simpl. naive_solver.
  - split; [|naive_solver]. intros [H1 H2]. split; [|done]. intros ->. congruence.
Qed.

Lemma length_deactivate es i : length (deactivate es i) = length es.
Proof. unfold deactivate. case_match; [apply length_insert|done]. Qed.

Lemma free_deactivate es i : (i < length es)%nat -> free (deactivate es i) i.
Proof.
  intros Hi. unfold deactivate, free. destruct (lookup_lt_is_Some_2 es i Hi) as [e ->].
  eexists. by rewrite list_lookup_insert_eq.
Qed.

Lemma free_deactivate_other es i j : free es j -> free (deactivate es i) j.
Proof.
  intros (e & He & Ha). unfold deactivate, free. case_match eqn:Ei; [|eauto].
  destruct (decide (i = j)) as [->|]; [|rewrite list_lookup_insert_ne by done; eauto].
  eexists. rewrite list_lookup_insert_eq; [done|]. by eapply lookup_lt_Some.
Qed.

Lemma lookup_deactivate_ne es i j : i <> j -> deactivate es i !! j = es !! j.
Proof. intros. unfold deactivate. case_match; [by apply list_lookup_insert_ne|done]. Qed.

Section remove.
Context (es0 : table) (idx : nat) (x0 : tracked_pid_entry) (r : nat -> nat).
Hypothesis Hlen0 : length es0 = slots.
Hypothesis Huniq0 : unique es0.
Hypothesis Htr0 : all_tracked es0.
Hypothesis Hpath0 : forall j e, occ es0 j e ->
  forall k, (k < slots)%nat -> on_path (home (te_pid e)) j k ->
  (exists e', occ es0 k e') /\ (r k < r j)%nat.
Hypothesis Hocc0 : occ es0 idx x0.

Let Hidx : (idx < slots)%nat := occ_lt es0 idx x0 Hlen0 Hocc0.

(** The cluster after [idx] reaches offset [n]. *)
Definition run (n : nat) : Prop :=
  forall m, (1 <= m <= n)%nat -> exists e, occ es0 (padd idx m) e.

(** The state of the rehash loop before it looks at offset [n]: there is a
    single hole [H], at a processed offset; what the loop has passed is
    reachable; the rest of the cluster is reachable but for the hole. *)
Record hole_inv (n : nat) (es : table) (H : nat) : Prop := {
  hi_length : length es = slots;
  hi_hole : exists h0, (h0 < n)%nat /\ (h0 < slots)%nat /\ H = padd idx h0;
  hi_free : free es H;
  hi_run : run (n - 1);
  hi_same : forall m, (n <= m < slots)%nat -> es !! padd idx m = es0 !! padd idx m;
  hi_content : forall e, (exists s, occ es s e) <-> (exists a, a <> idx /\ occ es0 a e);
  hi_unique : unique es;
  hi_done_path : forall m e, (m < n)%nat -> (m < slots)%nat -> occ es (padd idx m) e ->
    forall k, (k < slots)%nat -> on_path (home (te_pid e)) (padd idx m) k ->
    exists e', occ es k e';
  hi_done_from : forall m e, (m < n)%nat -> (m < slots)%nat -> occ es (padd idx m) e ->
    exists a, occ es0 (padd idx a) e /\ (m <= a < n)%nat /\ (a < slots)%nat /\
      ((a = m /\ (1 <= m)%nat /\ ~ on_path (home (te_pid e)) (padd idx m) idx) \/
       (on_path (home (te_pid e)) (padd idx a) (padd idx m) /\ (r (padd idx a) <= r H)%nat));
  hi_todo : forall m e, (n <= m < slots)%nat -> run m -> occ es (padd idx m) e ->
    forall k, (k < slots)%nat -> on_path (home (te_pid e)) (padd idx m) k ->
    k = H \/ exists e', occ es k e';
  hi_out : forall m e, (n <= m < slots)%nat -> ~ run m -> occ es (padd idx m) e ->
    forall k, (k < slots)%nat -> on_path (home (te_pid e)) (padd idx m) k ->
    exists e', occ es k e';
}.

Lemma run_S n : run n -> (exists e, occ es0 (padd idx (S n)) e) -> run (S n).
Proof.
  intros Hr He m Hm. destruct (decide (m = S n)) as [->|]; [done|]. apply Hr. lia.
Qed.

(** An entry outside the cluster is not probed through [idx]. *)
Lemma out_not_idx m e :
  (1 <= m < slots)%nat -> occ es0 (padd idx m) e -> ~ run m ->
  ~ on_path (home (te_pid e)) (padd idx m) idx.
Proof.
  intros Hm Ho Hnr Hp. apply Hnr. intros m' Hm'.
  destruct (decide (m' = m)) as [->|]; [eauto|].
  pose proof (home_bound (te_pid e)).
  apply (Hpath0 _ _ Ho (padd idx m')); cyc.
Qed.

Lemma hole_start : hole_inv 1 (deactivate es0 idx) idx.
Proof.
  split.
  - by rewrite length_deactivate.
  - exists O. pose proof slots_pos. split_and!; [lia|lia|cyc].
  - apply free_deactivate. lia.
  - intros m Hm. lia.
  - intros m Hm. apply lookup_deactivate_ne. cyc.
  - intros e. setoid_rewrite occ_deactivate. done.
  - intros i j e e'. rewrite !occ_deactivate. intros [_ ?] [_ ?]. by apply Huniq0.
  - intros m e Hm _ Ho. assert (m = O) as -> by lia.
    apply occ_deactivate in Ho as [Hne _]. destruct Hne. cyc.
  - intros m e Hm _ Ho. assert (m = O) as -> by lia.
    apply occ_deactivate in Ho as [Hne _]. destruct Hne. cyc.
  - intros m e Hm _ [Hne Ho]%occ_deactivate k Hk Hp.
    destruct (decide (k = idx)); [by left|right].
    destruct (Hpath0 _ _ Ho k Hk Hp) as [[e' ?] _].
    exists e'. by apply occ_deactivate.
  - intros m e Hm Hnr [Hne Ho]%occ_deactivate k Hk Hp.
    destruct (Hpath0 _ _ Ho k Hk Hp) as [[e' ?] _].
    exists e'. apply occ_deactivate. split; [|done].
    intros ->. by eapply out_not_idx.
Qed.

Lemma entry_eta v : is_tracked v = true -> is_active v = true ->
  TrackedPidEntry (te_pid v) (te_ppid v) true true = v.
Proof. destruct v; simpl. by intros -> ->. Qed.

(** What one iteration does to the cluster entry [v] at offset [n]: it moves
    into the hole when the hole is on its probe path, and stays otherwise. *)
Lemma reinsert_spec n es H v :
  hole_inv n es H -> (1 <= n < slots)%nat -> occ es (padd idx n) v ->
  let u := padd idx n in
  fst (add_entry (deactivate es u) (te_pid v) (te_ppid v)) =
    <[(if decide (on_path (home (te_pid v)) u H) then H else u) := v]> (deactivate es u).
Proof.
  intros Hi Hn Hv u. pose proof (home_bound (te_pid v)) as Hh.
  assert (u < slots)%nat as Hu by (apply padd_lt; lia).
  assert (H < slots)%nat as HH by (destruct (hi_hole _ _ _ Hi) as (? & ? & ? & ->); apply padd_lt; lia).
  assert (occ es0 u v) as Hv0.
  { destruct Hv as [Hv1 Hv2]. split; [|done]. by rewrite (hi_same _ _ _ Hi n) in Hv1 by lia. }
  assert (run n) as Hrun.
  { pose proof (hi_run _ _ _ Hi) as Hr. replace n with (S (n - 1)) by lia.
    apply run_S; [done|]. replace (S (n - 1)) with n by lia. eauto. }
  set (s := if decide (on_path (home (te_pid v)) u H) then H else u).
  assert (s < slots)%nat as Hs by (subst s; case_decide; done).
  assert (padd (home (te_pid v)) (cdist (home (te_pid v)) s) = s) as Es by (by apply padd_cdist).
  rewrite (add_entry_fresh _ _ _ (cdist (home (te_pid v)) s)).
  - simpl. rewrite Es. f_equal. apply entry_eta; [by eapply Htr0|apply Hv].
  - by rewrite length_deactivate, (hi_length _ _ _ Hi).
  - intros j e [Hne Ho]%occ_deactivate Hp. apply Hne.
    by apply (hi_unique _ _ _ Hi _ _ _ _ Ho Hv).
  - by apply cdist_lt.
  - rewrite Es. subst s. case_decide.
    + apply free_deactivate_other, (hi_free _ _ _ Hi).
    + apply free_deactivate. by rewrite (hi_length _ _ _ Hi).
  - intros d' Hd'. set (k := padd (home (te_pid v)) d').
    pose proof (cdist_lt (home (te_pid v)) s Hh Hs).
    assert (cdist (home (te_pid v)) k = d') as Ek by (apply cdist_padd; lia).
    assert (k < slots)%nat as Hk by (apply padd_lt; lia).
    assert (k <> s) as Hks by (intros ->; lia).
    assert (on_path (home (te_pid v)) u k) as Hpk.
    { subst s. case_decide as Hd; unfold on_path in *; lia. }
    destruct (hi_todo _ _ _ Hi n v ltac:(lia) Hrun Hv k Hk Hpk) as [->|[e' He']].
    + subst s. case_decide as Hd; [done|]. by destruct Hd.
    + exists e'. apply occ_deactivate. split; [|done].
      intros ->. unfold on_path in Hpk. lia.
Qed.

Lemma todo_run n es H v :
  hole_inv n es H -> (1 <= n < slots)%nat -> occ es (padd idx n) v ->
  occ es0 (padd idx n) v /\ run n.
Proof.
  intros Hi Hn [Hv1 Hv2].
  assert (occ es0 (padd idx n) v) as Hv0.
  { split; [|done]. by rewrite (hi_same _ _ _ Hi n) in Hv1 by lia. }
  split; [done|].
  pose proof (hi_run _ _ _ Hi) as Hr. replace n with (S (n - 1)) by lia.
  apply run_S; [done|]. replace (S (n - 1)) with n by lia. eauto.
Qed.

(** The entry stays: the state is unchanged. *)
Lemma hole_step_stay n es H v :
  hole_inv n es H -> (1 <= n < slots)%nat -> occ es (padd idx n) v ->
  ~ on_path (home (te_pid v)) (padd idx n) H ->
  hole_inv (S n) es H.
Proof.
  intros Hi Hn Hv Hnp.
  destruct (todo_run _ _ _ _ Hi Hn Hv) as [Hv0 Hrun].
  destruct (hi_hole _ _ _ Hi) as (h0 & Hh1 & Hh2 & HH).
  pose proof (home_bound (te_pid v)) as Hh.
  assert (forall e, occ es (padd idx n) e -> e = v) as Hev.
  { intros e [He _]. destruct Hv as [Hv _]. congruence. }
  split.
  - apply Hi.
  - exists h0. split_and!; [lia|done|done].
  - apply Hi.
  - by replace (S n - 1)%nat with n by lia.
  - intros m Hm. apply Hi. lia.
  - apply Hi.
  - apply Hi.
  - intros m e Hm1 Hm2 Ho. destruct (decide (m = n)) as [->|].
    + rewrite (Hev e Ho). intros k Hk Hp.
      by destruct (hi_todo _ _ _ Hi n v ltac:(lia) Hrun Hv k Hk Hp) as [->|].
    + apply (hi_done_path _ _ _ Hi m e); [lia|done|done].
  - intros m e Hm1 Hm2 Ho. destruct (decide (m = n)) as [->|].
    + rewrite (Hev e Ho). exists n. split_and!; try done || lia.
      left. split_and!; [done|lia|].
      intros Hp. apply Hnp. subst H. clear - Hp Hh1 Hh2 Hn Hh Hidx. cyc.
    + destruct (hi_done_from _ _ _ Hi m e) as (a & ? & ? & ? & ?); [lia|done|done|].
      exists a. split_and!; done || lia.
  - intros m e Hm. apply (hi_todo _ _ _ Hi). lia.
  - intros m e Hm. apply (hi_out _ _ _ Hi). lia.
Qed.

(** No reachable entry is probed through the cluster entry that moves. *)
Lemma moved_not_probed n es H v m e :
  hole_inv n es H -> (1 <= n < slots)%nat -> occ es (padd idx n) v ->
  on_path (home (te_pid v)) (padd idx n) H ->
  (m < slots)%nat -> m <> n -> occ es (padd idx m) e -> ((n <= m)%nat -> ~ run m) ->
  ~ on_path (home (te_pid e)) (padd idx m) (padd idx n).
Proof.
  intros Hi Hn Hv HpH Hm Hmn Ho Hnr Hp.
  destruct (todo_run _ _ _ _ Hi Hn Hv) as [Hv0 Hrun].
  destruct (hi_hole _ _ _ Hi) as (h0 & Hh1 & Hh2 & HH).
  pose proof (home_bound (te_pid e)) as Hhe.
  assert (padd idx n < slots)%nat as Hu by (apply padd_lt; lia).
  assert (H < slots)%nat as HHs by (subst H; apply padd_lt; lia).
  destruct (decide (m < n)%nat) as [Hlt|Hge].
  - destruct (hi_done_from _ _ _ Hi m e Hlt Hm Ho) as (a & Ha & Ham & Has & [(-> & Hm1 & Hni)|[Hpa Hra]]).
    + apply Hni. clear - Hp Hhe Hlt Hm Hm1 Hn Hidx. cyc.
    + destruct (Hpath0 _ _ Hv0 H HHs HpH) as [_ Hr1].
      destruct (Hpath0 _ _ Ha (padd idx n) Hu) as [_ Hr2]; [|lia].
      unfold on_path in *. lia.
  - specialize (Hnr ltac:(lia)). apply Hnr. intros m' Hm'.
    destruct (decide (m' <= n)%nat); [apply Hrun; lia|].
    assert (occ es0 (padd idx m) e) as Ho0.
    { destruct Ho as [Ho1 Ho2]. split; [|done]. by rewrite (hi_same _ _ _ Hi m) in Ho1 by lia. }
    destruct (decide (m' = m)) as [->|]; [eauto|].
    apply (Hpath0 _ _ Ho0); [apply padd_lt; lia|].
    apply (on_path_between _ _ _ _ n); done || lia.
Qed.

Lemma occ_move es H u v j e :
  length es = slots -> (H < slots)%nat -> H <> u -> is_active v = true ->
  occ (<[H := v]> (deactivate es u)) j e <->
  (j = H /\ e = v) \/ (j <> H /\ j <> u /\ occ es j e).
Proof.
  intros HL HH Hne Ha. rewrite occ_insert by (rewrite length_deactivate; lia).
  rewrite occ_deactivate. naive_solver.
Qed.

(** The entry moves into the hole and leaves a hole behind. *)
Section move.
Context (n : nat) (es : table) (H : nat) (v : tracked_pid_entry).
Context (Hi : hole_inv n es H) (Hn : (1 <= n < slots)%nat) (Hv : occ es (padd idx n) v).
Context (HpH : on_path (home (te_pid v)) (padd idx n) H).
Local Abbreviation u := (padd idx n).
Local Abbreviation moved := (<[H := v]> (deactivate es u)).

Lemma move_slots : (u < slots)%nat /\ (H < slots)%nat /\ H <> u.
Proof using All.
  assert (u < slots)%nat by (apply padd_lt; lia). split; [done|].
  destruct (hi_hole _ _ _ Hi) as (h0 & Hh1 & Hh2 & HH). split; [subst H; apply padd_lt; lia|].
  pose proof (home_bound (te_pid v)). intros ->. unfold on_path in HpH. lia.
Qed.

Lemma moved_occ j e : occ moved j e <-> (j = H /\ e = v) \/ (j <> H /\ j <> u /\ occ es j e).
Proof using All.
  destruct move_slots as (Hu & HHs & HHu). apply occ_move; [apply Hi|done|done|apply Hv].
Qed.

Lemma moved_keeps k e' : occ es k e' -> k <> u -> exists e, occ moved k e.
Proof using All.
  intros Ho Hk. destruct (decide (k = H)) as [->|]; [exists v|exists e']; rewrite moved_occ; auto.
Qed.

Lemma moved_content e : (exists j, occ moved j e) <-> (exists j, occ es j e).
Proof using All.
  split.
  - intros [j Hj]. apply moved_occ in Hj as [[-> ->]|(_ & _ & Hj)]; eauto.
  - intros [j Hj]. destruct (decide (j = u)) as [->|Hju].
    + exists H. rewrite moved_occ. left. split; [done|]. destruct Hj as [Hj _], Hv as [Hv1 _]. congruence.
    + exists j. rewrite moved_occ. right. split_and!; [|done|done].
      intros ->. eapply free_not_occ; [apply Hi|done].
Qed.

Lemma moved_unique i j e e' : occ moved i e -> occ moved j e' -> te_pid e = te_pid e' -> i = j.
Proof using All.
  intros Hoi Hoj Hp. rewrite moved_occ in Hoi, Hoj.
  destruct Hoi as [[-> ->]|(Hi1 & Hi2 & Hoi)], Hoj as [[-> ->]|(Hj1 & Hj2 & Hoj)]; [done| | |].
  - destruct Hj2. by apply (hi_unique _ _ _ Hi _ _ _ _ Hoj Hv).
  - destruct Hi2. by apply (hi_unique _ _ _ Hi _ _ _ _ Hoi Hv).
  - by apply (hi_unique _ _ _ Hi _ _ _ _ Hoi Hoj).
Qed.

(** The slots processed, the moved entry's included, have their paths occupied. *)
Lemma moved_done_path m e k :
  (m < S n)%nat -> (m < slots)%nat -> occ moved (padd idx m) e -> (k < slots)%nat ->
  on_path (home (te_pid e)) (padd idx m) k -> exists e', occ moved k e'.
Proof using All.
  intros Hm1 Hm2 Ho Hk Hp. pose proof (moved_not_probed n es H v) as Hmnp. destruct (todo_run _ _ _ _ Hi Hn Hv) as [Hv0 Hrun].
  pose proof (home_bound (te_pid v)) as Hh. destruct move_slots as (Hu & HHs & HHu). rewrite moved_occ in Ho.
  destruct Ho as [[Hm ->]|(Ho1 & Ho2 & Ho)].
  - rewrite Hm in Hp. assert (k <> u) by (intros ->; unfold on_path in *; lia).
    destruct (hi_todo _ _ _ Hi n v ltac:(lia) Hrun Hv k Hk) as [->|[e' He']];
      [unfold on_path in *; lia|unfold on_path in Hp; lia|by eapply moved_keeps].
  - assert (m <> n) by (intros ->; done).
    destruct (hi_done_path _ _ _ Hi m e ltac:(lia) Hm2 Ho k Hk Hp) as [e' He'].
    apply (moved_keeps _ _ He'). intros ->. apply (Hmnp m e); try done. lia.
Qed.

(** An entry past the hole is not the moved one. *)
Lemma moved_past m e : (n < m < slots)%nat -> occ moved (padd idx m) e -> occ es (padd idx m) e.
Proof using All.
  intros Hm Ho. destruct (hi_hole _ _ _ Hi) as (h0 & Hh1 & Hh2 & HH). rewrite moved_occ in Ho.
  destruct Ho as [[Hmh ->]|(Ho1 & Ho2 & Ho)]; [|done].
  clear - Hmh HH Hh1 Hh2 Hm Hidx. exfalso. subst H. cyc.
Qed.

Lemma hole_step_move : hole_inv (S n) moved u.
Proof using All.
  pose proof (moved_not_probed n es H v) as Hmnp. destruct (todo_run _ _ _ _ Hi Hn Hv) as [Hv0 Hrun].
  destruct (hi_hole _ _ _ Hi) as (h0 & Hh1 & Hh2 & HH). destruct move_slots as (Hu & HHs & HHu).
  pose proof (hi_length _ _ _ Hi) as HL. split.
  - by rewrite length_insert, length_deactivate.
  - exists n. split_and!; [lia|lia|done].
  - destruct (free_deactivate es u) as (e & He & Ha); [lia|]. exists e. by rewrite list_lookup_insert_ne.
  - by replace (S n - 1)%nat with n by lia.
  - intros m Hm. rewrite list_lookup_insert_ne, lookup_deactivate_ne.
    + apply Hi. lia.
    + clear - Hm Hn Hidx. cyc.
    + subst H. clear - Hm Hh1 Hh2 Hidx. cyc.
  - intros e. rewrite <- (hi_content _ _ _ Hi e). apply moved_content.
  - intros i j e e'. apply moved_unique.
  - intros m e Hm1 Hm2 Ho k. by apply moved_done_path.
  - intros m e Hm1 Hm2 Ho. rewrite moved_occ in Ho. destruct Ho as [[Hm ->]|(Ho1 & Ho2 & Ho)].
    + assert (m = h0) as -> by (clear - Hm HH Hh2 Hm2 Hidx; subst; cyc).
      exists n. rewrite Hm. split_and!; [done|lia|lia|lia|]. right. split; [done|lia].
    + assert (m <> n) by (intros ->; done).
      destruct (hi_done_from _ _ _ Hi m e ltac:(lia) Hm2 Ho) as (a & Ha & Ham & Has & Hc).
      exists a. split_and!; [done|lia|lia|lia|].
      destruct Hc as [Hc|[Hc Hra]]; [by left|right]. split; [done|].
      destruct (Hpath0 _ _ Hv0 H HHs HpH) as [_ Hr1]. lia.
  - intros m e Hm Hr Ho k Hk Hp. apply moved_past in Ho; [|lia]. destruct (decide (k = u)) as [->|]; [by left|right].
    destruct (hi_todo _ _ _ Hi m e ltac:(lia) Hr Ho k Hk Hp) as [->|[e' He']]; [|by eapply moved_keeps].
    exists v. rewrite moved_occ. by left.
  - intros m e Hm Hnr Ho k Hk Hp. apply moved_past in Ho; [|lia].
    destruct (hi_out _ _ _ Hi m e ltac:(lia) Hnr Ho k Hk Hp) as [e' He'].
    apply (moved_keeps _ _ He'). intros ->. apply (Hmnp m e); try done; lia.
Qed.
End move.

Lemma hole_step n es H v :
  hole_inv n es H -> (1 <= n < slots)%nat -> occ es (padd idx n) v ->
  exists H', hole_inv (S n)
    (fst (add_entry (deactivate es (padd idx n)) (te_pid v) (te_ppid v))) H'.
Proof.
  intros Hi Hn Hv. rewrite (reinsert_spec n es H v Hi Hn Hv). case_decide as Hp.
  - exists (padd idx n). by apply hole_step_move.
  - exists H. assert (<[padd idx n := v]> (deactivate es (padd idx n)) = es) as ->.
    { unfold deactivate. destruct Hv as [Hv1 Hv2]. rewrite Hv1.
      rewrite list_insert_insert_eq. by apply list_insert_id. }
    by eapply hole_step_stay.
Qed.

(** When the cluster is processed the table is well formed again: it has a
    free slot, from which the positions give an insertion order. *)
Lemma hole_end n es H :
  hole_inv n es H -> (n = slots \/ (1 <= n < slots)%nat /\ free es (padd idx n)) -> table_ok es.
Proof.
  intros Hi Hend. destruct (hi_hole _ _ _ Hi) as (h0 & Hh1 & Hh2 & HH).
  pose proof (hi_length _ _ _ Hi) as HL.
  assert (H < slots)%nat as HHs by (subst H; apply padd_lt; lia).
  assert (forall j e, occ es j e -> forall k, (k < slots)%nat ->
    on_path (home (te_pid e)) j k -> exists e', occ es k e') as Hpaths.
  { intros j e Ho. pose proof (occ_lt _ _ _ HL Ho) as Hj.
    assert (padd idx (cdist idx j) = j) as Ej by (by apply padd_cdist).
    assert (cdist idx j < slots)%nat as Hm by (by apply cdist_lt).
    rewrite <- Ej in Ho |- *. destruct (decide (cdist idx j < n)%nat) as [Hlt|Hge].
    - by apply (hi_done_path _ _ _ Hi).
    - apply (hi_out _ _ _ Hi); [lia| |done].
      intros Hr. destruct Hend as [->|[Hn Hf]]; [lia|].
      destruct (Hr n) as [e' [He' Ha']]; [lia|].
      destruct Hf as (e'' & He'' & Ha''). rewrite (hi_same _ _ _ Hi n) in He'' by lia. congruence. }
  split.
  - done.
  - apply Hi.
  - intros j e Ho. destruct (proj1 (hi_content _ _ _ Hi e) ltac:(eauto)) as (a & _ & Ha).
    by eapply Htr0.
  - exists (cdist H). intros j e Ho k Hk Hp. split; [by eapply Hpaths|].
    pose proof (occ_lt _ _ _ HL Ho) as Hj. pose proof (home_bound (te_pid e)) as Hh.
    assert (~ on_path (home (te_pid e)) j H) as Hnp.
    { intros HpH. destruct (Hpaths _ _ Ho H HHs HpH) as [e' He'].
      eapply free_not_occ; [apply Hi|done]. }
    assert (H <> j) as HHj by (intros ->; eapply free_not_occ; [apply Hi|done]).
    clear - Hnp HHj Hp Hk Hj Hh HHs. cyc.
Qed.

Lemma rehash_loop_ok n es H fuel :
  hole_inv n es H -> (1 <= n)%nat -> (n + fuel = slots)%nat ->
  let es' := rehash_loop es (Z.of_nat idx) (Z.of_nat n) fuel in
  table_ok es' /\
  forall e, (exists s, occ es' s e) <-> (exists a, a <> idx /\ occ es0 a e).
Proof.
  revert n es H. induction fuel as [|f IH]; intros n es H Hi Hn Hf; simpl.
  - split; [eapply hole_end; [done|left; lia]|apply Hi].
  - rewrite probe_index_padd by lia.
    assert (padd idx n < slots)%nat as Hu by (apply padd_lt; lia).
    destruct (occ_or_free es (padd idx n)) as [[v Hv]|Hfree]; [apply Hi|done| |].
    + pose proof Hv as [-> Ha]. rewrite Ha. simpl.
      assert (is_tracked v = true) as ->.
      { eapply (Htr0 (padd idx n)). by apply (todo_run n es H v Hi ltac:(lia)). }
      destruct (hole_step n es H v Hi) as [H' Hi']; [lia|done|].
      replace (Z.of_nat n + 1) with (Z.of_nat (S n)) by lia.
      apply (IH (S n) _ H'); [done|lia|lia].
    + pose proof Hfree as (e & -> & ->). simpl.
      split; [eapply hole_end; [done|right; split; [lia|done]]|apply Hi].
Qed.
End remove.

(** Deleting a present PID removes exactly its entry. *)
Lemma remove_entry_present es idx e :
  table_ok es -> occ es idx e ->
  table_ok (remove_entry es (te_pid e)) /\
  forall e', (exists s, occ (remove_entry es (te_pid e)) s e') <->
             (exists a, a <> idx /\ occ es a e').
Proof.
  intros Hok Ho. pose proof Hok as [HL HU HT [r HP]].
  pose proof (occ_lt _ _ _ HL Ho) as Hj. pose proof (home_bound (te_pid e)) as Hh.
  set (h := home (te_pid e)) in *.
  assert (forall i fuel, (i <= cdist h idx < i + fuel)%nat -> (i < slots)%nat ->
    remove_loop es (Z.of_nat h) (te_pid e) (Z.of_nat i) fuel =
    rehash_loop (deactivate es idx) (Z.of_nat idx) 1 (Z.to_nat TRACKED_PIDS_HASH_SIZE - 1)) as Hloop.
  { intros i fuel. revert i. induction fuel as [|f IH]; intros i Hi His; [lia|].
    cbn [remove_loop]. rewrite probe_index_padd by done.
    destruct (decide (i = cdist h idx)) as [->|Hne].
    - assert (padd h (cdist h idx) = idx) as -> by cyc.
      destruct Ho as [-> ->]. cbn [negb]. by rewrite Z.eqb_refl.
    - destruct (HP _ _ Ho (padd h i)) as [[e' He'] _]; [cyc|fold h; cyc|].
      assert (te_pid e' <> te_pid e) as Hp.
      { intros Hp. pose proof (HU _ _ _ _ He' Ho Hp). cyc. }
      destruct He' as [-> ->]. cbn [negb]. rewrite (proj2 (Z.eqb_neq _ _) Hp). cbn [negb].
      replace (Z.of_nat i + 1) with (Z.of_nat (S i)) by lia. apply IH; [lia|cyc]. }
  unfold remove_entry. rewrite pid_hash_home. fold h.
  rewrite (Hloop O); [| |apply slots_pos].
  - change 1 with (Z.of_nat 1). change (Z.to_nat TRACKED_PIDS_HASH_SIZE) with slots.
    pose proof slots_pos.
    eapply (rehash_loop_ok es idx e r) with (n := 1%nat) (H := idx); try done.
    all: try by eapply hole_start.
  - change (Z.to_nat TRACKED_PIDS_HASH_SIZE) with slots. cyc.
Qed.

Lemma remove_entry_absent es pid :
  (forall j e, occ es j e -> te_pid e <> pid) -> remove_entry es pid = es.
Proof.
  intros Habs. unfold remove_entry. generalize 0 (Z.to_nat TRACKED_PIDS_HASH_SIZE).
  intros i fuel. revert i. induction fuel as [|f IH]; intros i; cbn [remove_loop]; [done|].
  destruct (es !! probe_index (pid_hash pid) i) as [e|] eqn:E; [|done].
  destruct (is_active e) eqn:Ea; cbn [negb]; [|done].
  assert (te_pid e <> pid) as Hp by (eapply Habs; by split).
  rewrite (proj2 (Z.eqb_neq _ _) Hp). cbn [negb]. apply IH.
Qed.

(** ** The abstract map *)

(** What [pid_tracker_foreach] visits, as a map from PID to parent PID. *)
Definition abs (es : table) : gmap Z Z :=
  list_to_map (omap (fun e => if is_active e then Some (te_pid e, te_ppid e) else None) es).

Lemma omap_keys_NoDup {A} (f : A -> option (Z * Z)) (l : list A) :
  (forall i j x y p q q', l !! i = Some x -> l !! j = Some y ->
     f x = Some (p, q) -> f y = Some (p, q') -> i = j) ->
  NoDup (omap f l).*1.
Proof.
  induction l as [|x l IH]; intros H; [constructor|].
  assert (NoDup (omap f l).*1) as IHl.
  { apply IH. intros i j y z p q q' Hi Hj Hy Hz.
    assert (S i = S j) as [=]; [|done]. by eapply (H (S i) (S j)). }
  simpl. destruct (f x) as [[p q]|] eqn:E; [|done].
  simpl. constructor; [|done]. intros Hin.
  apply list_elem_of_fmap in Hin as ([p' q'] & Hp & Hin). simpl in Hp. subst p'.
  apply list_elem_of_omap in Hin as (y & Hy & Hfy). apply list_elem_of_lookup in Hy as [j Hj].
  assert (O = S j) as [=]. by eapply (H O (S j)).
Qed.

Lemma active_NoDup es : unique es ->
  NoDup (omap (fun e => if is_active e then Some (te_pid e, te_ppid e) else None) es).*1.
Proof.
  intros HU. apply omap_keys_NoDup. intros i j x y p q q' Hx Hy Hfx Hfy.
  destruct (is_active x) eqn:Ex; [|done]. destruct (is_active y) eqn:Ey; [|done].
  simplify_eq. by eapply HU.
Qed.

Lemma abs_lookup es p pp :
  unique es ->
  abs es !! p = Some pp <-> exists j e, occ es j e /\ te_pid e = p /\ te_ppid e = pp.
Proof.
  intros HU. unfold abs. rewrite <- elem_of_list_to_map by by apply active_NoDup.
  rewrite list_elem_of_omap. split.
  - intros (e & He & Hf). destruct (is_active e) eqn:Ea; [|done]. simplify_eq.
    apply list_elem_of_lookup in He as [j Hj]. exists j, e. unfold occ. auto.
  - intros (j & e & [Hj Ha] & <- & <-). exists e. rewrite Ha. split; [|done].
    by eapply list_elem_of_lookup_2.
Qed.

Lemma abs_lookup_None es p :
  unique es -> abs es !! p = None <-> forall j e, occ es j e -> te_pid e <> p.
Proof.
  intros HU. rewrite eq_None_not_Some. split.
  - intros Hn j e Ho <-. apply Hn. exists (te_ppid e). apply abs_lookup; eauto.
  - intros H [pp Hpp]. apply abs_lookup in Hpp as (j & e & Ho & Hp & _); [|done].
    by apply (H j e).
Qed.

(** Two tables with the same active entries are the same map. *)
Lemma abs_ext es m :
  unique es ->
  (forall p pp, m !! p = Some pp <-> exists j e, occ es j e /\ te_pid e = p /\ te_ppid e = pp) ->
  abs es = m.
Proof.
  intros HU H. apply map_eq. intros p. apply option_eq. intros pp.
  by rewrite abs_lookup, H.
Qed.

Lemma omap_length_le {A B} (f : A -> option B) l : (length (omap f l) <= length l)%nat.
Proof. induction l as [|x l IH]; csimpl; [lia|]. destruct (f x); csimpl; lia. Qed.

Lemma abs_size_lt es j : table_ok es -> free es j -> (size (abs es) < slots)%nat.
Proof.
  intros [HL HU _ _] (e & Hj & Ha). unfold abs.
  rewrite map_size_list_to_map by by apply active_NoDup.
  rewrite <- HL. apply list_elem_of_split_length in Hj as (l1 & l2 & -> & _).
  set (g := fun e => if is_active e then Some (te_pid e, te_ppid e) else None).
  rewrite omap_app. assert (omap g (e :: l2) = omap g l2) as -> by (csimpl; subst g; simpl; by rewrite Ha).
  rewrite !length_app. simpl.
  pose proof (omap_length_le g l1). pose proof (omap_length_le g l2). lia.
Qed.

Lemma abs_size_full es :
  table_ok es -> (forall j, (j < slots)%nat -> exists e, occ es j e) -> size (abs es) = slots.
Proof.
  intros [HL HU _ _] Hall. unfold abs.
  rewrite map_size_list_to_map by by apply active_NoDup.
  rewrite <- HL. assert (Forall (fun e => is_active e = true) es) as HF.
  { apply Forall_lookup_2. intros j e Hj. destruct (Hall j) as (e' & Hj' & Ha).
    - rewrite <- HL. by eapply lookup_lt_Some.
    - congruence. }
  clear -HF. induction HF as [|e es Ha _ IH]; [done|]. csimpl. rewrite Ha. csimpl. by rewrite IH.
Qed.

(** ** The abstract specification and the refinement *)

Module TrackerSpec.
Definition add (m : gmap Z Z) (pid ppid : Z) : gmap Z Z * bool :=
  match m !! pid with
  | Some _ => (m, true)
  | None => if decide (size m < slots)%nat then (<[pid := ppid]> m, true) else (m, false)
  end.
Definition remove (m : gmap Z Z) (pid : Z) : gmap Z Z := delete pid m.
Definition is_tracked (m : gmap Z Z) (pid : Z) : bool := bool_decide (is_Some (m !! pid)).
End TrackerSpec.

Definition tracker_ok (t : pid_tracker) : Prop := table_ok (entries t).

Definition tracked_map (t : pid_tracker) : gmap Z Z := abs (entries t).

Lemma zero_table_ok n : n = slots -> table_ok (replicate n zero_entry).
Proof.
  intros ->. assert (forall j e, ~ occ (replicate slots zero_entry) j e) as Hn.
  { intros j e [Hj Ha]. apply lookup_replicate in Hj as [-> _]. done. }
  split.
  - apply length_replicate.
  - intros i j e e' Hi. by destruct (Hn _ _ Hi).
  - intros j e Hj. by destruct (Hn _ _ Hj).
  - exists id. intros j e Hj. by destruct (Hn _ _ Hj).
Qed.

Lemma init_refines fs c mode tp :
  tracker_ok (pid_tracker_init fs c mode tp) /\
  tracked_map (pid_tracker_init fs c mode tp) = (∅ : gmap Z Z).
Proof.
  assert (tracker_ok (pid_tracker_init fs c mode tp)) as Hok by by apply zero_table_ok.
  split; [done|]. apply abs_ext; [apply Hok|]. intros p pp. rewrite lookup_empty.
  split; [done|]. intros (j & e & [Hj Ha] & _). unfold pid_tracker_init in Hj. cbn [entries] in Hj.
  apply lookup_replicate in Hj as [-> _]. done.
Qed.

Lemma add_entry_refines es pid ppid :
  table_ok es ->
  table_ok (fst (add_entry es pid ppid)) /\
  (abs (fst (add_entry es pid ppid)), snd (add_entry es pid ppid)) = TrackerSpec.add (abs es) pid ppid.
Proof.
  intros Hok. pose proof Hok as [HL HU HT HP]. unfold TrackerSpec.add.
  destruct (abs es !! pid) as [pp|] eqn:E.
  - apply abs_lookup in E as (j & e & Ho & <- & _); [|done].
    by rewrite (add_entry_present es j e).
  - pose proof (proj1 (abs_lookup_None es pid HU) E) as Hfresh.
    destruct (first_free es (home pid) HL (home_bound pid)) as [Hall|(d & Hd & Hf & Hpre)].
    + rewrite add_entry_full by done. simpl. split; [done|].
      rewrite (abs_size_full es) by done. by rewrite decide_False by lia.
    + rewrite (add_entry_fresh es pid ppid d) by done. simpl.
      rewrite decide_True by by eapply abs_size_lt.
      set (x := TrackedPidEntry pid ppid true true).
      assert (table_ok (<[padd (home pid) d := x]> es)) as Hok'
        by (apply (insert_first_free es x d); done).
      split; [done|]. f_equal. apply abs_ext; [apply Hok'|]. intros p pp.
      rewrite lookup_insert_Some. setoid_rewrite occ_insert;
        [|rewrite HL; apply padd_lt; [apply home_bound|done]].
      split.
      * intros [[-> ->]|[Hne Hp]].
        -- exists (padd (home p) d), x. split; [by left|done].
        -- apply abs_lookup in Hp as (j & e & Ho & <- & <-); [|done].
           exists j, e. split; [|done]. right. split; [|done].
           intros <-. by eapply free_not_occ.
      * intros (j & e & [(<- & <- & _)|[Hne Ho]] & <- & <-); [by left|right].
        split; [|apply abs_lookup; eauto]. intros Hpe. by apply (Hfresh j e).
Qed.

Lemma add_refines t pid ppid :
  tracker_ok t ->
  tracker_ok (fst (pid_tracker_add t pid ppid)) /\
  (tracked_map (fst (pid_tracker_add t pid ppid)), snd (pid_tracker_add t pid ppid))
    = TrackerSpec.add (tracked_map t) pid ppid.
Proof.
  intros Hok. destruct (add_entry_refines (entries t) pid ppid Hok) as [H1 H2].
  unfold pid_tracker_add, tracker_ok, tracked_map in *.
  destruct (add_entry (entries t) pid ppid) as [es ok]. by split.
Qed.

Lemma remove_refines t pid :
  tracker_ok t ->
  tracker_ok (pid_tracker_remove t pid) /\
  tracked_map (pid_tracker_remove t pid) = TrackerSpec.remove (tracked_map t) pid.
Proof.
  unfold tracker_ok, tracked_map, TrackerSpec.remove, pid_tracker_remove. cbn [entries set_entries].
  intros Hok. pose proof Hok as [HL HU HT HP].
  destruct (abs (entries t) !! pid) as [pp|] eqn:E.
  - apply abs_lookup in E as (j & e & Ho & <- & _); [|done].
    destruct (remove_entry_present _ j e Hok Ho) as [Hok' Hc]. split; [done|].
    apply abs_ext; [apply Hok'|]. intros p q. rewrite lookup_delete_Some, abs_lookup by done.
    split.
    + intros [Hne (k & e' & Ho' & <- & <-)].
      destruct (proj2 (Hc e')) as [s Hs]; [|by eauto].
      exists k. split; [|done]. intros ->. destruct Ho as [Ho _], Ho' as [Ho' _]. congruence.
    + intros (s & e' & Ho' & <- & <-).
      destruct (proj1 (Hc e')) as (a & Hne & Ha); [by eauto|]. split; [|by eauto].
      intros Heq. apply Hne. by apply (HU _ _ _ _ Ha Ho).
  - rewrite remove_entry_absent by by apply abs_lookup_None.
    split; [done|]. by rewrite delete_id.
Qed.

Lemma is_tracked_refines t pid :
  tracker_ok t -> pid_tracker_is_tracked t pid = TrackerSpec.is_tracked (tracked_map t) pid.
Proof.
  intros Hok. pose proof Hok as [HL HU HT HP].
  unfold pid_tracker_is_tracked, pid_tracker_find, TrackerSpec.is_tracked, tracked_map.
  destruct (abs (entries t) !! pid) as [pp|] eqn:E.
  - rewrite bool_decide_eq_true_2 by done.
    apply abs_lookup in E as (j & e & Ho & <- & _); [|done].
    rewrite (find_entry_occ _ j e) by done. pose proof (HT _ _ Ho). by destruct Ho as [-> _].
  - rewrite bool_decide_eq_false_2 by (intros [? ?]; done).
    rewrite find_entry_None; [done|]. by apply abs_lookup_None.
Qed.

#[export] Hint Resolve add_refines remove_refines is_tracked_refines init_refines : tracker.

(** ** The full table *)

Lemma tracked_size_le t : tracker_ok t -> (size (tracked_map t) <= slots)%nat.
Proof.
  intros Hok. destruct (first_free (entries t) 0 (ok_length _ Hok) slots_pos) as [Hall|(d & Hd & Hf & _)].
  - unfold tracked_map. by rewrite abs_size_full by (apply Hok || done).
  - pose proof (abs_size_lt (entries t) _ Hok Hf). unfold tracked_map. lia.
Qed.

Lemma add_when_full t pid ppid :
  tracker_ok t -> size (tracked_map t) = slots -> tracked_map t !! pid = None ->
  pid_tracker_add t pid ppid = (t, false).
Proof.
  intros Hok Hsz Hn. unfold pid_tracker_add.
  destruct (first_free (entries t) (home pid) (ok_length _ Hok) (home_bound pid)) as [Hall|(d & Hd & Hf & _)].
  - rewrite add_entry_full.
    + by destruct t.
    + by apply abs_lookup_None; [apply Hok|].
    + done.
  - pose proof (abs_size_lt (entries t) _ Hok Hf). unfold tracked_map in Hsz. lia.
Qed.

Lemma room_after_remove t pid ppid old :
  tracker_ok t -> tracked_map t !! pid = None -> is_Some (tracked_map t !! old) ->
  TrackerSpec.add (TrackerSpec.remove (tracked_map t) old) pid ppid
  = (<[pid := ppid]> (delete old (tracked_map t)), true).
Proof.
  intros Hok Hn Ho. unfold TrackerSpec.add, TrackerSpec.remove.
  rewrite (proj2 (lookup_delete_None _ _ _)) by auto. rewrite decide_True; [done|].
  pose proof (tracked_size_le t Hok). destruct Ho as [x Ho].
  rewrite map_size_delete, Ho. assert (size (tracked_map t) <> O); [|lia].
  intros H0. apply map_size_empty_inv in H0. by rewrite H0 in Ho.
Qed.

(** ** Command filters *)

Lemma command_matches_loop_spec comm fs i fuel :
  (i + fuel <= length fs)%nat ->
  command_matches_loop comm fs i fuel = true <->
  exists j f, (i <= j < i + fuel)%nat /\ fs !! j = Some f /\ cstr comm = cstr f.
Proof.
  revert i. induction fuel as [|fuel IH]; intros i Hl; cbn [command_matches_loop].
  - split; [done|]. intros (j & f & ? & _). lia.
  - destruct (lookup_lt_is_Some_2 fs i) as [f Hf]; [lia|]. rewrite Hf.
    destruct (streq comm f) eqn:E.
    + apply streq_spec in E. split; [|done]. intros _. exists i, f. split_and!; [lia|lia|done|done].
    + rewrite IH by lia. split; intros (j & g & Hj & Hg & Hc); exists j, g.
      * split_and!; [lia|lia|done|done].
      * split_and!; [|lia|done|done]. assert (i <> j); [|lia]. intros <-.
        assert (g = f) as -> by congruence. apply streq_spec in Hc. congruence.
Qed.

Lemma command_matches_spec comm fs n :
  0 <= n <= Z.of_nat (length fs) ->
  command_matches_any_filter comm fs n = true <->
  exists i f, Z.of_nat i < n /\ fs !! i = Some f /\ cstr comm = cstr f.
Proof.
  intros Hn. unfold command_matches_any_filter. rewrite command_matches_loop_spec by lia.
  split; intros (j & f & Hj & H); exists j, f; (split; [lia|done]).
Qed.

Lemma matches_none comm fs n : n <= 0 -> command_matches_any_filter comm fs n = false.
Proof. intros Hn. unfold command_matches_any_filter. by rewrite Z2Nat.nonpos. Qed.

(** ** Runs of the table *)

Inductive tracker_op := OpAdd (pid ppid : Z) | OpRemove (pid : Z).

(** The table after a sequence of operations, with the results of the adds. *)
Definition tracker_step (s : pid_tracker * list bool) (op : tracker_op) : pid_tracker * list bool :=
  match op with
  | OpAdd pid ppid => let '(t, ok) := pid_tracker_add (fst s) pid ppid in (t, snd s ++ [ok])
  | OpRemove pid => (pid_tracker_remove (fst s) pid, snd s)
  end.

Definition spec_step (s : gmap Z Z * list bool) (op : tracker_op) : gmap Z Z * list bool :=
  match op with
  | OpAdd pid ppid => let '(m, ok) := TrackerSpec.add (fst s) pid ppid in (m, snd s ++ [ok])
  | OpRemove pid => (TrackerSpec.remove (fst s) pid, snd s)
  end.

Lemma step_refines t rs op :
  tracker_ok t ->
  tracker_ok (fst (tracker_step (t, rs) op)) /\
  (tracked_map (fst (tracker_step (t, rs) op)), snd (tracker_step (t, rs) op))
    = spec_step (tracked_map t, rs) op.
Proof.
  intros Hok. destruct op as [pid ppid|pid]; simpl.
  - destruct (add_refines t pid ppid Hok) as [H1 H2].
    destruct (pid_tracker_add t pid ppid) as [t' ok]. simpl in *.
    destruct (TrackerSpec.add _ _ _). by simplify_eq.
  - destruct (remove_refines t pid Hok) as [H1 H2]. by rewrite H2.
Qed.

Lemma run_refines ops t rs :
  tracker_ok t ->
  tracker_ok (fst (foldl tracker_step (t, rs) ops)) /\
  (tracked_map (fst (foldl tracker_step (t, rs) ops)), snd (foldl tracker_step (t, rs) ops))
    = foldl spec_step (tracked_map t, rs) ops.
Proof.
  revert t rs. induction ops as [|op ops IH]; intros t rs Hok; [done|]. simpl.
  destruct (step_refines t rs op Hok) as [H1 H2].
  destruct (tracker_step (t, rs) op) as [t' rs']. simpl in *. rewrite <- H2. by apply IH.
Qed.

Lemma foreach_perm t : tracker_ok t -> pid_tracker_foreach t ≡ₚ map_to_list (tracked_map t).
Proof.
  intros [HL HU HT HP]. unfold tracked_map, abs, pid_tracker_foreach. symmetry.
  apply map_to_list_to_map. by apply active_NoDup.
Qed.

Lemma should_track_process_iff t comm pid ppid :
  tracker_ok t -> 0 <= command_filter_count t <= Z.of_nat (length (command_filters t)) ->
  should_track_process t comm pid ppid = true <->
  tr_filter_mode t <> FILTER_MODE_FILTER \/
  (0 < target_pid t /\ pid = target_pid t) \/
  is_Some (tracked_map t !! ppid) \/
  exists i f, Z.of_nat i < command_filter_count t /\ command_filters t !! i = Some f /\ cstr comm = cstr f.
Proof.
  intros Hok Hn. rewrite <- command_matches_spec by done. unfold should_track_process.
  rewrite is_tracked_refines by done. unfold TrackerSpec.is_tracked.
  destruct (tr_filter_mode t); [naive_solver..|].
  assert ((0 <? command_filter_count t) && command_matches_any_filter comm (command_filters t) (command_filter_count t)
    = command_matches_any_filter comm (command_filters t) (command_filter_count t)) as ->.
  { destruct (Z.ltb_spec 0 (command_filter_count t)); [done|]. by rewrite matches_none. }
  destruct (Z.ltb_spec 0 (target_pid t)), (Z.eqb_spec pid (target_pid t)); cbn [andb];
    try case_bool_decide; destruct (command_matches_any_filter _ _ _); naive_solver lia.
Qed.

(** ** Properties *)

(** C3: the 4096-slot linear-probing table, with its duplicate-tolerant add, its
    full-table refusal and its cluster re-insertion on delete, implements a
    finite map: after any sequence of adds and removes from the initial table,
    the adds returned what the map's adds return, a PID is tracked exactly
    when the map holds it, and [pid_tracker_foreach] visits each (pid, ppid)
    of the map exactly once. *)
Theorem pid_table_refines_map fs n mode tp ops :
  let r := foldl tracker_step (pid_tracker_init fs n mode tp, []) ops in
  let m := foldl spec_step (∅, []) ops in
  snd r = snd m /\
  (forall pid, pid_tracker_is_tracked (fst r) pid = TrackerSpec.is_tracked (fst m) pid) /\
  pid_tracker_foreach (fst r) ≡ₚ map_to_list (fst m).
Proof.
  destruct (init_refines fs n mode tp) as [Hi Hm]. cbv zeta.
  destruct (run_refines ops _ [] Hi) as [Hok Heq]. rewrite Hm in Heq.
  rewrite <- Heq. cbn [fst snd]. split_and!; [done| |by apply foreach_perm].
  intros pid. by apply is_tracked_refines.
Qed.

(** A full table refuses a new PID and stays as it was, and removing any
    tracked PID from a well-formed table (full or not) keeps every other
    tracked PID findable and makes room for a new one. *)
Theorem pid_table_full_and_reuse t pid ppid old :
  tracker_ok t ->
  pid_tracker_is_tracked t pid = false -> pid_tracker_is_tracked t old = true ->
  (size (tracked_map t) = slots -> pid_tracker_add t pid ppid = (t, false)) /\
  let t' := pid_tracker_remove t old in
  (forall p, p <> old -> pid_tracker_is_tracked t' p = pid_tracker_is_tracked t p) /\
  pid_tracker_is_tracked t' old = false /\
  snd (pid_tracker_add t' pid ppid) = true /\
  pid_tracker_is_tracked (fst (pid_tracker_add t' pid ppid)) pid = true.
Proof.
  intros Hok Hnew Hold.
  rewrite is_tracked_refines in Hnew, Hold by done. unfold TrackerSpec.is_tracked in Hnew, Hold.
  apply bool_decide_eq_false in Hnew. apply bool_decide_eq_true in Hold.
  destruct (add_refines t pid ppid Hok) as [_ Hfull].
  destruct (remove_refines t old Hok) as [Hok' Hm'].
  assert (tracked_map t !! pid = None) as Hn by by apply eq_None_not_Some.
  split.
  { intros Hsz. by apply add_when_full. }
  cbv zeta. set (t' := pid_tracker_remove t old) in *.
  split_and!.
  - intros p Hp. rewrite !is_tracked_refines, Hm' by done. unfold TrackerSpec.is_tracked, TrackerSpec.remove.
    by rewrite lookup_delete_ne by done.
  - rewrite is_tracked_refines, Hm' by done. unfold TrackerSpec.is_tracked, TrackerSpec.remove.
    rewrite lookup_delete_eq. done.
  - destruct (add_refines t' pid ppid Hok') as [_ Ha].
    rewrite Hm', room_after_remove in Ha by done. by injection Ha.
  - destruct (add_refines t' pid ppid Hok') as [Hok'' Ha].
    rewrite Hm', room_after_remove in Ha by done. injection Ha as Ha _.
    rewrite is_tracked_refines, Ha by done. unfold TrackerSpec.is_tracked.
    by rewrite lookup_insert_eq.
Qed.

(** A tracker holding PID 5 only. *)
Definition one_tracked : pid_tracker :=
  fst (pid_tracker_add (pid_tracker_init [] 0 FILTER_MODE_PROC 0) 5 1).

Lemma pid_table_full_and_reuse_witness :
  let t' := pid_tracker_remove one_tracked 5 in
  pid_tracker_is_tracked one_tracked 5 = true /\ pid_tracker_is_tracked t' 5 = false /\
  snd (pid_tracker_add t' 4101 1) = true.
Proof.
  destruct (pid_table_full_and_reuse one_tracked 4101 1 5) as (_ & _ & H1 & H2 & _).
  - apply add_refines, init_refines.
  - vm_compute. reflexivity.
  - vm_compute. reflexivity.
  - split; [vm_compute; reflexivity|]. split; [exact H1|exact H2].
Defined.

(** The tracking decision of the filter modes: every process in ALL and PROC
    mode; in FILTER mode exactly the target PID, the children of tracked
    processes, and the processes whose name equals one of the first
    [command_filter_count] command filters. *)
Theorem should_track_process_spec t comm pid ppid :
  tracker_ok t -> 0 <= command_filter_count t <= Z.of_nat (length (command_filters t)) ->
  should_track_process t comm pid ppid = true <->
  tr_filter_mode t <> FILTER_MODE_FILTER \/
  (0 < target_pid t /\ pid = target_pid t) \/
  is_Some (tracked_map t !! ppid) \/
  exists i f, Z.of_nat i < command_filter_count t /\ command_filters t !! i = Some f /\ cstr comm = cstr f.
Proof. apply should_track_process_iff. Qed.

Lemma should_track_process_spec_witness :
  let t := pid_tracker_init [lit "claude"; lit "node"] 2 FILTER_MODE_FILTER 77 in
  should_track_process t (lit "node" ++ [0]) 5 1 = true /\
  (should_track_process t (lit "bash") 5 1 = true <->
   FILTER_MODE_FILTER <> FILTER_MODE_FILTER \/ (0 < 77 /\ 5 = 77) \/
   is_Some (tracked_map t !! 1) \/
   exists i f, Z.of_nat i < 2 /\ [lit "claude"; lit "node"] !! i = Some f /\ cstr (lit "bash") = cstr f).
Proof.
  split; [vm_compute; reflexivity|].
  apply (should_track_process_spec (pid_tracker_init [lit "claude"; lit "node"] 2 FILTER_MODE_FILTER 77)).
  - apply init_refines.
  - simpl. lia.
Defined.
