(* ===== verification/Jsonl.v ===== *)
(** * JSONL emission helpers (src/bpf/jsonl.h)

    UTF-8 validation, the streaming escaper every tracer prints strings with,
    and the escaper into a fixed buffer.  The lemmas relate them to the
    reference definitions of [Unicode]. *)

From S2P Require Import Prelude CLib Unicode.

(** ** Definitions *)

(** [mbrtowc(&wc, s, |s|, &state)] from the initial state in a UTF-8 locale:
    the length of the character at the front, 0 when it is NUL, -1 when the
    bytes are not a lead byte and its continuation bytes.  C libraries differ
    on whether they also refuse overlong forms, surrogates and values above
    0x10FFFF: this conversion accepts them, and the callers check. *)
Definition mbrtowc (s : bytes) : Z :=
  match s with
  | [] => -2
  | c :: cs =>
      if c <? 0x80 then if c =? 0 then 0 else 1
      else
        let n := if (0xC0 <=? c) && (c <? 0xE0) then 1%nat
                 else if (0xE0 <=? c) && (c <? 0xF0) then 2%nat
                 else if (0xF0 <=? c) && (c <? 0xF8) then 3%nat else O in
        if bool_decide (n = O) then -1
        else if negb (forallb is_cont (take n cs)) then -1
        else if bool_decide (length cs < n)%nat then -2
        else if bool_decide (c = 0xC0 \/ c = 0xE0 \/ c = 0xF0) && forallb (Z.eqb 0x80) (take n cs)
        then 0
        else Z.of_nat (S n)
  end.

(** [str] is the memory from the pointer to the end of the [remaining]
    bytes. *)
Definition validate_utf8_char (str : bytes) : Z :=
  match str with
  | [] => 0
  | c :: _ =>
      if c <? 0x80 then 1
      else
        let expected_len :=
          if Z.land c 0xE0 =? 0xC0 then 2
          else if Z.land c 0xF0 =? 0xE0 then 3
          else if Z.land c 0xF8 =? 0xF0 then 4
          else 0 in
        if expected_len =? 0 then 0
        else if Z.of_nat (length str) <? expected_len then 0
        else
          let temp := take (Z.to_nat expected_len) str in
          let result := mbrtowc temp in
          if (result =? -1) || (result =? -2) || (result =? 0) then 0
          else
            let str_ (i : nat) := Z.land (nth i str 0) 0x3F in
            if expected_len =? 2 then
              let codepoint := Z.lor (Z.shiftl (Z.land c 0x1F) 6) (str_ 1%nat) in
              if codepoint <? 0x80 then 0 (* overlong *) else expected_len
            else if expected_len =? 3 then
              let codepoint :=
                Z.lor (Z.lor (Z.shiftl (Z.land c 0x0F) 12) (Z.shiftl (str_ 1%nat) 6)) (str_ 2%nat) in
              if codepoint <? 0x800 then 0 (* overlong *)
              else if (0xD800 <=? codepoint) && (codepoint <=? 0xDFFF) then 0 (* surrogate *)
              else expected_len
            else
              let codepoint :=
                Z.lor (Z.lor (Z.lor (Z.shiftl (Z.land c 0x07) 18) (Z.shiftl (str_ 1%nat) 12))
                         (Z.shiftl (str_ 2%nat) 6)) (str_ 3%nat) in
              if (codepoint <? 0x10000) || (0x10FFFF <? codepoint) then 0 else expected_len
  end.

(** The loop of [json_print_escaped] from index [i]: [s] is [buf + i] up to
    [buf + len], the result the text printed from there on. *)
Fixpoint json_print_loop (fuel : nat) (s : bytes) : bytes :=
  match fuel, s with
  | S f, c :: s' =>
      if (c =? 34) || (c =? 92) then [92; c] ++ json_print_loop f s'
      else if c =? 10 then lit "\n" ++ json_print_loop f s'
      else if c =? 13 then lit "\r" ++ json_print_loop f s'
      else if c =? 9 then lit "\t" ++ json_print_loop f s'
      else if c =? 8 then lit "\b" ++ json_print_loop f s'
      else if c =? 12 then lit "\f" ++ json_print_loop f s'
      else if (32 <=? c) && (c <=? 126) then [c] ++ json_print_loop f s'
      else if 128 <=? c then
        let utf8_len := validate_utf8_char s in
        if 0 <? utf8_len then
          take (Z.to_nat utf8_len) s ++ json_print_loop f (drop (Z.to_nat utf8_len) s)
        else lit "\u" ++ fmt_x4 c ++ json_print_loop f s'
      else lit "\u" ++ fmt_x4 c ++ json_print_loop f s'
  | _, _ => []
  end.

(** What [json_print_escaped(buf, len)] prints, [buf] being the [len] bytes. *)
Definition json_print_escaped (buf : bytes) : bytes := json_print_loop (length buf) buf.

Definition json_print_escaped_quoted (buf : bytes) : bytes :=
  [34] ++ json_print_escaped buf ++ [34].

(** The loop of [json_escape]: [src] is the source from index [i] on, [j] the
    write index.  [None] is an access outside one of the arrays. *)
Fixpoint json_escape_loop (src dst : bytes) (dst_size j : Z) : option (bytes * Z) :=
  match src with
  | [] => None  (* the source is not NUL-terminated *)
  | c :: src' =>
      if negb (c =? 0) && (j <? u64 (dst_size - 2)) then
        let two e :=
          if j + 2 <? dst_size then
            dst1 ← store dst j 92; dst2 ← store dst1 (j + 1) e;
            json_escape_loop src' dst2 dst_size (j + 2)
          else json_escape_loop src' dst dst_size j in
        if c =? 92 then two 92
        else if c =? 34 then two 34
        else if c =? 10 then two 110
        else if c =? 9 then two 116
        else dst1 ← store dst j c; json_escape_loop src' dst1 dst_size (j + 1)
      else Some (dst, j)
  end.

Definition json_escape (src dst : bytes) : option bytes :=
  '(dst', j) ← json_escape_loop src dst (Z.of_nat (length dst)) 0; store dst' j 0.

Example json_print_escaped_ex :
  json_print_escaped [97; 34; 10; 1; 0xC3; 0xA9; 0xC3; 127] = jlit "a\'\n\u0001" ++ [0xC3; 0xA9] ++ lit "\u00c3\u007f".
Proof. vm_compute. reflexivity. Qed.

(** ** Lemmas: validation *)

(** A boolean fact about bytes holds when it holds of the 256 of them. *)
Lemma byte_forall (P : Z -> bool) :
  forallb P (map Z.of_nat (seq 0 256)) = true -> forall c, byte_ok c -> P c = true.
Proof.
  intros H c [H0 H1]. apply (proj1 (forallb_forall _ _) H).
  apply in_map_iff. exists (Z.to_nat c). split; [lia|]. apply in_seq. lia.
Qed.

Lemma land_lead2 c : byte_ok c -> (Z.land c 0xE0 =? 0xC0) = (0xC0 <=? c) && (c <? 0xE0).
Proof.
  intros Hc. apply eqb_prop.
  apply (byte_forall (fun c => Bool.eqb (Z.land c 0xE0 =? 0xC0) ((0xC0 <=? c) && (c <? 0xE0)))); [by vm_compute|done].
Qed.

Lemma land_lead3 c : byte_ok c -> (Z.land c 0xF0 =? 0xE0) = (0xE0 <=? c) && (c <? 0xF0).
Proof.
  intros Hc. apply eqb_prop.
  apply (byte_forall (fun c => Bool.eqb (Z.land c 0xF0 =? 0xE0) ((0xE0 <=? c) && (c <? 0xF0)))); [by vm_compute|done].
Qed.

Lemma land_lead4 c : byte_ok c -> (Z.land c 0xF8 =? 0xF0) = (0xF0 <=? c) && (c <? 0xF8).
Proof.
  intros Hc. apply eqb_prop.
  apply (byte_forall (fun c => Bool.eqb (Z.land c 0xF8 =? 0xF0) ((0xF0 <=? c) && (c <? 0xF8)))); [by vm_compute|done].
Qed.

(** The payload bits of a byte in a range that fixes the others. *)
Lemma land_payload n k c :
  0 <= n -> k * 2 ^ n <= c < (k + 1) * 2 ^ n -> Z.land c (2 ^ n - 1) = c - k * 2 ^ n.
Proof.
  intros Hn Hc. rewrite land_mask by done. symmetry. apply Z.mod_unique with k; [left|]; lia.
Qed.

Lemma lor_shiftl_add a b n : 0 <= n -> 0 <= b < 2 ^ n -> Z.lor (Z.shiftl a n) b = a * 2 ^ n + b.
Proof.
  intros Hn Hb. rewrite Z.shiftl_mul_pow2 by done.
  assert (Z.land (a * 2 ^ n) b = 0) as Hd.
  { apply Z.bits_inj'. intros m Hm. rewrite Z.land_spec, Z.bits_0.
    destruct (Z.lt_ge_cases m n).
    - by rewrite Z.mul_pow2_bits_low.
    - rewrite <- (Z.mod_small b (2 ^ n)) by done.
      rewrite Z.mod_pow2_bits_high by lia. apply andb_false_r. }
  by rewrite <- Z.lxor_lor, <- Z.add_nocarry_lxor by done.
Qed.

(** Two payloads side by side, as the code composes them. *)
Lemma shiftl_lor a b n m : 0 <= n -> Z.lor (Z.shiftl a (n + m)) (Z.shiftl b m) = Z.shiftl (Z.lor (Z.shiftl a n) b) m.
Proof. intros Hn. rewrite Z.shiftl_lor, Z.shiftl_shiftl; [done|lia]. Qed.

Lemma cont_payload d : is_cont d = true -> Z.land d 0x3F = d - 0x80.
Proof. intros H. apply is_cont_spec in H. apply (land_payload 6 2); lia. Qed.

Lemma codepoint2 a d :
  is_cont d = true -> Z.lor (Z.shiftl a 6) (Z.land d 0x3F) = a * 64 + (d - 0x80).
Proof.
  intros Hd. rewrite (cont_payload _ Hd). apply is_cont_spec in Hd.
  rewrite lor_shiftl_add; lia.
Qed.

Lemma codepoint3 a d e :
  is_cont d = true -> is_cont e = true ->
  Z.lor (Z.lor (Z.shiftl a 12) (Z.shiftl (Z.land d 0x3F) 6)) (Z.land e 0x3F)
  = a * 4096 + (d - 0x80) * 64 + (e - 0x80).
Proof.
  intros Hd He. rewrite (shiftl_lor _ _ 6 6), codepoint2, codepoint2 by (done || lia). lia.
Qed.

Lemma codepoint4 a d e f :
  is_cont d = true -> is_cont e = true -> is_cont f = true ->
  Z.lor (Z.lor (Z.lor (Z.shiftl a 18) (Z.shiftl (Z.land d 0x3F) 12)) (Z.shiftl (Z.land e 0x3F) 6))
    (Z.land f 0x3F)
  = a * 262144 + (d - 0x80) * 4096 + (e - 0x80) * 64 + (f - 0x80).
Proof.
  intros Hd He Hf. rewrite (shiftl_lor _ _ 6 12), (shiftl_lor _ _ 6 6) by lia.
  rewrite (codepoint2 a d), codepoint2, codepoint2 by done. lia.
Qed.

(** The length [validate_utf8_char] returns, from a decoder. *)
Definition utf8_len (s : bytes) : Z :=
  match utf8_next s with Some (_, n) => Z.of_nat n | None => 0 end.

Lemma mbrtowc_lead c cs n :
  0x80 <= c ->
  ((0xC0 <= c < 0xE0 /\ n = 1%nat) \/ (0xE0 <= c < 0xF0 /\ n = 2%nat) \/ (0xF0 <= c < 0xF8 /\ n = 3%nat)) ->
  length cs = n ->
  (mbrtowc (c :: cs) =? -1) || (mbrtowc (c :: cs) =? -2) || (mbrtowc (c :: cs) =? 0)
  = negb (forallb is_cont cs &&
          negb (bool_decide (c = 0xC0 \/ c = 0xE0 \/ c = 0xF0) && forallb (Z.eqb 0x80) cs)).
Proof.
  intros Hc Hn Hl. unfold mbrtowc. rewrite (proj2 (Z.ltb_ge c 0x80)) by lia.
  assert ((if (0xC0 <=? c) && (c <? 0xE0) then 1%nat
           else if (0xE0 <=? c) && (c <? 0xF0) then 2%nat
           else if (0xF0 <=? c) && (c <? 0xF8) then 3%nat else O) = n) as ->
    by (destruct Hn as [[? ->]|[[? ->]|[? ->]]]; decide_tests; done).
  rewrite bool_decide_eq_false_2 by lia. rewrite firstn_all2 by lia.
  destruct (forallb is_cont cs); [|done]. cbn [negb andb].
  rewrite bool_decide_eq_false_2 by lia.
  destruct (_ && _); [done|]. cbn [negb orb]. decide_tests. done.
Qed.

Ltac conts := repeat match goal with H : is_cont _ = true |- _ => apply is_cont_spec in H end.

Lemma validate_two c s :
  0xC0 <= c < 0xE0 -> validate_utf8_char (c :: s) = utf8_len (c :: s).
Proof.
  intros Hc. unfold validate_utf8_char, utf8_len, utf8_next.
  rewrite land_lead2 by (unfold byte_ok; lia). decide_tests. cbn [andb].
  change (2 =? 0) with false. change (2 =? 2) with true. cbn match.
  destruct s as [|d s]; [done|]. change (Z.to_nat 2) with 2%nat. cbn [firstn nth]; rewrite ?take_0.
  rewrite (proj2 (Z.ltb_ge _ _)) by (cbn [length]; lia).
  rewrite (mbrtowc_lead c [d] 1) by (lia || done). cbn [forallb].
  rewrite (land_payload 5 6) by lia.
  destruct (is_cont d) eqn:Ed; [|done]. rewrite codepoint2 by done. conts.
  cbn [andb negb]. rewrite negb_involutive, andb_true_r.
  case_bool_decide; cbn [andb]; repeat case_match; bool_to_prop; simplify_eq; lia || done.
Qed.

Lemma validate_three c s :
  0xE0 <= c < 0xF0 -> validate_utf8_char (c :: s) = utf8_len (c :: s).
Proof.
  intros Hc. unfold validate_utf8_char, utf8_len, utf8_next.
  rewrite land_lead2, land_lead3 by (unfold byte_ok; lia). decide_tests. cbn [andb].
  change (3 =? 0) with false. change (3 =? 2) with false. change (3 =? 3) with true. cbn match.
  destruct s as [|d [|e s]]; [done..|]. change (Z.to_nat 3) with 3%nat. cbn [firstn nth]; rewrite ?take_0.
  rewrite (proj2 (Z.ltb_ge _ _)) by (cbn [length]; lia).
  rewrite (mbrtowc_lead c [d; e] 2) by (lia || done). cbn [forallb].
  rewrite (land_payload 4 14) by lia.
  destruct (is_cont d) eqn:Ed; [|done]. destruct (is_cont e) eqn:Ee; [|done].
  rewrite codepoint3 by done. conts.
  cbn [andb negb]. rewrite negb_involutive, andb_true_r.
  case_bool_decide; cbn [andb]; repeat case_match; bool_to_prop; simplify_eq; lia || done.
Qed.

Lemma validate_four c s :
  0xF0 <= c < 0xF8 -> validate_utf8_char (c :: s) = utf8_len (c :: s).
Proof.
  intros Hc. unfold validate_utf8_char, utf8_len, utf8_next.
  rewrite land_lead2, land_lead3, land_lead4 by (unfold byte_ok; lia). decide_tests. cbn [andb].
  change (4 =? 0) with false. change (4 =? 2) with false. change (4 =? 3) with false. cbn match.
  destruct s as [|d [|e [|f s]]]; [done..|]. change (Z.to_nat 4) with 4%nat. cbn [firstn nth]; rewrite ?take_0.
  rewrite (proj2 (Z.ltb_ge _ _)) by (cbn [length]; lia).
  rewrite (mbrtowc_lead c [d; e; f] 3) by (lia || done). cbn [forallb].
  rewrite (land_payload 3 30) by lia.
  destruct (is_cont d) eqn:Ed; [|done]. destruct (is_cont e) eqn:Ee; [|done].
  destruct (is_cont f) eqn:Ef; [|done]. rewrite codepoint4 by done. conts.
  cbn [andb negb]. rewrite negb_involutive, andb_true_r.
  case_bool_decide; cbn [andb]; repeat case_match; bool_to_prop; simplify_eq; lia || done.
Qed.

(** [validate_utf8_char] returns the length of the character at the front, 0
    when the bytes there are not the UTF-8 encoding of a scalar value. *)
Lemma validate_utf8_len s : bytes_ok s -> validate_utf8_char s = utf8_len s.
Proof.
  intros Hok. destruct s as [|c s]; [done|]. apply bytes_ok_cons in Hok as [[H0 H1] _].
  destruct (Z.ltb_spec c 0x80); [|destruct (decide (0xC0 <= c < 0xE0)) as [|H2]; [by apply validate_two|]].
  { unfold validate_utf8_char, utf8_len. rewrite utf8_next_ascii by done. by decide_tests. }
  destruct (decide (0xE0 <= c < 0xF0)) as [|H3]; [by apply validate_three|].
  destruct (decide (0xF0 <= c < 0xF8)) as [|H4]; [by apply validate_four|].
  unfold validate_utf8_char, utf8_len, utf8_next.
  rewrite land_lead2, land_lead3, land_lead4 by done.
  destruct (Z.leb_spec 0xC0 c), (Z.ltb_spec c 0xE0), (Z.leb_spec 0xE0 c), (Z.ltb_spec c 0xF0),
    (Z.leb_spec 0xF0 c), (Z.ltb_spec c 0xF8); try lia; decide_tests; destruct s as [|? [|? [|? ?]]]; done.
Qed.

(** ** Lemmas: the streaming escaper *)

Lemma hex_digit_val d : 0 <= d < 16 -> hex_val (hex_digit d) = Some d.
Proof.
  intros Hd. unfold hex_val, hex_digit. destruct (Z.ltb_spec d 10); decide_tests; cbn [andb]; f_equal; lia.
Qed.

Lemma hex_digit_ge d : 0 <= d < 16 -> 48 <= hex_digit d < 127.
Proof. intros. unfold hex_digit. case_match; lia. Qed.

(** [\u%04x] of a byte is the escape of that code point. *)
Lemma json_body_x4 c : byte_ok c -> json_body (lit "\u" ++ fmt_x4 c) = Some [c].
Proof.
  intros [H0 H1]. unfold fmt_x4. rewrite Z.div_small, Z.mod_small by lia.
  unfold json_body. cbn [lit map Z_of_ascii fmt_x2 app length json_body_fuel String.list_ascii_of_string].
  change (hex_val (hex_digit (0 / 16))) with (Some 0). change (hex_val (hex_digit (0 mod 16))) with (Some 0).
  change (Z_of_ascii _ =? 92) with true. change (Z_of_ascii _ =? 117) with true.
  cbn [mbind option_bind]. cbn match.
  assert (0 <= c / 16 < 16) by (split; [apply Z.div_pos|apply Z.div_lt_upper_bound]; lia).
  pose proof (Z.mod_pos_bound c 16).
  rewrite !hex_digit_val by lia. cbn [mbind option_bind].
  replace (((0 * 16 + 0) * 16 + c / 16) * 16 + c mod 16) with c by (pose proof (Z.div_mod c 16); lia).
  decide_tests. done.
Qed.

(** A character outside the escaped ones is its own text. *)
Lemma json_body_char s cp n :
  utf8_next s = Some (cp, n) -> 32 <= cp -> cp <> 34 -> cp <> 92 -> json_body (take n s) = Some [cp].
Proof.
  intros Hn Hge H34 H92. pose proof (utf8_next_take _ _ _ Hn) as Ht.
  pose proof (utf8_next_length _ _ _ Hn) as Hl.
  assert (length (take n s) = n) as Hlen by (rewrite length_take; lia).
  unfold json_body. rewrite Hlen. destruct n as [|n]; [lia|].
  apply utf8_next_inv in Ht as Hi. destruct Hi as (c & cs & r & Hs & _ & _ & _ & Hc).
  destruct (take (S n) s) as [|c' t] eqn:E; [done|]. cbn [app] in Hs. injection Hs as -> Hs.
  cbn [json_body_fuel].
  assert (c = cp \/ 0xC0 <= c) as Hcc by (destruct Hc as [(? & ? & ?)|(? & ? & ?)]; [by left|right; lia]).
  decide_tests. cbn [orb]. rewrite Ht. cbn [mbind option_bind]. rewrite drop_ge by (rewrite Hlen; lia).
  by destruct n.
Qed.

Lemma utf8_latin1_fuel_more f f' s :
  (length s <= f)%nat -> (length s <= f')%nat -> utf8_latin1_fuel f s = utf8_latin1_fuel f' s.
Proof.
  revert f' s. induction f as [|f IH]; intros f' s Hf Hf'; destruct s as [|c s], f' as [|f']; simpl in Hf, Hf'; try done || lia.
  cbn [utf8_latin1_fuel]. destruct (utf8_next (c :: s)) as [[cp n]|] eqn:E.
  - apply utf8_next_length in E. f_equal. apply IH; rewrite length_drop; simpl; lia.
  - f_equal. apply IH; lia.
Qed.

Lemma utf8_decode_latin1 s cps : utf8_decode s = Some cps -> utf8_latin1 s = cps.
Proof.
  unfold utf8_decode, utf8_latin1. generalize (length s) as f. intros f. revert s cps.
  induction f as [|f IH]; intros s cps H; destruct s as [|c s]; [by simplify_eq/=|done|by simplify_eq/=|].
  cbn [utf8_decode_fuel utf8_latin1_fuel] in *.
  destruct (utf8_next (c :: s)) as [[cp n]|]; [|done]. cbn [mbind option_bind] in H.
  destruct (utf8_decode_fuel f (drop n (c :: s))) as [t|] eqn:E; [|done].
  cbn [mbind option_bind] in H. injection H as <-. by rewrite (IH _ _ E).
Qed.

(** No control character: the property that keeps an output line one line. *)
Definition printable (l : bytes) : Prop := Forall (fun b => 32 <= b < 256) l.

Lemma printable_test l : forallb (fun b => (32 <=? b) && (b <? 256)) l = true -> printable l.
Proof.
  intros H. apply Forall_forall. intros b Hb. apply list_elem_of_In in Hb.
  apply (proj1 (forallb_forall _ _) H) in Hb. bool_to_prop. lia.
Qed.

Lemma printable_x4 c : byte_ok c -> printable (lit "\u" ++ fmt_x4 c).
Proof.
  intros [Hc0 Hc1]. apply Forall_app. split; [by apply printable_test|].
  unfold fmt_x4. rewrite Z.div_small, Z.mod_small by lia.
  assert (0 <= c / 16 < 16) by (split; [apply Z.div_pos|apply Z.div_lt_upper_bound]; lia).
  pose proof (Z.mod_pos_bound c 16).
  pose proof (hex_digit_ge (c / 16)). pose proof (hex_digit_ge (c mod 16)).
  repeat constructor; try (vm_compute; congruence); lia.
Qed.

(** What the loop owes for the text it prints from a suffix [s] on. *)
Definition loop_ok (f : nat) (out s : bytes) : Prop :=
  json_body out = Some (utf8_latin1_fuel f s) /\ printable out.

Lemma loop_ok_nil f : loop_ok f [] [].
Proof. split; [by destruct f|constructor]. Qed.

(** One byte printed as an escape, then the rest. *)
Lemma loop_escape f c s t out :
  loop_ok f out s -> c < 0x80 \/ utf8_next (c :: s) = None ->
  json_body t = Some [c] -> printable t -> loop_ok (S f) (t ++ out) (c :: s).
Proof.
  intros [IH1 IH2] Hlow Ht Hp. split; [|by apply Forall_app].
  rewrite (json_body_app _ _ _ _ Ht IH1). cbn [utf8_latin1_fuel].
  destruct Hlow as [Hlow| ->]; [|done]. by rewrite utf8_next_ascii.
Qed.

Lemma loop_escape_x4 f c s out :
  loop_ok f out s -> c < 0x80 \/ utf8_next (c :: s) = None -> byte_ok c ->
  loop_ok (S f) (lit "\u" ++ fmt_x4 c ++ out) (c :: s).
Proof.
  intros. rewrite app_assoc. apply loop_escape; auto using json_body_x4, printable_x4.
Qed.

(** A multi-byte character copied, then the rest. *)
Lemma loop_copy f c s cp n out :
  utf8_next (c :: s) = Some (cp, n) -> 0x80 <= c < 256 ->
  loop_ok f out (drop n (c :: s)) -> loop_ok (S f) (take n (c :: s) ++ out) (c :: s).
Proof.
  intros E Hc [IH1 IH2].
  apply utf8_next_inv in E as Hi. destruct Hi as (c' & cs & r & Hs' & Hn & _ & Hcont & Hcs).
  injection Hs' as <- Hs'. destruct Hcs as [[? _]|(Hc' & _ & _ & Hcp)]; [lia|]. split.
  - cbn [utf8_latin1_fuel]. rewrite E.
    by rewrite (json_body_app _ _ _ _ (json_body_char _ _ _ E ltac:(lia) ltac:(lia) ltac:(lia)) IH1).
  - apply Forall_app. split; [|done]. rewrite Hs', Hn. cbn [take].
    rewrite take_app_length. constructor; [lia|]. eapply Forall_impl; [exact Hcont|].
    intros b Hb. apply is_cont_spec in Hb. lia.
Qed.

(** An ASCII byte whose escape is a literal. *)
Ltac low := by apply loop_escape; [|left; lia| |apply printable_test].

(** The printed text is a valid JSON string body with no control character
    that decodes to the characters of the buffer. *)
Lemma json_print_loop_spec f s :
  bytes_ok s -> (length s <= f)%nat -> loop_ok f (json_print_loop f s) s.
Proof.
  revert s. induction f as [|f IH]; intros s Hok Hf; [destruct s; [apply loop_ok_nil|simpl in Hf; lia]|].
  destruct s as [|c s]; [apply loop_ok_nil|]. pose proof Hok as Hok0. apply bytes_ok_cons in Hok as [Hc Hs].
  simpl in Hf. assert (loop_ok f (json_print_loop f s) s) as IHs by (apply IH; [done|lia]).
  destruct Hc as [Hc0 Hc1]. cbn [json_print_loop].
  destruct (Z.eqb_spec c 34) as [->|H34]; [low|].
  destruct (Z.eqb_spec c 92) as [->|H92]; [low|]. cbn [orb].
  destruct (Z.eqb_spec c 10) as [->|H10]; [low|].
  destruct (Z.eqb_spec c 13) as [->|H13]; [low|].
  destruct (Z.eqb_spec c 9) as [->|H9]; [low|].
  destruct (Z.eqb_spec c 8) as [->|H8]; [low|].
  destruct (Z.eqb_spec c 12) as [->|H12]; [low|].
  destruct ((32 <=? c) && (c <=? 126)) eqn:Eprint; bool_to_prop.
  { apply (loop_escape f c s [c]); [done|left; lia| |repeat constructor; lia].
    change [c] with (take 1 (c :: s)). apply json_body_char; [apply utf8_next_ascii; lia|lia..]. }
  destruct (Z.leb_spec 128 c) as [H128|H128]; [|apply loop_escape_x4; [done|left; lia|done]].
  rewrite validate_utf8_len by done. unfold utf8_len.
  destruct (utf8_next (c :: s)) as [[cp n]|] eqn:E; [|by apply loop_escape_x4; [|right|]].
  pose proof (utf8_next_length _ _ _ E) as Hn. rewrite (proj2 (Z.ltb_lt _ _)), Nat2Z.id by lia.
  apply (loop_copy _ _ _ cp); [done|lia|]. apply IH.
  - rewrite <- (take_drop n (c :: s)) in Hok0. by apply bytes_ok_app in Hok0 as [_ ?].
  - rewrite length_drop. simpl in *. lia.
Qed.

Lemma json_print_escaped_body s :
  bytes_ok s -> json_body (json_print_escaped s) = Some (utf8_latin1 s).
Proof. intros H. by apply json_print_loop_spec. Qed.

(** What [json_print_escaped_quoted] prints is a JSON string value. *)
Lemma json_print_escaped_quoted_value s :
  bytes_ok s -> value_text (json_print_escaped_quoted s) (JStr (utf8_latin1 s)).
Proof. intros H. apply vt_str. by apply json_print_escaped_body. Qed.

#[export] Hint Resolve json_print_escaped_body json_print_escaped_quoted_value : json.

(** ** Lemmas: the escaper into a buffer *)

(** What [json_escape] writes for one byte, and for a string. *)
Definition esc1 (c : Z) : bytes :=
  if c =? 92 then [92; 92] else if c =? 34 then [92; 34]
  else if c =? 10 then [92; 110] else if c =? 9 then [92; 116] else [c].

Definition escs (s : bytes) : bytes := concat (map esc1 s).

Lemma escs_app s t : escs (s ++ t) = escs s ++ escs t.
Proof. unfold escs. by rewrite map_app, concat_app. Qed.

Lemma esc1_length c : (1 <= length (esc1 c) <= 2)%nat.
Proof. unfold esc1. repeat case_match; simpl; lia. Qed.

Lemma escs_length s : (length s <= length (escs s) <= 2 * length s)%nat.
Proof.
  induction s as [|c s IH]; [simpl; lia|]. unfold escs in *. cbn [map concat].
  rewrite length_app. pose proof (esc1_length c). simpl. lia.
Qed.

(** One byte's step of the loop, when there is room. *)
Lemma json_escape_step c src l r size :
  c <> 0 -> Z.of_nat (length (l ++ r)) = size -> 2 <= size < 2 ^ 64 ->
  Z.of_nat (length l) < size - 2 ->
  exists r', length r = (length (esc1 c) + length r')%nat /\
    json_escape_loop (c :: src) (l ++ r) size (Z.of_nat (length l)) =
    json_escape_loop src ((l ++ esc1 c) ++ r') size (Z.of_nat (length (l ++ esc1 c))).
Proof.
  intros Hc Hlen Hsz Hl. rewrite length_app in Hlen.
  destruct r as [|x [|y r]]; [simpl in Hlen; lia..|].
  cbn [json_escape_loop]. rewrite (proj2 (Z.eqb_neq c 0)) by done.
  rewrite (wrapu_id 64) by lia. rewrite (proj2 (Z.ltb_lt _ (size - 2))) by lia. cbn [negb andb].
  rewrite (proj2 (Z.ltb_lt _ size)) by lia. unfold esc1.
  assert (forall e, (dst1 ← store (l ++ x :: y :: r) (Z.of_nat (length l)) 92;
     dst2 ← store dst1 (Z.of_nat (length l) + 1) e;
     json_escape_loop src dst2 size (Z.of_nat (length l) + 2)) =
     json_escape_loop src ((l ++ [92; e]) ++ r) size (Z.of_nat (length (l ++ [92; e])))) as Htwo.
  { intros e. rewrite store_app. cbn [mbind option_bind].
    replace (Z.of_nat (length l) + 1) with (Z.of_nat (length (l ++ [92]))) by (rewrite length_app; simpl; lia).
    replace (l ++ 92 :: y :: r) with ((l ++ [92]) ++ y :: r) by by rewrite <- app_assoc.
    rewrite store_app. cbn [mbind option_bind]. rewrite <- !app_assoc. cbn [app].
    rewrite length_app. cbn [length]. f_equal. lia. }
  destruct (c =? 92); [exists r; split; [done|apply Htwo]|].
  destruct (c =? 34); [exists r; split; [done|apply Htwo]|].
  destruct (c =? 10); [exists r; split; [done|apply Htwo]|].
  destruct (c =? 9); [exists r; split; [done|apply Htwo]|].
  exists (y :: r). split; [done|]. rewrite store_app. cbn [mbind option_bind].
  rewrite <- app_assoc. cbn [app]. rewrite length_app. cbn [length]. f_equal. lia.
Qed.

(** The loop writes the escapes of a prefix of the string: all of it, or as
    much as brings the write index to [dst_size - 2]. *)
Lemma json_escape_loop_spec src l r size :
  0 ∈ src -> Z.of_nat (length (l ++ r)) = size -> 2 <= size < 2 ^ 64 ->
  Z.of_nat (length l) <= size - 1 ->
  exists k r', let out := l ++ escs (take k (cstr src)) in
    json_escape_loop src (l ++ r) size (Z.of_nat (length l)) =
      Some (out ++ r', Z.of_nat (length out)) /\
    length (out ++ r') = length (l ++ r) /\ Z.of_nat (length out) <= size - 1 /\
    (take k (cstr src) = cstr src \/ size - 2 <= Z.of_nat (length out)).
Proof.
  revert l r. induction src as [|c src IH]; intros l r Hin Hlen Hsz Hl; [by apply not_elem_of_nil in Hin|].
  destruct (Z.eqb_spec c 0) as [->|Hc].
  { exists O, r. cbn [take]. change (escs []) with (@nil Z). rewrite app_nil_r. cbn [json_escape_loop].
    rewrite Z.eqb_refl. auto. }
  destruct (Z.ltb_spec (Z.of_nat (length l)) (size - 2)) as [Hlt|Hge].
  - destruct (json_escape_step c src l r size) as (r1 & Hr & ->); [done..|].
    apply elem_of_cons in Hin as [?|Hin]; [congruence|]. pose proof (esc1_length c).
    rewrite length_app in Hlen.
    destruct (IH (l ++ esc1 c) r1 Hin) as (k & r' & -> & H1 & H2 & H3);
      [rewrite ?length_app in *; lia..|].
    exists (S k), r'. unfold cstr in *. cbn [take_while].
    rewrite (proj2 (Z.eqb_neq c 0)) by done. cbn [negb take].
    change (escs (c :: ?t)) with (esc1 c ++ escs t). rewrite <- !app_assoc in *.
    split_and!; [done| |done|]; [rewrite ?length_app in *; lia|].
    destruct H3 as [->|]; [by left|by right].
  - exists O, r. cbn [take json_escape_loop]. change (escs []) with (@nil Z). rewrite app_nil_r.
    rewrite (wrapu_id 64) by lia. rewrite (proj2 (Z.ltb_ge _ _)), andb_false_r by lia. auto.
Qed.

(** [json_escape] never writes outside [dst], terminates the string, and
    writes the escapes of a prefix of the source: all of it when it fits. *)
Lemma json_escape_prefix src dst :
  0 ∈ src -> 2 <= Z.of_nat (length dst) < 2 ^ 64 ->
  exists k r, let out := escs (take k (cstr src)) in
    json_escape src dst = Some (out ++ 0 :: r) /\ length (out ++ 0 :: r) = length dst /\
    (take k (cstr src) = cstr src \/ Z.of_nat (length dst) - 2 <= Z.of_nat (length out)).
Proof.
  intros Hin Hsz. unfold json_escape.
  destruct (json_escape_loop_spec src [] dst (Z.of_nat (length dst))) as (k & r & E & H1 & H2 & H3);
    [done|done|done|simpl; lia|].
  cbn [app] in *. change (Z.of_nat (length [])) with 0 in E. rewrite E. cbn [mbind option_bind].
  destruct r as [|x r]; [rewrite app_nil_r in H1; lia|].
  rewrite store_app. exists k, r. split; [done|]. split; [|done].
  rewrite length_app in *. done.
Qed.

Lemma json_escape_fits src dst :
  0 ∈ src -> 2 <= Z.of_nat (length dst) < 2 ^ 64 ->
  (length (escs (cstr src)) + 2 <= length dst)%nat ->
  exists r, json_escape src dst = Some (escs (cstr src) ++ 0 :: r).
Proof.
  intros Hin Hsz Hfit.
  destruct (json_escape_prefix src dst Hin Hsz) as (k & r & E & _ & [H|H]).
  - exists r. by rewrite <- H.
  - exists r. rewrite E. assert (take k (cstr src) = cstr src) as ->; [|done].
    apply firstn_all2. rewrite <- (take_drop k (cstr src)), escs_app, length_app in Hfit.
    pose proof (escs_length (drop k (cstr src))) as Hd. rewrite length_drop in Hd. lia.
Qed.

(** The control characters [json_escape] handles. *)
Definition escapable (s : bytes) : Prop := Forall (fun c => 32 <= c \/ c = 10 \/ c = 9) s.

(** The escapes of a UTF-8 string without other control characters are a JSON
    string body for it. *)
Lemma json_body_esc1 c : c = 10 \/ c = 9 \/ (32 <= c < 0x80) -> json_body (esc1 c) = Some [c].
Proof.
  intros H. unfold esc1.
  destruct (Z.eqb_spec c 92) as [->|]; [done|]. destruct (Z.eqb_spec c 34) as [->|]; [done|].
  destruct (Z.eqb_spec c 10) as [->|]; [done|]. destruct (Z.eqb_spec c 9) as [->|]; [done|].
  change [c] with (take 1 [c]). apply json_body_char; [apply utf8_next_ascii|..]; lia.
Qed.

Lemma esc1_high cs : Forall (fun c => 0x80 <= c) cs -> escs cs = cs.
Proof.
  induction 1 as [|c cs Hc _ IH]; [done|]. change (escs (c :: cs)) with (esc1 c ++ escs cs).
  rewrite IH. unfold esc1. by decide_tests.
Qed.

Lemma json_body_escs s cps :
  escapable s -> utf8_decode s = Some cps -> json_body (escs s) = Some cps.
Proof.
  unfold utf8_decode. generalize (length s) as f. intros f. revert s cps.
  induction f as [|f IH]; intros s cps He H; destruct s as [|c s]; [by inversion H|done|by inversion H|].
  cbn [utf8_decode_fuel] in H. destruct (utf8_next (c :: s)) as [[cp n]|] eqn:E; [|done].
  cbn [mbind option_bind] in H.
  destruct (utf8_decode_fuel f (drop n (c :: s))) as [t|] eqn:Et; [|done].
  cbn [mbind option_bind] in H. injection H as <-.
  rewrite <- (take_drop n (c :: s)), escs_app. apply (json_body_app _ _ [cp]).
  - pose proof (utf8_next_take _ _ _ E) as Ht.
    apply utf8_next_inv in E as Hi. destruct Hi as (c' & cs & r & Hs & Hn & _ & Hcont & Hcs).
    rewrite Hs, take_app_length' in * by done. injection Hs as <- Hs.
    destruct Hcs as [(Hc & -> & ->)|(Hc & Hne & Hsc & Hcp)].
    + unfold escs. cbn [map concat]. rewrite app_nil_r. apply json_body_esc1.
      apply Forall_cons in He as [He _]. lia.
    + rewrite esc1_high.
      * rewrite <- (take_ge (c :: cs) n) by (simpl; lia). apply json_body_char; [done|lia..].
      * constructor; [lia|]. eapply Forall_impl; [exact Hcont|]. intros b Hb. apply is_cont_spec in Hb. lia.
  - apply IH; [|done]. unfold escapable in *. rewrite <- (take_drop n (c :: s)) in He. by apply Forall_app in He as [_ ?].
Qed.

(** ** Properties *)

(** C33: [validate_utf8_char] accepts exactly the well-formed UTF-8 characters:
    it returns [n > 0] when, and only when, the memory starts with the n-byte
    encoding of a Unicode scalar value (so no overlong form, surrogate,
    truncated sequence or value above 0x10FFFF), and 0 otherwise. *)
Theorem validate_utf8_char_exact s :
  bytes_ok s ->
  0 <= validate_utf8_char s <= 4 /\
  forall n, 0 < n ->
    validate_utf8_char s = n <->
    exists cp r, 0 <= cp /\ scalar cp /\ s = utf8_encode cp ++ r /\ n = Z.of_nat (length (utf8_encode cp)).
Proof.
  intros Hok. rewrite validate_utf8_len by done. unfold utf8_len. split.
  { destruct (utf8_next s) as [[cp k]|] eqn:E; [|lia].
    apply utf8_next_inv in E as (c & cs & r & _ & -> & Hl & _). simpl. lia. }
  intros n Hn. split.
  - destruct (utf8_next s) as [[cp k]|] eqn:E; [|lia]. intros <-.
    destruct (utf8_next_sound _ _ _ Hok E) as (H1 & H2 & H3 & ->).
    exists cp, (drop (length (utf8_encode cp)) s). split_and!; try done.
    rewrite <- H3 at 1. by rewrite take_drop.
  - intros (cp & r & H1 & H2 & -> & ->). by rewrite utf8_next_encode.
Qed.

Lemma validate_utf8_char_exact_witness :
  validate_utf8_char [0xE2; 0x82; 0xAC; 65] = 3 /\ validate_utf8_char [0xED; 0xA0; 0x80] = 0 /\
  exists cp r, 0 <= cp /\ scalar cp /\ [0xE2; 0x82; 0xAC; 65] = utf8_encode cp ++ r /\ 3 = Z.of_nat (length (utf8_encode cp)).
Proof.
  split; [vm_compute; reflexivity|]. split; [vm_compute; reflexivity|].
  apply (validate_utf8_char_exact [0xE2; 0x82; 0xAC; 65]); [by apply bytes_ok_test|lia|].
  vm_compute. reflexivity.
Defined.

(** C11: whatever bytes a buffer holds, [json_print_escaped] prints a valid JSON
    string body without control characters (so the JSONL line stays one
    line), which decodes to the buffer's characters with every stray byte read
    as Latin-1; for a buffer in UTF-8 it decodes to the text itself. *)
Theorem json_print_escaped_roundtrip s :
  bytes_ok s ->
  printable (json_print_escaped s) /\
  json_body (json_print_escaped s) = Some (utf8_latin1 s) /\
  forall cps, utf8_decode s = Some cps -> json_body (json_print_escaped s) = Some cps.
Proof.
  intros Hok. destruct (json_print_loop_spec (length s) s Hok (Nat.le_refl _)) as [H1 H2].
  split_and!; [done|done|]. intros cps Hd. apply utf8_decode_latin1 in Hd as <-. done.
Qed.

Lemma json_print_escaped_roundtrip_witness :
  json_body (json_print_escaped [10; 0xC3; 0xA9; 0xFF; 34]) = Some [10; 0xE9; 0xFF; 34] /\
  printable (json_print_escaped [10; 0xC3; 0xA9; 0xFF; 34]).
Proof.
  destruct (json_print_escaped_roundtrip [10; 0xC3; 0xA9; 0xFF; 34]) as (H1 & H2 & _);
    [by apply bytes_ok_test|].
  split; [rewrite H2; vm_compute; reflexivity|exact H1].
Defined.

(** C34: [json_escape] into an array of two bytes or more never reads or writes
    out of bounds and leaves a NUL-terminated string: the escapes of a prefix
    of the source, and of all of it when they fit with two bytes to spare; for
    UTF-8 text whose only control characters are newline and tab the result is
    then a JSON string body that decodes to the text. *)
Theorem json_escape_safe_and_faithful src dst :
  0 ∈ src -> 2 <= Z.of_nat (length dst) < 2 ^ 64 ->
  exists k r, json_escape src dst = Some (escs (take k (cstr src)) ++ 0 :: r) /\
    length (escs (take k (cstr src)) ++ 0 :: r) = length dst /\
    ((length (escs (cstr src)) + 2 <= length dst)%nat ->
     take k (cstr src) = cstr src /\
     forall cps, escapable (cstr src) -> utf8_decode (cstr src) = Some cps ->
       json_body (escs (take k (cstr src))) = Some cps).
Proof.
  intros Hin Hsz. destruct (json_escape_prefix src dst Hin Hsz) as (k & r & E & H1 & H2).
  exists k, r. split_and!; [done|done|]. intros Hfit.
  assert (take k (cstr src) = cstr src) as ->.
  { destruct H2 as [H2|H2]; [done|]. apply firstn_all2.
    rewrite <- (take_drop k (cstr src)), escs_app, length_app in Hfit.
    pose proof (escs_length (drop k (cstr src))) as Hd. rewrite length_drop in Hd. lia. }
  split; [done|]. intros. by apply json_body_escs.
Qed.

Lemma json_escape_safe_and_faithful_witness :
  exists k r, json_escape (lit "a\b" ++ [0; 7]) (replicate 8 1) = Some (escs (take k (lit "a\b")) ++ 0 :: r).
Proof.
  destruct (json_escape_safe_and_faithful (lit "a\b" ++ [0; 7]) (replicate 8 1)) as (k & r & E & _).
  - vm_compute. repeat (first [left | right]).
  - vm_compute. split; congruence.
  - exists k, r. exact E.
Defined.

(** Any other control character goes through [json_escape] raw, so what it
    composes is then not a JSON string: the line a caller prints is not valid
    JSON.  (The header calls it a minimal set; the callers pass file paths,
    which may hold any byte but NUL.) *)
Theorem json_escape_control_raw c :
  0 < c < 32 -> c <> 9 -> c <> 10 ->
  exists r, json_escape [c; 0] (replicate 8 0) = Some (c :: 0 :: r) /\
  json_body (cstr (c :: 0 :: r)) = None.
Proof.
  intros Hc H9 H10.
  assert (forall r, cstr (c :: 0 :: r) = [c]) as Hcs.
  { intros r. apply (cstr_app [c]). repeat constructor. lia. }
  assert (escs [c] = [c]) as He by (unfold escs, esc1; cbn [map concat]; by decide_tests).
  destruct (json_escape_fits [c; 0] (replicate 8 0)) as [r Hr].
  - right. left.
  - simpl. lia.
  - rewrite Hcs, He. simpl. lia.
  - exists r. rewrite Hr, !Hcs, He. split; [done|].
    unfold json_body. cbn [length json_body_fuel]. by decide_tests.
Qed.

Lemma json_escape_control_raw_witness :
  exists r, json_escape [1; 0] (replicate 8 0) = Some (1 :: 0 :: r) /\ json_body (cstr (1 :: 0 :: r)) = None.
Proof. apply (json_escape_control_raw 1); lia. Defined.
