(* ===== verification/BpfFormat.v ===== *)
(** * Text of the aggregation keys (src/bpf/process_ext)

    The formatters the kernel probes build the [detail] of an aggregation key
    with, byte by byte into a fixed buffer ([bpf_common.h], [bpf_net.h],
    [bpf_signals.h], [bpf_fs.h]), and their results as texts. *)

From S2P Require Import Prelude CLib.

(** ** Definitions *)

Definition DETAIL_LEN : nat := 64.
Definition TASK_COMM_LEN : nat := 16.
Definition MAX_FILENAME_LEN : nat := 127.

(** [if (pos < buf_len - 1) buf[pos++] = c], on the buffer and [pos]. *)
Definition put (buf_len : Z) (st : bytes * Z) (c : Z) : option (bytes * Z) :=
  let '(buf, pos) := st in
  if pos <? buf_len - 1 then buf' ← store buf pos c; Some (buf', pos + 1) else Some (buf, pos).

(** A loop of them. *)
Fixpoint put_all (buf_len : Z) (st : bytes * Z) (l : bytes) : option (bytes * Z) :=
  match l with
  | [] => Some st
  | c :: l' => st' ← put buf_len st c; put_all buf_len st' l'
  end.

(** [while (v > 0 && dlen < cap) { digits[dlen++] = '0' + v % 10; v /= 10; }] *)
Fixpoint digit_loop (cap : nat) (v : Z) : bytes :=
  match cap with
  | O => []
  | S cap' => if 0 <? v then (48 + v mod 10) :: digit_loop cap' (v / 10) else []
  end.

Definition digits_rev (cap : nat) (v : Z) : bytes := if v =? 0 then [48] else digit_loop cap v.

Definition format_fd_detail (buf : bytes) (buf_len fd : Z) : option bytes :=
  if buf_len <? 4 then Some buf
  else
    buf ← store_all buf 0 (lit "fd=");
    let ufd := if fd <? 0 then u32 (- fd) else u32 fd in
    let digits := digits_rev 11 ufd in
    st ← (if fd <? 0 then put buf_len (buf, 3) 45 else Some (buf, 3));
    '(buf, pos) ← put_all buf_len st (rev digits);
    store buf pos 0.

Definition write_octet (buf_len : Z) (st : bytes * Z) (val : Z) : option (bytes * Z) :=
  st ← (if 100 <=? val then put buf_len st (48 + val / 100) else Some st);
  st ← (if 10 <=? val then put buf_len st (48 + (val / 10) mod 10) else Some st);
  put buf_len st (48 + val mod 10).

Definition format_ipv4_port (buf : bytes) (buf_len ip port : Z) : option bytes :=
  let o0 := Z.land ip 0xFF in
  let o1 := Z.land (Z.shiftr ip 8) 0xFF in
  let o2 := Z.land (Z.shiftr ip 16) 0xFF in
  let o3 := Z.land (Z.shiftr ip 24) 0xFF in
  st ← write_octet buf_len (buf, 0) o0;
  st ← put buf_len st 46;
  st ← write_octet buf_len st o1;
  st ← put buf_len st 46;
  st ← write_octet buf_len st o2;
  st ← put buf_len st 46;
  st ← write_octet buf_len st o3;
  st ← put buf_len st 58;
  let p := port in
  let d4 := 48 + (p / 10000) mod 10 in
  let d3 := 48 + (p / 1000) mod 10 in
  let d2 := 48 + (p / 100) mod 10 in
  let d1 := 48 + (p / 10) mod 10 in
  let d0 := 48 + p mod 10 in
  st ← (if 10000 <=? p then put buf_len st d4 else Some st);
  st ← (if 1000 <=? p then put buf_len st d3 else Some st);
  st ← (if 100 <=? p then put buf_len st d2 else Some st);
  st ← (if 10 <=? p then put buf_len st d1 else Some st);
  '(buf, pos) ← put buf_len st d0;
  store buf pos 0.

Definition format_family (buf : bytes) (buf_len family : Z) : option bytes :=
  if buf_len <? 8 then Some buf
  else
    buf ← store_all buf 0 (lit "family=");
    '(buf, pos) ← put_all buf_len (buf, 7) (rev (digits_rev 5 family));
    store buf pos 0.

Definition write_uint (buf_len : Z) (st : bytes * Z) (val : Z) : option (bytes * Z) :=
  put_all buf_len st (rev (digits_rev 11 val)).

Definition write_int (buf_len : Z) (st : bytes * Z) (val : Z) : option (bytes * Z) :=
  if (val <? 0) && (snd st <? buf_len - 1) then
    st ← put buf_len st 45; write_uint buf_len st (u32 (- val))
  else write_uint buf_len st (u32 val).

Definition write_str (buf_len : Z) (st : bytes * Z) (s : bytes) : option (bytes * Z) :=
  put_all buf_len st (cstr s).

(** The loop of [extract_dir_prefix] from index [i]; [None] is a read outside
    [path] or a write outside [out]. *)
Fixpoint dir_prefix_loop (path out : bytes) (out_len i last_slash : Z) (fuel : nat)
    : option (bytes * Z) :=
  match fuel with
  | O => Some (out, last_slash)
  | S fuel' =>
      if out_len - 1 <=? i then Some (out, last_slash)
      else
        c ← load path i;
        if c =? 0 then Some (out, last_slash)
        else
          let last_slash := if c =? 47 then i else last_slash in
          out ← store out i c;
          dir_prefix_loop path out out_len (i + 1) last_slash fuel'
  end.

Definition extract_dir_prefix (path out : bytes) (out_len : Z) : option bytes :=
  '(out, last_slash) ← dir_prefix_loop path out out_len 0 0 (DETAIL_LEN - 1);
  if 0 <? last_slash then store out last_slash 0 else Some out.

(** The zero-initialised [detail] of a key. *)
Definition zero_detail : bytes := replicate DETAIL_LEN 0.

Example format_ex :
  (cstr <$> format_fd_detail zero_detail 64 (-100), cstr <$> format_ipv4_port zero_detail 64 0x0100007F 8080,
   cstr <$> format_family zero_detail 64 10, cstr <$> extract_dir_prefix (lit "/tmp/x.c" ++ [0]) zero_detail 64)
  = (Some (lit "fd=-100"), Some (lit "127.0.0.1:8080"), Some (lit "family=10"), Some (lit "/tmp")).
Proof. vm_compute. reflexivity. Qed.

(** ** Lemmas: digits *)

Lemma udigits_digit_loop cap v acc :
  0 < v < 10 ^ Z.of_nat cap -> udigits cap v acc = rev (digit_loop cap v) ++ acc.
Proof.
  revert v acc. induction cap as [|cap IH]; intros v acc Hv; [simpl in Hv; lia|].
  rewrite Nat2Z.inj_succ, Z.pow_succ_r in Hv by lia. cbn [udigits digit_loop].
  rewrite (proj2 (Z.ltb_lt 0 v)) by lia. cbn [rev]. rewrite <- app_assoc. cbn [app].
  destruct (Z.ltb_spec v 10).
  - rewrite Z.div_small by lia. destruct cap; reflexivity.
  - apply IH. split; [apply Z.div_str_pos; lia|apply Z.div_lt_upper_bound; lia].
Qed.

(** The digits [%u] prints do not depend on the fuel, when it is enough. *)
Lemma udigits_fuel f f' v acc :
  0 <= v < 10 ^ Z.of_nat f -> v < 10 ^ Z.of_nat f' -> (0 < f)%nat -> (0 < f')%nat ->
  udigits f v acc = udigits f' v acc.
Proof.
  revert f' v acc. induction f as [|f IH]; intros f' v acc Hv Hv' Hf Hf'; [lia|].
  destruct f' as [|f']; [lia|]. rewrite Nat2Z.inj_succ, Z.pow_succ_r in Hv, Hv' by lia.
  cbn [udigits]. destruct (Z.ltb_spec v 10); [done|].
  apply IH; [split; [apply Z.div_pos; lia|apply Z.div_lt_upper_bound; lia]
            |apply Z.div_lt_upper_bound; lia| |].
  - destruct f; [simpl in *; lia|lia].
  - destruct f'; [simpl in *; lia|lia].
Qed.

Lemma digits_rev_fmt cap v :
  0 <= v < 10 ^ Z.of_nat cap -> (0 < cap)%nat -> rev (digits_rev cap v) = fmt_u v.
Proof.
  intros Hv Hcap. unfold digits_rev. destruct (Z.eqb_spec v 0) as [->|Hne]; [reflexivity|].
  unfold fmt_u. rewrite (udigits_fuel _ cap); [|split; [lia|apply log2_fuel; lia]|lia|lia|done].
  rewrite udigits_digit_loop by lia. by rewrite app_nil_r.
Qed.

Lemma digit_loop_length cap v : (length (digit_loop cap v) <= cap)%nat.
Proof.
  revert v. induction cap as [|cap IH]; intros v; cbn [digit_loop]; [done|].
  case_match; simpl; [specialize (IH (v / 10)); lia|lia].
Qed.

Lemma fmt_u_length cap v : 0 <= v < 10 ^ Z.of_nat cap -> (0 < cap)%nat -> (length (fmt_u v) <= cap)%nat.
Proof.
  intros Hv Hcap. rewrite <- (digits_rev_fmt cap) by done. rewrite length_rev. unfold digits_rev.
  case_match; [simpl; lia|apply digit_loop_length].
Qed.

Lemma fmt_d_length v : - 2 ^ 31 <= v < 2 ^ 31 -> (length (fmt_d v) <= 11)%nat.
Proof.
  intros Hv. unfold fmt_d. destruct (Z.ltb_spec v 0); cbn [length].
  - pose proof (fmt_u_length 10 (- v)). simpl in *. lia.
  - pose proof (fmt_u_length 10 v). simpl in *. lia.
Qed.

(** ** Lemmas: the bounded writer *)

(** The writer's buffer of [n] bytes holds the text [t], cut at [n - 1]. *)
Definition holds (n : nat) (t : bytes) (st : bytes * Z) : Prop :=
  exists r, st = (take (n - 1) t ++ r, Z.of_nat (length (take (n - 1) t))) /\
    length (take (n - 1) t ++ r) = n.

Lemma put_holds n t st c :
  (1 <= n)%nat -> holds n t st -> exists st', put (Z.of_nat n) st c = Some st' /\ holds n (t ++ [c]) st'.
Proof.
  intros Hn (r & -> & Hl). unfold put. rewrite length_app in Hl.
  destruct (Z.ltb_spec (Z.of_nat (length (take (n - 1) t))) (Z.of_nat n - 1)) as [Hlt|Hge].
  - assert (length t < n - 1)%nat as Ht by (rewrite length_take in Hlt; lia).
    rewrite !(firstn_all2 t) in * by lia.
    destruct r as [|x r]; [simpl in Hl; lia|]. rewrite store_app. cbn [mbind option_bind].
    eexists. split; [done|]. exists r. rewrite (firstn_all2 (t ++ [c])) by (rewrite length_app; simpl; lia).
    rewrite <- app_assoc. cbn [app]. rewrite !length_app in *. simpl in *. split; [f_equal; lia|lia].
  - eexists. split; [done|]. exists r. rewrite length_take in Hge.
    rewrite take_app_le by lia. rewrite length_app. done.
Qed.

Lemma put_all_holds n t st l :
  (1 <= n)%nat -> holds n t st -> exists st', put_all (Z.of_nat n) st l = Some st' /\ holds n (t ++ l) st'.
Proof.
  intros Hn. revert t st. induction l as [|c l IH]; intros t st Hst; cbn [put_all].
  - exists st. by rewrite app_nil_r.
  - destruct (put_holds n t st c Hn Hst) as (st1 & -> & H1). cbn [mbind option_bind].
    destruct (IH _ _ H1) as (st2 & E & H2). exists st2. by rewrite <- app_assoc in H2.
Qed.

Lemma put_if_holds n t st c (b : bool) :
  (1 <= n)%nat -> holds n t st ->
  exists st', (if b then put (Z.of_nat n) st c else Some st) = Some st' /\
    holds n (t ++ if b then [c] else []) st'.
Proof.
  intros Hn Hst. destruct b; [by apply put_holds|]. exists st. by rewrite app_nil_r.
Qed.

(** The terminating NUL always has room. *)
Lemma finish_holds n t buf pos :
  (1 <= n)%nat -> holds n t (buf, pos) ->
  exists r, store buf pos 0 = Some (take (n - 1) t ++ 0 :: r) /\ length (take (n - 1) t ++ 0 :: r) = n.
Proof.
  intros Hn (r & E & Hl). injection E as -> ->.
  destruct r as [|x r]; [rewrite app_nil_r, length_take in Hl; lia|].
  exists r. rewrite store_app. rewrite length_app in *. done.
Qed.

Lemma holds_start (buf : bytes) : holds (length buf) [] (buf, 0).
Proof. exists buf. by rewrite take_nil. Qed.

Lemma holds_prefix (buf : bytes) p :
  (length p < length buf)%nat ->
  exists buf', store_all buf 0 p = Some buf' /\ holds (length buf) p (buf', Z.of_nat (length p)).
Proof.
  intros Hp. pose proof (store_all_app [] (take (length p) buf) (drop (length p) buf) p) as H.
  cbn [app length] in H. change (Z.of_nat 0) with 0 in H. rewrite take_drop in H. rewrite H by (rewrite length_take; lia).
  eexists. split; [done|]. exists (drop (length p) buf).
  rewrite firstn_all2 by lia. split; [done|]. rewrite length_app, length_drop. lia.
Qed.

(** What a formatter owes: it stays inside the buffer, and leaves the text cut
    at the last byte but one, terminated. *)
Definition formats (res : option bytes) (n : nat) (t : bytes) : Prop :=
  exists r, res = Some (take (n - 1) t ++ 0 :: r) /\ length (take (n - 1) t ++ 0 :: r) = n.

Lemma formats_cstr res n t :
  formats res n t -> no_nul t -> (length t < n)%nat -> cstr <$> res = Some t.
Proof.
  intros (r & -> & _) Ht Hl. cbn. f_equal. rewrite firstn_all2 by lia. by apply cstr_app.
Qed.

(** ** Lemmas: the formatters *)

Lemma u32_neg fd : - 2 ^ 31 <= fd < 0 -> u32 (- fd) = - fd.
Proof. intros. apply wrapu_id. lia. Qed.

Lemma format_fd_detail_text buf fd :
  (4 <= length buf)%nat -> - 2 ^ 31 <= fd < 2 ^ 31 ->
  formats (format_fd_detail buf (Z.of_nat (length buf)) fd) (length buf) (lit "fd=" ++ fmt_d fd).
Proof.
  intros Hl Hfd. unfold format_fd_detail. rewrite (proj2 (Z.ltb_ge _ 4)) by lia.
  destruct (holds_prefix buf (lit "fd=")) as (b1 & -> & H1); [simpl; lia|]. cbn [mbind option_bind].
  change (Z.of_nat (length (lit "fd="))) with 3 in H1.
  destruct (put_if_holds (length buf) _ _ 45 (fd <? 0) ltac:(lia) H1) as (s1 & E1 & H2). rewrite E1. cbn [mbind option_bind].
  set (ufd := if fd <? 0 then u32 (- fd) else u32 fd).
  destruct (put_all_holds (length buf) _ s1 (rev (digits_rev 11 ufd)) ltac:(lia) H2) as ([b2 p2] & -> & H3).
  cbn [mbind option_bind]. apply finish_holds; [lia|].
  assert (0 <= ufd < 10 ^ Z.of_nat 11) as Hu.
  { change (10 ^ Z.of_nat 11) with 100000000000. subst ufd. case_match; pose proof (wrapu_bound 32 (- fd) eq_refl); pose proof (wrapu_bound 32 fd eq_refl); lia. }
  rewrite digits_rev_fmt in H3 by (done || lia). rewrite <- app_assoc in H3.
  unfold fmt_d, ufd in *. destruct (Z.ltb_spec fd 0).
  - by rewrite u32_neg in H3 by lia.
  - by rewrite (wrapu_id 32) in H3 by lia.
Qed.

(** A digit printed by its place value: [%u] of numbers below 10^5. *)
Lemma fmt_u_places v :
  0 <= v < 100000 ->
  fmt_u v = (if 10000 <=? v then [48 + (v / 10000) mod 10] else []) ++
            (if 1000 <=? v then [48 + (v / 1000) mod 10] else []) ++
            (if 100 <=? v then [48 + (v / 100) mod 10] else []) ++
            (if 10 <=? v then [48 + (v / 10) mod 10] else []) ++ [48 + v mod 10].
Proof.
  intros Hv. rewrite <- (digits_rev_fmt 5) by (simpl; lia). unfold digits_rev.
  destruct (Z.eqb_spec v 0) as [->|Hne]; [reflexivity|]. cbn [digit_loop].
  rewrite !Z.div_div by lia.
  change (10 * 10) with 100. change (100 * 10) with 1000. change (1000 * 10) with 10000.
  assert (forall k, 0 < k -> (0 <? v / k) = (k <=? v)) as Hdiv.
  { intros k Hk. destruct (Z.leb_spec k v).
    - apply Z.ltb_lt, Z.div_str_pos. lia.
    - rewrite Z.div_small by lia. done. }
  rewrite !Hdiv by lia. rewrite (proj2 (Z.ltb_lt 0 v)) by lia.
  destruct (Z.leb_spec 10 v); [|by rewrite !(proj2 (Z.leb_gt _ v)) by lia].
  destruct (Z.leb_spec 100 v); [|by rewrite !(proj2 (Z.leb_gt _ v)) by lia].
  destruct (Z.leb_spec 1000 v); [|by rewrite !(proj2 (Z.leb_gt _ v)) by lia].
  by destruct (Z.leb_spec 10000 v).
Qed.

Lemma write_octet_holds n t st v :
  (1 <= n)%nat -> 0 <= v < 256 -> holds n t st ->
  exists st', write_octet (Z.of_nat n) st v = Some st' /\ holds n (t ++ fmt_u v) st'.
Proof.
  intros Hn Hv Hst. unfold write_octet.
  destruct (put_if_holds n t st (48 + v / 100) (100 <=? v) Hn Hst) as (s1 & E1 & H1).
  rewrite E1. cbn [mbind option_bind].
  destruct (put_if_holds n _ s1 (48 + (v / 10) mod 10) (10 <=? v) Hn H1) as (s2 & E2 & H2).
  rewrite E2. cbn [mbind option_bind].
  destruct (put_holds n _ s2 (48 + v mod 10) Hn H2) as (s3 & E3 & H3). exists s3. split; [done|].
  rewrite <- !app_assoc in H3. rewrite fmt_u_places by lia.
  rewrite (proj2 (Z.leb_gt 10000 v)), (proj2 (Z.leb_gt 1000 v)) by lia. cbn [app].
  rewrite (Z.mod_small (v / 100)); [done|].
  split; [apply Z.div_pos; lia|apply Z.div_lt_upper_bound; lia].
Qed.

(** The dotted text of an address in network byte order, and the port. *)
Definition ipv4_port_text (ip port : Z) : bytes :=
  fmt_u (ip mod 256) ++ [46] ++ fmt_u (ip / 256 mod 256) ++ [46] ++ fmt_u (ip / 65536 mod 256) ++ [46]
  ++ fmt_u (ip / 16777216 mod 256) ++ [58] ++ fmt_u port.

Lemma octet_bits ip k : 0 <= k -> Z.land (Z.shiftr ip k) 0xFF = ip / 2 ^ k mod 256.
Proof. intros Hk. rewrite Z.shiftr_div_pow2 by done. apply (land_mask 8). lia. Qed.


Lemma format_ipv4_port_text buf ip port :
  (1 <= length buf)%nat -> 0 <= port < 2 ^ 16 ->
  formats (format_ipv4_port buf (Z.of_nat (length buf)) ip port) (length buf) (ipv4_port_text ip port).
Proof.
  intros Hl Hport. unfold format_ipv4_port. rewrite !octet_bits by lia.
  change (Z.land ip 255) with (Z.land ip (2 ^ 8 - 1)). rewrite land_mask by lia.
  change (2 ^ 8) with 256. change (2 ^ 16) with 65536 in *. change (2 ^ 24) with 16777216.
  assert (forall x, 0 <= x mod 256 < 256) as Hoct by (intros; apply Z.mod_pos_bound; lia).
  pose proof (holds_start buf) as H0. set (n := length buf) in *.
  destruct (write_octet_holds n _ _ _ Hl (Hoct ip) H0) as (s1 & -> & H1). cbn [mbind option_bind].
  destruct (put_holds n _ s1 46 Hl H1) as (s2 & -> & H2). cbn [mbind option_bind].
  destruct (write_octet_holds n _ _ _ Hl (Hoct (ip / 256)) H2) as (s3 & -> & H3). cbn [mbind option_bind].
  destruct (put_holds n _ s3 46 Hl H3) as (s4 & -> & H4). cbn [mbind option_bind].
  destruct (write_octet_holds n _ _ _ Hl (Hoct (ip / 65536)) H4) as (s5 & -> & H5). cbn [mbind option_bind].
  destruct (put_holds n _ s5 46 Hl H5) as (s6 & -> & H6). cbn [mbind option_bind].
  destruct (write_octet_holds n _ _ _ Hl (Hoct (ip / 16777216)) H6) as (s7 & -> & H7). cbn [mbind option_bind].
  destruct (put_holds n _ s7 58 Hl H7) as (s8 & -> & H8). cbn [mbind option_bind].
  destruct (put_if_holds n _ _ (48 + (port / 10000) mod 10) (10000 <=? port) Hl H8) as (s9 & -> & H9).
  cbn [mbind option_bind].
  destruct (put_if_holds n _ _ (48 + (port / 1000) mod 10) (1000 <=? port) Hl H9) as (s10 & -> & H10).
  cbn [mbind option_bind].
  destruct (put_if_holds n _ _ (48 + (port / 100) mod 10) (100 <=? port) Hl H10) as (s11 & -> & H11).
  cbn [mbind option_bind].
  destruct (put_if_holds n _ _ (48 + (port / 10) mod 10) (10 <=? port) Hl H11) as (s12 & -> & H12).
  cbn [mbind option_bind].
  destruct (put_holds n _ s12 (48 + port mod 10) Hl H12) as ([b p] & -> & H13). cbn [mbind option_bind].
  apply finish_holds; [done|]. rewrite <- !app_assoc in H13. cbn [app] in H13.
  unfold ipv4_port_text. rewrite (fmt_u_places port) by lia. cbn [app]. exact H13.
Qed.

Lemma format_family_text buf family :
  (8 <= length buf)%nat -> 0 <= family < 2 ^ 16 ->
  formats (format_family buf (Z.of_nat (length buf)) family) (length buf) (lit "family=" ++ fmt_u family).
Proof.
  intros Hl Hf. unfold format_family. rewrite (proj2 (Z.ltb_ge _ 8)) by lia.
  destruct (holds_prefix buf (lit "family=")) as (b1 & -> & H1); [simpl; lia|]. cbn [mbind option_bind].
  change (Z.of_nat (length (lit "family="))) with 7 in H1.
  destruct (put_all_holds (length buf) _ _ (rev (digits_rev 5 family)) ltac:(lia) H1) as ([b2 p2] & -> & H3).
  cbn [mbind option_bind]. rewrite digits_rev_fmt in H3 by (simpl; lia). apply finish_holds; [lia|done].
Qed.

Lemma write_uint_holds n t st v :
  (1 <= n)%nat -> 0 <= v < 2 ^ 32 -> holds n t st ->
  exists st', write_uint (Z.of_nat n) st v = Some st' /\ holds n (t ++ fmt_u v) st'.
Proof.
  intros Hn Hv Hst. unfold write_uint. rewrite digits_rev_fmt by (simpl; lia). by apply put_all_holds.
Qed.

Lemma write_str_holds n t st s :
  (1 <= n)%nat -> no_nul s -> holds n t st ->
  exists st', write_str (Z.of_nat n) st s = Some st' /\ holds n (t ++ s) st'.
Proof. intros Hn Hs Hst. unfold write_str. rewrite cstr_id by done. by apply put_all_holds. Qed.

(** With room for the sign, [write_int] writes the [%d] text. *)
Lemma write_int_holds n t st v :
  (length t < n - 1)%nat -> - 2 ^ 31 <= v < 2 ^ 31 -> holds n t st ->
  exists st', write_int (Z.of_nat n) st v = Some st' /\ holds n (t ++ fmt_d v) st'.
Proof.
  intros Hn Hv Hst. unfold write_int, fmt_d. destruct (Z.ltb_spec v 0).
  - pose proof Hst as (r & -> & _). cbn [snd]. rewrite firstn_all2 by lia.
    rewrite (proj2 (Z.ltb_lt _ _)) by lia. cbn [andb]. rewrite firstn_all2 in Hst by lia.
    destruct (put_holds n t _ 45 ltac:(lia) Hst) as (s1 & -> & H1). cbn [mbind option_bind].
    rewrite u32_neg by lia.
    destruct (write_uint_holds n _ _ (- v) ltac:(lia) ltac:(lia) H1) as (s2 & E & H2).
    exists s2. by rewrite <- app_assoc in H2.
  - cbn [andb]. rewrite (wrapu_id 32) by lia. apply write_uint_holds; (done || lia).
Qed.

(** ** Lemmas: the directory prefix *)

(** The index of the last slash of [p], counted from [i]; [acc] when there is
    none. *)
Fixpoint last_slash_from (i acc : Z) (p : bytes) : Z :=
  match p with
  | [] => acc
  | c :: p' => last_slash_from (i + 1) (if c =? 47 then i else acc) p'
  end.

Lemma last_slash_app i acc d b :
  47 ∉ b -> last_slash_from i acc (d ++ 47 :: b) = i + Z.of_nat (length d).
Proof.
  intros Hb. revert i acc. induction d as [|c d IH]; intros i acc; cbn [app last_slash_from length].
  - rewrite Z.eqb_refl. clear -Hb. assert (forall j, last_slash_from j i b = i) as H; [|rewrite H; simpl; lia].
    induction b as [|c b IH]; intros j; [done|]. apply not_elem_of_cons in Hb as [Hc Hb].
    cbn [last_slash_from]. rewrite (proj2 (Z.eqb_neq c 47)) by done. by apply IH.
  - rewrite IH. lia.
Qed.

Lemma last_slash_none i acc p : 47 ∉ p -> last_slash_from i acc p = acc.
Proof.
  revert i. induction p as [|c p IH]; intros i Hp; [done|]. apply not_elem_of_cons in Hp as [Hc Hp].
  cbn [last_slash_from]. rewrite (proj2 (Z.eqb_neq c 47)) by done. by apply IH.
Qed.

Lemma load_mid (l s : bytes) c : load (l ++ c :: s) (Z.of_nat (length l)) = Some c.
Proof.
  unfold load. rewrite (proj2 (in_range_true _ _)) by (rewrite length_app; simpl; lia).
  by rewrite Nat2Z.id, list_lookup_middle.
Qed.

Lemma dir_prefix_loop_spec l s r acc fuel :
  0 ∈ s -> (length l + fuel = 63)%nat -> (length l + length r = 64)%nat ->
  dir_prefix_loop (l ++ s) (l ++ r) 64 (Z.of_nat (length l)) acc fuel =
  let p := take fuel (cstr s) in
  Some (l ++ p ++ drop (length p) r, last_slash_from (Z.of_nat (length l)) acc p).
Proof.
  revert l s r acc. induction fuel as [|fuel IH]; intros l s r acc Hs Hf Hr; [done|].
  cbn [dir_prefix_loop]. rewrite (proj2 (Z.leb_gt _ _)) by lia.
  destruct s as [|c s]; [by apply not_elem_of_nil in Hs|].
  rewrite load_mid. cbn [mbind option_bind]. unfold cstr. cbn [take_while].
  destruct (Z.eqb_spec c 0) as [->|Hc]; [done|]. cbn [negb take length app].
  destruct r as [|x r]; [simpl in Hr; lia|]. rewrite store_app. cbn [mbind option_bind].
  specialize (IH (l ++ [c]) s r (if c =? 47 then Z.of_nat (length l) else acc)).
  rewrite length_app, <- !app_assoc in IH. cbn [length app] in IH.
  rewrite Nat2Z.inj_add in IH. change (Z.of_nat 1) with 1 in IH. rewrite IH.
  - cbv zeta. by rewrite <- app_assoc.
  - apply elem_of_cons in Hs as [?|?]; [congruence|done].
  - lia.
  - simpl in Hr. lia.
Qed.

(** The detail [extract_dir_prefix] leaves in a fresh key: the first 63 bytes
    of the path, with the last slash (when it is not the first byte) replaced
    by a NUL and the bytes of the last component kept after it. *)
Lemma extract_dir_prefix_bytes path :
  0 ∈ path ->
  let p := take 63 (cstr path) in
  (forall d b, p = d ++ 47 :: b -> d <> [] -> 47 ∉ b ->
     extract_dir_prefix path zero_detail 64 = Some (d ++ 0 :: b ++ replicate (64 - length p) 0)) /\
  ((47 ∉ p \/ exists b, p = 47 :: b /\ 47 ∉ b) ->
     extract_dir_prefix path zero_detail 64 = Some (p ++ replicate (64 - length p) 0)).
Proof.
  intros Hin p. pose proof (dir_prefix_loop_spec [] path zero_detail 0 63 Hin eq_refl eq_refl) as H.
  cbn [app length] in H. change (Z.of_nat 0) with 0 in H. cbv zeta in H. fold p in H.
  assert (drop (length p) zero_detail = replicate (64 - length p) 0) as Hz.
  { unfold zero_detail, DETAIL_LEN. by rewrite drop_replicate. }
  rewrite Hz in H. unfold extract_dir_prefix.
  change (DETAIL_LEN - 1)%nat with 63%nat. rewrite H. cbn [mbind option_bind]. split.
  - intros d b Hp Hd Hb.
    assert (last_slash_from 0 0 p = Z.of_nat (length d)) as -> by (by rewrite Hp, last_slash_app).
    destruct d as [|x d]; [done|]. rewrite (proj2 (Z.ltb_lt _ _)) by (cbn [length]; lia).
    generalize (replicate (64 - length p) 0). intros z. rewrite Hp, <- app_assoc. cbn [app].
    apply (store_app (x :: d)).
  - intros [Hp|(b & Hp & Hb)].
    + by rewrite last_slash_none.
    + assert (last_slash_from 0 0 p = 0) as -> by (rewrite Hp; by apply (last_slash_app 0 0 [])). done.
Qed.

Lemma no_nul_take n l : no_nul l -> no_nul (take n l).
Proof. intros Hl. rewrite <- (take_drop n l) in Hl. by apply Forall_app in Hl as [? _]. Qed.

Lemma ipv4_text_no_nul ip port : 0 <= ip -> 0 <= port -> no_nul (ipv4_port_text ip port).
Proof.
  intros Hi Hp. unfold ipv4_port_text.
  assert (forall x, 0 <= x mod 256) by (intros; apply Z.mod_pos_bound; lia).
  repeat apply no_nul_app; try apply fmt_u_no_nul; try apply no_nul_test; (done || auto).
Qed.

Lemma ipv4_text_length ip port :
  0 <= port < 2 ^ 16 -> (length (ipv4_port_text ip port) <= 21)%nat.
Proof.
  intros Hp. unfold ipv4_port_text. rewrite !length_app.
  assert (forall x, length (fmt_u (x mod 256)) <= 3)%nat as Ho.
  { intros x. apply fmt_u_length; [|lia]. pose proof (Z.mod_pos_bound x 256). simpl. lia. }
  pose proof (Ho ip). pose proof (Ho (ip / 256)). pose proof (Ho (ip / 65536)). pose proof (Ho (ip / 16777216)).
  pose proof (fmt_u_length 5 port). simpl in *. lia.
Qed.

(** A run of digits ends where its delimiter is. *)
Lemma digits_delim c (a a' r r' : bytes) :
  is_digit c = false -> all_digits a -> all_digits a' -> a ++ c :: r = a' ++ c :: r' -> a = a' /\ r = r'.
Proof.
  intros Hc Ha Ha' E. assert (a = a') as <-.
  { rewrite <- (take_while_digits a (c :: r)), <- (take_while_digits a' (c :: r')) by done. by rewrite E. }
  apply app_inv_head in E. by injection E.
Qed.

Lemma fmt_u_delim c n n' r r' :
  is_digit c = false -> 0 <= n -> 0 <= n' -> fmt_u n ++ c :: r = fmt_u n' ++ c :: r' -> n = n' /\ r = r'.
Proof.
  intros Hc Hn Hn' E. destruct (fmt_u_spec n Hn) as [H1 _], (fmt_u_spec n' Hn') as [H2 _].
  destruct (digits_delim c _ _ _ _ Hc H1 H2 E) as [E1 E2]. split; [by apply fmt_u_inj|done].
Qed.

Lemma octets_sum ip :
  0 <= ip < 2 ^ 32 ->
  ip = ip mod 256 + 256 * (ip / 256 mod 256) + 65536 * (ip / 65536 mod 256) + 16777216 * (ip / 16777216 mod 256).
Proof.
  intros Hi. replace (ip / 65536) with (ip / 256 / 256) by (by rewrite Z.div_div).
  replace (ip / 16777216) with (ip / 256 / 256 / 256) by (by rewrite !Z.div_div).
  pose proof (Z.div_mod ip 256). pose proof (Z.div_mod (ip / 256) 256).
  pose proof (Z.div_mod (ip / 256 / 256) 256).
  assert (0 <= ip / 256 / 256 / 256 < 256).
  { rewrite !Z.div_div by lia. split; [apply Z.div_pos; lia|apply Z.div_lt_upper_bound; lia]. }
  rewrite (Z.mod_small (ip / 256 / 256 / 256)) by done. lia.
Qed.

(** ** Properties *)

(** The address detail: for every IPv4 address and port
    [format_ipv4_port] stays in the 64-byte buffer, writes the dotted text with
    the octets in network order and the decimal port, never truncated, and two
    different endpoints never share a text. *)
Theorem ipv4_detail_exact ip port :
  0 <= ip < 2 ^ 32 -> 0 <= port < 2 ^ 16 ->
  cstr <$> format_ipv4_port zero_detail (Z.of_nat DETAIL_LEN) ip port = Some (ipv4_port_text ip port) /\
  forall ip' port', 0 <= ip' < 2 ^ 32 -> 0 <= port' < 2 ^ 16 ->
    ipv4_port_text ip port = ipv4_port_text ip' port' -> ip = ip' /\ port = port'.
Proof.
  intros Hi Hp. split.
  - apply formats_cstr with DETAIL_LEN.
    + apply (format_ipv4_port_text zero_detail); [simpl; lia|done].
    + apply ipv4_text_no_nul; lia.
    + pose proof (ipv4_text_length ip port Hp). unfold DETAIL_LEN. lia.
  - intros ip' port' Hi' Hp' E. unfold ipv4_port_text in E. cbn [app] in E.
    assert (forall x, 0 <= x mod 256 < 256) as Hm by (intros; apply Z.mod_pos_bound; lia).
    apply fmt_u_delim in E as [E0 E]; [|done|apply Hm..].
    apply fmt_u_delim in E as [E1 E]; [|done|apply Hm..].
    apply fmt_u_delim in E as [E2 E]; [|done|apply Hm..].
    apply fmt_u_delim in E as [E3 E]; [|done|apply Hm..].
    split; [|apply fmt_u_inj; [lia|lia|done]]. rewrite (octets_sum ip Hi), (octets_sum ip' Hi'). congruence.
Qed.

Lemma ipv4_detail_exact_witness :
  cstr <$> format_ipv4_port zero_detail 64 0x0100007F 443 = Some (lit "127.0.0.1:443") /\
  ipv4_port_text 0x0100007F 443 <> ipv4_port_text 0x0200007F 443.
Proof.
  destruct (ipv4_detail_exact 0x0100007F 443) as [H1 H2]; [lia|lia|]. split.
  - vm_compute in H1. vm_compute. exact H1.
  - intros E. apply H2 in E as [E _]; [discriminate E|lia|lia].
Defined.

(** The key of a path event does not aggregate by directory as its comment
    says: [extract_dir_prefix] ends the detail at the last slash but leaves the
    file's name behind the NUL, so for two files [d/b] and [d/b'] of one
    directory the details read as the same string [d] and are different
    keys. *)
Theorem dir_prefix_keeps_basename d b b' :
  d <> [] -> no_nul d -> no_nul b -> no_nul b' -> 47 ∉ b -> 47 ∉ b' -> b <> b' ->
  (length d + 1 + length b <= 63)%nat -> (length d + 1 + length b' <= 63)%nat ->
  exists k k', extract_dir_prefix (d ++ [47] ++ b ++ [0]) zero_detail (Z.of_nat DETAIL_LEN) = Some k /\
    extract_dir_prefix (d ++ [47] ++ b' ++ [0]) zero_detail (Z.of_nat DETAIL_LEN) = Some k' /\
    cstr k = d /\ cstr k' = d /\ k <> k'.
Proof.
  intros Hd Hnd Hnb Hnb' Hb Hb' Hne Hl Hl'.
  assert (forall x, no_nul x -> (length d + 1 + length x <= 63)%nat -> 47 ∉ x ->
    extract_dir_prefix (d ++ [47] ++ x ++ [0]) zero_detail (Z.of_nat DETAIL_LEN)
    = Some (d ++ 0 :: x ++ replicate (64 - length (d ++ 47 :: x)) 0)) as Hx.
  { intros x Hnx Hlx Hsx.
    assert (take 63 (cstr (d ++ [47] ++ x ++ [0])) = d ++ 47 :: x) as Hc.
    { replace (d ++ [47] ++ x ++ [0]) with ((d ++ 47 :: x) ++ 0 :: []) by (by rewrite <- app_assoc).
      rewrite cstr_app by (apply no_nul_app; [done|constructor; [lia|done]]).
      apply firstn_all2. rewrite length_app. simpl. lia. }
    destruct (extract_dir_prefix_bytes (d ++ [47] ++ x ++ [0])) as [H1 _].
    { rewrite !elem_of_app. right. right. right. left. }
    rewrite Hc in H1. by apply (H1 d x). }
  eexists _, _. split; [by apply Hx|]. split; [by apply Hx|].
  split; [by apply cstr_app|]. split; [by apply cstr_app|]. intros E. apply app_inv_head in E. injection E as E.
  assert (forall x n, no_nul x -> cstr (x ++ replicate n 0) = x) as Hcs.
  { intros x n Hx'. destruct n; [by rewrite app_nil_r, cstr_id|by apply cstr_app]. }
  apply Hne. apply (f_equal cstr) in E. by rewrite !Hcs in E.
Qed.

Lemma dir_prefix_keeps_basename_witness :
  exists k k', extract_dir_prefix (lit "/tmp" ++ [47] ++ lit "a" ++ [0]) zero_detail 64 = Some k /\
    extract_dir_prefix (lit "/tmp" ++ [47] ++ lit "b" ++ [0]) zero_detail 64 = Some k' /\
    cstr k = lit "/tmp" /\ cstr k' = lit "/tmp" /\ k <> k'.
Proof.
  apply (dir_prefix_keeps_basename (lit "/tmp") (lit "a") (lit "b")).
  all: try discriminate; try (by apply no_nul_test); try (vm_compute; lia).
  all: intros H; vm_compute in H; apply list_elem_of_singleton in H; discriminate H.
Defined.
