(* ===== verification/BpfMap.v ===== *)
(** * BPF hash maps, as an interface

    The maps are the kernel's: the development takes them as a parameter, the
    class [BpfHash] of their operations with the class [BpfHashLaws] of the
    behaviour bpf(2) and bpf-helpers(7) document.  Every theorem on the tracers
    is proved for any implementation with these laws; [bounded] at the end is
    one, so that the laws can hold and the witnesses can compute. *)

From S2P Require Import Prelude.

(** ** Operations *)

Inductive bpf_flag := BPF_ANY | BPF_NOEXIST.

Class BpfHash (hmap : Type -> Type -> Type) := {
  bpf_map_lookup_elem : forall {K V} `{Countable K}, hmap K V -> K -> option V;
  (** the map after the call and whether the call returned 0 or more *)
  bpf_map_update_elem : forall {K V} `{Countable K}, hmap K V -> K -> V -> bpf_flag -> hmap K V * bool;
  bpf_map_delete_elem : forall {K V} `{Countable K}, hmap K V -> K -> hmap K V;
  (** a write through the pointer a lookup returned *)
  bpf_map_store : forall {K V} `{Countable K}, hmap K V -> K -> V -> hmap K V;
  (** [None] is the error ENOENT at the end of the iteration *)
  bpf_map_get_next_key : forall {K V} `{Countable K}, hmap K V -> K -> option K;
  (** the same with a NULL key *)
  bpf_map_get_first_key : forall {K V} `{Countable K}, hmap K V -> option K;
}.

(** The map after an update whose result the code ignores. *)
Definition bpf_map_set `{BpfHash hmap} {K V} `{Countable K} (m : hmap K V) (k : K) (v : V) : hmap K V :=
  fst (bpf_map_update_elem m k v BPF_ANY).

(** ** Documented behaviour *)

(** The element after [p] in an enumeration: the successor of its first
    occurrence, or the first element when it is not there. *)
Definition next_after {A} `{EqDecision A} (l : list A) (x : A) : option A :=
  match list_find (fun y => y = x) l with
  | Some (i, _) => l !! S i
  | None => head l
  end.

Class BpfHashLaws (hmap : Type -> Type -> Type) `{BpfHash hmap} := {
  (** the entries, in the order the kernel enumerates them *)
  bpf_contents : forall {K V} `{Countable K}, hmap K V -> list (K * V);
  bpf_contents_NoDup : forall {K V} `{Countable K} (m : hmap K V), NoDup (bpf_contents m).*1;
  bpf_lookup_contents : forall {K V} `{Countable K} (m : hmap K V) k,
    bpf_map_lookup_elem m k = (list_to_map (bpf_contents m) : gmap K V) !! k;
  (** a successful update binds the key; with NOEXIST it had no binding *)
  bpf_update_ok : forall {K V} `{Countable K} (m m' : hmap K V) k v f,
    bpf_map_update_elem m k v f = (m', true) ->
    (list_to_map (bpf_contents m') : gmap K V) = <[k := v]> (list_to_map (bpf_contents m)) /\
    (f = BPF_NOEXIST -> bpf_map_lookup_elem m k = None);
  (** a failed one changes nothing (the map is full, or no memory) *)
  bpf_update_fail : forall {K V} `{Countable K} (m m' : hmap K V) k v f,
    bpf_map_update_elem m k v f = (m', false) -> bpf_contents m' = bpf_contents m;
  (** a pointer a lookup returned stays the entry's value *)
  bpf_store_contents : forall {K V} `{Countable K} (m : hmap K V) k v,
    is_Some (bpf_map_lookup_elem m k) ->
    (list_to_map (bpf_contents (bpf_map_store m k v)) : gmap K V) = <[k := v]> (list_to_map (bpf_contents m));
  bpf_delete_contents : forall {K V} `{Countable K} (m : hmap K V) k,
    bpf_contents (bpf_map_delete_elem m k) = filter (fun p => p.1 <> k) (bpf_contents m);
  bpf_next_contents : forall {K V} `{Countable K} (m : hmap K V) k,
    bpf_map_get_next_key m k = next_after (bpf_contents m).*1 k;
  bpf_first_contents : forall {K V} `{Countable K} (m : hmap K V),
    bpf_map_get_first_key m = head (bpf_contents m).*1;
}.

(** Capacity: an update fails only when the map holds [max_entries] others. *)
Class BpfRoom (hmap : Type -> Type -> Type) `{BpfHashLaws hmap} := {
  bpf_max_entries : forall {K V} `{Countable K}, hmap K V -> nat;
  bpf_update_room : forall {K V} `{Countable K} (m : hmap K V) k v,
    (length (bpf_contents m) < bpf_max_entries m)%nat \/ k ∈ (bpf_contents m).*1 ->
    snd (bpf_map_update_elem m k v BPF_ANY) = true;
  bpf_update_max : forall {K V} `{Countable K} (m : hmap K V) k v f,
    bpf_max_entries (fst (bpf_map_update_elem m k v f)) = bpf_max_entries m;
  bpf_delete_max : forall {K V} `{Countable K} (m : hmap K V) k,
    bpf_max_entries (bpf_map_delete_elem m k) = bpf_max_entries m;
}.

(** ** Iteration *)

Lemma next_after_absent {A} `{EqDecision A} (l : list A) x : x ∉ l -> next_after l x = head l.
Proof.
  intros Hx. unfold next_after. destruct (list_find _ l) as [[i y]|] eqn:E; [|done].
  apply list_find_Some in E as (Hi & -> & _). by apply list_elem_of_lookup_2 in Hi.
Qed.

Lemma next_after_mid {A} `{EqDecision A} (l1 l2 : list A) x :
  x ∉ l1 -> next_after (l1 ++ x :: l2) x = head l2.
Proof.
  intros Hx. unfold next_after.
  assert (list_find (fun y => y = x) (l1 ++ x :: l2) = Some (length l1, x)) as ->.
  { apply list_find_Some. split_and!; [by apply list_lookup_middle|done|].
    intros j y Hj Hlt ->. apply Hx. rewrite lookup_app_l in Hj by done. by apply list_elem_of_lookup_2 in Hj. }
  rewrite lookup_app_r by lia. replace (S (length l1) - length l1)%nat with 1%nat by lia. by destruct l2.
Qed.

(** ** The abstract map *)

Section laws.
Context `{BpfHashLaws hmap} {K V : Type} `{Countable K}.
Implicit Types (m : hmap K V) (k : K) (v : V).

Definition bpf_map m : gmap K V := list_to_map (bpf_contents m).

Lemma bpf_lookup m k : bpf_map_lookup_elem m k = bpf_map m !! k.
Proof. apply bpf_lookup_contents. Qed.

Lemma bpf_update_map m m' k v f :
  bpf_map_update_elem m k v f = (m', true) -> bpf_map m' = <[k := v]> (bpf_map m).
Proof. intros Hu. by apply bpf_update_ok in Hu as [? _]. Qed.

Lemma bpf_update_new m m' k v :
  bpf_map_update_elem m k v BPF_NOEXIST = (m', true) -> bpf_map m !! k = None.
Proof. intros Hu. apply bpf_update_ok in Hu as [_ Hn]. rewrite <- bpf_lookup. by apply Hn. Qed.

Lemma bpf_update_map_fail m m' k v f :
  bpf_map_update_elem m k v f = (m', false) -> bpf_map m' = bpf_map m.
Proof. intros Hu. unfold bpf_map. by rewrite (bpf_update_fail _ _ _ _ _ Hu). Qed.

Lemma bpf_store_map m k v :
  is_Some (bpf_map m !! k) -> bpf_map (bpf_map_store m k v) = <[k := v]> (bpf_map m).
Proof. intros Hk. apply bpf_store_contents. by rewrite bpf_lookup. Qed.

Lemma bpf_delete_map m k : bpf_map (bpf_map_delete_elem m k) = delete k (bpf_map m).
Proof.
  unfold bpf_map. rewrite bpf_delete_contents. pose proof (bpf_contents_NoDup m) as Hnd.
  apply map_eq. intros i. revert Hnd. induction (bpf_contents m) as [|[k' v'] l IH]; intros Hnd.
  - cbn [list_to_map foldr]. by rewrite delete_empty.
  - cbn [list_fmap fmap fst] in Hnd. apply NoDup_cons in Hnd as [Hk' Hnd]. specialize (IH Hnd).
    rewrite filter_cons. cbn [fst]. destruct (decide (k' <> k)) as [Hne|Heq]; cbn [list_to_map foldr fst snd].
    + destruct (decide (i = k')) as [->|Hi].
      * rewrite lookup_insert_eq. by rewrite lookup_delete_ne, lookup_insert_eq by done.
      * rewrite lookup_insert_ne by done. rewrite IH.
        destruct (decide (i = k)) as [->|Hik].
        -- by rewrite !lookup_delete_eq.
        -- by rewrite !lookup_delete_ne, lookup_insert_ne by done.
    + apply dec_stable in Heq. subst k'. by rewrite delete_insert_eq, IH.
Qed.

(** A set with the result ignored either binds the key or changes nothing. *)
Lemma bpf_set_map m k v :
  bpf_map (bpf_map_set m k v) = <[k := v]> (bpf_map m) \/ bpf_map (bpf_map_set m k v) = bpf_map m.
Proof.
  unfold bpf_map_set. destruct (bpf_map_update_elem m k v BPF_ANY) as [m' [|]] eqn:E; cbn [fst].
  - left. by eapply bpf_update_map.
  - right. by eapply bpf_update_map_fail.
Qed.

(** Whatever the result, the other keys are untouched. *)
Lemma bpf_set_other m k v k' : k' <> k -> bpf_map (bpf_map_set m k v) !! k' = bpf_map m !! k'.
Proof.
  intros Hne. destruct (bpf_set_map m k v) as [-> | ->]; [|done]. by rewrite lookup_insert_ne.
Qed.

(** The map takes a binding of [k]. *)
Definition has_room `{!BpfRoom hmap} m k : Prop :=
  (size (bpf_map m) < bpf_max_entries m)%nat \/ is_Some (bpf_map m !! k).

(** With room the key is bound. *)
Lemma bpf_set_map_room `{!BpfRoom hmap} m k v :
  has_room m k ->
  bpf_map (bpf_map_set m k v) = <[k := v]> (bpf_map m).
Proof.
  intros Hm. assert (snd (bpf_map_update_elem m k v BPF_ANY) = true) as Ht.
  { apply bpf_update_room. unfold has_room, bpf_map in Hm. destruct Hm as [Hm|[v' Hv]]; [left|right].
    - rewrite map_size_list_to_map in Hm by apply bpf_contents_NoDup. done.
    - apply elem_of_list_to_map in Hv; [|apply bpf_contents_NoDup]. by apply (list_elem_of_fmap_2 fst) in Hv. }
  unfold bpf_map_set. destruct (bpf_map_update_elem m k v BPF_ANY) as [m' ok] eqn:E. cbn [fst snd] in *. subst ok.
  by eapply bpf_update_map.
Qed.

Lemma bpf_set_max `{!BpfRoom hmap} m k v : bpf_max_entries (bpf_map_set m k v) = bpf_max_entries m.
Proof. apply bpf_update_max. Qed.

(** Room for [n] more keys, whatever they are. *)
Definition bpf_room `{!BpfRoom hmap} (n : nat) m : Prop := (size (bpf_map m) + n <= bpf_max_entries m)%nat.

Lemma bpf_room_has `{!BpfRoom hmap} n m k : bpf_room (S n) m -> has_room m k.
Proof. unfold bpf_room. left. lia. Qed.

Lemma bpf_room_less `{!BpfRoom hmap} n m : bpf_room (S n) m -> bpf_room n m.
Proof. unfold bpf_room. lia. Qed.

Lemma bpf_room_set `{!BpfRoom hmap} n m k v : bpf_room (S n) m -> bpf_room n (bpf_map_set m k v).
Proof.
  intros Hm. unfold bpf_room. rewrite bpf_set_max, bpf_set_map_room by (by eapply bpf_room_has). unfold bpf_room in Hm.
  rewrite map_size_insert. case_match; unfold id; lia.
Qed.

Lemma bpf_room_delete `{!BpfRoom hmap} n m k : bpf_room n m -> bpf_room n (bpf_map_delete_elem m k).
Proof.
  unfold bpf_room. rewrite bpf_delete_max, bpf_delete_map, map_size_delete. case_match; unfold id; lia.
Qed.

Lemma bpf_map_lookup_list m k v : bpf_map m !! k = Some v <-> (k, v) ∈ bpf_contents m.
Proof. unfold bpf_map. symmetry. apply elem_of_list_to_map, bpf_contents_NoDup. Qed.

Lemma contents_lookup m k v l1 l2 :
  bpf_contents m = l1 ++ (k, v) :: l2 -> bpf_map_lookup_elem m k = Some v.
Proof.
  intros E. rewrite bpf_lookup. apply bpf_map_lookup_list. rewrite E. apply elem_of_app. right. left.
Qed.

(** Deleting the first entry leaves the others. *)
Lemma delete_first m k v l :
  bpf_contents m = (k, v) :: l -> bpf_contents (bpf_map_delete_elem m k) = l /\ k ∉ l.*1.
Proof.
  intros E. pose proof (bpf_contents_NoDup m) as Hn. rewrite E in Hn. cbn [list_fmap fmap fst] in Hn.
  apply NoDup_cons in Hn as [Hk _]. split; [|done].
  rewrite bpf_delete_contents, E, filter_cons. cbn [fst]. rewrite decide_False by (by intros ?).
  clear -Hk. induction l as [|[k' v'] l IH]; [done|]. cbn [list_fmap fmap fst] in Hk.
  apply not_elem_of_cons in Hk as [Hne Hk]. rewrite filter_cons. cbn [fst].
  rewrite decide_True by (by apply not_eq_sym). by rewrite IH.
Qed.

Lemma bpf_map_to_list m : map_to_list (bpf_map m) ≡ₚ bpf_contents m.
Proof. unfold bpf_map. apply map_to_list_to_map, bpf_contents_NoDup. Qed.
End laws.

Create HintDb room.
#[export] Hint Resolve bpf_room_has bpf_room_set bpf_room_delete bpf_room_less : room.

(** ** An implementation

    A list of at most [bd_max] entries, new ones in front. *)

Record bounded (K V : Type) := Bounded {
  bd_max : nat;
  bd_list : list (K * V);
  bd_nodup : NoDup bd_list.*1;
}.
Arguments Bounded {K V}.
Arguments bd_max {K V}.
Arguments bd_list {K V}.
Arguments bd_nodup {K V}.

Definition bd_lookup {K V} `{Countable K} (m : bounded K V) (k : K) : option V :=
  (list_to_map (bd_list m) : gmap K V) !! k.

(** The list with the value of a key replaced. *)
Definition bd_replace {K V} `{Countable K} (k : K) (v : V) : list (K * V) -> list (K * V) :=
  fmap (fun p => if decide (p.1 = k) then (k, v) else p).

Lemma bd_replace_keys {K V} `{Countable K} (k : K) (v : V) l : (bd_replace k v l).*1 = l.*1.
Proof.
  unfold bd_replace. rewrite <- list_fmap_compose. apply list_fmap_ext. intros i [k' v'] _.
  simpl. by case_decide.
Qed.

Lemma bd_replace_nodup {K V} `{Countable K} (k : K) (v : V) l :
  NoDup l.*1 -> NoDup (bd_replace k v l).*1.
Proof. by rewrite bd_replace_keys. Qed.

Lemma bd_filter_nodup {K V} `{Countable K} (k : K) (l : list (K * V)) :
  NoDup l.*1 -> NoDup (filter (fun p => p.1 <> k) l).*1.
Proof.
  induction l as [|[k' v] l IH]; [done|]. cbn [list_fmap fmap fst]. rewrite NoDup_cons.
  intros [Hk' Hn]. rewrite filter_cons. case_decide; [|by apply IH].
  cbn [list_fmap fmap fst]. apply NoDup_cons. split; [|by apply IH].
  intros Hin. apply Hk'. apply list_elem_of_fmap in Hin as (p & -> & Hp).
  apply list_elem_of_filter in Hp as [_ Hp]. by apply list_elem_of_fmap_2.
Qed.

Lemma bd_cons_nodup {K V} `{Countable K} (k : K) (v : V) l :
  k ∉ l.*1 -> NoDup l.*1 -> NoDup ((k, v) :: l).*1.
Proof. intros. by apply NoDup_cons. Qed.

Definition bd_store {K V} `{Countable K} (m : bounded K V) (k : K) (v : V) : bounded K V :=
  Bounded (bd_max m) (bd_replace k v (bd_list m)) (bd_replace_nodup k v _ (bd_nodup m)).

Definition bd_update {K V} `{Countable K} (m : bounded K V) (k : K) (v : V) (f : bpf_flag)
    : bounded K V * bool :=
  match decide (k ∈ (bd_list m).*1) with
  | left _ => match f with BPF_ANY => (bd_store m k v, true) | BPF_NOEXIST => (m, false) end
  | right Hn =>
      if (length (bd_list m) <? bd_max m)%nat
      then (Bounded (bd_max m) ((k, v) :: bd_list m) (bd_cons_nodup k v _ Hn (bd_nodup m)), true)
      else (m, false)
  end.

Definition bd_delete {K V} `{Countable K} (m : bounded K V) (k : K) : bounded K V :=
  Bounded (bd_max m) (filter (fun p => p.1 <> k) (bd_list m)) (bd_filter_nodup k _ (bd_nodup m)).

Definition bd_empty {K V} (n : nat) : bounded K V := Bounded n [] (NoDup_nil_2 (A:=K)).

#[export] Instance bounded_hash : BpfHash bounded := {
  bpf_map_lookup_elem := @bd_lookup;
  bpf_map_update_elem := @bd_update;
  bpf_map_delete_elem := @bd_delete;
  bpf_map_store := @bd_store;
  bpf_map_get_next_key _ _ _ _ m k := next_after (bd_list m).*1 k;
  bpf_map_get_first_key _ _ _ _ m := head (bd_list m).*1;
}.

Lemma bd_store_map {K V} `{Countable K} (m : bounded K V) k v :
  is_Some (bd_lookup m k) ->
  (list_to_map (bd_list (bd_store m k v)) : gmap K V) = <[k := v]> (list_to_map (bd_list m)).
Proof.
  unfold bd_lookup. cbn [bd_store bd_list]. pose proof (bd_nodup m) as Hnd.
  revert Hnd. induction (bd_list m) as [|[k' v'] l IH]; intros Hnd Hk.
  - cbn [list_to_map foldr] in Hk. rewrite lookup_empty in Hk. by destruct Hk.
  - cbn [list_fmap fmap fst] in Hnd. apply NoDup_cons in Hnd as [Hk' Hnd].
    cbn [list_to_map foldr fst snd bd_replace fmap list_fmap] in *. case_decide as E; cbn [list_to_map foldr fst snd].
    + subst k'. rewrite insert_insert_eq. f_equal. clear -Hk'. induction l as [|[k' v''] l IH]; [done|].
      cbn [list_fmap fmap fst] in Hk'. apply not_elem_of_cons in Hk' as [Hne Hk'].
      cbn [list_to_map foldr fst snd bd_replace fmap list_fmap]. rewrite decide_False by done.
      cbn [list_to_map foldr fst snd]. f_equal. by apply IH.
    + rewrite insert_insert_ne by done. f_equal. apply IH; [done|].
      by rewrite lookup_insert_ne in Hk by done.
Qed.

#[export] Instance bounded_laws : BpfHashLaws bounded.
Proof.
  refine {| bpf_contents := fun K V _ _ m => bd_list m |}.
  - intros. apply bd_nodup.
  - done.
  - intros K V ? ? m m' k v f. cbn. unfold bd_update. destruct (decide _) as [Hk|Hk].
    + destruct f; [|done]. intros [= <-]. split; [|done]. apply bd_store_map.
      apply list_elem_of_fmap in Hk as ([k' v'] & -> & Hin).
      exists v'. unfold bd_lookup. apply elem_of_list_to_map; [apply bd_nodup|done].
    + destruct (_ <? _)%nat; [|done]. intros [= <-]. split; [done|].
      intros _. unfold bd_lookup. by apply not_elem_of_list_to_map_1.
  - intros K V ? ? m m' k v f. cbn. unfold bd_update.
    destruct (decide _); [destruct f|destruct (_ <? _)%nat]; congruence.
  - intros. by apply bd_store_map.
  - done.
  - done.
  - done.
Defined.

#[export] Instance bounded_room : BpfRoom bounded.
Proof.
  refine {| bpf_max_entries := fun K V _ _ m => bd_max m |}.
  - intros K V ? ? m k v Hm. cbn in *. unfold bd_update. destruct (decide _) as [Hk|Hk]; [done|].
    destruct Hm as [Hm|Hm]; [|done]. by rewrite (proj2 (Nat.ltb_lt _ _)) by exact Hm.
  - intros K V ? ? m k v f. cbn. unfold bd_update. destruct (decide _); [by destruct f|by destruct (_ <? _)%nat].
  - done.
Defined.

Lemma bd_empty_map {K V} `{Countable K} n : bpf_map (@bd_empty K V n) = ∅.
Proof. done. Qed.
