(* ===== verification/Tracer.v ===== *)
(** * Tracers, as an interface

    A tracer is a set of probes over a common state: each invocation belongs to
    a thread and may submit samples.  The classes state what the tracers promise
    of them (good samples, frames, locality to a thread); the theorems below are
    proved once from these promises, and the TLS, standard-stream and browser
    tracers discharge them. *)

From S2P Require Import Prelude.

(** ** Operations *)

Record probe_system (probe ctx state sample : Type) := ProbeSystem {
  ps_run : probe -> state -> ctx -> state;
  ps_thread : ctx -> Z;
  ps_samples : state -> list sample;
}.
Arguments ProbeSystem {probe ctx state sample}.
Arguments ps_run {probe ctx state sample}.
Arguments ps_thread {probe ctx state sample}.
Arguments ps_samples {probe ctx state sample}.

(** A sequence of invocations. *)
Definition run_all {probe ctx state sample} (P : probe_system probe ctx state sample) (l : list (probe * ctx)) (s : state) : state :=
  foldl (fun s pc => ps_run P pc.1 s pc.2) s l.

(** Those of one thread. *)
Definition own_probes {probe ctx state sample} (P : probe_system probe ctx state sample) (k : Z) (l : list (probe * ctx)) : list (probe * ctx) :=
  filter (fun pc => ps_thread P pc.2 = k) l.

(** The samples of [old] and at most one more, a good one. *)
Definition adds_one {sample} (good : sample -> Prop) (old new : list sample) : Prop :=
  new = old \/ exists d, new = old ++ [d] /\ good d.

Lemma adds_none {sample} (good : sample -> Prop) l : adds_one good l l.
Proof. by left. Qed.

Lemma adds_sample {sample} (good : sample -> Prop) l d : good d -> adds_one good l (l ++ [d]).
Proof. intros Hd. right. by exists d. Qed.

Create HintDb tracer.
#[export] Hint Resolve adds_none adds_sample : tracer.

Lemma adds_one_impl {sample} (good good' : sample -> Prop) l l' : (forall d, good d -> good' d) -> adds_one good l l' -> adds_one good' l l'.
Proof. intros Hg [-> |(d & -> & Hd)]; auto with tracer. Qed.

(** ** Promises *)

(** An invocation that is [ok] submits at most one sample, a [good] one. *)
Class SampleLaws {probe ctx state sample} (P : probe_system probe ctx state sample) (ok : ctx -> Prop) (good : sample -> Prop) : Prop :=
  sample_step : forall p s c, ok c -> adds_one good (ps_samples P s) (ps_samples P (ps_run P p s c)).

(** [view s k] is what the state keeps for thread [k]: the probes of the other
    threads leave it alone. *)
Class FrameLaws {probe ctx state sample entry} (P : probe_system probe ctx state sample) (view : state -> Z -> entry) : Prop :=
  frame_step : forall p s c k, ps_thread P c <> k -> view (ps_run P p s c) k = view s k.

(** What a probe does for its thread depends only on that thread's entries and
    on the [common] part of the state, which the [quiet] probes leave alone;
    [from] is the thread of a sample, [room n s] that the maps of [s] take the
    entries of [n] more invocations. *)
Class LocalLaws {probe ctx state sample entry shared} (P : probe_system probe ctx state sample) (view : state -> Z -> entry)
    (common : state -> shared) (quiet : probe -> Prop) (from : sample -> Z) (room : nat -> state -> Prop) : Prop := {
  common_step : forall p s c, quiet p -> common (ps_run P p s c) = common s;
  room_step : forall n p s c, room (S n) s -> room n (ps_run P p s c);
  room_less : forall n s, room (S n) s -> room n s;
  local_step : forall n p s1 s2 c, quiet p -> room (S n) s1 -> room (S n) s2 -> common s1 = common s2 ->
    view s1 (ps_thread P c) = view s2 (ps_thread P c) ->
    view (ps_run P p s1 c) (ps_thread P c) = view (ps_run P p s2 c) (ps_thread P c) /\
    exists l, ps_samples P (ps_run P p s1 c) = ps_samples P s1 ++ l /\ ps_samples P (ps_run P p s2 c) = ps_samples P s2 ++ l /\
      Forall (fun d => from d = ps_thread P c) l;
}.

(** ** Consequences *)

Section samples.
Context {probe ctx state sample : Type} (P : probe_system probe ctx state sample) {ok : ctx -> Prop} {good : sample -> Prop} `{!SampleLaws P ok good}.

(** The samples of a run are good, in the order they were submitted, after
    those that were there. *)
Lemma run_all_extends l s :
  Forall (fun pc => ok pc.2) l ->
  exists ds, ps_samples P (run_all P l s) = ps_samples P s ++ ds /\ (length ds <= length l)%nat /\ Forall good ds.
Proof.
  intros Hl. revert s. induction Hl as [|[p c] l Hc _ IH]; intros s; [exists []; by rewrite app_nil_r|].
  destruct (IH (ps_run P p s c)) as (ds & E & Hn & Hg). cbn [run_all foldl fst snd length]. fold (run_all P l (ps_run P p s c)). rewrite E.
  destruct (sample_step p s c Hc) as [-> |(d & -> & Hd)].
  - exists ds. split; [done|]. split; [lia|done].
  - exists (d :: ds). rewrite <- app_assoc. split; [done|]. cbn [length]. split; [lia|by constructor].
Qed.

Lemma run_all_good l s : Forall (fun pc => ok pc.2) l -> Forall good (ps_samples P s) -> Forall good (ps_samples P (run_all P l s)).
Proof. intros Hl Hs. destruct (run_all_extends l s Hl) as (ds & -> & _ & Hd). by apply Forall_app. Qed.
End samples.

Section frame.
Context {probe ctx state sample entry : Type} (P : probe_system probe ctx state sample) (view : state -> Z -> entry) `{!FrameLaws P view}.

Lemma run_all_other l s k : Forall (fun pc => ps_thread P pc.2 <> k) l -> view (run_all P l s) k = view s k.
Proof.
  intros Hl. revert s. induction Hl as [|[p c] l Hc _ IH]; intros s; [done|]. cbn [run_all foldl fst snd].
  fold (run_all P l (ps_run P p s c)). rewrite IH. by apply frame_step.
Qed.
End frame.

Section local.
Context {probe ctx state sample entry shared : Type} (P : probe_system probe ctx state sample) (view : state -> Z -> entry).
Context (common : state -> shared) (quiet : probe -> Prop) (from : sample -> Z) (room : nat -> state -> Prop).
Context `{!FrameLaws P view} `{!LocalLaws P view common quiet from room}.

Definition samples_of (k : Z) (s : state) : list sample := filter (fun d => from d = k) (ps_samples P s).

(** What two states have in common for thread [k]. *)
Definition same_thread (k : Z) (s1 s2 : state) : Prop :=
  view s1 k = view s2 k /\ common s1 = common s2 /\ samples_of k s1 = samples_of k s2.

Lemma filter_from k t l : Forall (fun d => from d = t) l -> filter (fun d => from d = k) l = if decide (t = k) then l else [].
Proof.
  induction 1 as [|d l Hd _ IH]; [by case_decide|]. rewrite filter_cons, IH, Hd. by case_decide.
Qed.

(** A run of all threads is, for thread [k], the run of its own probes. *)
Lemma run_all_own k l s1 s2 :
  Forall (fun pc => quiet pc.1) l -> room (length l) s1 -> room (length l) s2 -> same_thread k s1 s2 ->
  same_thread k (run_all P l s1) (run_all P (own_probes P k l) s2).
Proof.
  intros Hq. revert s1 s2. induction Hq as [|[p c] l Hp _ IH]; intros s1 s2 H1 H2 Hs; [done|]. cbn [length] in *.
  unfold own_probes. rewrite filter_cons. cbn [snd]. fold (own_probes P k l). cbn [run_all foldl fst snd].
  fold (run_all P l (ps_run P p s1 c)). destruct Hs as (Hv & Hc & Hm). cbn [fst] in Hp.
  case_decide as E; [subst k|].
  - cbn [run_all foldl fst snd]. fold (run_all P (own_probes P (ps_thread P c) l) (ps_run P p s2 c)).
    destruct (local_step (length l) p s1 s2 c Hp H1 H2 Hc Hv) as (Hv' & ds & E1 & E2 & _).
    apply IH; [by apply room_step..|]. split; [done|]. split; [by rewrite !common_step|].
    unfold samples_of in *. by rewrite E1, E2, !filter_app, Hm.
  - apply IH; [by apply room_step|by apply room_less|]. split; [by rewrite (frame_step p s1 c k E)|]. split; [by rewrite common_step|].
    destruct (local_step (length l) p s1 s1 c Hp H1 H1 eq_refl eq_refl) as (_ & ds & E1 & _ & Hds).
    unfold samples_of in *. rewrite E1, filter_app, (filter_from k _ ds Hds), decide_False by done. by rewrite app_nil_r.
Qed.

(** Lists that agree thread by thread have the same elements. *)
Lemma permutation_by_thread (l1 l2 : list sample) :
  (forall k, filter (fun d => from d = k) l1 = filter (fun d => from d = k) l2) -> l1 ≡ₚ l2.
Proof.
  revert l2. induction l1 as [|x l1 IH]; intros l2 Hf.
  - destruct l2 as [|y l2]; [done|]. specialize (Hf (from y)). rewrite filter_cons, decide_True in Hf by done. done.
  - assert (exists a b, l2 = a ++ x :: b /\ filter (fun d => from d = from x) a = []) as (a & b & -> & Ha).
    { specialize (Hf (from x)). rewrite filter_cons, decide_True in Hf by done. clear IH. induction l2 as [|y l2 IH2]; [done|].
      rewrite filter_cons in Hf. case_decide as E; [injection Hf as <- _; by exists [], l2|].
      destruct (IH2 Hf) as (a & b & -> & Ha). exists (y :: a), b. split; [done|]. by rewrite filter_cons, decide_False. }
    rewrite <- Permutation_middle. constructor. apply IH. intros k. specialize (Hf k). rewrite filter_app, filter_cons in *.
    rewrite filter_cons in Hf. case_decide as E; [|done]. subst k. rewrite Ha in *. cbn [app] in *. by injection Hf.
Qed.

(** Two interleavings of the same threads leave every thread the same entries
    and the same samples in the same order, so that they submit the same
    samples up to the order between threads. *)
Lemma interleavings_agree l1 l2 s :
  Forall (fun pc => quiet pc.1) l1 -> Forall (fun pc => quiet pc.1) l2 -> room (length l1) s -> room (length l2) s ->
  (forall k, own_probes P k l1 = own_probes P k l2) ->
  (forall k, same_thread k (run_all P l1 s) (run_all P l2 s)) /\ ps_samples P (run_all P l1 s) ≡ₚ ps_samples P (run_all P l2 s).
Proof.
  intros Hq1 Hq2 Hr1 Hr2 Ho. assert (forall k, same_thread k (run_all P l1 s) (run_all P l2 s)) as Hs.
  { intros k. destruct (run_all_own k l1 s s Hq1 Hr1 Hr1) as (V1 & C1 & S1); [done|].
    destruct (run_all_own k l2 s s Hq2 Hr2 Hr2) as (V2 & C2 & S2); [done|]. rewrite Ho in *. unfold same_thread. by rewrite V1, C1, S1. }
  split; [done|]. apply permutation_by_thread. intros k. apply Hs.
Qed.
End local.
