(* ===== verification/ProcessBpf.v ===== *)
(** * The process tracer's kernel probes
    (src/bpf/process.bpf.c, src/bpf/process_ext/bpf_*.h)

    The state is that of the BPF maps and the ring buffer, a probe is a function
    from a state and the context it runs in to the next state, and [run_probe]
    collects them: a run of the tracer is a sequence of probes, each atomic.
    [None] is an access outside a buffer. *)

From S2P Require Import Prelude CLib BpfFormat BpfMap.

(** ** Data *)

Definition EVENT_TYPE_FILE_DELETE : Z := 10.
Definition EVENT_TYPE_FILE_RENAME : Z := 11.
Definition EVENT_TYPE_DIR_CREATE : Z := 12.
Definition EVENT_TYPE_FILE_TRUNCATE : Z := 13.
Definition EVENT_TYPE_CHDIR : Z := 14.
Definition EVENT_TYPE_WRITE : Z := 15.
Definition EVENT_TYPE_NET_BIND : Z := 20.
Definition EVENT_TYPE_NET_LISTEN : Z := 21.
Definition EVENT_TYPE_NET_CONNECT : Z := 22.
Definition EVENT_TYPE_PGRP_CHANGE : Z := 30.
Definition EVENT_TYPE_SESSION_CREATE : Z := 31.
Definition EVENT_TYPE_SIGNAL_SEND : Z := 32.
Definition EVENT_TYPE_PROC_FORK : Z := 33.
Definition EVENT_TYPE_MMAP_SHARED : Z := 40.
Definition EVENT_TYPE_COW_FAULT : Z := 41.

Definition MAX_COMMAND_LEN : nat := 256.

Record agg_key := AggKey { k_pid : Z; k_event_type : Z; k_detail : bytes }.

#[export] Instance agg_key_eq_dec : EqDecision agg_key.
Proof. solve_decision. Defined.

#[export] Instance agg_key_countable : Countable agg_key :=
  inj_countable' (fun k => (k_pid k, k_event_type k, k_detail k))
    (fun '(p, t, d) => AggKey p t d) (fun k => match k with AggKey _ _ _ => eq_refl end).

Record agg_value := AggValue {
  v_count : Z;
  v_total_bytes : Z;
  v_first_ts : Z;
  v_last_ts : Z;
  v_comm : bytes;
  v_extra : bytes;
}.

Inductive event_type := EVENT_TYPE_PROCESS | EVENT_TYPE_BASH_READLINE | EVENT_TYPE_FILE_OPERATION.

(** The union of an event: the member last written. *)
Inductive event_union :=
  | UFilename (filename : bytes)
  | UCommand (command : bytes)
  | UFileOp (filepath : bytes) (fd flags : Z) (is_open : bool).

Record event := Event {
  e_type : event_type;
  e_pid : Z;
  e_ppid : Z;
  e_exit_code : Z;
  e_duration_ns : Z;
  e_timestamp_ns : Z;
  e_comm : bytes;
  e_full_command : bytes;
  e_union : event_union;
  e_exit_event : bool;
}.

(** What the loader sets before the program runs. *)
Record bpf_config := BpfConfig {
  filter_pids : bool;
  filter_cgroup : bool;
  filter_cgroup_children : bool;
  target_cgroup_id : Z;
  trace_fs_mutations : bool;
  trace_network : bool;
  trace_signals : bool;
  trace_memory : bool;
  trace_cow : bool;
  min_duration_ns : Z;
}.

(** The context of an invocation: what the helpers return in it.  [user_str a]
    is the C string at the user address [a] (None is a fault), [user_mem a n]
    the [n] bytes there, [rb_slot] the reserved ring buffer sample with the
    stale content of its memory ([slot_union] is that of the union), None when
    the buffer is full. *)
Record bpf_ctx := BpfCtx {
  c_pid_tgid : Z;
  c_cgroup_id : Z;
  c_ktime : Z;
  c_comm : bytes;
  c_cpu : nat;
  c_args : nat -> Z;
  c_user_str : Z -> option bytes;
  c_user_mem : Z -> nat -> option bytes;
  c_rb_slot : option (event * bytes);
  c_real_parent_tgid : Z;
  c_task_exit_code : Z;
  c_signal_maxrss : Z;
  c_filename : bytes;
  c_arg_start : Z;
  c_arg_end : Z;
  c_ret : Z;
}.

Definition c_pid (c : bpf_ctx) : Z := Z.shiftr (c_pid_tgid c) 32.
Definition c_tid (c : bpf_ctx) : Z := u32 (c_pid_tgid c).

(** [bpf_probe_read_*_str(dst, |dst|, s)]: the string cut at the last byte but
    one and its NUL; the rest of [dst] stays. *)
Definition str_into (dst s : bytes) : bytes :=
  let t := take (length dst - 1) (cstr s) in t ++ [0] ++ drop (length t + 1) dst.

(** A local array after a string read into it, up to the NUL: the bytes after
    it are never read. *)
Definition local_str (size : nat) (s : bytes) : bytes := take (size - 1) (cstr s) ++ [0].

Section probes.
Context `{BpfHash hmap} (cfg : bpf_config).

Record pstate := PState {
  event_agg_map : hmap agg_key agg_value;
  tracked_pids : hmap Z Z;
  tracked_cgroups : hmap Z Z;
  agg_overflow_count : list Z;  (* one counter per CPU *)
  exit_mem : hmap Z Z;
  write_ctx_map : hmap Z Z;
  exec_start : hmap Z Z;
  rb : list event;  (* the submitted samples, oldest first *)
}.

Definition set_agg (s : pstate) m o : pstate :=
  PState m (tracked_pids s) (tracked_cgroups s) o (exit_mem s) (write_ctx_map s) (exec_start s) (rb s).
Definition set_write_ctx (s : pstate) m : pstate :=
  PState (event_agg_map s) (tracked_pids s) (tracked_cgroups s) (agg_overflow_count s) (exit_mem s) m (exec_start s) (rb s).
Definition set_exec_start (s : pstate) m : pstate :=
  PState (event_agg_map s) (tracked_pids s) (tracked_cgroups s) (agg_overflow_count s) (exit_mem s) (write_ctx_map s) m (rb s).
Definition set_exit_mem (s : pstate) m : pstate :=
  PState (event_agg_map s) (tracked_pids s) (tracked_cgroups s) (agg_overflow_count s) m (write_ctx_map s) (exec_start s) (rb s).
Definition bpf_ringbuf_submit (s : pstate) (e : event) : pstate :=
  PState (event_agg_map s) (tracked_pids s) (tracked_cgroups s) (agg_overflow_count s) (exit_mem s) (write_ctx_map s) (exec_start s) (rb s ++ [e]).

(** ** Common helpers (bpf_common.h) *)

Definition is_pid_tracked (s : pstate) (c : bpf_ctx) : bool :=
  if negb (filter_pids cfg) then true
  else bool_decide (is_Some (bpf_map_lookup_elem (tracked_pids s) (c_pid c))).

Definition is_cgroup_tracked (s : pstate) (c : bpf_ctx) : bool :=
  if negb (filter_cgroup cfg) then true
  else if c_cgroup_id c =? target_cgroup_id cfg then true
  else if negb (filter_cgroup_children cfg) then false
  else bool_decide (is_Some (bpf_map_lookup_elem (tracked_cgroups s) (c_cgroup_id c))).

Definition is_event_tracked (s : pstate) (c : bpf_ctx) : bool :=
  is_cgroup_tracked s c && is_pid_tracked s c.

(** The counter of the current CPU, incremented. *)
Definition bump_overflow (s : pstate) (c : bpf_ctx) : list Z :=
  alter (fun n => u64 (n + 1)) (c_cpu c) (agg_overflow_count s).

Definition update_agg_map (s : pstate) (c : bpf_ctx) (key : agg_key) (count nbytes : Z) : pstate :=
  match bpf_map_lookup_elem (event_agg_map s) key with
  | Some val =>
      let val' := AggValue (u64 (v_count val + count))
                    (if nbytes =? 0 then v_total_bytes val else u64 (v_total_bytes val + nbytes))
                    (v_first_ts val) (c_ktime c) (c_comm c) (v_extra val) in
      set_agg s (bpf_map_store (event_agg_map s) key val') (agg_overflow_count s)
  | None =>
      let new_val := AggValue count nbytes (c_ktime c) (c_ktime c) (c_comm c) (replicate MAX_FILENAME_LEN 0) in
      let '(m, ok) := bpf_map_update_elem (event_agg_map s) key new_val BPF_NOEXIST in
      set_agg s m (if ok : bool then agg_overflow_count s else bump_overflow s c)
  end.

(** ** File system (bpf_fs.h) *)

Definition agg_path_event (s : pstate) (c : bpf_ctx) (user_path event_type : Z) : option pstate :=
  if negb (trace_fs_mutations cfg) then Some s
  else if negb (is_event_tracked s c) then Some s
  else match c_user_str c user_path with
  | None => Some s
  | Some str =>
      let filepath := local_str MAX_FILENAME_LEN str in
      detail ← extract_dir_prefix filepath zero_detail (Z.of_nat DETAIL_LEN);
      let key := AggKey (c_pid c) event_type detail in
      Some (match bpf_map_lookup_elem (event_agg_map s) key with
      | Some val =>
          let val' := AggValue (u64 (v_count val + 1)) (v_total_bytes val) (v_first_ts val) (c_ktime c)
                        (c_comm c) (str_into (v_extra val) filepath) in
          set_agg s (bpf_map_store (event_agg_map s) key val') (agg_overflow_count s)
      | None =>
          let new_val := AggValue 1 0 (c_ktime c) (c_ktime c) (c_comm c)
                           (str_into (replicate MAX_FILENAME_LEN 0) filepath) in
          let '(m, ok) := bpf_map_update_elem (event_agg_map s) key new_val BPF_NOEXIST in
          set_agg s m (if ok : bool then agg_overflow_count s else bump_overflow s c)
      end)
  end.

Definition trace_unlinkat (s : pstate) (c : bpf_ctx) := agg_path_event s c (c_args c 1%nat) EVENT_TYPE_FILE_DELETE.
Definition trace_unlink (s : pstate) (c : bpf_ctx) := agg_path_event s c (c_args c 0%nat) EVENT_TYPE_FILE_DELETE.
Definition trace_renameat2 (s : pstate) (c : bpf_ctx) := agg_path_event s c (c_args c 3%nat) EVENT_TYPE_FILE_RENAME.
Definition trace_renameat (s : pstate) (c : bpf_ctx) := agg_path_event s c (c_args c 3%nat) EVENT_TYPE_FILE_RENAME.
Definition trace_rename (s : pstate) (c : bpf_ctx) := agg_path_event s c (c_args c 1%nat) EVENT_TYPE_FILE_RENAME.
Definition trace_mkdirat (s : pstate) (c : bpf_ctx) := agg_path_event s c (c_args c 1%nat) EVENT_TYPE_DIR_CREATE.
Definition trace_mkdir (s : pstate) (c : bpf_ctx) := agg_path_event s c (c_args c 0%nat) EVENT_TYPE_DIR_CREATE.

Definition trace_ftruncate (s : pstate) (c : bpf_ctx) : option pstate :=
  if negb (trace_fs_mutations cfg) then Some s
  else if negb (is_event_tracked s c) then Some s
  else
    let fd := s32 (c_args c 0%nat) in
    detail ← format_fd_detail zero_detail (Z.of_nat DETAIL_LEN) fd;
    Some (update_agg_map s c (AggKey (c_pid c) EVENT_TYPE_FILE_TRUNCATE detail) 1 0).

Definition trace_chdir (s : pstate) (c : bpf_ctx) : option pstate :=
  if negb (trace_fs_mutations cfg) then Some s
  else if negb (is_event_tracked s c) then Some s
  else match c_user_str c (c_args c 0%nat) with
  | None => Some s
  | Some str =>
      let path := local_str DETAIL_LEN str in
      Some (update_agg_map s c (AggKey (c_pid c) EVENT_TYPE_CHDIR (str_into zero_detail path)) 1 0)
  end.

(** ** Writes (bpf_write.h) *)

Definition trace_write_enter_common (s : pstate) (c : bpf_ctx) (fd : Z) : option pstate :=
  if negb (trace_fs_mutations cfg) then Some s
  else if negb (is_event_tracked s c) then Some s
  else Some (set_write_ctx s (bpf_map_set (write_ctx_map s) (c_pid_tgid c) fd)).

Definition trace_write_exit_common (s : pstate) (c : bpf_ctx) (ret : Z) : option pstate :=
  if negb (trace_fs_mutations cfg) then Some s
  else if ret <=? 0 then Some s
  else if negb (is_event_tracked s c) then Some s
  else match bpf_map_lookup_elem (write_ctx_map s) (c_pid_tgid c) with
  | None => Some s
  | Some fd =>
      let s1 := set_write_ctx s (bpf_map_delete_elem (write_ctx_map s) (c_pid_tgid c)) in
      detail ← format_fd_detail zero_detail (Z.of_nat DETAIL_LEN) fd;
      Some (update_agg_map s1 c (AggKey (c_pid c) EVENT_TYPE_WRITE detail) 1 (u64 ret))
  end.

Definition trace_write_enter (s : pstate) (c : bpf_ctx) := trace_write_enter_common s c (s32 (c_args c 0%nat)).
Definition trace_write_exit (s : pstate) (c : bpf_ctx) := trace_write_exit_common s c (c_ret c).
Definition trace_pwrite64_enter (s : pstate) (c : bpf_ctx) := trace_write_enter_common s c (s32 (c_args c 0%nat)).
Definition trace_pwrite64_exit (s : pstate) (c : bpf_ctx) := trace_write_exit_common s c (c_ret c).
Definition trace_writev_enter (s : pstate) (c : bpf_ctx) := trace_write_enter_common s c (s32 (c_args c 0%nat)).
Definition trace_writev_exit (s : pstate) (c : bpf_ctx) := trace_write_exit_common s c (c_ret c).

(** ** Network (bpf_net.h) *)

(** Byte [i] of a memory read. *)
Definition mem_byte (b : bytes) (i : nat) : Z := nth i b 0.

Definition read_and_format_sockaddr (c : bpf_ctx) (detail : bytes) (detail_len : Z) : option bytes :=
  match c_user_mem c (c_args c 1%nat) 16 with
  | None => detail ← store detail 0 63; store detail 1 0
  | Some addr =>
      let ip := mem_byte addr 4 + mem_byte addr 5 * 2 ^ 8 + mem_byte addr 6 * 2 ^ 16 + mem_byte addr 7 * 2 ^ 24 in
      let port := mem_byte addr 2 * 2 ^ 8 + mem_byte addr 3 in  (* __builtin_bswap16 *)
      format_ipv4_port detail detail_len ip port
  end.

(** The body [trace_bind] and [trace_connect] share. *)
Definition trace_sockaddr (s : pstate) (c : bpf_ctx) (event_type : Z) : option pstate :=
  if negb (trace_network cfg) then Some s
  else if negb (is_event_tracked s c) then Some s
  else
    let family := match c_user_mem c (c_args c 1%nat) 2 with
                  | Some b => mem_byte b 0 + mem_byte b 1 * 2 ^ 8 | None => 0 end in
    detail ← (if family =? 2 then read_and_format_sockaddr c zero_detail (Z.of_nat DETAIL_LEN)
              else format_family zero_detail (Z.of_nat DETAIL_LEN) family);
    Some (update_agg_map s c (AggKey (c_pid c) event_type detail) 1 0).

Definition trace_bind (s : pstate) (c : bpf_ctx) := trace_sockaddr s c EVENT_TYPE_NET_BIND.
Definition trace_connect (s : pstate) (c : bpf_ctx) := trace_sockaddr s c EVENT_TYPE_NET_CONNECT.

Definition trace_listen (s : pstate) (c : bpf_ctx) : option pstate :=
  if negb (trace_network cfg) then Some s
  else if negb (is_event_tracked s c) then Some s
  else
    let fd := s32 (c_args c 0%nat) in
    detail ← format_fd_detail zero_detail (Z.of_nat DETAIL_LEN) fd;
    Some (update_agg_map s c (AggKey (c_pid c) EVENT_TYPE_NET_LISTEN detail) 1 0).

(** ** Coordination (bpf_signals.h) *)

Definition DETAIL : Z := Z.of_nat DETAIL_LEN.

(** "a=N,b=M" in a fresh detail, and its terminator. *)
Definition two_ints_detail (a b : bytes) (n m : Z) : option bytes :=
  st ← write_str DETAIL (zero_detail, 0) a;
  st ← write_int DETAIL st n;
  st ← write_str DETAIL st b;
  '(buf, pos) ← write_int DETAIL st m;
  store buf pos 0.

Definition trace_setpgid (s : pstate) (c : bpf_ctx) : option pstate :=
  if negb (trace_signals cfg) then Some s
  else if negb (is_event_tracked s c) then Some s
  else
    detail ← two_ints_detail (lit "pid=") (lit ",pgid=") (s32 (c_args c 0%nat)) (s32 (c_args c 1%nat));
    Some (update_agg_map s c (AggKey (c_pid c) EVENT_TYPE_PGRP_CHANGE detail) 1 0).

Definition trace_setsid (s : pstate) (c : bpf_ctx) : option pstate :=
  if negb (trace_signals cfg) then Some s
  else if negb (is_event_tracked s c) then Some s
  else
    st ← write_str DETAIL (zero_detail, 0) (lit "sid=");
    '(buf, pos) ← write_uint DETAIL st (c_pid c);
    detail ← store buf pos 0;
    Some (update_agg_map s c (AggKey (c_pid c) EVENT_TYPE_SESSION_CREATE detail) 1 0).

Definition trace_kill (s : pstate) (c : bpf_ctx) : option pstate :=
  if negb (trace_signals cfg) then Some s
  else if negb (is_event_tracked s c) then Some s
  else
    detail ← two_ints_detail (lit "target=") (lit ",sig=") (s32 (c_args c 0%nat)) (s32 (c_args c 1%nat));
    Some (update_agg_map s c (AggKey (c_pid c) EVENT_TYPE_SIGNAL_SEND detail) 1 0).

Definition trace_fork (s : pstate) (c : bpf_ctx) : option pstate :=
  if negb (trace_signals cfg) then Some s
  else if negb (is_event_tracked s c) then Some s
  else Some (update_agg_map s c (AggKey (c_pid c) EVENT_TYPE_PROC_FORK zero_detail) 1 0).

(** ** Memory (bpf_mem.h, bpf_cow.h) *)

Definition trace_mmap (s : pstate) (c : bpf_ctx) : option pstate :=
  if negb (trace_memory cfg) then Some s
  else if negb (is_event_tracked s c) then Some s
  else
    let flags := s32 (c_args c 3%nat) in
    if Z.land flags 1 =? 0 then Some s
    else
      let fd := s32 (c_args c 4%nat) in
      let len := c_args c 1%nat in
      detail ← format_fd_detail zero_detail (Z.of_nat DETAIL_LEN) fd;
      Some (update_agg_map s c (AggKey (c_pid c) EVENT_TYPE_MMAP_SHARED detail) 1 len).

Definition trace_cow_fault (s : pstate) (c : bpf_ctx) : option pstate :=
  if negb (trace_cow cfg) then Some s
  else if negb (is_event_tracked s c) then Some s
  else Some (update_agg_map s c (AggKey (c_pid c) EVENT_TYPE_COW_FAULT zero_detail) 1 0).

(** ** Processes, files and bash (process.bpf.c) *)

Definition bash_readline (s : pstate) (c : bpf_ctx) : option pstate :=
  let ret := c_ret c in
  if ret =? 0 then Some s
  else if negb (is_cgroup_tracked s c) then Some s
  else
    (* Check if this is actually bash *)
    let comm (i : nat) := nth i (c_comm c) 0 in
    if negb (comm 0%nat =? 98) || negb (comm 1%nat =? 97) || negb (comm 2%nat =? 115)
       || negb (comm 3%nat =? 104) || negb (comm 4%nat =? 0) then Some s
    else match c_rb_slot c with
    | None => Some s
    | Some (e0, u0) =>
        (* a faulting read leaves the destination zeroed *)
        let command := match c_user_str c ret with
                       | Some str => str_into (take MAX_COMMAND_LEN u0) str
                       | None => replicate MAX_COMMAND_LEN 0
                       end in
        Some (bpf_ringbuf_submit s
          (Event EVENT_TYPE_BASH_READLINE (c_pid c) 0 0 0 (c_ktime c) (c_comm c) (e_full_command e0)
             (UCommand command) false))
    end.

(** The [full_command] of an exec sample and its [exit_code], which carries the
    length of the argument block. *)
Definition exec_command (c : bpf_ctx) (e0 : event) : bytes * Z :=
  let arg_len := u64 (c_arg_end c - c_arg_start c) in
  let arg_len := if Z.of_nat MAX_COMMAND_LEN - 1 <? arg_len then Z.of_nat MAX_COMMAND_LEN - 1 else arg_len in
  if 0 <? arg_len then
    let cmd := match c_user_mem c (c_arg_start c) (MAX_COMMAND_LEN - 1) with
               | Some b => b ++ [0]
               | None => str_into (replicate MAX_COMMAND_LEN 0) (c_comm c)
               end in
    (cmd, Z.land arg_len (Z.of_nat MAX_COMMAND_LEN - 1))
  else (str_into (e_full_command e0) (c_comm c), 0).

Definition handle_exec (s : pstate) (c : bpf_ctx) : option pstate :=
  if negb (is_cgroup_tracked s c) then Some s
  else
    let pid := c_pid c in
    let ts := c_ktime c in
    let s1 := set_exec_start s (bpf_map_set (exec_start s) pid ts) in
    (* don't emit exec events when minimum duration is specified *)
    if negb (min_duration_ns cfg =? 0) then Some s1
    else match c_rb_slot c with
    | None => Some s1
    | Some (e0, u0) =>
        let '(cmd, arg_len) := exec_command c e0 in
        Some (bpf_ringbuf_submit s1
          (Event EVENT_TYPE_PROCESS pid (c_real_parent_tgid c) arg_len (e_duration_ns e0) ts (c_comm c) cmd
             (UFilename (str_into (take MAX_FILENAME_LEN u0) (c_filename c))) false))
    end.

Definition handle_exit (s : pstate) (c : bpf_ctx) : option pstate :=
  if negb (is_cgroup_tracked s c) then Some s
  else
    let pid := c_pid c in
    (* ignore thread exits *)
    if negb (pid =? c_tid c) then Some s
    else
      let ts := c_ktime c in
      let start_ts := bpf_map_lookup_elem (exec_start s) pid in
      let duration_ns := match start_ts with Some t => u64 (ts - t) | None => 0 end in
      if bool_decide (start_ts = None) && negb (min_duration_ns cfg =? 0) then Some s
      else
        let s1 := set_exec_start s (bpf_map_delete_elem (exec_start s) pid) in
        (* if process didn't live long enough, return early *)
        if negb (min_duration_ns cfg =? 0) && (duration_ns <? min_duration_ns cfg) then Some s1
        else match c_rb_slot c with
        | None => Some s1
        | Some (e0, u0) =>
            let e := Event EVENT_TYPE_PROCESS pid (c_real_parent_tgid c)
                       (Z.land (Z.shiftr (c_task_exit_code c) 8) 0xff) duration_ns ts (c_comm c)
                       (e_full_command e0) (UFilename (take MAX_FILENAME_LEN u0)) true in
            let s2 := if 0 <? c_signal_maxrss c
                      then set_exit_mem s1 (bpf_map_set (exit_mem s1) pid (c_signal_maxrss c)) else s1 in
            Some (bpf_ringbuf_submit s2 e)
        end.

(** The common part of [trace_openat] and [trace_open]. *)
Definition file_open_event (s : pstate) (c : bpf_ctx) (filename flags : Z) : option pstate :=
  if negb (is_cgroup_tracked s c) then Some s
  else match c_user_str c filename with
  | None => Some s
  | Some str =>
      let filepath := local_str MAX_FILENAME_LEN str in
      match c_rb_slot c with
      | None => Some s
      | Some (e0, u0) =>
          Some (bpf_ringbuf_submit s
            (Event EVENT_TYPE_FILE_OPERATION (c_pid c) 0 0 0 (c_ktime c) (c_comm c) (e_full_command e0)
               (UFileOp (str_into (take MAX_FILENAME_LEN u0) filepath) (-1) flags true) false))
      end
  end.

Definition trace_openat (s : pstate) (c : bpf_ctx) : option pstate :=
  file_open_event s c (c_args c 1%nat) (s32 (c_args c 2%nat)).

Definition trace_open (s : pstate) (c : bpf_ctx) : option pstate :=
  file_open_event s c (c_args c 0%nat) (s32 (c_args c 1%nat)).

(** ** The probes, by attachment point *)

Inductive probe :=
  | P_unlinkat | P_unlink | P_renameat2 | P_renameat | P_rename | P_mkdirat | P_mkdir
  | P_ftruncate | P_chdir
  | P_write_enter | P_write_exit | P_pwrite64_enter | P_pwrite64_exit | P_writev_enter | P_writev_exit
  | P_bind | P_listen | P_connect
  | P_setpgid | P_setsid | P_kill | P_fork
  | P_mmap | P_cow_fault
  | P_bash_readline | P_exec | P_exit | P_openat | P_open.

Definition run_probe (p : probe) : pstate -> bpf_ctx -> option pstate :=
  match p with
  | P_unlinkat => trace_unlinkat | P_unlink => trace_unlink
  | P_renameat2 => trace_renameat2 | P_renameat => trace_renameat | P_rename => trace_rename
  | P_mkdirat => trace_mkdirat | P_mkdir => trace_mkdir
  | P_ftruncate => trace_ftruncate | P_chdir => trace_chdir
  | P_write_enter => trace_write_enter | P_write_exit => trace_write_exit
  | P_pwrite64_enter => trace_pwrite64_enter | P_pwrite64_exit => trace_pwrite64_exit
  | P_writev_enter => trace_writev_enter | P_writev_exit => trace_writev_exit
  | P_bind => trace_bind | P_listen => trace_listen | P_connect => trace_connect
  | P_setpgid => trace_setpgid | P_setsid => trace_setsid | P_kill => trace_kill | P_fork => trace_fork
  | P_mmap => trace_mmap | P_cow_fault => trace_cow_fault
  | P_bash_readline => bash_readline | P_exec => handle_exec | P_exit => handle_exit
  | P_openat => trace_openat | P_open => trace_open
  end.

End probes.

Arguments pstate : clear implicits.
Arguments PState {hmap}.
Arguments event_agg_map {hmap}.
Arguments tracked_pids {hmap}.
Arguments tracked_cgroups {hmap}.
Arguments agg_overflow_count {hmap}.
Arguments exit_mem {hmap}.
Arguments write_ctx_map {hmap}.
Arguments exec_start {hmap}.
Arguments rb {hmap}.
