(* ===== verification/ProcessBpfSpec.v ===== *)
(** * The process tracer's kernel probes: specification and proofs

    A table of what each aggregating probe should count, and the proofs that
    the probes of [ProcessBpf] never leave their buffers, count exactly that,
    and lose nothing: every counted event is in the aggregation map or in the
    overflow counters. *)

From S2P Require Import Prelude CLib BpfFormat BpfMap ProcessBpf.

(** ** Specification *)

(** The directory of a path as a detail: the first 63 bytes, up to the last
    slash unless that is the first byte. *)
Definition dir_text (path : bytes) : bytes :=
  let p := take 63 path in
  let i := last_slash_from 0 0 p in
  if 0 <? i then take (Z.to_nat i) p else p.

Definition fd_text (fd : Z) : bytes := lit "fd=" ++ fmt_d fd.

(** The probes that aggregate: the flag that enables them and the type they
    count under.  [None] for the probes that emit ring buffer samples and for
    the write entries, which only remember the descriptor. *)
Definition probe_type (p : probe) : option Z :=
  match p with
  | P_unlinkat | P_unlink => Some 10
  | P_renameat2 | P_renameat | P_rename => Some 11
  | P_mkdirat | P_mkdir => Some 12
  | P_ftruncate => Some 13
  | P_chdir => Some 14
  | P_write_exit | P_pwrite64_exit | P_writev_exit => Some 15
  | P_bind => Some 20 | P_listen => Some 21 | P_connect => Some 22
  | P_setpgid => Some 30 | P_setsid => Some 31 | P_kill => Some 32 | P_fork => Some 33
  | P_mmap => Some 40 | P_cow_fault => Some 41
  | _ => None
  end.

Definition probe_flag (cfg : bpf_config) (p : probe) : bool :=
  match p with
  | P_bind | P_listen | P_connect => trace_network cfg
  | P_setpgid | P_setsid | P_kill | P_fork => trace_signals cfg
  | P_mmap => trace_memory cfg
  | P_cow_fault => trace_cow cfg
  | _ => trace_fs_mutations cfg
  end.

(** The address of a socket call, as text. *)
Definition sockaddr_text (c : bpf_ctx) : bytes :=
  let family := match c_user_mem c (c_args c 1%nat) 2 with
                | Some b => mem_byte b 0 + mem_byte b 1 * 2 ^ 8 | None => 0 end in
  if family =? 2 then
    match c_user_mem c (c_args c 1%nat) 16 with
    | Some b => ipv4_port_text
        (mem_byte b 4 + mem_byte b 5 * 2 ^ 8 + mem_byte b 6 * 2 ^ 16 + mem_byte b 7 * 2 ^ 24)
        (mem_byte b 2 * 2 ^ 8 + mem_byte b 3)
    | None => lit "?"
    end
  else lit "family=" ++ fmt_u family.

(** The text of the key, [None] when the probe has nothing to count: an
    unreadable path, a write that failed or whose entry was not seen, a private
    mapping. *)
Definition probe_text `{BpfHash hmap} (p : probe) (s : pstate hmap) (c : bpf_ctx) : option bytes :=
  let path i := dir_text <$> (take 126 ∘ cstr <$> c_user_str c (c_args c i)) in
  let arg i := s32 (c_args c i) in
  match p with
  | P_unlinkat | P_rename | P_mkdirat => path 1%nat
  | P_unlink | P_mkdir => path O
  | P_renameat2 | P_renameat => path 3%nat
  | P_ftruncate | P_listen => Some (fd_text (arg O))
  | P_chdir => take 63 ∘ cstr <$> c_user_str c (c_args c O)
  | P_write_exit | P_pwrite64_exit | P_writev_exit =>
      if 0 <? c_ret c then fd_text <$> bpf_map_lookup_elem (write_ctx_map s) (c_pid_tgid c) else None
  | P_bind | P_connect => Some (sockaddr_text c)
  | P_setpgid => Some (lit "pid=" ++ fmt_d (arg O) ++ lit ",pgid=" ++ fmt_d (arg 1%nat))
  | P_setsid => Some (lit "sid=" ++ fmt_u (c_pid c))
  | P_kill => Some (lit "target=" ++ fmt_d (arg O) ++ lit ",sig=" ++ fmt_d (arg 1%nat))
  | P_mmap => if Z.odd (arg 3%nat) then Some (fd_text (arg 4%nat)) else None
  | P_fork | P_cow_fault => Some []
  | _ => None
  end.

(** The bytes credited besides the count. *)
Definition probe_bytes (p : probe) (c : bpf_ctx) : Z :=
  match p with
  | P_write_exit | P_pwrite64_exit | P_writev_exit => u64 (c_ret c)
  | P_mmap => c_args c 1%nat
  | _ => 0
  end.

(** ** Counting *)

Section counting.
Context `{BpfHashLaws hmap}.
Implicit Types (s : pstate hmap).

(** One event counted under [key]: in the map, or by the overflow counter of
    the CPU when the map refuses the new key. *)
Definition counted (s s' : pstate hmap) (c : bpf_ctx) (key : agg_key) (nbytes : Z) : Prop :=
  (exists v', bpf_map (event_agg_map s') = <[key := v']> (bpf_map (event_agg_map s)) /\
     agg_overflow_count s' = agg_overflow_count s /\ v_last_ts v' = c_ktime c /\ v_comm v' = c_comm c /\
     match bpf_map (event_agg_map s) !! key with
     | Some v => v_count v' = u64 (v_count v + 1) /\ v_first_ts v' = v_first_ts v /\
         (0 < nbytes -> v_total_bytes v' = u64 (v_total_bytes v + nbytes)) /\
         (nbytes = 0 -> v_total_bytes v' = v_total_bytes v)
     | None => v_count v' = 1 /\ v_first_ts v' = c_ktime c /\ v_total_bytes v' = nbytes
     end) \/
  (bpf_map (event_agg_map s') = bpf_map (event_agg_map s) /\
     bpf_map (event_agg_map s) !! key = None /\
     agg_overflow_count s' = alter (fun n => u64 (n + 1)) (c_cpu c) (agg_overflow_count s)).

(** The rest of the state. *)
Definition same_rest (s s' : pstate hmap) : Prop :=
  tracked_pids s' = tracked_pids s /\ tracked_cgroups s' = tracked_cgroups s /\ exit_mem s' = exit_mem s /\
  exec_start s' = exec_start s /\ rb s' = rb s.

(** Inserting a new value, or counting the refusal. *)
Lemma insert_counted s c key v nbytes :
  bpf_map (event_agg_map s) !! key = None ->
  v_count v = 1 -> v_first_ts v = c_ktime c -> v_total_bytes v = nbytes ->
  v_last_ts v = c_ktime c -> v_comm v = c_comm c ->
  let '(m, ok) := bpf_map_update_elem (event_agg_map s) key v BPF_NOEXIST in
  counted s (set_agg s m (if ok : bool then agg_overflow_count s else bump_overflow s c)) c key nbytes.
Proof.
  intros Hn H1 H2 H3 H4 H5. destruct (bpf_map_update_elem _ _ _ _) as [m [|]] eqn:E.
  - left. exists v. cbn [event_agg_map agg_overflow_count set_agg]. rewrite Hn.
    split_and!; try done. by eapply bpf_update_map.
  - right. cbn [event_agg_map agg_overflow_count set_agg]. split_and!; try done.
    by eapply bpf_update_map_fail.
Qed.

Lemma update_agg_map_counted s c key nbytes :
  0 <= nbytes -> counted s (update_agg_map s c key 1 nbytes) c key nbytes.
Proof.
  intros Hb. unfold update_agg_map. rewrite bpf_lookup.
  destruct (bpf_map (event_agg_map s) !! key) as [v|] eqn:Ev.
  - left. eexists. cbn [event_agg_map agg_overflow_count set_agg]. rewrite bpf_store_map by done.
    rewrite Ev. split_and!; try done; cbn [v_total_bytes].
    + intros. by rewrite (proj2 (Z.eqb_neq nbytes 0)) by lia.
    + intros ->. done.
  - pose proof (insert_counted s c key (AggValue 1 nbytes (c_ktime c) (c_ktime c) (c_comm c)
      (replicate MAX_FILENAME_LEN 0)) nbytes Ev eq_refl eq_refl eq_refl eq_refl eq_refl) as Hc.
    by destruct (bpf_map_update_elem _ _ _ _).
Qed.

Lemma update_agg_map_rest s c key n nbytes :
  same_rest s (update_agg_map s c key n nbytes) /\
  write_ctx_map (update_agg_map s c key n nbytes) = write_ctx_map s.
Proof.
  unfold update_agg_map. destruct (bpf_map_lookup_elem _ _); [done|].
  by destruct (bpf_map_update_elem _ _ _ _).
Qed.

(** ** Details *)

(** A string read into an array. *)
Lemma str_into_array dst (str : bytes) :
  (0 < length dst)%nat ->
  cstr (str_into dst str) = take (length dst - 1) (cstr str) /\ 0 ∈ str_into dst str /\ length (str_into dst str) = length dst.
Proof.
  intros Hd. unfold str_into. split_and!.
  - cbn [app]. apply cstr_app. apply no_nul_take, cstr_no_nul.
  - apply elem_of_app. right. left.
  - rewrite !length_app, length_drop, length_take. cbn [length]. lia.
Qed.

(** The array of a detail holds the text [t]. *)
Definition detail_ok (d t : bytes) : Prop := cstr d = t /\ 0 ∈ d /\ length d = DETAIL_LEN.

Lemma zero_detail_ok : detail_ok zero_detail [].
Proof. split; [reflexivity|]. split; [apply elem_test|]; reflexivity. Qed.

(** The detail of a key whose text fits. *)
Lemma formats_detail res t :
  formats res 64 t -> no_nul t -> (length t < 64)%nat -> exists d, res = Some d /\ detail_ok d t.
Proof.
  intros Hf Hn Hl. pose proof (formats_cstr res 64 t Hf Hn Hl) as Hc. destruct Hf as (r & -> & Hr).
  eexists. split; [done|]. split; [by injection Hc|]. split; [|done]. apply elem_of_app. right. left.
Qed.

Lemma s32_bound x : - 2 ^ 31 <= s32 x < 2 ^ 31.
Proof. apply (wraps_bound 32). lia. Qed.

Lemma fd_detail fd :
  - 2 ^ 31 <= fd < 2 ^ 31 ->
  exists d, format_fd_detail zero_detail 64 fd = Some d /\ detail_ok d (fd_text fd).
Proof.
  intros Hfd. apply (formats_detail _ (fd_text fd)).
  - apply (format_fd_detail_text zero_detail); [simpl; lia|done].
  - unfold fd_text. auto with nonul.
  - unfold fd_text. rewrite length_app. pose proof (fmt_d_length fd Hfd). simpl. lia.
Qed.

Lemma two_ints_detail_text a b n m :
  no_nul a -> no_nul b -> (length a + length b <= 20)%nat ->
  - 2 ^ 31 <= n < 2 ^ 31 -> - 2 ^ 31 <= m < 2 ^ 31 ->
  exists d, two_ints_detail a b n m = Some d /\ detail_ok d (a ++ fmt_d n ++ b ++ fmt_d m).
Proof.
  intros Ha Hb Hl Hn Hm. apply formats_detail; [|auto with nonul|].
  2:{ rewrite !length_app. pose proof (fmt_d_length n Hn). pose proof (fmt_d_length m Hm). lia. }
  unfold two_ints_detail. change DETAIL with (Z.of_nat 64).
  pose proof (fmt_d_length n Hn).
  destruct (write_str_holds 64 [] (zero_detail, 0) a) as (s1 & -> & Hs1); [lia|done|apply holds_start|].
  cbn [mbind option_bind app] in *.
  destruct (write_int_holds 64 a s1 n) as (s2 & -> & Hs2); [lia|done|done|]. cbn [mbind option_bind].
  destruct (write_str_holds 64 (a ++ fmt_d n) s2 b) as (s3 & -> & Hs3); [lia|done|done|]. cbn [mbind option_bind].
  destruct (write_int_holds 64 ((a ++ fmt_d n) ++ b) s3 m) as ([d p] & -> & Hs4); [rewrite !length_app; lia|done|done|].
  cbn [mbind option_bind]. rewrite <- !app_assoc in Hs4. apply finish_holds; [lia|done].
Qed.

Lemma setsid_detail_text p :
  0 <= p < 2 ^ 32 ->
  exists d, (st ← write_str DETAIL (zero_detail, 0) (lit "sid="); '(buf, pos) ← write_uint DETAIL st p; store buf pos 0)
     = Some d /\ detail_ok d (lit "sid=" ++ fmt_u p).
Proof.
  intros Hp. apply formats_detail; [|auto with nonul lia|].
  2:{ rewrite !length_app. pose proof (fmt_u_length 10 p). simpl in *. lia. }
  change DETAIL with (Z.of_nat 64).
  destruct (write_str_holds 64 [] (zero_detail, 0) (lit "sid=")) as (s1 & -> & Hs1);
    [lia|auto with nonul|apply holds_start|]. cbn [mbind option_bind app] in *.
  destruct (write_uint_holds 64 (lit "sid=") s1 p) as ([d q] & -> & Hs2); [lia|done|done|]. cbn [mbind option_bind].
  apply finish_holds; [lia|done].
Qed.

Lemma ipv4_detail ip port :
  0 <= ip -> 0 <= port < 2 ^ 16 ->
  exists d, format_ipv4_port zero_detail 64 ip port = Some d /\ detail_ok d (ipv4_port_text ip port).
Proof.
  intros Hi Hp. apply formats_detail.
  - apply (format_ipv4_port_text zero_detail); [simpl; lia|done].
  - apply ipv4_text_no_nul; lia.
  - pose proof (ipv4_text_length ip port Hp). lia.
Qed.

Lemma family_detail f :
  0 <= f < 2 ^ 16 -> exists d, format_family zero_detail 64 f = Some d /\ detail_ok d (lit "family=" ++ fmt_u f).
Proof.
  intros Hf. apply formats_detail.
  - apply (format_family_text zero_detail); [simpl; lia|done].
  - auto with nonul lia.
  - rewrite length_app. pose proof (fmt_u_length 5 f). simpl in *. lia.
Qed.

(** The memory the context returns is made of bytes. *)
Definition ctx_ok (c : bpf_ctx) : Prop :=
  0 <= c_pid_tgid c < 2 ^ 64 /\ (forall i, 0 <= c_args c i < 2 ^ 64) /\
  forall a n b, c_user_mem c a n = Some b -> length b = n /\ bytes_ok b.

Lemma mem_byte_ok b i : bytes_ok b -> 0 <= mem_byte b i < 256.
Proof.
  intros Hb. unfold mem_byte. destruct (nth_in_or_default i b 0) as [Hi| ->]; [|lia].
  eapply (proj1 (Forall_forall _ _) Hb). by apply list_elem_of_In.
Qed.

(** The detail [trace_bind] and [trace_connect] build. *)
Lemma sockaddr_detail c :
  ctx_ok c ->
  let family := match c_user_mem c (c_args c 1%nat) 2 with
                | Some b => mem_byte b 0 + mem_byte b 1 * 2 ^ 8 | None => 0 end in
  exists d, (if family =? 2 then read_and_format_sockaddr c zero_detail (Z.of_nat DETAIL_LEN)
             else format_family zero_detail (Z.of_nat DETAIL_LEN) family) = Some d /\
    detail_ok d (sockaddr_text c).
Proof.
  intros (_ & _ & Hm) family. unfold sockaddr_text. fold family.
  assert (0 <= family < 2 ^ 16) as Hf.
  { subst family. destruct (c_user_mem c (c_args c 1%nat) 2) as [b|] eqn:E; [|lia].
    destruct (Hm _ _ _ E) as [_ Hb]. pose proof (mem_byte_ok b 0 Hb). pose proof (mem_byte_ok b 1 Hb). lia. }
  destruct (family =? 2); [|by apply family_detail].
  unfold read_and_format_sockaddr. destruct (c_user_mem c (c_args c 1%nat) 16) as [b|] eqn:E.
  - destruct (Hm _ _ _ E) as [_ Hb].
    pose proof (fun i => mem_byte_ok b i Hb) as Hi.
    pose proof (Hi 2%nat). pose proof (Hi 3%nat). pose proof (Hi 4%nat). pose proof (Hi 5%nat).
    pose proof (Hi 6%nat). pose proof (Hi 7%nat). apply ipv4_detail; lia.
  - eexists. split; [reflexivity|]. split; [reflexivity|]. split; [apply elem_test|]; reflexivity.
Qed.

(** The detail of a path event. *)
Lemma last_slash_split p : 47 ∉ p \/ exists d b, p = d ++ 47 :: b /\ 47 ∉ b.
Proof.
  induction p as [|c p [IH|(d & b & -> & Hb)]]; [by left; apply not_elem_of_nil| |].
  - destruct (Z.eq_dec c 47) as [->|Hc]; [right; by exists [], p|left].
    apply not_elem_of_cons. done.
  - right. by exists (c :: d), b.
Qed.

Lemma local_str_cstr n str : cstr (local_str n str) = take (n - 1) (cstr str).
Proof. unfold local_str. apply cstr_app. apply no_nul_take, cstr_no_nul. Qed.

Lemma local_str_nul n str : 0 ∈ local_str n str.
Proof. unfold local_str. apply elem_of_app. right. left. Qed.

Lemma dir_detail str :
  exists d, extract_dir_prefix (local_str MAX_FILENAME_LEN str) zero_detail (Z.of_nat DETAIL_LEN) = Some d /\
    detail_ok d (dir_text (take 126 (cstr str))).
Proof.
  destruct (extract_dir_prefix_bytes _ (local_str_nul MAX_FILENAME_LEN str)) as [H1 H2].
  rewrite local_str_cstr in H1, H2. change (MAX_FILENAME_LEN - 1)%nat with 126%nat in *.
  unfold dir_text. set (p := take 63 (take 126 (cstr str))) in *.
  assert (no_nul p) as Hp by apply no_nul_take, no_nul_take, cstr_no_nul.
  assert (length p < 64)%nat as Hl by (subst p; rewrite length_take; lia).
  assert (detail_ok (p ++ replicate (64 - length p) 0) p) as Hplain.
  { split_and!; [|apply elem_of_app; right; apply elem_of_replicate; lia|rewrite length_app, length_replicate; unfold DETAIL_LEN; lia].
    destruct (64 - length p)%nat eqn:E; [lia|]. cbn [replicate]. by apply cstr_app. }
  destruct (last_slash_split p) as [Hn|([|x d] & b & E & Hb)].
  - eexists. split; [apply H2; by left|]. by rewrite last_slash_none.
  - eexists. split; [apply H2; right; by exists b|].
    assert (last_slash_from 0 0 p = 0) as -> by (rewrite E; by apply (last_slash_app 0 0 [])). done.
  - eexists. split; [by apply (H1 (x :: d) b)|].
    assert (last_slash_from 0 0 p = Z.of_nat (length (x :: d))) as -> by (rewrite E, last_slash_app by done; lia).
    rewrite (proj2 (Z.ltb_lt _ _)) by (cbn [length]; lia). rewrite Nat2Z.id. split_and!.
    + rewrite E, take_app_length. apply (cstr_app (x :: d)). rewrite E in Hp. by apply Forall_app in Hp as [? _].
    + apply elem_of_app. right. left.
    + apply (f_equal length) in E. rewrite !length_app in *. cbn [length] in *. rewrite length_app, length_replicate. unfold DETAIL_LEN. lia.
Qed.

(** ** The probes *)

(** The descriptors remembered by write entries are ints. *)
Definition write_ctx_ok s : Prop :=
  forall id fd, bpf_map (write_ctx_map s) !! id = Some fd -> - 2 ^ 31 <= fd < 2 ^ 31.

(** The extra text of an entry: that of the entry before, or the path of the
    event over it. *)
Definition extra_from s s' c (key : agg_key) : Prop :=
  let old := default (replicate MAX_FILENAME_LEN 0) (v_extra <$> bpf_map (event_agg_map s) !! key) in
  forall v', bpf_map (event_agg_map s') !! key = Some v' ->
    v_extra v' = old \/ exists a str, c_user_str c a = Some str /\ v_extra v' = str_into old (local_str MAX_FILENAME_LEN str).

(** A new entry, or none. *)
Lemma insert_extra s c key v (P : bytes -> Prop) :
  bpf_map (event_agg_map s) !! key = None -> P (v_extra v) ->
  let '(m, ok) := bpf_map_update_elem (event_agg_map s) key v BPF_NOEXIST in
  forall v', bpf_map (event_agg_map (set_agg s m (if ok : bool then agg_overflow_count s else bump_overflow s c))) !! key = Some v' -> P (v_extra v').
Proof.
  intros Hn Hv. destruct (bpf_map_update_elem _ _ _ _) as [m [|]] eqn:E; intros v'; cbn [event_agg_map set_agg].
  - apply bpf_update_map in E as ->. rewrite lookup_insert_eq. by intros [= <-].
  - apply bpf_update_map_fail in E as ->. by rewrite Hn.
Qed.

Lemma update_agg_map_extra s c key nbytes : extra_from s (update_agg_map s c key 1 nbytes) c key.
Proof.
  unfold extra_from, update_agg_map. rewrite bpf_lookup. destruct (bpf_map (event_agg_map s) !! key) as [v|] eqn:Ev; cbn [fmap option_fmap option_map default from_option id].
  - intros v'. cbn [event_agg_map set_agg]. rewrite bpf_store_map, lookup_insert_eq by done. intros [= <-]. by left.
  - pose proof (insert_extra s c key (AggValue 1 nbytes (c_ktime c) (c_ktime c) (c_comm c) (replicate MAX_FILENAME_LEN 0))
      (fun x => x = replicate MAX_FILENAME_LEN 0) Ev eq_refl) as Hx.
    destruct (bpf_map_update_elem _ _ _ _) as [m ok]. intros v' Hv. left. by apply Hx.
Qed.

(** What a probe that aggregates does when its key text is [ot]. *)
Definition agg_outcome (res : option (pstate hmap)) s c (ty nbytes : Z) (ot : option bytes) : Prop :=
  exists s', res = Some s' /\ same_rest s s' /\
  (write_ctx_map s' = write_ctx_map s \/
   write_ctx_map s' = bpf_map_delete_elem (write_ctx_map s) (c_pid_tgid c)) /\
  match ot with
  | None => event_agg_map s' = event_agg_map s /\ agg_overflow_count s' = agg_overflow_count s /\
            write_ctx_map s' = write_ctx_map s
  | Some t => exists key, k_pid key = c_pid c /\ k_event_type key = ty /\ detail_ok (k_detail key) t /\
      counted s s' c key nbytes /\ extra_from s s' c key
  end.

Lemma outcome_none s c ty n : agg_outcome (Some s) s c ty n None.
Proof. exists s. split; [done|]. split; [done|]. split; [by left|done]. Qed.

(** The two early returns every aggregating probe starts with. *)
Lemma outcome_gate (flag tracked : bool) body s c ty n ot :
  agg_outcome body s c ty n ot ->
  agg_outcome (if negb flag then Some s else if negb tracked then Some s else body) s c ty n
    (if flag && tracked then ot else None).
Proof. intros Hb. destruct flag, tracked; cbn [negb andb]; try apply outcome_none. done. Qed.

Lemma outcome_update s c ty n d t :
  0 <= n -> detail_ok d t ->
  agg_outcome (Some (update_agg_map s c (AggKey (c_pid c) ty d) 1 n)) s c ty n (Some t).
Proof.
  intros Hn Hd. eexists. split; [done|]. split; [apply update_agg_map_rest|].
  split; [left; apply update_agg_map_rest|].
  exists (AggKey (c_pid c) ty d). do 2 (split; [done|]). split; [exact Hd|]. split; [by apply update_agg_map_counted|apply update_agg_map_extra].
Qed.

(** A detail computed by a formatter, then the update. *)
Lemma outcome_detail s c ty n (res : option bytes) t :
  0 <= n -> (exists d, res = Some d /\ detail_ok d t) ->
  agg_outcome (detail ← res; Some (update_agg_map s c (AggKey (c_pid c) ty detail) 1 n)) s c ty n (Some t).
Proof. intros Hn (d & -> & Hd). cbn [mbind option_bind]. by apply outcome_update. Qed.

Lemma path_outcome cfg s c a ty :
  agg_outcome (agg_path_event cfg s c a ty) s c ty 0
    (if trace_fs_mutations cfg && is_event_tracked cfg s c
     then dir_text <$> (take 126 ∘ cstr <$> c_user_str c a) else None).
Proof.
  unfold agg_path_event. apply outcome_gate.
  destruct (c_user_str c a) as [str|] eqn:Estr; [|apply outcome_none]. cbn [fmap option_fmap option_map].
  destruct (dir_detail str) as (d & -> & Hd). cbn [mbind option_bind].
  set (key := AggKey (c_pid c) ty d). rewrite bpf_lookup.
  destruct (bpf_map (event_agg_map s) !! key) as [v|] eqn:Ev.
  - eexists. split; [done|]. split; [done|]. split; [by left|].
    exists key. do 2 (split; [done|]). split; [exact Hd|]. split.
    + left. eexists. cbn [event_agg_map agg_overflow_count set_agg]. rewrite bpf_store_map, Ev by done. split_and!; try done.
    + intros v'. cbn [event_agg_map set_agg]. rewrite bpf_store_map, lookup_insert_eq, Ev by done. intros [= <-]. right. by exists a, str.
  - pose proof (insert_counted s c key (AggValue 1 0 (c_ktime c) (c_ktime c) (c_comm c)
      (str_into (replicate MAX_FILENAME_LEN 0) (local_str MAX_FILENAME_LEN str))) 0
      Ev eq_refl eq_refl eq_refl eq_refl eq_refl) as Hc.
    pose proof (insert_extra s c key (AggValue 1 0 (c_ktime c) (c_ktime c) (c_comm c) (str_into (replicate MAX_FILENAME_LEN 0) (local_str MAX_FILENAME_LEN str)))
      (fun x => x = str_into (replicate MAX_FILENAME_LEN 0) (local_str MAX_FILENAME_LEN str)) Ev eq_refl) as Hx.
    destruct (bpf_map_update_elem _ _ _ _) as [m ok].
    eexists. split; [done|]. split; [done|]. split; [by left|]. exists key. do 2 (split; [done|]). split; [exact Hd|]. split; [done|].
    unfold extra_from. rewrite Ev. intros v' Hv. right. exists a, str. split; [done|]. by apply Hx.
Qed.

Lemma write_exit_outcome cfg s c ret :
  write_ctx_ok s ->
  agg_outcome (trace_write_exit_common cfg s c ret) s c EVENT_TYPE_WRITE (u64 ret)
    (if trace_fs_mutations cfg && is_event_tracked cfg s c
     then if 0 <? ret then fd_text <$> bpf_map_lookup_elem (write_ctx_map s) (c_pid_tgid c) else None
     else None).
Proof.
  intros Hw. unfold trace_write_exit_common.
  destruct (trace_fs_mutations cfg); cbn [negb andb]; [|apply outcome_none].
  destruct (Z.leb_spec ret 0); destruct (Z.ltb_spec 0 ret); try lia;
    [destruct (is_event_tracked cfg s c); apply outcome_none|].
  destruct (is_event_tracked cfg s c); cbn [negb]; [|apply outcome_none].
  rewrite bpf_lookup. destruct (bpf_map (write_ctx_map s) !! c_pid_tgid c) as [fd|] eqn:E; [|apply outcome_none].
  apply Hw in E. change (Z.of_nat DETAIL_LEN) with 64. destruct (fd_detail fd E) as (d & -> & Hd). cbn [mbind option_bind fmap option_fmap option_map].
  pose proof (wrapu_bound 64 ret eq_refl).
  set (s1 := set_write_ctx s _).
  destruct (outcome_update s1 c EVENT_TYPE_WRITE (u64 ret) d (fd_text fd)) as (s' & E' & Hr & _ & key & Hk); [lia|done|].
  exists s'. split; [done|]. split; [done|]. split; [|exists key; done].
  right. injection E' as <-. by rewrite (proj2 (update_agg_map_rest _ _ _ _ _)).
Qed.

Lemma sockaddr_outcome cfg s c ty :
  ctx_ok c ->
  agg_outcome (trace_sockaddr cfg s c ty) s c ty 0
    (if trace_network cfg && is_event_tracked cfg s c then Some (sockaddr_text c) else None).
Proof.
  intros Hc. unfold trace_sockaddr. apply outcome_gate, outcome_detail; [done|]. by apply sockaddr_detail.
Qed.

Lemma c_pid_bound c : ctx_ok c -> 0 <= c_pid c < 2 ^ 32.
Proof.
  intros (Hb & _). unfold c_pid. rewrite Z.shiftr_div_pow2 by lia.
  split; [apply Z.div_pos; lia|apply Z.div_lt_upper_bound; lia].
Qed.

(** Every aggregating probe, in any state: it ends without leaving a buffer,
    and counts one event under the key of its table entry, or leaves the
    counts alone when the event is filtered out or unreadable. *)
Lemma probe_outcome cfg p s c ty :
  ctx_ok c -> write_ctx_ok s -> probe_type p = Some ty ->
  agg_outcome (run_probe cfg p s c) s c ty (probe_bytes p c)
    (if probe_flag cfg p && is_event_tracked cfg s c then probe_text p s c else None).
Proof.
  intros Hc Hw Hp. pose proof (c_pid_bound c Hc) as Hpid. destruct Hc as (? & Hargs & ?).
  destruct p; cbn [probe_type] in Hp; try discriminate Hp; injection Hp as <-; cbn [run_probe probe_flag probe_text probe_bytes];
    try (by apply path_outcome); try (by apply write_exit_outcome); try (by apply sockaddr_outcome).
  - apply outcome_gate, outcome_detail; [done|]. apply fd_detail, s32_bound.
  - apply outcome_gate. destruct (c_user_str c (c_args c 0%nat)) as [str|]; [|apply outcome_none].
    cbn [fmap option_fmap option_map]. apply outcome_update; [done|].
    destruct (str_into_array zero_detail (local_str DETAIL_LEN str)) as (E & Hz & Hl); [vm_compute; lia|]. split; [|done].
    rewrite E, local_str_cstr. change (length zero_detail - 1)%nat with 63%nat. change (DETAIL_LEN - 1)%nat with 63%nat. by rewrite take_take.
  - apply outcome_gate, outcome_detail; [done|]. apply fd_detail, s32_bound.
  - apply outcome_gate, outcome_detail; [done|].
    apply two_ints_detail_text; try apply s32_bound; [by apply no_nul_test..|vm_compute; lia].
  - unfold trace_setsid. apply outcome_gate. destruct (setsid_detail_text _ Hpid) as (d & E & Hd).
    destruct (write_str DETAIL (zero_detail, 0) (lit "sid=")) as [st|]; [|done]. cbn [mbind option_bind] in *.
    destruct (write_uint DETAIL st (c_pid c)) as [[b q]|]; [|done]. cbn [mbind option_bind] in *.
    rewrite E. by apply outcome_update.
  - apply outcome_gate, outcome_detail; [done|].
    apply two_ints_detail_text; try apply s32_bound; [by apply no_nul_test..|vm_compute; lia].
  - apply outcome_gate, outcome_update; [done|apply zero_detail_ok].
  - unfold trace_mmap. apply outcome_gate. change 1 with (2 ^ 1 - 1) at 1. rewrite land_mask by lia.
    rewrite Zodd_mod. change (2 ^ 1) with 2.
    destruct (Z.eqb_spec (s32 (c_args c 3%nat) mod 2) 0) as [->|Hodd]; [apply outcome_none|].
    pose proof (Z.mod_pos_bound (s32 (c_args c 3%nat)) 2).
    replace (s32 (c_args c 3%nat) mod 2) with 1 by lia. cbn match.
    apply outcome_detail; [apply Hargs|]. apply fd_detail, s32_bound.
  - apply outcome_gate, outcome_update; [done|apply zero_detail_ok].
Qed.

(** ** Conservation *)

(** The events the map holds. *)
Definition agg_total (m : gmap agg_key agg_value) : Z := map_fold (fun _ v acc => v_count v + acc) 0 m.

Definition overflow_total (o : list Z) : Z := foldr Z.add 0 o.

(** The events counted and not yet reported. *)
Definition pending s : Z := agg_total (bpf_map (event_agg_map s)) + overflow_total (agg_overflow_count s).

Definition counts_ok (m : gmap agg_key agg_value) : Prop := forall k v, m !! k = Some v -> 1 <= v_count v.

Record state_ok s : Prop := {
  sok_counts : counts_ok (bpf_map (event_agg_map s));
  sok_overflow : Forall (fun n => 0 <= n) (agg_overflow_count s);
  sok_write : write_ctx_ok s;
}.

Lemma agg_total_insert m k v :
  m !! k = None -> agg_total (<[k := v]> m) = v_count v + agg_total m.
Proof. intros Hk. unfold agg_total. rewrite map_fold_insert_L; [done|intros; lia|done]. Qed.

Lemma agg_total_delete m k v :
  m !! k = Some v -> agg_total m = v_count v + agg_total (delete k m).
Proof.
  intros Hk. rewrite <- (insert_delete_id m k v) at 1 by done. apply agg_total_insert, lookup_delete_eq.
Qed.

Lemma agg_total_replace m k v v' :
  m !! k = Some v -> agg_total (<[k := v']> m) = v_count v' - v_count v + agg_total m.
Proof.
  intros Hk. rewrite <- insert_delete_eq. rewrite agg_total_insert by apply lookup_delete_eq.
  rewrite (agg_total_delete m k v Hk). lia.
Qed.

Lemma agg_total_nonneg m : counts_ok m -> 0 <= agg_total m.
Proof.
  induction m as [|k v m Hk IH] using map_ind; intros Hm; [done|].
  rewrite agg_total_insert by done. assert (counts_ok m) as Hm'.
  { intros k' v' Hk'. apply (Hm k'). rewrite lookup_insert_ne; [done|]. intros ->. congruence. }
  specialize (IH Hm'). pose proof (Hm k v (lookup_insert_eq _ _ _)). lia.
Qed.

Lemma agg_total_ge m k v : counts_ok m -> m !! k = Some v -> v_count v <= agg_total m.
Proof.
  intros Hm Hk. rewrite (agg_total_delete m k v Hk).
  assert (counts_ok (delete k m)) as Hd by (intros k' v' Hk'; apply lookup_delete_Some in Hk' as [_ Hk']; eauto).
  pose proof (agg_total_nonneg _ Hd). lia.
Qed.

Lemma overflow_nonneg o : Forall (fun n => 0 <= n) o -> 0 <= overflow_total o.
Proof. induction 1; simpl; [done|]. unfold overflow_total in *. lia. Qed.

Lemma overflow_bump o i :
  Forall (fun n => 0 <= n) o -> (i < length o)%nat -> overflow_total o < 2 ^ 64 - 1 ->
  overflow_total (alter (fun n => u64 (n + 1)) i o) = overflow_total o + 1 /\
  Forall (fun n => 0 <= n) (alter (fun n => u64 (n + 1)) i o).
Proof.
  intros Ho. revert i. induction Ho as [|n o Hn Ho IH]; intros i Hi Ht; [simpl in Hi; lia|].
  pose proof (overflow_nonneg _ Ho). unfold overflow_total in *. cbn [foldr] in Ht.
  destruct i as [|i].
  - change (alter (fun n => u64 (n + 1)) 0%nat (n :: o)) with (u64 (n + 1) :: o). cbn [foldr].
    rewrite (wrapu_id 64) by lia. split; [lia|]. constructor; [lia|done].
  - change (alter (fun n => u64 (n + 1)) (S i) (n :: o)) with (n :: alter (fun n => u64 (n + 1)) i o).
    destruct (IH i) as [E Hf]; [simpl in Hi; lia|lia|]. cbn [foldr]. rewrite E.
    split; [lia|]. by constructor.
Qed.

(** A counted event is one more pending event. *)
Lemma counted_pending s s' c key n :
  state_ok s -> (c_cpu c < length (agg_overflow_count s))%nat -> pending s < 2 ^ 64 - 1 ->
  counted s s' c key n ->
  pending s' = pending s + 1 /\ counts_ok (bpf_map (event_agg_map s')) /\
  Forall (fun n => 0 <= n) (agg_overflow_count s') /\
  length (agg_overflow_count s') = length (agg_overflow_count s).
Proof.
  intros [Hc Ho _] Hcpu Hp Hcnt. unfold pending in *.
  pose proof (agg_total_nonneg _ Hc). pose proof (overflow_nonneg _ Ho).
  destruct Hcnt as [(v' & E & Eo & _ & _ & Hv)|(E & Hn & Eo)].
  - rewrite E, Eo. destruct (bpf_map (event_agg_map s) !! key) as [v|] eqn:Ev.
    + destruct Hv as (Hv & _). pose proof (agg_total_ge _ _ _ Hc Ev). pose proof (Hc _ _ Ev).
      rewrite (wrapu_id 64) in Hv by lia. rewrite (agg_total_replace _ _ v) by done.
      split_and!; [lia| |done|done]. intros k x. rewrite lookup_insert_Some.
      intros [[_ <-]|[_ Hx]]; [lia|by eapply Hc].
    + destruct Hv as (Hv & _). rewrite agg_total_insert by done. split_and!; [lia| |done|done].
      intros k x. rewrite lookup_insert_Some. intros [[_ <-]|[_ Hx]]; [lia|by eapply Hc].
  - rewrite E, Eo. destruct (overflow_bump _ _ Ho Hcpu) as [-> Hf]; [lia|].
    split_and!; [lia|done|done|apply length_alter].
Qed.

(** The probes that do not aggregate leave the counts alone. *)
Lemma ring_probe_same cfg p s c :
  probe_type p = None ->
  exists s', run_probe cfg p s c = Some s' /\ event_agg_map s' = event_agg_map s /\
    agg_overflow_count s' = agg_overflow_count s /\ (write_ctx_ok s -> write_ctx_ok s').
Proof.
  intros Hp. destruct p; try discriminate Hp; cbn [run_probe].
  1-3: unfold trace_write_enter, trace_pwrite64_enter, trace_writev_enter, trace_write_enter_common;
    repeat case_match; eexists; (split; [done|split; [done|split; [done|]]]); try done;
    intros Hw id fd; cbn [write_ctx_map set_write_ctx];
    destruct (bpf_set_map (write_ctx_map s) (c_pid_tgid c) (s32 (c_args c 0%nat))) as [-> | ->];
      [rewrite lookup_insert_Some; intros [[_ <-]|[_ Hx]]; [apply s32_bound|by eapply Hw]|apply Hw].
  all: unfold bash_readline, handle_exec, handle_exit, trace_openat, trace_open, file_open_event;
    repeat case_match; eexists; (split; [done|done]).
Qed.

(** Whether a probe counts an event in a state. *)
Definition counts (cfg : bpf_config) (p : probe) s (c : bpf_ctx) : bool :=
  match probe_type p with
  | Some _ => probe_flag cfg p && is_event_tracked cfg s c && bool_decide (is_Some (probe_text p s c))
  | None => false
  end.

Lemma write_ctx_ok_step s s' c :
  (write_ctx_map s' = write_ctx_map s \/
   write_ctx_map s' = bpf_map_delete_elem (write_ctx_map s) (c_pid_tgid c)) ->
  write_ctx_ok s -> write_ctx_ok s'.
Proof.
  unfold write_ctx_ok. intros [-> | ->] Hw; [done|]. rewrite bpf_delete_map. intros id fd Hfd.
  apply lookup_delete_Some in Hfd as [_ Hfd]. by eapply Hw.
Qed.

(** One probe: it ends, keeps the state well formed, and adds one pending
    event exactly when it counts. *)
Lemma probe_pending cfg p s c :
  ctx_ok c -> state_ok s -> (c_cpu c < length (agg_overflow_count s))%nat -> pending s < 2 ^ 64 - 1 ->
  exists s', run_probe cfg p s c = Some s' /\ state_ok s' /\
    pending s' = pending s + (if counts cfg p s c then 1 else 0) /\
    length (agg_overflow_count s') = length (agg_overflow_count s).
Proof.
  intros Hctx Hok Hcpu Hp. pose proof Hok as [Hc Ho Hw]. unfold counts.
  destruct (probe_type p) as [ty|] eqn:Ety.
  - destruct (probe_outcome cfg p s c ty Hctx Hw Ety) as (s' & E & _ & Hwc & Hout).
    pose proof (write_ctx_ok_step _ _ _ Hwc Hw) as Hw'. exists s'. split; [done|].
    destruct (probe_flag cfg p && is_event_tracked cfg s c); [destruct (probe_text p s c) as [t|]|]; cbn [andb].
    + destruct Hout as (key & _ & _ & _ & Hcnt & _). rewrite bool_decide_eq_true_2 by done.
      destruct (counted_pending _ _ _ _ _ Hok Hcpu Hp Hcnt) as (H1 & H2 & H3 & H4). by split_and!.
    + destruct Hout as (E1 & E2 & _). rewrite bool_decide_eq_false_2 by (by intros [? ?]).
      unfold pending. rewrite E1, E2. split_and!; [split; by rewrite ?E1, ?E2|lia|done].
    + destruct Hout as (E1 & E2 & _). unfold pending. rewrite E1, E2.
      split_and!; [split; by rewrite ?E1, ?E2|lia|done].
  - destruct (ring_probe_same cfg p s c Ety) as (s' & E & E1 & E2 & Hw'). exists s'. split; [done|].
    unfold pending. rewrite E1, E2. split_and!; [split; rewrite ?E1, ?E2; auto|lia|done].
Qed.

(** ** Frames *)

(** A probe touches the write context of its own thread only. *)
Lemma write_ctx_frame cfg p s c s' id :
  ctx_ok c -> write_ctx_ok s -> run_probe cfg p s c = Some s' -> id <> c_pid_tgid c ->
  bpf_map (write_ctx_map s') !! id = bpf_map (write_ctx_map s) !! id.
Proof.
  intros Hc Hw Hr Hid. destruct (probe_type p) as [ty|] eqn:Ety.
  - destruct (probe_outcome cfg p s c ty Hc Hw Ety) as (s1 & E & _ & Hwc & _).
    rewrite E in Hr. injection Hr as <-. destruct Hwc as [-> | ->]; [done|].
    by rewrite bpf_delete_map, lookup_delete_ne.
  - destruct p; try discriminate Ety; cbn [run_probe] in Hr.
    1-3: unfold trace_write_enter, trace_pwrite64_enter, trace_writev_enter, trace_write_enter_common in Hr;
      repeat case_match; injection Hr as <-; try done; cbn [write_ctx_map set_write_ctx]; by apply bpf_set_other.
    all: unfold bash_readline, handle_exec, handle_exit, trace_openat, trace_open, file_open_event in Hr;
      repeat case_match; injection Hr as <-; done.
Qed.

(** The start time of a process is written by its own exec and removed by the
    exit of its main thread only. *)
Lemma exec_start_frame cfg p s c s' pid :
  ctx_ok c -> write_ctx_ok s -> run_probe cfg p s c = Some s' ->
  (c_pid c = pid -> p <> P_exec /\ (p = P_exit -> c_tid c <> pid)) ->
  bpf_map (exec_start s') !! pid = bpf_map (exec_start s) !! pid.
Proof.
  intros Hc Hw Hr Hp. destruct (probe_type p) as [ty|] eqn:Ety.
  - destruct (probe_outcome cfg p s c ty Hc Hw Ety) as (s1 & E & (_ & _ & _ & He & _) & _).
    rewrite E in Hr. injection Hr as <-. by rewrite He.
  - destruct (decide (c_pid c = pid)) as [Hpid|Hpid].
    + destruct (Hp Hpid) as [Hne Hex]. destruct p; try discriminate Ety; try done; cbn [run_probe] in Hr.
      5:{ unfold handle_exit in Hr. rewrite (proj2 (Z.eqb_neq (c_pid c) (c_tid c))) in Hr
            by (rewrite Hpid; by apply not_eq_sym, Hex).
          cbn [negb] in Hr. case_match; by injection Hr as <-. }
      all: unfold trace_write_enter, trace_pwrite64_enter, trace_writev_enter, trace_write_enter_common,
             bash_readline, trace_openat, trace_open, file_open_event in Hr;
        repeat case_match; by injection Hr as <-.
    + destruct p; try discriminate Ety; cbn [run_probe] in Hr;
        unfold trace_write_enter, trace_pwrite64_enter, trace_writev_enter, trace_write_enter_common,
          bash_readline, trace_openat, trace_open, file_open_event, handle_exec, handle_exit in Hr;
        repeat case_match; injection Hr as <-; try done;
        cbn [exec_start set_exec_start set_exit_mem bpf_ringbuf_submit];
        first [by apply bpf_set_other, not_eq_sym | by rewrite bpf_delete_map, lookup_delete_ne].
Qed.

(** ** Runs *)

(** The state after a sequence of probes, and how many of them counted. *)
Fixpoint run (cfg : bpf_config) s (l : list (probe * bpf_ctx)) : option (pstate hmap * Z) :=
  match l with
  | [] => Some (s, 0)
  | (p, c) :: l' =>
      s1 ← run_probe cfg p s c;
      '(s2, n) ← run cfg s1 l';
      Some (s2, (if counts cfg p s c then 1 else 0) + n)
  end.

(** The contexts of a run on a machine with [ncpu] CPUs. *)
Definition run_ok (ncpu : nat) (l : list (probe * bpf_ctx)) : Prop :=
  Forall (fun pc => ctx_ok (snd pc) /\ (c_cpu (snd pc) < ncpu)%nat) l.

Lemma counts_le cfg p s c : 0 <= (if counts cfg p s c then 1 else 0) <= 1.
Proof. case_match; lia. Qed.

(** A property of the state every probe of a run keeps. *)
Lemma run_pending cfg l s :
  state_ok s -> run_ok (length (agg_overflow_count s)) l ->
  pending s + Z.of_nat (length l) < 2 ^ 64 ->
  exists s' n, run cfg s l = Some (s', n) /\ state_ok s' /\ pending s' = pending s + n /\
    0 <= n <= Z.of_nat (length l) /\ length (agg_overflow_count s') = length (agg_overflow_count s).
Proof.
  revert s. induction l as [|[p c] l IH]; intros s Hok Hl Hp.
  - exists s, 0. split_and!; (done || lia).
  - apply Forall_cons in Hl as [[Hc Hcpu] Hl]. cbn [snd length] in *.
    destruct (probe_pending cfg p s c Hc Hok Hcpu) as (s1 & E1 & Hok1 & Hp1 & Hl1); [lia|].
    pose proof (counts_le cfg p s c).
    destruct (IH s1) as (s2 & n & E2 & Hok2 & Hp2 & Hn & Hl2); [done|by rewrite Hl1|lia|].
    cbn [run]. rewrite E1. cbn [mbind option_bind]. rewrite E2. cbn [mbind option_bind].
    eexists _, _. split; [done|]. split_and!; try done; try lia; congruence.
Qed.

Lemma run_frame {A} (f : pstate hmap -> A) (ok : probe * bpf_ctx -> Prop) cfg l s s' n :
  (forall p c s1 s2, ok (p, c) -> ctx_ok c -> write_ctx_ok s1 -> run_probe cfg p s1 c = Some s2 -> f s2 = f s1) ->
  state_ok s -> run_ok (length (agg_overflow_count s)) l -> pending s + Z.of_nat (length l) < 2 ^ 64 ->
  Forall ok l -> run cfg s l = Some (s', n) -> f s' = f s.
Proof.
  intros Hf. revert s n. induction l as [|[p c] l IH]; intros s n Hok Hl Hp Hall Hr.
  - by injection Hr as <- _.
  - apply Forall_cons in Hl as [[Hc Hcpu] Hl]. apply Forall_cons in Hall as [Hpc Hall]. cbn [snd length] in *.
    destruct (probe_pending cfg p s c Hc Hok Hcpu) as (s1 & E1 & Hok1 & Hp1 & Hl1); [lia|].
    pose proof (counts_le cfg p s c). cbn [run] in Hr. rewrite E1 in Hr. cbn [mbind option_bind] in Hr.
    destruct (run cfg s1 l) as [[s2 m]|] eqn:E2; [|done]. cbn [mbind option_bind] in Hr. injection Hr as <- _.
    rewrite (IH s1 m); [|done|by rewrite Hl1|lia|done|done].
    apply (Hf p c); [done|done|apply Hok|done].
Qed.

(** No probe touches the sets of tracked processes and cgroups. *)
Lemma tracked_frame cfg p s c s' :
  ctx_ok c -> write_ctx_ok s -> run_probe cfg p s c = Some s' ->
  (tracked_pids s', tracked_cgroups s') = (tracked_pids s, tracked_cgroups s).
Proof.
  intros Hc Hw Hr. destruct (probe_type p) as [ty|] eqn:Ety.
  - destruct (probe_outcome cfg p s c ty Hc Hw Ety) as (s1 & E & (H1 & H2 & _) & _).
    rewrite E in Hr. injection Hr as <-. by rewrite H1, H2.
  - destruct p; try discriminate Ety; cbn [run_probe] in Hr;
      unfold trace_write_enter, trace_pwrite64_enter, trace_writev_enter, trace_write_enter_common,
        bash_readline, trace_openat, trace_open, file_open_event, handle_exec, handle_exit in Hr;
      repeat case_match; by injection Hr as <-.
Qed.

Lemma event_tracked_ext cfg s s' c :
  (tracked_pids s', tracked_cgroups s') = (tracked_pids s, tracked_cgroups s) ->
  is_event_tracked cfg s' c = is_event_tracked cfg s c /\ is_cgroup_tracked cfg s' c = is_cgroup_tracked cfg s c.
Proof.
  intros [= H1 H2]. unfold is_event_tracked, is_cgroup_tracked, is_pid_tracked. by rewrite H1, H2.
Qed.

Definition write_entry (p : probe) : bool :=
  match p with P_write_enter | P_pwrite64_enter | P_writev_enter => true | _ => false end.

Definition write_exit (p : probe) : bool :=
  match p with P_write_exit | P_pwrite64_exit | P_writev_exit => true | _ => false end.

Lemma write_entry_step cfg p s c :
  write_entry p = true -> trace_fs_mutations cfg = true -> is_event_tracked cfg s c = true ->
  run_probe cfg p s c = Some (set_write_ctx s (bpf_map_set (write_ctx_map s) (c_pid_tgid c) (s32 (c_args c 0%nat)))).
Proof.
  intros Hp Hf Ht. destruct p; try discriminate Hp; cbn [run_probe];
    unfold trace_write_enter, trace_pwrite64_enter, trace_writev_enter, trace_write_enter_common;
    by rewrite Hf, Ht.
Qed.

Lemma write_exit_step cfg p s c fd :
  write_exit p = true -> trace_fs_mutations cfg = true -> is_event_tracked cfg s c = true ->
  0 < c_ret c -> write_ctx_ok s -> bpf_map (write_ctx_map s) !! c_pid_tgid c = Some fd ->
  exists s' key, run_probe cfg p s c = Some s' /\ k_pid key = c_pid c /\ k_event_type key = EVENT_TYPE_WRITE /\
    cstr (k_detail key) = fd_text fd /\ counted s s' c key (u64 (c_ret c)) /\
    bpf_map (write_ctx_map s') !! c_pid_tgid c = None.
Proof.
  intros Hp Hf Ht Hr Hw Hfd. pose proof (Hw _ _ Hfd) as Hint. destruct (fd_detail fd Hint) as (d & Ed & Hd & _).
  set (s1 := set_write_ctx s (bpf_map_delete_elem (write_ctx_map s) (c_pid_tgid c))).
  exists (update_agg_map s1 c (AggKey (c_pid c) EVENT_TYPE_WRITE d) 1 (u64 (c_ret c))),
    (AggKey (c_pid c) EVENT_TYPE_WRITE d).
  split.
  { destruct p; try discriminate Hp; cbn [run_probe];
      unfold trace_write_exit, trace_pwrite64_exit, trace_writev_exit, trace_write_exit_common;
      rewrite Hf, Ht, (proj2 (Z.leb_gt _ _)), bpf_lookup, Hfd by done; cbn [negb];
      change (Z.of_nat DETAIL_LEN) with 64; by rewrite Ed. }
  split_and!; [done|done|done| |].
  - pose proof (wrapu_bound 64 (c_ret c) eq_refl). apply (update_agg_map_counted s1). lia.
  - rewrite (proj2 (update_agg_map_rest _ _ _ _ _)). cbn [s1 set_write_ctx write_ctx_map].
    by rewrite bpf_delete_map, lookup_delete_eq.
Qed.

Lemma write_entry_ok s c m :
  state_ok s -> bpf_map m = <[c_pid_tgid c := s32 (c_args c 0%nat)]> (bpf_map (write_ctx_map s)) ->
  state_ok (set_write_ctx s m).
Proof.
  intros [Hc Ho Hw] Hm. split; [done|done|]. unfold write_ctx_ok. cbn [write_ctx_map set_write_ctx]. rewrite Hm.
  intros id fd. rewrite lookup_insert_Some. intros [[_ <-]|[_ Hx]]; [apply s32_bound|by eapply Hw].
Qed.

(** The frames along a run. *)
Section run_frames.
Context (cfg : bpf_config) (l : list (probe * bpf_ctx)) (s s' : pstate hmap) (n : Z).
Context (Hok : state_ok s) (Hl : run_ok (length (agg_overflow_count s)) l).
Context (Hp : pending s + Z.of_nat (length l) < 2 ^ 64) (Hr : run cfg s l = Some (s', n)).

Lemma run_tracked : (tracked_pids s', tracked_cgroups s') = (tracked_pids s, tracked_cgroups s).
Proof.
  apply (run_frame (fun s => (tracked_pids s, tracked_cgroups s)) (fun _ => True) cfg l s s' n); try done.
  - intros p c s1 s2 _. apply tracked_frame.
  - by apply Forall_true.
Qed.

Lemma run_write_ctx id :
  Forall (fun pc => c_pid_tgid (snd pc) <> id) l ->
  bpf_map (write_ctx_map s') !! id = bpf_map (write_ctx_map s) !! id.
Proof.
  intros Hall.
  apply (run_frame (fun s => bpf_map (write_ctx_map s) !! id) _ cfg l s s' n) in Hall; try done.
  intros p c s1 s2 Hne Hc Hw Hs. cbn [snd] in Hne. by eapply write_ctx_frame.
Qed.

Lemma run_exec_start pid :
  Forall (fun pc => c_pid (snd pc) = pid -> fst pc <> P_exec /\ (fst pc = P_exit -> c_tid (snd pc) <> pid)) l ->
  bpf_map (exec_start s') !! pid = bpf_map (exec_start s) !! pid.
Proof.
  intros Hall.
  apply (run_frame (fun s => bpf_map (exec_start s) !! pid) _ cfg l s s' n) in Hall; try done.
  intros p c s1 s2 Hne Hc Hw Hs. cbn [fst snd] in Hne. by eapply exec_start_frame.
Qed.

End run_frames.

Lemma exec_step cfg s c m :
  is_cgroup_tracked cfg s c = true ->
  bpf_map_update_elem (exec_start s) (c_pid c) (c_ktime c) BPF_ANY = (m, true) ->
  exists r, run_probe cfg P_exec s c = Some (PState (event_agg_map s) (tracked_pids s) (tracked_cgroups s)
    (agg_overflow_count s) (exit_mem s) (write_ctx_map s) m r).
Proof.
  intros Ht Hu. cbn [run_probe]. unfold handle_exec, bpf_map_set. rewrite Ht, Hu. cbn [negb fst].
  case_match; [by exists (rb s)|]. destruct (c_rb_slot c) as [[e0 u0]|]; [|by exists (rb s)].
  destruct (exec_command c e0) as [cmd al]. eexists. reflexivity.
Qed.

Lemma exit_step cfg s c slot t0 :
  is_cgroup_tracked cfg s c = true -> c_tid c = c_pid c -> c_rb_slot c = Some slot ->
  bpf_map (exec_start s) !! c_pid c = Some t0 ->
  exists s' e, run_probe cfg P_exit s c = Some s' /\
    e_pid e = c_pid c /\ e_exit_event e = true /\ e_duration_ns e = u64 (c_ktime c - t0) /\
    e_exit_code e = Z.land (Z.shiftr (c_task_exit_code c) 8) 0xff /\
    rb s' = rb s ++ (if negb (min_duration_ns cfg =? 0) && (u64 (c_ktime c - t0) <? min_duration_ns cfg)
                     then [] else [e]) /\
    bpf_map (exec_start s') !! c_pid c = None.
Proof.
  intros Ht Htid Hs Hst. destruct slot as [e0 u0]. cbn [run_probe]. unfold handle_exit.
  rewrite Ht, Htid, Z.eqb_refl, bpf_lookup, Hst, Hs. cbn [negb andb].
  rewrite bool_decide_eq_false_2 by done. cbn [andb].
  destruct (negb (min_duration_ns cfg =? 0) && (u64 (c_ktime c - t0) <? min_duration_ns cfg)).
  - eexists _, (Event EVENT_TYPE_PROCESS (c_pid c) 0 (Z.land (Z.shiftr (c_task_exit_code c) 8) 0xff)
      (u64 (c_ktime c - t0)) 0 [] [] (UFilename []) true). split; [done|].
    split_and!; try done; [by rewrite app_nil_r|]. cbn [exec_start set_exec_start].
    by rewrite bpf_delete_map, lookup_delete_eq.
  - eexists _, _. split; [done|]. split_and!; cycle 4.
    + cbn [rb bpf_ringbuf_submit]. f_equal. by case_match.
    + case_match; cbn [exec_start bpf_ringbuf_submit set_exit_mem set_exec_start];
        by rewrite bpf_delete_map, lookup_delete_eq.
    + done.
    + done.
    + done.
    + done.
Qed.

End counting.

(** ** Properties *)


(** No counted event is lost: over any sequence of the 29 probes, in any
    interleaving of processes and CPUs, all probes end, and the events in the
    aggregation map plus those in the per-CPU overflow counters grow by
    exactly the number of probes that counted, whether or not the map was
    full. *)
Theorem probes_lose_no_event `{BpfHashLaws hmap} cfg l (s : pstate hmap) :
  state_ok s -> run_ok (length (agg_overflow_count s)) l ->
  pending s + Z.of_nat (length l) < 2 ^ 64 ->
  exists s' n, run cfg s l = Some (s', n) /\ state_ok s' /\ pending s' = pending s + n.
Proof.
  intros Hok Hl Hp. destruct (run_pending cfg l s Hok Hl Hp) as (s' & n & E & H1 & H2 & _).
  by exists s', n.
Qed.

(** With a cgroup filter, an event of a cgroup that is neither the target
    nor a tracked child changes nothing at all, whatever the probe. *)
Theorem untracked_cgroup_untouched `{BpfHash hmap} cfg p (s : pstate hmap) c :
  filter_cgroup cfg = true -> c_cgroup_id c <> target_cgroup_id cfg ->
  (filter_cgroup_children cfg = true -> bpf_map_lookup_elem (tracked_cgroups s) (c_cgroup_id c) = None) ->
  run_probe cfg p s c = Some s.
Proof.
  intros Hf Ht Hch.
  assert (is_cgroup_tracked cfg s c = false) as Hc.
  { unfold is_cgroup_tracked. rewrite Hf, (proj2 (Z.eqb_neq _ _)) by done. cbn [negb].
    destruct (filter_cgroup_children cfg); [|done]. cbn [negb]. rewrite Hch by done. done. }
  assert (is_event_tracked cfg s c = false) as He by (unfold is_event_tracked; by rewrite Hc).
  destruct p; cbn [run_probe];
    unfold trace_unlinkat, trace_unlink, trace_renameat2, trace_renameat, trace_rename, trace_mkdirat,
      trace_mkdir, agg_path_event, trace_ftruncate, trace_chdir, trace_write_enter, trace_pwrite64_enter,
      trace_writev_enter, trace_write_enter_common, trace_write_exit, trace_pwrite64_exit,
      trace_writev_exit, trace_write_exit_common, trace_bind, trace_listen, trace_connect, trace_sockaddr,
      trace_setpgid, trace_setsid, trace_kill, trace_fork, trace_mmap, trace_cow_fault,
      bash_readline, handle_exec, handle_exit, trace_openat, trace_open, file_open_event;
    rewrite ?Hc, ?He; cbn [negb]; repeat case_match; done.
Qed.

(** C14: bytes are credited to the descriptor of the call that wrote them: after
    a thread enters write, pwrite64 or writev on [fd], whatever the other
    threads do meanwhile, its exit with [ret > 0] counts one WRITE of [ret]
    bytes under "fd=[fd]", and consumes the remembered descriptor, so that no
    later exit can use it. *)
Theorem write_exit_credits_entry `{BpfHashLaws hmap} cfg p0 c0 l p1 c1 (s : pstate hmap) m :
  write_entry p0 = true -> write_exit p1 = true -> trace_fs_mutations cfg = true ->
  c_pid_tgid c1 = c_pid_tgid c0 -> is_event_tracked cfg s c0 = true -> is_event_tracked cfg s c1 = true ->
  0 < c_ret c1 -> ctx_ok c0 ->
  bpf_map_update_elem (write_ctx_map s) (c_pid_tgid c0) (s32 (c_args c0 0%nat)) BPF_ANY = (m, true) ->
  state_ok s -> run_ok (length (agg_overflow_count s)) l ->
  Forall (fun pc => c_pid_tgid (snd pc) <> c_pid_tgid c0) l ->
  pending s + Z.of_nat (length l) < 2 ^ 64 ->
  exists s1 s2 n s3 key,
    run_probe cfg p0 s c0 = Some s1 /\ run cfg s1 l = Some (s2, n) /\ run_probe cfg p1 s2 c1 = Some s3 /\
    k_pid key = c_pid c0 /\ k_event_type key = EVENT_TYPE_WRITE /\
    cstr (k_detail key) = fd_text (s32 (c_args c0 0%nat)) /\
    counted s2 s3 c1 key (u64 (c_ret c1)) /\
    bpf_map (write_ctx_map s3) !! c_pid_tgid c0 = None.
Proof.
  intros Hp0 Hp1 Hf Hid Ht0 Ht1 Hr Hc0 Hu Hok Hl Hother Hp.
  pose proof (write_entry_step cfg p0 s c0 Hp0 Hf Ht0) as E1. unfold bpf_map_set in E1. rewrite Hu in E1.
  cbn [fst] in E1. set (s1 := set_write_ctx s m) in *. pose proof (bpf_update_map _ _ _ _ _ Hu) as Hm.
  assert (state_ok s1) as Hok1 by (by apply (write_entry_ok s c0)).
  destruct (run_pending cfg l s1 Hok1 Hl Hp) as (s2 & n & E2 & Hok2 & _).
  pose proof (run_write_ctx cfg l s1 s2 n Hok1 Hl Hp E2 _ Hother) as Hkeep.
  cbn [s1 set_write_ctx write_ctx_map] in Hkeep. rewrite Hm, lookup_insert_eq in Hkeep.
  pose proof (run_tracked cfg l s1 s2 n Hok1 Hl Hp E2) as Htr.
  destruct (event_tracked_ext cfg s s2 c1 Htr) as [He _].
  rewrite <- Hid in Hkeep.
  destruct (write_exit_step cfg p1 s2 c1 _ Hp1 Hf ltac:(by rewrite He) Hr (sok_write _ Hok2) Hkeep)
    as (s3 & key & E3 & Hk1 & Hk2 & Hk3 & Hcnt & Hgone).
  exists s1, s2, n, s3, key. unfold c_pid in *. rewrite Hid in Hk1, Hgone.
  do 7 (split; [done|]). done.
Qed.

(** C15: the lifetime of a process: when its exec is recorded at time [t0], then
    whatever the other processes and its other threads do, the exit of its
    main thread at [t1] emits one exit sample whose duration is [t1 - t0], or
    none when that is below the minimum duration, and forgets the start. *)
Theorem exit_reports_lifetime `{BpfHashLaws hmap} cfg c0 l c1 slot (s : pstate hmap) m :
  is_cgroup_tracked cfg s c0 = true -> is_cgroup_tracked cfg s c1 = true ->
  c_pid c1 = c_pid c0 -> c_tid c1 = c_pid c0 -> c_rb_slot c1 = Some slot ->
  bpf_map_update_elem (exec_start s) (c_pid c0) (c_ktime c0) BPF_ANY = (m, true) ->
  state_ok s -> run_ok (length (agg_overflow_count s)) l -> pending s + Z.of_nat (length l) < 2 ^ 64 ->
  Forall (fun pc => c_pid (snd pc) = c_pid c0 ->
            fst pc <> P_exec /\ (fst pc = P_exit -> c_tid (snd pc) <> c_pid c0)) l ->
  exists s1 s2 n s3 e,
    run_probe cfg P_exec s c0 = Some s1 /\ run cfg s1 l = Some (s2, n) /\ run_probe cfg P_exit s2 c1 = Some s3 /\
    e_pid e = c_pid c0 /\ e_exit_event e = true /\ e_duration_ns e = u64 (c_ktime c1 - c_ktime c0) /\
    e_exit_code e = Z.land (Z.shiftr (c_task_exit_code c1) 8) 0xff /\
    rb s3 = rb s2 ++ (if negb (min_duration_ns cfg =? 0) && (u64 (c_ktime c1 - c_ktime c0) <? min_duration_ns cfg)
                      then [] else [e]) /\
    bpf_map (exec_start s3) !! c_pid c0 = None.
Proof.
  intros Ht0 Ht1 Hpid Htid Hslot Hu Hok Hl Hp Hother.
  destruct (exec_step cfg s c0 m Ht0 Hu) as [r E1]. set (s1 := PState _ _ _ _ _ _ _ _) in E1.
  assert (state_ok s1) as Hok1 by (destruct Hok; by split).
  destruct (run_pending cfg l s1 Hok1 Hl Hp) as (s2 & n & E2 & Hok2 & _).
  pose proof (run_exec_start cfg l s1 s2 n Hok1 Hl Hp E2 _ Hother) as Hkeep.
  cbn [s1 exec_start] in Hkeep. rewrite (bpf_update_map _ _ _ _ _ Hu), lookup_insert_eq in Hkeep.
  destruct (event_tracked_ext cfg s s2 c1 (run_tracked cfg l s1 s2 n Hok1 Hl Hp E2)) as [_ Hc].
  rewrite <- Hpid in Hkeep |- *.
  destruct (exit_step cfg s2 c1 slot (c_ktime c0)) as (s3 & e & E3 & He); [by rewrite Hc|congruence|done|done|].
  by exists s1, s2, n, s3, e.
Qed.

(** ** A concrete tracer

    Every feature on, no filter, two CPUs, and maps of [BpfMap.bounded] of 64
    entries each. *)

Definition cfg_all : bpf_config := BpfConfig false false false 0 true true true true true 0.

Definition pstate0 : pstate bounded :=
  PState (bd_empty 64) (bd_empty 64) (bd_empty 64) [0; 0] (bd_empty 64) (bd_empty 64) (bd_empty 64) [].

(** Thread [tid] of process [pid] at time [t], with system call arguments [a]. *)
Definition ctx_at (pid tid t : Z) (a : nat -> Z) (ret : Z) : bpf_ctx :=
  BpfCtx (pid * 2 ^ 32 + tid) 1 t (lit "node" ++ replicate 12 0) 0 a (fun _ => Some (lit "/tmp/a.txt"))
    (fun _ _ => None)
    (Some (Event EVENT_TYPE_PROCESS 0 0 0 0 0 [] (replicate 256 0) (UFilename []) false, replicate 256 0))
    1 256 0 (lit "/bin/node") 0 0 ret.

Lemma pstate0_ok : state_ok pstate0.
Proof.
  split.
  - intros k v. cbn [pstate0 event_agg_map]. by rewrite bd_empty_map, lookup_empty.
  - repeat constructor; lia.
  - intros id fd. cbn [pstate0 write_ctx_map]. by rewrite bd_empty_map, lookup_empty.
Qed.

Lemma ctx_at_ok pid tid t a ret :
  0 <= pid < 2 ^ 32 -> 0 <= tid < 2 ^ 32 -> (forall i, 0 <= a i < 2 ^ 64) -> ctx_ok (ctx_at pid tid t a ret).
Proof.
  intros. split; [cbn [ctx_at c_pid_tgid]; lia|]. split; [done|]. intros a' n b Hb. discriminate Hb.
Qed.

Lemma const_args n : 0 <= n < 2 ^ 64 -> forall i : nat, 0 <= (fun _ : nat => n) i < 2 ^ 64.
Proof. done. Qed.

Lemma run_ok_at p pid tid t a ret l :
  0 <= pid < 2 ^ 32 -> 0 <= tid < 2 ^ 32 -> 0 <= a < 2 ^ 64 -> run_ok 2 l ->
  run_ok 2 ((p, ctx_at pid tid t (fun _ => a) ret) :: l).
Proof.
  intros. apply Forall_cons. split; [|done]. split; [by apply ctx_at_ok|simpl; lia].
Qed.


Lemma probes_lose_no_event_witness :
  exists s' n, run cfg_all pstate0 [(P_cow_fault, ctx_at 7 8 5 (fun _ => 3) 0); (P_exec, ctx_at 7 7 6 (fun _ => 3) 0)]
    = Some (s', n) /\ pending s' = 0 + n /\ n = 1.
Proof.
  destruct (probes_lose_no_event cfg_all
    [(P_cow_fault, ctx_at 7 8 5 (fun _ => 3) 0); (P_exec, ctx_at 7 7 6 (fun _ => 3) 0)] pstate0)
    as (s' & n & E & _ & Hp).
  - apply pstate0_ok.
  - repeat (apply run_ok_at; [lia..|]). constructor.
  - vm_compute. reflexivity.
  - exists s', n. split; [exact E|]. split; [exact Hp|].
    vm_compute in E. injection E as _ <-. reflexivity.
Defined.

Lemma untracked_cgroup_untouched_witness :
  run_probe (BpfConfig false true false 99 true true true true true 0) P_exec pstate0 (ctx_at 7 7 5 (fun _ => 3) 0)
  = Some pstate0.
Proof.
  apply (untracked_cgroup_untouched (BpfConfig false true false 99 true true true true true 0) P_exec pstate0
    (ctx_at 7 7 5 (fun _ => 3) 0)).
  - reflexivity.
  - vm_compute. discriminate.
  - discriminate.
Defined.

Lemma write_exit_credits_entry_witness :
  let l := [(P_write_enter, ctx_at 7 9 2 (fun _ => 4) 0)] in
  exists s1 s2 n s3 key,
    run_probe cfg_all P_write_enter pstate0 (ctx_at 7 8 1 (fun _ => 3) 0) = Some s1 /\
    run cfg_all s1 l = Some (s2, n) /\
    run_probe cfg_all P_writev_exit s2 (ctx_at 7 8 5 (fun _ => 0) 512) = Some s3 /\
    cstr (k_detail key) = lit "fd=3" /\ counted s2 s3 (ctx_at 7 8 5 (fun _ => 0) 512) key 512.
Proof.
  destruct (write_exit_credits_entry cfg_all P_write_enter (ctx_at 7 8 1 (fun _ => 3) 0)
    [(P_write_enter, ctx_at 7 9 2 (fun _ => 4) 0)] P_writev_exit (ctx_at 7 8 5 (fun _ => 0) 512) pstate0
    (fst (bpf_map_update_elem (write_ctx_map pstate0) (7 * 2 ^ 32 + 8) 3 BPF_ANY)))
    as (s1 & s2 & n & s3 & key & E1 & E2 & E3 & _ & _ & Hd & Hc & _).
  1-7: reflexivity.
  - apply ctx_at_ok; [lia|lia|apply const_args; lia].
  - reflexivity.
  - apply pstate0_ok.
  - repeat (apply run_ok_at; [lia..|]). constructor.
  - repeat constructor. vm_compute. discriminate.
  - vm_compute. reflexivity.
  - exists s1, s2, n, s3, key. split; [exact E1|]. split; [exact E2|]. split; [exact E3|].
    split; [rewrite Hd; vm_compute; reflexivity|exact Hc].
Defined.

Lemma exit_reports_lifetime_witness :
  exists s1 s2 n s3 e,
    run_probe cfg_all P_exec pstate0 (ctx_at 7 7 10 (fun _ => 3) 0) = Some s1 /\
    run cfg_all s1 [(P_exec, ctx_at 8 8 11 (fun _ => 3) 0)] = Some (s2, n) /\
    run_probe cfg_all P_exit s2 (ctx_at 7 7 52 (fun _ => 3) 0) = Some s3 /\
    e_duration_ns e = 42 /\ e_exit_code e = 1 /\ rb s3 = rb s2 ++ [e].
Proof.
  destruct (exit_reports_lifetime cfg_all (ctx_at 7 7 10 (fun _ => 3) 0) [(P_exec, ctx_at 8 8 11 (fun _ => 3) 0)]
    (ctx_at 7 7 52 (fun _ => 3) 0)
    (Event EVENT_TYPE_PROCESS 0 0 0 0 0 [] (replicate 256 0) (UFilename []) false, replicate 256 0) pstate0
    (fst (bpf_map_update_elem (exec_start pstate0) 7 10 BPF_ANY)))
    as (s1 & s2 & n & s3 & e & E1 & E2 & E3 & _ & _ & Hd & Hx & Hrb & _).
  1-6: reflexivity.
  - apply pstate0_ok.
  - repeat (apply run_ok_at; [lia..|]). constructor.
  - vm_compute. reflexivity.
  - repeat constructor; vm_compute in *; discriminate.
  - exists s1, s2, n, s3, e. split; [exact E1|]. split; [exact E2|]. split; [exact E3|].
    split; [rewrite Hd; vm_compute; reflexivity|]. split; [rewrite Hx; vm_compute; reflexivity|exact Hrb].
Defined.
