(* ===== verification/MapFlush.v ===== *)
(** * Summaries of the aggregation map (src/bpf/process_ext/map_flush.h)

    The userspace side of the aggregation: the JSON line of one entry, the
    flush of the whole map and of one process, and the report of the overflow
    counters. *)

From S2P Require Import Prelude CLib Unicode Jsonl BpfFormat BpfMap ProcessBpf.

(** ** Definitions *)

Definition event_type_name (type : Z) : bytes :=
  if type =? EVENT_TYPE_FILE_DELETE then lit "FILE_DELETE"
  else if type =? EVENT_TYPE_FILE_RENAME then lit "FILE_RENAME"
  else if type =? EVENT_TYPE_DIR_CREATE then lit "DIR_CREATE"
  else if type =? EVENT_TYPE_FILE_TRUNCATE then lit "FILE_TRUNCATE"
  else if type =? EVENT_TYPE_CHDIR then lit "CHDIR"
  else if type =? EVENT_TYPE_WRITE then lit "WRITE"
  else if type =? EVENT_TYPE_NET_BIND then lit "NET_BIND"
  else if type =? EVENT_TYPE_NET_LISTEN then lit "NET_LISTEN"
  else if type =? EVENT_TYPE_NET_CONNECT then lit "NET_CONNECT"
  else if type =? EVENT_TYPE_PGRP_CHANGE then lit "PGRP_CHANGE"
  else if type =? EVENT_TYPE_SESSION_CREATE then lit "SESSION_CREATE"
  else if type =? EVENT_TYPE_SIGNAL_SEND then lit "SIGNAL_SEND"
  else if type =? EVENT_TYPE_PROC_FORK then lit "PROC_FORK"
  else if type =? EVENT_TYPE_MMAP_SHARED then lit "MMAP_SHARED"
  else if type =? EVENT_TYPE_COW_FAULT then lit "COW_FAULT"
  else lit "UNKNOWN".

Definition parse_fd_detail (detail : bytes) : option Z :=
  if negb (strneq detail (lit "fd=") 3) then None
  else
    let s := drop 3 (cstr detail) in
    let r := strtol10 s in
    if (st_end r =? 0)%nat || (st_end r <? length s)%nat then None
    else Some (s32 (st_val r)).

(** [readlink] is the environment's: the target of a link, if any. *)
Definition resolve_fd_path (readlink : bytes -> option bytes) (pid fd : Z) (out_size : nat) : option bytes :=
  let fd_link := snprintf_s 64 (lit "/proc/" ++ fmt_u pid ++ lit "/fd/" ++ fmt_d fd) in
  match readlink fd_link with
  | None => None
  | Some target =>
      let link_target := take (MAX_FILENAME_LEN - 1) target in
      if bool_decide (link_target = []) then None
      else Some (strncpy_term (link_target ++ [0]) out_size)
  end.

(** [json_escape] into a local array of [size] bytes, as a C string.  What the
    array held before does not matter. *)
Definition json_escaped (src : bytes) (size : nat) : option bytes :=
  cstr <$> json_escape src (replicate size 0).

Definition print_summary_json (readlink : bytes -> option bytes) (key : agg_key) (val : agg_value)
    : option bytes :=
  extra_esc ← json_escaped (v_extra val) (MAX_FILENAME_LEN * 2);
  comm_esc ← json_escaped (v_comm val) (TASK_COMM_LEN * 2);
  let parsed_fd := if k_event_type key =? EVENT_TYPE_WRITE then parse_fd_detail (k_detail key) else None in
  let resolved_path := match parsed_fd with
                       | Some fd => resolve_fd_path readlink (k_pid key) fd MAX_FILENAME_LEN
                       | None => None
                       end in
  detail_esc ← json_escaped (match resolved_path with Some p => p | None => k_detail key end)
                 (MAX_FILENAME_LEN * 2);
  Some (jlit "{'timestamp':" ++ fmt_u (v_last_ts val) ++ jlit ",'event':'SUMMARY','comm':'" ++ comm_esc
    ++ jlit "','pid':" ++ fmt_u (k_pid key) ++ jlit ",'type':'" ++ event_type_name (k_event_type key)
    ++ jlit "','detail':'" ++ detail_esc ++ jlit "','count':" ++ fmt_u (v_count val)
    ++ (if 0 <? v_total_bytes val then jlit ",'total_bytes':" ++ fmt_u (v_total_bytes val) else [])
    ++ (match parsed_fd with
        | Some fd => jlit ",'fd':" ++ fmt_d fd ++ jlit ",'path_resolved':"
            ++ (match resolved_path with Some _ => lit "true" | None => lit "false" end)
        | None => []
        end)
    ++ (match extra_esc with [] => [] | _ => jlit ",'extra':'" ++ extra_esc ++ jlit "'" end)
    ++ lit "}" ++ [10]).

(** The all-zero key the iterations start from. *)
Definition zero_key : agg_key := AggKey 0 0 zero_detail.

Section flush.
Context `{BpfHash hmap}.

(** The loop of [flush_agg_map]: the map it leaves and the entries it calls
    [print_summary_json] on, in order.  [None]: [fuel] iterations were not
    enough. *)
Fixpoint flush_loop (fuel : nat) (m : hmap agg_key agg_value) (key : agg_key)
    : option (hmap agg_key agg_value * list (agg_key * agg_value)) :=
  match fuel with
  | O => None
  | S f =>
      match bpf_map_get_next_key m key with
      | None => Some (m, [])
      | Some next_key =>
          match bpf_map_lookup_elem m next_key with
          | Some val =>
              if 0 <? v_count val then
                '(m', out) ← flush_loop f (bpf_map_delete_elem m next_key) next_key;
                Some (m', (next_key, val) :: out)
              else flush_loop f m next_key
          | None => flush_loop f m next_key
          end
      end
  end.

Definition flush_agg_map (fuel : nat) (m : hmap agg_key agg_value) := flush_loop fuel m zero_key.

(** The first loop of [flush_pid_from_agg_map]: the entries printed and the
    keys remembered for deletion. *)
Fixpoint flush_pid_loop (fuel : nat) (m : hmap agg_key agg_value) (target_pid : Z) (key : agg_key)
    (to_delete : list agg_key) : option (list (agg_key * agg_value) * list agg_key) :=
  match fuel with
  | O => None
  | S f =>
      match bpf_map_get_next_key m key with
      | None => Some ([], to_delete)
      | Some next_key =>
          if k_pid next_key =? target_pid then
            let to_delete := if (length to_delete <? 256)%nat then to_delete ++ [next_key] else to_delete in
            match bpf_map_lookup_elem m next_key with
            | Some val =>
                if 0 <? v_count val then
                  '(out, del) ← flush_pid_loop f m target_pid next_key to_delete;
                  Some ((next_key, val) :: out, del)
                else flush_pid_loop f m target_pid next_key to_delete
            | None => flush_pid_loop f m target_pid next_key to_delete
            end
          else flush_pid_loop f m target_pid next_key to_delete
      end
  end.

Definition flush_pid_from_agg_map (fuel : nat) (m : hmap agg_key agg_value) (target_pid : Z)
    : option (hmap agg_key agg_value * list (agg_key * agg_value)) :=
  '(out, del) ← flush_pid_loop fuel m target_pid zero_key [];
  Some (foldl bpf_map_delete_elem m del, out).

End flush.

(** The text a flush writes. *)
Definition flush_output (readlink : bytes -> option bytes) (calls : list (agg_key * agg_value)) : option bytes :=
  lines ← mapM (fun '(k, v) => print_summary_json readlink k v) calls; Some (concat lines).

(** [check_overflow]: the counters after it, the total it returns and what it
    prints.  [possible_cpus] is what libbpf reports, [alloc_ok] whether calloc
    succeeds. *)
Definition check_overflow (possible_cpus : Z) (alloc_ok : bool) (overflow : list Z) : list Z * Z * bytes :=
  let num_cpus := if possible_cpus <=? 0 then 256 else possible_cpus in
  if negb alloc_ok then (overflow, 0, [])
  else
    let n := Z.to_nat num_cpus in
    let counts := take n (overflow ++ replicate n 0) in
    let total := foldl (fun a c => u64 (a + c)) 0 counts in
    if 0 <? total then
      (replicate (Nat.min n (length overflow)) 0 ++ drop n overflow, total,
       jlit "{'timestamp':0,'event':'WARNING','comm':'','pid':0,'type':'AGG_MAP_OVERFLOW','overflow_count':"
       ++ fmt_u total ++ lit "}" ++ [10])
    else (overflow, total, []).

Example parse_fd_ex :
  (parse_fd_detail (lit "fd=-12" ++ [0]), parse_fd_detail (lit "fd=1x" ++ [0]), parse_fd_detail (lit "fd=" ++ [0]))
  = (Some (-12), None, None).
Proof. vm_compute. reflexivity. Qed.
