(* ===== verification/MapFlushSpec.v ===== *)
(** * Summaries of the aggregation map: proofs

    The line of an entry parses back to its fields and is never cut, a flush
    prints every entry once and empties the map, and the tracer as a whole
    reports every counted event exactly once. *)

From S2P Require Import Prelude CLib Unicode Jsonl BpfFormat BpfMap ProcessBpf ProcessBpfSpec MapFlush.

(** ** Details *)

Lemma parse_fd_text d fd :
  cstr d = fd_text fd -> - 2 ^ 31 <= fd < 2 ^ 31 -> parse_fd_detail d = Some fd.
Proof.
  intros Hd Hfd. unfold parse_fd_detail. rewrite Hd.
  assert (strneq d (lit "fd=") 3 = true) as ->.
  { unfold strneq. rewrite Hd. by apply bool_decide_eq_true. }
  cbn [negb]. change (drop 3 (fd_text fd)) with (fmt_d fd).
  pose proof (strtol10_fmt_d fd []) as Hs. rewrite app_nil_r in Hs. rewrite Hs; [|unfold LONG_MIN, LONG_MAX; lia|done].
  cbn [st_end st_val]. rewrite (proj2 (Nat.ltb_ge _ _)) by lia. rewrite orb_false_r.
  assert (length (fmt_d fd) <> O) as Hl.
  { unfold fmt_d. destruct (Z.ltb_spec fd 0); [done|]. destruct (fmt_u_spec fd) as (_ & ? & _); lia. }
  rewrite (proj2 (Nat.eqb_neq _ _)) by done. f_equal. apply (wraps_id 32); lia.
Qed.

(** ** Escaping never cuts *)

Lemma escs_no_nul s : no_nul s -> no_nul (escs s).
Proof.
  induction 1 as [|c s Hc _ IH]; [constructor|]. change (escs (c :: s)) with (esc1 c ++ escs s).
  apply no_nul_app; [|done]. unfold esc1. repeat case_match; repeat constructor; (done || lia).
Qed.

Lemma escs_nil_case {A} s (x y : A) :
  match escs s with [] => x | _ => y end = match s with [] => x | _ => y end.
Proof. pose proof (escs_length s). destruct s, (escs _); simpl in *; (done || lia). Qed.

(** The strings of an array of [n] bytes escape into one of twice the size. *)
Lemma json_escaped_fits src size :
  0 ∈ src -> (2 * length src <= size)%nat -> Z.of_nat size < 2 ^ 32 -> json_escaped src size = Some (escs (cstr src)).
Proof.
  intros Hin Hsz Hbig. unfold json_escaped.
  assert (length (cstr src) < length src)%nat as Hl.
  { clear -Hin. induction src as [|c src IH]; [by apply not_elem_of_nil in Hin|]. unfold cstr in *. cbn [take_while length].
    destruct (Z.eqb_spec c 0); cbn [negb length]; [lia|]. apply elem_of_cons in Hin as [?|Hin]; [congruence|].
    specialize (IH Hin). lia. }
  pose proof (escs_length (cstr src)).
  destruct (json_escape_fits src (replicate size 0)) as [r ->].
  - done.
  - rewrite length_replicate. destruct src; [by apply not_elem_of_nil in Hin|]. simpl in *. lia.
  - rewrite length_replicate. lia.
  - cbn. f_equal. apply cstr_app, escs_no_nul, cstr_no_nul.
Qed.

(** ** The line of an entry *)

(** The arrays of an entry, as the probes fill them. *)
Record entry_ok (key : agg_key) (val : agg_value) : Prop := {
  eok_detail : 0 ∈ k_detail key /\ length (k_detail key) = DETAIL_LEN;
  eok_comm : 0 ∈ v_comm val /\ length (v_comm val) = TASK_COMM_LEN;
  eok_extra : 0 ∈ v_extra val /\ length (v_extra val) = MAX_FILENAME_LEN;
  eok_nums : 0 <= v_last_ts val /\ 0 <= k_pid key /\ 0 <= v_count val;
}.

(** The descriptor of a WRITE entry and the path it resolves to. *)
Definition entry_fd (key : agg_key) : option Z :=
  if k_event_type key =? EVENT_TYPE_WRITE then parse_fd_detail (k_detail key) else None.

Definition entry_path (readlink : bytes -> option bytes) (key : agg_key) : option bytes :=
  fd ← entry_fd key; resolve_fd_path readlink (k_pid key) fd MAX_FILENAME_LEN.

(** The text shown as the detail. *)
Definition entry_detail (readlink : bytes -> option bytes) (key : agg_key) : bytes :=
  cstr (default (k_detail key) (entry_path readlink key)).

Definition is_some {A} (o : option A) : bool := match o with Some _ => true | None => false end.

(** The members of the line: the fields, then what the entry has of byte total,
    descriptor and extra path. *)
Definition summary_members (readlink : bytes -> option bytes) (key : agg_key) (val : agg_value) : list (bytes * bytes) :=
  [(lit "timestamp", fmt_u (v_last_ts val)); (lit "event", quoted (lit "SUMMARY"));
   (lit "comm", quoted (escs (cstr (v_comm val)))); (lit "pid", fmt_u (k_pid key));
   (lit "type", quoted (event_type_name (k_event_type key)));
   (lit "detail", quoted (escs (entry_detail readlink key))); (lit "count", fmt_u (v_count val))]
  ++ (if 0 <? v_total_bytes val then [(lit "total_bytes", fmt_u (v_total_bytes val))] else [])
  ++ (match entry_fd key with
      | Some fd => [(lit "fd", fmt_d fd);
                    (lit "path_resolved", if is_some (entry_path readlink key) then lit "true" else lit "false")]
      | None => [] end)
  ++ (match cstr (v_extra val) with [] => [] | _ => [(lit "extra", quoted (escs (cstr (v_extra val))))] end).

Lemma resolve_fd_path_ok readlink pid fd p :
  resolve_fd_path readlink pid fd MAX_FILENAME_LEN = Some p -> 0 ∈ p /\ length p = MAX_FILENAME_LEN.
Proof.
  unfold resolve_fd_path. destruct (readlink _) as [t|]; [|done]. case_bool_decide; [done|].
  intros [= <-]. unfold strncpy_term. split.
  - apply elem_of_app. right. left.
  - rewrite length_app, length_take, length_app, length_replicate. unfold MAX_FILENAME_LEN. cbn [length]. lia.
Qed.

Lemma summary_render readlink key val :
  entry_ok key val -> print_summary_json readlink key val = Some (render_line (summary_members readlink key val)).
Proof.
  intros [[Hd Hdl] [Hc Hcl] [He Hel] _]. unfold print_summary_json.
  rewrite (json_escaped_fits (v_extra val)); [|done|rewrite Hel; vm_compute; lia|vm_compute; done].
  cbn [mbind option_bind].
  rewrite (json_escaped_fits (v_comm val)); [|done|rewrite Hcl; vm_compute; lia|vm_compute; done].
  cbn [mbind option_bind]. change (if k_event_type key =? EVENT_TYPE_WRITE then parse_fd_detail (k_detail key) else None) with (entry_fd key).
  change (match entry_fd key with Some fd => resolve_fd_path readlink (k_pid key) fd MAX_FILENAME_LEN | None => None end)
    with (entry_path readlink key).
  rewrite json_escaped_fits.
  2-4: destruct (entry_path readlink key) as [p|] eqn:Ep; [|rewrite ?Hdl; done || (vm_compute; lia)].
  2-4: unfold entry_path in Ep; destruct (entry_fd key) as [fd|]; [|done]; cbn [mbind option_bind] in Ep;
       apply resolve_fd_path_ok in Ep as [Hp Hpl]; rewrite ?Hpl; done || (vm_compute; lia).
  cbn [mbind option_bind]. f_equal.
  unfold summary_members, entry_detail, render_line. cbn [app]. rewrite render_members_cons. unfold members_tail.
  assert (match entry_path readlink key with Some p => p | None => k_detail key end
          = default (k_detail key) (entry_path readlink key)) as -> by by destruct (entry_path readlink key).
  rewrite escs_nil_case. cbn [map concat fst snd]. rewrite !map_app, !concat_app. unfold quoted.
  destruct (0 <? v_total_bytes val), (entry_fd key) as [fd|], (entry_path readlink key), (cstr (v_extra val)) as [|x e];
    cbn [map concat fst snd app is_some default];
    repeat (rewrite <- ?app_assoc; cbn [app]); rewrite ?app_nil_r; reflexivity.
Qed.

(** The strings of an entry are UTF-8 text whose only control characters are
    newline and tab. *)
Definition plain_text (t : bytes) (cps : list Z) : Prop := escapable t /\ utf8_decode t = Some cps.

Lemma plain_value t cps : plain_text t cps -> value_text (quoted (escs t)) (JStr cps).
Proof. intros [He Hd]. apply vt_str. by apply json_body_escs. Qed.

Lemma event_type_name_body ty : json_body (event_type_name ty) = Some (event_type_name ty).
Proof. unfold event_type_name. repeat case_match; vm_compute; reflexivity. Qed.

(** The values of the members of a line. *)
Definition summary_values (readlink : bytes -> option bytes) (key : agg_key) (val : agg_value)
    (comm detail extra : list Z) : list (list Z * jval) :=
  [(lit "timestamp", JNum (fmt_u (v_last_ts val))); (lit "event", JStr (lit "SUMMARY"));
   (lit "comm", JStr comm); (lit "pid", JNum (fmt_u (k_pid key)));
   (lit "type", JStr (event_type_name (k_event_type key)));
   (lit "detail", JStr detail); (lit "count", JNum (fmt_u (v_count val)))]
  ++ (if 0 <? v_total_bytes val then [(lit "total_bytes", JNum (fmt_u (v_total_bytes val)))] else [])
  ++ (match entry_fd key with
      | Some fd => [(lit "fd", JNum (fmt_d fd)); (lit "path_resolved", JBool (is_some (entry_path readlink key)))]
      | None => [] end)
  ++ (match cstr (v_extra val) with [] => [] | _ => [(lit "extra", JStr extra)] end).

Lemma member_intro (k : bytes) v (key : list Z) val :
  json_body k = Some key -> value_text v val -> member_text (k, v) (key, val).
Proof. done. Qed.

(** The next member: its key is a literal. *)
Ltac member := apply Forall2_cons; split; [apply member_intro; [vm_compute; reflexivity|]|].

Lemma summary_members_values readlink key val cc dc ec :
  entry_ok key val -> plain_text (cstr (v_comm val)) cc -> plain_text (entry_detail readlink key) dc ->
  plain_text (cstr (v_extra val)) ec ->
  Forall2 member_text (summary_members readlink key val) (summary_values readlink key val cc dc ec).
Proof.
  intros [_ _ _ (Hts & Hpid & Hcnt)] Hc Hd He. unfold summary_members, summary_values.
  repeat apply Forall2_app.
  - member; [by apply fmt_u_value|]. member; [by apply vt_str|]. member; [by apply plain_value|].
    member; [by apply fmt_u_value|]. member; [apply vt_str, event_type_name_body|].
    member; [by apply plain_value|]. member; [by apply fmt_u_value|]. by apply Forall2_nil.
  - destruct (Z.ltb_spec 0 (v_total_bytes val)); [|constructor].
    member; [apply fmt_u_value; lia|]. by apply Forall2_nil.
  - destruct (entry_fd key) as [fd|]; [|constructor].
    member; [apply fmt_d_value|]. member; [apply vt_bool|]. by apply Forall2_nil.
  - destruct (cstr (v_extra val)) eqn:E; [constructor|]. rewrite <- E in *.
    member; [by apply plain_value|]. by apply Forall2_nil.
Qed.

(** ** Flushing the whole map *)

Section flush.
Context `{BpfHashLaws hmap}.
Implicit Types m : hmap agg_key agg_value.

(** From a key that is not in the map, the flush prints every entry, in the
    kernel's order, and leaves the map empty. *)
Lemma flush_loop_all l m key fuel :
  bpf_contents m = l -> key ∉ l.*1 -> Forall (fun p => 0 < v_count p.2) l -> (length l < fuel)%nat ->
  exists m', flush_loop fuel m key = Some (m', l) /\ bpf_contents m' = [].
Proof.
  revert m key fuel. induction l as [|[k v] l IH]; intros m key fuel E Hkey Hpos Hf.
  - destruct fuel as [|f]; [lia|]. cbn [flush_loop]. rewrite bpf_next_contents, E. by exists m.
  - destruct fuel as [|f]; [lia|]. cbn [flush_loop]. rewrite bpf_next_contents, E, next_after_absent by done.
    cbn [list_fmap fmap head fst]. rewrite (contents_lookup m k v [] l) by done.
    apply Forall_cons in Hpos as [Hv Hpos]. cbn [snd] in Hv. rewrite (proj2 (Z.ltb_lt _ _)) by done.
    destruct (delete_first m k v l E) as [E' Hk].
    destruct (IH _ k f E' Hk Hpos) as (m' & -> & Hm'); [simpl in Hf; lia|]. cbn [mbind option_bind]. by exists m'.
Qed.

(** ** Flushing one process *)

Definition of_pid (pid : Z) (p : agg_key * agg_value) : bool := k_pid p.1 =? pid.

(** The loop prints the entries of the process from the current one on, and
    remembers the first 256 keys. *)
Lemma flush_pid_loop_all l2 l1 m pid key del fuel :
  bpf_contents m = l1 ++ l2 ->
  (l1 = [] /\ key ∉ l2.*1 \/ exists l0 v, l1 = l0 ++ [(key, v)]) ->
  Forall (fun p => 0 < v_count p.2) l2 -> (length l2 < fuel)%nat -> (length del <= 256)%nat ->
  flush_pid_loop fuel m pid key del =
  Some (filter (fun p => of_pid pid p = true) l2,
        take 256 (del ++ (filter (fun p => of_pid pid p = true) l2).*1)).
Proof.
  revert l1 key del fuel. induction l2 as [|[k v] l2 IH]; intros l1 key del fuel E Hkey Hpos Hf Hdel;
    (destruct fuel as [|f]; [simpl in Hf; lia|]); cbn [flush_pid_loop]; rewrite bpf_next_contents, E.
  - assert (next_after (l1 ++ []).*1 key = None) as ->.
    { rewrite app_nil_r in *. destruct Hkey as [[-> _]|(l0 & v & ->)]; [done|]. rewrite fmap_app. cbn [list_fmap fmap fst].
      apply (next_after_mid l0.*1 []). pose proof (bpf_contents_NoDup m) as Hn. rewrite E, fmap_app in Hn.
      apply NoDup_app in Hn as (_ & Hn & _). intros Hin. apply (Hn _ Hin). left. }
    rewrite filter_nil, app_nil_r. by rewrite firstn_all2.
  - assert (next_after (l1 ++ (k, v) :: l2).*1 key = Some k) as ->.
    { destruct Hkey as [[-> Hk]|(l0 & v0 & ->)].
      - cbn [app]. by rewrite next_after_absent.
      - rewrite fmap_app, fmap_app, <- app_assoc. cbn [list_fmap fmap fst app]. rewrite next_after_mid; [done|].
        pose proof (bpf_contents_NoDup m) as Hn. rewrite E, fmap_app, fmap_app, <- app_assoc in Hn.
        apply NoDup_app in Hn as (_ & Hn & _). intros Hin. apply (Hn _ Hin). left. }
    apply Forall_cons in Hpos as [Hv Hpos]. cbn [snd] in Hv.
    assert (forall del', (length del' <= 256)%nat ->
      flush_pid_loop f m pid k del' = Some (filter (fun p => of_pid pid p = true) l2,
        take 256 (del' ++ (filter (fun p => of_pid pid p = true) l2).*1))) as IH'.
    { intros del' Hd. apply (IH (l1 ++ [(k, v)])); [by rewrite <- app_assoc|right; by exists l1, v|done|simpl in Hf; lia|done]. }
    rewrite filter_cons. change (k_pid k =? pid) with (of_pid pid (k, v)).
    destruct (of_pid pid (k, v)) eqn:Hp.
    + rewrite (contents_lookup m k v l1 l2) by done. rewrite (proj2 (Z.ltb_lt _ _)) by done.
      rewrite decide_True by done. cbn [list_fmap fmap fst].
      destruct (Nat.ltb_spec (length del) 256).
      * rewrite IH' by (rewrite length_app; simpl; lia). cbn [mbind option_bind]. by rewrite <- app_assoc.
      * rewrite IH' by done. cbn [mbind option_bind]. by rewrite !take_app_le by lia.
    + rewrite decide_False by done. by apply IH'.
Qed.

Lemma foldl_delete_contents ks m :
  bpf_contents (foldl bpf_map_delete_elem m ks) = filter (fun p => p.1 ∉ ks) (bpf_contents m).
Proof.
  revert m. induction ks as [|k ks IH]; intros m; cbn [foldl].
  - induction (bpf_contents m) as [|p l IHl]; [done|]. rewrite filter_cons, decide_True by apply not_elem_of_nil.
    by rewrite <- IHl.
  - rewrite IH, bpf_delete_contents. induction (bpf_contents m) as [|p l IHl]; [done|].
    rewrite !filter_cons. destruct (decide (p.1 <> k)) as [Hk|Hk].
    + rewrite filter_cons, IHl. destruct (decide (p.1 ∉ ks)).
      * by rewrite decide_True by (by apply not_elem_of_cons).
      * rewrite decide_False; [done|]. rewrite not_elem_of_cons. naive_solver.
    + rewrite IHl, decide_False; [done|]. rewrite not_elem_of_cons. naive_solver.
Qed.

(** What [flush_pid_from_agg_map] prints and leaves. *)
Lemma flush_pid_all m pid fuel :
  zero_key ∉ (bpf_contents m).*1 -> Forall (fun p => 0 < v_count p.2) (bpf_contents m) ->
  (length (bpf_contents m) < fuel)%nat ->
  let mine := filter (fun p => of_pid pid p = true) (bpf_contents m) in
  exists m', flush_pid_from_agg_map fuel m pid = Some (m', mine) /\
    bpf_contents m' = filter (fun p => p.1 ∉ take 256 mine.*1) (bpf_contents m).
Proof.
  intros Hz Hpos Hf mine. unfold flush_pid_from_agg_map.
  rewrite (flush_pid_loop_all (bpf_contents m) [] m pid zero_key [] fuel);
    [|done|by left|done|done|simpl; lia].
  cbn [mbind option_bind app]. eexists. split; [done|]. by rewrite foldl_delete_contents.
Qed.

(** When at most 256 entries of the process are there, exactly they go. *)
Lemma flush_pid_leaves m m' pid :
  let mine := filter (fun p => of_pid pid p = true) (bpf_contents m) in
  (length mine <= 256)%nat ->
  bpf_contents m' = filter (fun p => p.1 ∉ take 256 mine.*1) (bpf_contents m) ->
  bpf_contents m' = filter (fun p => of_pid pid p = false) (bpf_contents m).
Proof.
  intros mine Hl ->. apply filter_ext_in. intros [k v] Hin. cbn [fst].
  rewrite firstn_all2 by (by rewrite length_fmap).
  destruct (of_pid pid (k, v)) eqn:E; split; try done.
  - intros Hn. exfalso. apply Hn. apply list_elem_of_fmap. exists (k, v). split; [done|].
    by apply list_elem_of_filter.
  - intros _ Hk. apply list_elem_of_fmap in Hk as ([k' v'] & -> & Hk).
    apply list_elem_of_filter in Hk as [Hk _]. unfold of_pid in *. cbn [fst] in *. congruence.
Qed.

(** The remaining entries when there are more: all but 256 of them stay. *)
Lemma flush_pid_leftover m m' pid :
  let mine := filter (fun p => of_pid pid p = true) (bpf_contents m) in
  bpf_contents m' = filter (fun p => p.1 ∉ take 256 mine.*1) (bpf_contents m) ->
  forall p, p ∈ drop 256 mine -> p ∈ bpf_contents m'.
Proof.
  intros mine -> p Hp.
  assert (p ∈ mine) as Hm by (rewrite <- (take_drop 256 mine); apply elem_of_app; by right).
  apply list_elem_of_filter in Hm as [_ Hm]. apply list_elem_of_filter. split; [|done].
  assert (NoDup mine.*1) as Hn.
  { unfold mine. pose proof (bpf_contents_NoDup m) as Hn. revert Hn. generalize (bpf_contents m). clear.
    induction l as [|q l IH]; [done|]. cbn [list_fmap fmap]. intros Hn. apply NoDup_cons in Hn as [Hq Hn].
    rewrite filter_cons. case_decide; [|by apply IH]. cbn [list_fmap fmap]. apply NoDup_cons.
    split; [|by apply IH]. intros Hin. apply Hq. apply list_elem_of_fmap in Hin as (r & -> & Hr).
    apply list_elem_of_filter in Hr as [_ Hr]. by apply list_elem_of_fmap_2. }
  rewrite <- (take_drop 256 mine.*1) in Hn. apply NoDup_app in Hn as (_ & Hn & _).
  intros Hin. apply (Hn _ Hin). rewrite <- fmap_drop. by apply list_elem_of_fmap_2.
Qed.

(** ** Totals *)

Definition list_total (l : list (agg_key * agg_value)) : Z := foldr (fun p a => v_count p.2 + a) 0 l.

Lemma agg_total_list (l : list (agg_key * agg_value)) :
  NoDup l.*1 -> agg_total (list_to_map l) = list_total l.
Proof.
  induction l as [|[k v] l IH]; intros Hn; [done|]. cbn [list_fmap fmap fst] in Hn.
  apply NoDup_cons in Hn as [Hk Hn]. cbn [list_to_map foldr list_total fst snd].
  rewrite agg_total_insert by (by apply not_elem_of_list_to_map_1). fold (list_total l).
  by rewrite <- IH.
Qed.

Lemma agg_total_contents m : agg_total (bpf_map m) = list_total (bpf_contents m).
Proof. apply agg_total_list, bpf_contents_NoDup. Qed.

Lemma list_total_perm l1 l2 : l1 ≡ₚ l2 -> list_total l1 = list_total l2.
Proof. induction 1; unfold list_total in *; cbn [foldr]; lia. Qed.

Lemma list_total_app l1 l2 : list_total (l1 ++ l2) = list_total l1 + list_total l2.
Proof. unfold list_total. induction l1; cbn [app foldr]; lia. Qed.

Lemma list_total_filter (P : agg_key * agg_value -> Prop) `{forall p, Decision (P p)} l :
  list_total l = list_total (filter P l) + list_total (filter (fun p => ~ P p) l).
Proof.
  induction l as [|p l IH]; [done|]. rewrite !filter_cons. repeat case_decide; try done; unfold list_total in *; cbn [foldr]; lia.
Qed.

(** A flush of a process prints all its entries and removes the first 256: the
    others are counted again. *)
Lemma flush_pid_total m pid :
  let mine := filter (fun p => of_pid pid p = true) (bpf_contents m) in
  list_total mine + list_total (filter (fun p => p.1 ∉ take 256 mine.*1) (bpf_contents m)) =
  list_total (bpf_contents m) + list_total (drop 256 mine).
Proof.
  intros mine. assert (filter (fun p => p.1 ∈ take 256 mine.*1) (bpf_contents m) ≡ₚ take 256 mine) as Hp.
  { pose proof (bpf_contents_NoDup m) as Hn. apply NoDup_Permutation.
    - apply NoDup_filter. by eapply NoDup_fmap_1.
    - assert (NoDup mine) as Hm by (apply NoDup_filter; by eapply NoDup_fmap_1). rewrite <- (take_drop 256 mine) in Hm. by apply NoDup_app in Hm as [? _].
    - intros p. rewrite list_elem_of_filter, <- fmap_take, list_elem_of_fmap. split.
      + intros [(q & Eq & Hq) Hin]. assert (q ∈ bpf_contents m) as Hq' by (apply elem_of_take in Hq as (i & Hi & _); apply list_elem_of_lookup_2 in Hi; by apply list_elem_of_filter in Hi as [_ ?]).
        destruct p as [k v], q as [k' v']. cbn in Eq. subst k'. apply bpf_map_lookup_list in Hin, Hq'. congruence.
      + intros Hin. split; [by exists p|]. apply elem_of_take in Hin as (i & Hi & _). apply list_elem_of_lookup_2 in Hi. by apply list_elem_of_filter in Hi as [_ ?]. }
  apply list_total_perm in Hp.
  assert (list_total (bpf_contents m) = list_total (filter (fun p => p.1 ∈ take 256 mine.*1) (bpf_contents m)) +
    list_total (filter (fun p => p.1 ∉ take 256 mine.*1) (bpf_contents m))) as Hs by apply list_total_filter.
  pose proof (list_total_app (take 256 mine) (drop 256 mine)) as Ha. rewrite take_drop in Ha. lia.
Qed.

Lemma list_total_split l pid :
  list_total l = list_total (filter (fun p => of_pid pid p = true) l)
               + list_total (filter (fun p => of_pid pid p = false) l).
Proof.
  rewrite (list_total_filter (fun p => of_pid pid p = true)). do 2 f_equal. apply list_filter_iff.
  intros p. by destruct (of_pid pid p).
Qed.

Lemma counts_ok_contents m :
  counts_ok (bpf_map m) -> Forall (fun p => 0 < v_count p.2) (bpf_contents m).
Proof.
  intros Hc. apply Forall_forall. intros [k v] Hin. apply bpf_map_lookup_list in Hin. specialize (Hc _ _ Hin).
  cbn. lia.
Qed.

End flush.

(** ** The overflow report *)

Lemma foldl_sum l a :
  Forall (fun n => 0 <= n) l -> 0 <= a -> a + overflow_total l < 2 ^ 64 ->
  foldl (fun a c => u64 (a + c)) a l = a + overflow_total l.
Proof.
  intros Hl. revert a. induction Hl as [|n l Hn Hl IH]; intros a Ha Hs; cbn [foldl]; [cbn; lia|].
  pose proof (overflow_nonneg l Hl). unfold overflow_total in *. cbn [foldr] in *.
  rewrite (wrapu_id 64) by lia. rewrite IH by lia. lia.
Qed.

Lemma overflow_replicate n : overflow_total (replicate n 0) = 0.
Proof. induction n; [done|]. cbn. unfold overflow_total in *. lia. Qed.

(** The report returns the sum of the counters of all CPUs and clears them. *)
Lemma check_overflow_total (o : list Z) :
  Forall (fun n => 0 <= n) o -> overflow_total o < 2 ^ 64 -> (0 < length o)%nat ->
  exists o' text, check_overflow (Z.of_nat (length o)) true o = (o', overflow_total o, text) /\
    overflow_total o' = 0 /\ Forall (fun n => 0 <= n) o' /\ length o' = length o.
Proof.
  intros Ho Hs Hl. unfold check_overflow. rewrite (proj2 (Z.leb_gt _ 0)) by lia. cbn [negb].
  rewrite Nat2Z.id, take_app_length. rewrite foldl_sum by (done || lia).
  rewrite Z.add_0_l. pose proof (overflow_nonneg o Ho).
  destruct (Z.ltb_spec 0 (overflow_total o)).
  - rewrite Nat.min_id, drop_all, app_nil_r. eexists _, _. split; [done|]. split_and!.
    + apply overflow_replicate.
    + by apply Forall_replicate.
    + apply length_replicate.
  - exists o, []. split_and!; (done || lia).
Qed.

(** ** The tracer as a system *)

Section system.
Context `{BpfHashLaws hmap} (cfg : bpf_config).
Implicit Types s : pstate hmap.

(** The keys of the map are those of the probes. *)
Definition keys_ok (m : gmap agg_key agg_value) : Prop := forall k v, m !! k = Some v -> 10 <= k_event_type k.

Record sys_ok s : Prop := {
  sys_state : state_ok s;
  sys_keys : keys_ok (bpf_map (event_agg_map s));
  sys_pending : pending s < 2 ^ 64;
  sys_cpus : (0 < length (agg_overflow_count s))%nat;
}.

(** The entries of a process. *)
Definition entries_of s (pid : Z) : list (agg_key * agg_value) :=
  filter (fun p => of_pid pid p = true) (bpf_contents (event_agg_map s)).

(** Fuel that is enough for an iteration over the map. *)
Definition map_fuel s : nat := S (length (bpf_contents (event_agg_map s))).

(** One step of the tracer, with the number of events it counts and the number
    it reports: a probe, a flush of the map, a flush of a process with at most
    256 entries, an overflow report. *)
Inductive sys_step : pstate hmap -> Z -> Z -> pstate hmap -> Prop :=
  | step_probe s p c s' :
      ctx_ok c -> (c_cpu c < length (agg_overflow_count s))%nat -> pending s < 2 ^ 64 - 1 ->
      run_probe cfg p s c = Some s' ->
      sys_step s (if counts cfg p s c then 1 else 0) 0 s'
  | step_flush s m out :
      flush_agg_map (map_fuel s) (event_agg_map s) = Some (m, out) ->
      sys_step s 0 (list_total out) (set_agg s m (agg_overflow_count s))
  | step_flush_pid s pid m out :
      (length (entries_of s pid) <= 256)%nat ->
      flush_pid_from_agg_map (map_fuel s) (event_agg_map s) pid = Some (m, out) ->
      sys_step s 0 (list_total out) (set_agg s m (agg_overflow_count s))
  | step_overflow s o total text :
      check_overflow (Z.of_nat (length (agg_overflow_count s))) true (agg_overflow_count s) = (o, total, text) ->
      sys_step s 0 total (set_agg s (event_agg_map s) o).

Inductive sys_run : pstate hmap -> Z -> Z -> pstate hmap -> Prop :=
  | run_done s : sys_run s 0 0 s
  | run_step s n r s1 n1 r1 s2 : sys_run s n r s1 -> sys_step s1 n1 r1 s2 -> sys_run s (n + n1) (r + r1) s2.

Lemma zero_key_absent s : sys_ok s -> zero_key ∉ (bpf_contents (event_agg_map s)).*1.
Proof.
  intros [_ Hk _ _] Hin. apply list_elem_of_fmap in Hin as ([k v] & E & Hin). cbn in E. subst k.
  apply bpf_map_lookup_list in Hin. apply Hk in Hin. cbn in Hin. lia.
Qed.

Lemma probe_type_ge p ty : probe_type p = Some ty -> 10 <= ty.
Proof. destruct p; cbn [probe_type]; intros E; try discriminate E; injection E as <-; lia. Qed.

Lemma probe_keys p s c s' :
  ctx_ok c -> state_ok s -> run_probe cfg p s c = Some s' ->
  keys_ok (bpf_map (event_agg_map s)) -> keys_ok (bpf_map (event_agg_map s')).
Proof.
  intros Hc Hok Hr Hk. destruct (probe_type p) as [ty|] eqn:Ety.
  - destruct (probe_outcome cfg p s c ty Hc (sok_write _ Hok) Ety) as (s1 & E & _ & _ & Ho).
    rewrite E in Hr. injection Hr as <-. apply probe_type_ge in Ety.
    destruct (if probe_flag cfg p && is_event_tracked cfg s c then probe_text p s c else None) as [t|];
      [|by destruct Ho as [-> _]].
    destruct Ho as (key & _ & Hty & _ & [(v' & -> & _)|(-> & _)] & _); [|done].
    intros k v. rewrite lookup_insert_Some. intros [[<- _]|[_ Hx]]; [lia|by eapply Hk].
  - destruct (ring_probe_same cfg p s c Ety) as (s1 & E & E1 & _). rewrite E in Hr. injection Hr as <-. by rewrite E1.
Qed.

(** The state after its map is replaced by one with fewer entries. *)
Lemma sys_ok_sub s m o :
  sys_ok s -> (forall p, p ∈ bpf_contents m -> p ∈ bpf_contents (event_agg_map s)) ->
  Forall (fun n => 0 <= n) o -> length o = length (agg_overflow_count s) ->
  pending (set_agg s m o) <= pending s -> sys_ok (set_agg s m o).
Proof.
  intros [[Hc Ho Hw] Hk Hp Hl] Hsub Ho' Hlen Hle.
  assert (forall k v, bpf_map m !! k = Some v -> bpf_map (event_agg_map s) !! k = Some v) as Hm.
  { intros k v Hkv. apply bpf_map_lookup_list, Hsub. by apply bpf_map_lookup_list. }
  split; [split|..]; cbn [event_agg_map agg_overflow_count set_agg]; try done.
  - intros k v Hkv. by eapply Hc, Hm.
  - intros k v Hkv. by eapply Hk, Hm.
  - lia.
  - lia.
Qed.

Lemma pending_contents s :
  pending s = list_total (bpf_contents (event_agg_map s)) + overflow_total (agg_overflow_count s).
Proof. unfold pending. by rewrite agg_total_contents. Qed.

Lemma list_total_nonneg l : Forall (fun p => 0 < v_count p.2) l -> 0 <= list_total l.
Proof. induction 1; cbn; [done|]. unfold list_total in *. lia. Qed.

(** Every step keeps the books: what becomes pending was counted, what stops
    being pending was reported. *)
Lemma sys_step_ok s n r s' :
  sys_step s n r s' -> sys_ok s -> sys_ok s' /\ pending s' + r = pending s + n.
Proof.
  intros Hs Hok. pose proof Hok as [Hst Hk Hp Hl].
  pose proof (counts_ok_contents (event_agg_map s) (sok_counts _ Hst)) as Hpos.
  destruct Hs as [s p c s' Hc Hcpu Hlt Hr|s m out Hf|s pid m out Hle Hf|s o total text Hf].
  - destruct (probe_pending cfg p s c Hc Hst Hcpu Hlt) as (s1 & E & Hst' & Hp' & Hl').
    rewrite E in Hr. injection Hr as <-. pose proof (counts_le cfg p s c).
    split; [|lia]. split; [done|exact (probe_keys p s c s1 Hc Hst E Hk)|lia|lia].
  - destruct (flush_loop_all _ (event_agg_map s) zero_key (map_fuel s) eq_refl (zero_key_absent s Hok) Hpos)
      as (m' & E & Hm); [unfold map_fuel; lia|].
    unfold flush_agg_map in Hf. rewrite E in Hf. injection Hf as <- <-.
    assert (pending (set_agg s m' (agg_overflow_count s)) + list_total (bpf_contents (event_agg_map s)) = pending s + 0) as Hb.
    { rewrite !pending_contents. cbn [event_agg_map agg_overflow_count set_agg]. rewrite Hm. cbn. lia. }
    pose proof (list_total_nonneg _ Hpos). split; [|done].
    apply sys_ok_sub; [done| |apply Hst|done|lia]. intros q Hq. rewrite Hm in Hq. by apply not_elem_of_nil in Hq.
  - destruct (flush_pid_all (event_agg_map s) pid (map_fuel s) (zero_key_absent s Hok) Hpos) as (m' & E & Hm);
      [unfold map_fuel; lia|].
    rewrite E in Hf. injection Hf as <- <-. pose proof (flush_pid_leaves _ _ _ Hle Hm) as Hm'.
    pose proof (list_total_split (bpf_contents (event_agg_map s)) pid) as Hsplit.
    assert (pending (set_agg s m' (agg_overflow_count s)) + list_total (entries_of s pid) = pending s + 0) as Hb.
    { rewrite !pending_contents. cbn [event_agg_map agg_overflow_count set_agg]. rewrite Hm'. unfold entries_of. lia. }
    assert (0 <= list_total (entries_of s pid)) by
      (apply list_total_nonneg, Forall_forall; intros q Hq; apply list_elem_of_filter in Hq as [_ Hq];
       by eapply (proj1 (Forall_forall _ _) Hpos)).
    split; [|done]. apply sys_ok_sub; [done| |apply Hst|done|unfold entries_of in *; lia].
    intros q Hq. rewrite Hm' in Hq. by apply list_elem_of_filter in Hq as [_ Hq].
  - pose proof (list_total_nonneg _ Hpos). pose proof (overflow_nonneg _ (sok_overflow _ Hst)).
    rewrite pending_contents in Hp.
    destruct (check_overflow_total (agg_overflow_count s)) as (o' & t & E & H0' & Ho' & Hl'); [apply Hst|lia|done|].
    rewrite E in Hf. injection Hf as <- <- <-.
    assert (pending (set_agg s (event_agg_map s) o') + overflow_total (agg_overflow_count s) = pending s + 0) as Hb.
    { rewrite !pending_contents. cbn [event_agg_map agg_overflow_count set_agg]. rewrite H0'. lia. }
    split; [|done]. apply sys_ok_sub; (done || lia).
Qed.

Lemma sys_run_ok s n r s' : sys_run s n r s' -> sys_ok s -> sys_ok s' /\ pending s' + r = pending s + n.
Proof.
  induction 1 as [s|s n r s1 n1 r1 s2 _ IH Hstep]; intros Hok; [split; [done|lia]|].
  destruct (IH Hok) as [Hok1 Hb]. destruct (sys_step_ok _ _ _ _ Hstep Hok1) as [Hok2 Hb2]. split; [done|lia].
Qed.

End system.

(** ** Properties *)


Lemma pstate0_sys_ok : sys_ok pstate0.
Proof.
  split.
  - apply pstate0_ok.
  - intros k v. cbn [pstate0 event_agg_map]. by rewrite bd_empty_map, lookup_empty.
  - vm_compute. reflexivity.
  - vm_compute. lia.
Qed.


(** The descriptor of a write survives the trip through the key: for every
    int [fd], negative ones included, the detail [format_fd_detail] builds is
    "fd=N" with the decimal of [fd], and [parse_fd_detail] returns [fd]. *)
Theorem fd_detail_roundtrip fd :
  - 2 ^ 31 <= fd < 2 ^ 31 ->
  exists d, format_fd_detail zero_detail (Z.of_nat DETAIL_LEN) fd = Some d /\
    cstr d = lit "fd=" ++ fmt_d fd /\ length d = DETAIL_LEN /\ parse_fd_detail d = Some fd.
Proof.
  intros Hfd. destruct (fd_detail fd Hfd) as (d & E & Hd & _). exists d. split; [done|]. split; [done|].
  split; [|by apply parse_fd_text].
  destruct (format_fd_detail_text zero_detail fd) as (r & E' & Hl); [simpl; lia|done|].
  change (Z.of_nat (length zero_detail)) with 64 in E'. rewrite E in E'. injection E' as ->. exact Hl.
Qed.

Lemma fd_detail_roundtrip_witness :
  exists d, format_fd_detail zero_detail 64 (-100) = Some d /\ parse_fd_detail d = Some (-100).
Proof.
  destruct (fd_detail_roundtrip (-100)) as (d & E & _ & _ & Hp); [lia|]. exists d. split; [exact E|exact Hp].
Defined.


(** A WRITE entry of process 7 on descriptor 3. *)
Definition write_key : agg_key := AggKey 7 EVENT_TYPE_WRITE (lit "fd=3" ++ replicate 60 0).
Definition write_val : agg_value :=
  AggValue 2 4096 10 20 (lit "node" ++ replicate 12 0) (replicate 127 0).

Lemma plain_test t cps :
  forallb (fun c => (32 <=? c) || (c =? 10) || (c =? 9)) t = true -> utf8_decode t = Some cps -> plain_text t cps.
Proof.
  intros Ht Hd. split; [|done]. apply Forall_forall. intros c Hc. apply list_elem_of_In in Hc.
  apply (proj1 (forallb_forall _ _) Ht) in Hc. apply orb_true_iff in Hc as [Hc|Hc]; [apply orb_true_iff in Hc as [Hc|Hc]|];
    bool_to_prop; lia.
Qed.

Lemma write_entry_example : entry_ok write_key write_val.
Proof.
  split; [split; [by apply elem_test|reflexivity]..|]. unfold write_key, write_val. cbn [v_last_ts k_pid v_count]. lia.
Qed.


(** C38: a process with more than 256 entries is reported twice:
    [flush_pid_from_agg_map] prints all its entries but remembers 256 keys, so
    the others stay in the map and the next flush prints each of them again. *)
Theorem flush_pid_over_256_repeats `{BpfHashLaws hmap} (m : hmap agg_key agg_value) pid :
  zero_key ∉ (bpf_contents m).*1 -> Forall (fun p => 0 < v_count p.2) (bpf_contents m) ->
  let mine := filter (fun p => of_pid pid p = true) (bpf_contents m) in
  (256 < length mine)%nat ->
  exists m1 m2 out2, flush_pid_from_agg_map (S (length (bpf_contents m))) m pid = Some (m1, mine) /\
    flush_agg_map (S (length (bpf_contents m1))) m1 = Some (m2, out2) /\
    drop 256 mine <> [] /\ forall p, p ∈ drop 256 mine -> p ∈ mine /\ p ∈ out2.
Proof.
  intros Hz Hpos mine Hl.
  destruct (flush_pid_all m pid (S (length (bpf_contents m))) Hz Hpos) as (m1 & E1 & Hm1); [lia|].
  assert (forall p, p ∈ bpf_contents m1 -> p ∈ bpf_contents m) as Hsub.
  { intros p Hp. rewrite Hm1 in Hp. by apply list_elem_of_filter in Hp as [_ ?]. }
  destruct (flush_loop_all _ m1 zero_key (S (length (bpf_contents m1))) eq_refl) as (m2 & E2 & _).
  - intros Hin. apply Hz. apply list_elem_of_fmap in Hin as (p & -> & Hp). by apply list_elem_of_fmap_2, Hsub.
  - apply Forall_forall. intros p Hp. by eapply (proj1 (Forall_forall _ _) Hpos), Hsub.
  - lia.
  - exists m1, m2, (bpf_contents m1). split; [exact E1|]. split; [exact E2|]. split.
    + intros E. apply (f_equal length) in E. rewrite length_drop in E. fold mine in E. cbn in E. lia.
    + intros p Hp. split; [|by eapply flush_pid_leftover].
      rewrite <- (take_drop 256 mine). apply elem_of_app. by right.
Qed.

(** 257 entries of process 7. *)
Definition many_entries : list (agg_key * agg_value) :=
  map (fun i => (AggKey 7 30 [Z.of_nat i; 0], AggValue 1 0 5 5 [0] [0])) (seq 0 257).

Definition many_map : bounded agg_key agg_value :=
  foldr (fun p m => bpf_map_set m p.1 p.2) (bd_empty 300) many_entries.

Lemma flush_pid_over_256_repeats_witness :
  exists m1 m2 out2 p, flush_pid_from_agg_map 258 many_map 7 = Some (m1, many_entries) /\
    flush_agg_map (S (length (bpf_contents m1))) m1 = Some (m2, out2) /\ p ∈ many_entries /\ p ∈ out2.
Proof.
  assert (bpf_contents many_map = many_entries) as Hc by (vm_compute; reflexivity).
  assert (filter (fun p => of_pid 7 p = true) many_entries = many_entries) as Hm by (vm_compute; reflexivity).
  destruct (flush_pid_over_256_repeats many_map 7) as (m1 & m2 & out2 & E1 & E2 & Hne & Hp).
  - rewrite Hc. intros Hin. apply list_elem_of_In, in_map_iff in Hin as (p & Hp & Hin).
    apply in_map_iff in Hin as (i & <- & _). discriminate Hp.
  - rewrite Hc. apply Forall_forall. intros p Hin. apply list_elem_of_In, in_map_iff in Hin as (i & <- & _). done.
  - rewrite Hc, Hm. vm_compute. lia.
  - rewrite Hc, Hm in E1, Hne, Hp. change (S (length many_entries)) with 258%nat in E1.
    destruct (drop 256 many_entries) as [|p l]; [destruct (Hne eq_refl)|].
    exists m1, m2, out2, p. split; [exact E1|]. split; [exact E2|]. apply Hp. left.
Defined.
