(* ===== verification/ProcUtils.v ===== *)
(** * Command lines and container metadata
    (src/bpf/process_utils.h, src/bpf/container_info.h)

    The command line of an exec event from the raw argument block, and the
    namespace PID and container id from the text of files under /proc, which
    are the environment's. *)

From S2P Require Import Prelude CLib Unicode.

(** ** Command lines *)

(** Both results are what the static buffer reads as, a C string. *)
Definition postprocess_full_command (buf : bytes) (buf_size arg_len : Z) : bytes :=
  if (arg_len =? 0) || (u32 (buf_size - 1) <? arg_len) then
    (* No arg_len info: just copy the first null-terminated string *)
    cstr (take (Z.to_nat (buf_size - 1)) buf ++ [0])
  else
    let cmd_buf := take (Z.to_nat arg_len) buf in
    (* Replace \0 separators between argv entries with spaces *)
    let n := Z.to_nat (arg_len - 1) in
    cstr (map (fun c => if c =? 0 then 32 else c) (take n cmd_buf) ++ drop n cmd_buf ++ [0]).

(** ** Namespace PID *)

Definition is_blank (c : Z) : bool := (c =? 9) || (c =? 32).

(** The inner loop of [get_ns_pid] at [p]: the last PID read and how many. *)
Fixpoint nspid_loop (fuel : nat) (p : bytes) (last_pid count : Z) : Z * Z :=
  match fuel, p with
  | O, _ | _, [] => (last_pid, count)
  | S f, _ =>
      let p := drop (length (take_while is_blank p)) p in
      match p with
      | c :: _ =>
          if is_digit c then
            let r := strtol10 p in nspid_loop f (drop (st_end r) p) (s32 (st_val r)) (count + 1)
          else (last_pid, count)
      | [] => (last_pid, count)
      end
  end.

(** The loop over the lines of /proc/PID/status. *)
Fixpoint nspid_lines (lines : list bytes) : Z :=
  match lines with
  | [] => -1
  | line :: rest =>
      if strneq line (lit "NSpid:") 6 then
        let p := drop 6 (cstr line) in
        let '(last_pid, count) := nspid_loop (length p) p (-1) 0 in
        if 2 <=? count then last_pid else -1
      else nspid_lines rest
  end.

(** [status] is the content of /proc/PID/status, None when it cannot be
    opened. *)
Definition get_ns_pid (status : Z -> option bytes) (host_pid : Z) : Z :=
  match status host_pid with
  | None => -1
  | Some f => nspid_lines (fgets_lines 256 f)
  end.

(** ** Container id *)

Definition is_hex (c : Z) : bool := ((48 <=? c) && (c <=? 57)) || ((97 <=? c) && (c <=? 102)).

(** The scan of one line from [p]. *)
Fixpoint hex_run_loop (fuel : nat) (p : bytes) : option bytes :=
  match fuel, p with
  | O, _ | _, [] => None
  | S f, _ :: p' =>
      let run := take_while is_hex p in
      let hex_len := length run in
      if (hex_len =? 64)%nat then Some run
      else if (hex_len =? 0)%nat then hex_run_loop f p'
      else hex_run_loop f (drop hex_len p)
  end.

Fixpoint container_lines (lines : list bytes) (out_len : Z) : option bytes :=
  match lines with
  | [] => None
  | line :: rest =>
      let p := cstr line in
      match hex_run_loop (length p) p with
      | Some start =>
          let copy_len := if out_len - 1 <? 12 then out_len - 1 else 12 in
          Some (take (Z.to_nat copy_len) start)
      | None => container_lines rest out_len
      end
  end.

(** The id written to [out], None for the return value -1. *)
Definition get_container_id (cgroup : Z -> option bytes) (host_pid out_len : Z) : option bytes :=
  f ← cgroup host_pid; container_lines (fgets_lines 512 f) out_len.

(** The files of /proc the tracers read. *)
Record procfs := Procfs { proc_status : Z -> option bytes; proc_cgroup : Z -> option bytes }.

Definition print_container_fields (env : procfs) (host_pid : Z) : bytes :=
  let ns_pid := get_ns_pid (proc_status env) host_pid in
  if 0 <? ns_pid then
    jlit ",'ns_pid':" ++ fmt_d ns_pid
    ++ match get_container_id (proc_cgroup env) host_pid 16 with
       | Some id => if bool_decide (id = []) then [] else jlit ",'container_id':'" ++ id ++ jlit "'"
       | None => []
       end
  else [].

Example ns_pid_ex :
  get_ns_pid (fun _ => Some (lit "Name: x" ++ [10] ++ lit "NSpid:" ++ [9] ++ lit "4242" ++ [9] ++ lit "7" ++ [10])) 4242 = 7.
Proof. vm_compute. reflexivity. Qed.

(** ** Lemmas: command lines *)

(** The argument block of the kernel: each argument and its NUL. *)
Definition argv_block (args : list bytes) : bytes := concat (map (fun a => a ++ [0]) args).

Fixpoint join_args (args : list bytes) : bytes :=
  match args with
  | [] => []
  | [a] => a
  | a :: rest => a ++ [32] ++ join_args rest
  end.

Definition nul_to_space (c : Z) : Z := if c =? 0 then 32 else c.

Lemma nul_to_space_id a : no_nul a -> map nul_to_space a = a.
Proof.
  induction 1 as [|c a Hc _ IH]; [done|]. cbn [map]. rewrite IH. unfold nul_to_space.
  by rewrite (proj2 (Z.eqb_neq c 0)).
Qed.

Lemma join_no_nul args : Forall no_nul args -> no_nul (join_args args).
Proof.
  induction 1 as [|a args Ha Hargs IH]; [constructor|]. destruct args as [|b args]; [done|].
  cbn [join_args]. apply no_nul_app; [done|]. constructor; [lia|done].
Qed.

(** The block up to its last byte, NULs replaced, is the arguments joined by
    spaces. *)
Lemma argv_block_join args :
  args <> [] -> Forall no_nul args ->
  exists b, argv_block args = b ++ [0] /\ map nul_to_space b = join_args args.
Proof.
  intros Hne Hargs. induction Hargs as [|a args Ha Hargs IH]; [done|]. destruct args as [|a' args].
  - exists a. cbn. rewrite app_nil_r. split; [done|by apply nul_to_space_id].
  - destruct IH as (b & Hb & Hj); [done|]. exists (a ++ [0] ++ b).
    change (argv_block (a :: a' :: args)) with ((a ++ [0]) ++ argv_block (a' :: args)).
    rewrite Hb, <- !app_assoc. split; [done|]. rewrite !map_app, nul_to_space_id by done. by rewrite Hj.
Qed.

(** ** Lemmas: namespace PID *)

(** A line of the kernel: the label and the PIDs, each after a tab. *)
Definition nspid_text (pids : list Z) : bytes := concat (map (fun p => 9 :: fmt_u p) pids).

Lemma nspid_loop_text pids r fuel last0 count :
  Forall (fun p => 0 <= p < 2 ^ 31) pids ->
  match r with [] => True | c :: _ => is_digit c = false /\ is_blank c = false end ->
  (length (nspid_text pids ++ r) <= fuel)%nat ->
  nspid_loop fuel (nspid_text pids ++ r) last0 count =
  (default last0 (last pids), count + Z.of_nat (length pids)).
Proof.
  intros Hp. revert fuel last0 count. induction Hp as [|p pids Hp0 Hp IH]; intros fuel last0 count Hr Hf.
  - cbn [nspid_text map concat app]. replace (count + Z.of_nat (length [])) with count by (simpl; lia).
    destruct fuel as [|f]; [destruct r; [done|simpl in Hf; lia]|]. destruct r as [|c r]; [done|]. destruct Hr as [Hd Hb].
    cbn [nspid_loop take_while]. rewrite Hb. cbn [length drop]. by rewrite Hd.
  - destruct (fmt_u_spec p) as (Hd & Hl & Hv & _); [lia|].
    change (nspid_text (p :: pids)) with ((9 :: fmt_u p) ++ nspid_text pids) in *.
    rewrite <- app_assoc in *. cbn [app] in *. set (rest := nspid_text pids ++ r) in *.
    destruct fuel as [|f]; [simpl in Hf; lia|]. cbn [nspid_loop take_while].
    change (is_blank 9) with true. cbn match.
    destruct (fmt_u p) as [|d ds] eqn:E; [simpl in Hl; lia|]. cbn [app].
    assert (is_digit d = true) as Hd0 by (by inversion Hd).
    assert (is_blank d = false) as Hb0.
    { apply is_digit_spec in Hd0. unfold is_blank. by decide_tests. }
    cbn [take_while]. rewrite Hb0. cbn [length drop]. rewrite Hd0.
    change (d :: ds ++ rest) with ((d :: ds) ++ rest).
    assert (match rest with [] => True | c :: _ => is_digit c = false end) as Hrest.
    { subst rest. destruct pids; [destruct r; [done|apply Hr]|done]. }
    rewrite strtol10_digits by (rewrite ?Hv; unfold LONG_MAX; done || lia). cbn [st_end st_val].
    rewrite drop_app_length, Hv. change (2 ^ 31) with (2 ^ (32 - 1)) in Hp0. rewrite (wraps_id 32) by lia.
    unfold rest. rewrite IH; [|done|].
    + cbn [length]. rewrite Nat2Z.inj_succ. rewrite last_cons. f_equal; [by destruct (last pids)|lia].
    + simpl in Hf. rewrite length_app in Hf. fold rest. lia.
Qed.

(** The line of /proc/PID/status. *)
Definition nspid_line (pids : list Z) : bytes := lit "NSpid:" ++ nspid_text pids.

Lemma nspid_text_no_nul pids : Forall (fun p => 0 <= p < 2 ^ 31) pids -> no_nul (nspid_text pids).
Proof.
  induction 1 as [|p pids Hp _ IH]; [constructor|]. change (nspid_text (p :: pids)) with ((9 :: fmt_u p) ++ nspid_text pids).
  apply no_nul_app; [|done]. constructor; [lia|]. apply fmt_u_no_nul. lia.
Qed.

Lemma nspid_text_no_newline pids : Forall (fun p => 0 <= p < 2 ^ 31) pids -> 10 ∉ nspid_text pids.
Proof.
  induction 1 as [|p pids Hp _ IH]; [apply not_elem_of_nil|].
  change (nspid_text (p :: pids)) with ((9 :: fmt_u p) ++ nspid_text pids). rewrite not_elem_of_app, not_elem_of_cons.
  split_and!; [lia| |done]. intros Hin. destruct (fmt_u_spec p) as [Hd _]; [lia|].
  apply (proj1 (Forall_forall _ _) Hd) in Hin. apply is_digit_spec in Hin. lia.
Qed.

(** The lines before it. *)
Definition status_line (l : bytes) : Prop :=
  (10 ∉ l) /\ no_nul l /\ (length l < 255)%nat /\ strneq (l ++ [10]) (lit "NSpid:") 6 = false.

Lemma status_skip lines rest :
  Forall status_line lines ->
  nspid_lines (fgets_lines 256 (concat (map (fun l => l ++ [10]) lines) ++ rest)) = nspid_lines (fgets_lines 256 rest).
Proof.
  induction 1 as [|l lines (Hn & _ & Hl & Hs) _ IH]; [done|]. cbn [map concat]. rewrite <- !app_assoc. cbn [app].
  rewrite fgets_lines_line by (done || lia). cbn [nspid_lines]. by rewrite Hs.
Qed.

(** ** Lemmas: container fields *)

Lemma hex_run_loop_hex fuel p run :
  hex_run_loop fuel p = Some run -> length run = 64%nat /\ Forall (fun c => is_hex c = true) run.
Proof.
  revert p. induction fuel as [|f IH]; intros p; destruct p as [|c p]; try done. cbn [hex_run_loop].
  destruct (Nat.eqb_spec (length (take_while is_hex (c :: p))) 64) as [E|E].
  - intros Hr. injection Hr as Hr. rewrite <- Hr. split; [done|apply (take_while_all is_hex (c :: p))].
  - destruct (_ =? 0)%nat; apply IH.
Qed.

Lemma container_id_hex env pid id :
  get_container_id env pid 16 = Some id -> length id = 12%nat /\ Forall (fun c => is_hex c = true) id.
Proof.
  unfold get_container_id. destruct (env pid) as [f|]; [|done]. cbn [mbind option_bind].
  induction (fgets_lines 512 f) as [|line lines IH]; cbn [container_lines]; [done|].
  destruct (hex_run_loop _ _) as [run|] eqn:E; [|done]. change (16 - 1 <? 12) with false.
  change (Z.to_nat 12) with 12%nat. intros [= <-]. apply hex_run_loop_hex in E as [Hl Hh].
  split; [rewrite length_take; lia|]. by apply Forall_take.
Qed.

Lemma hex_body s : Forall (fun c => is_hex c = true) s -> json_body s = Some s.
Proof.
  induction 1 as [|c s Hc _ IH]; [done|]. apply (json_body_app [c] s [c] s); [|done].
  assert (32 <= c < 128 /\ c <> 34 /\ c <> 92) as (H1 & H2 & H3).
  { unfold is_hex in Hc. apply orb_true_iff in Hc as [Hc|Hc]; bool_to_prop; lia. }
  unfold json_body. cbn [length json_body_fuel]. decide_tests. cbn [orb]. rewrite utf8_next_ascii by lia. reflexivity.
Qed.

(** What [print_container_fields] appends to a line. *)
Lemma container_fields_members env pid :
  exists ms, print_container_fields env pid = members_tail ms /\ members_ok ms.
Proof.
  unfold print_container_fields. generalize (get_ns_pid (proc_status env) pid). intros n.
  destruct (0 <? n); [|exists []; split; [done|apply members_ok_nil]].
  assert (members_ok [(lit "ns_pid", fmt_d n)]) as Hn.
  { jmember; [apply fmt_d_value|apply members_ok_nil]. }
  destruct (get_container_id _ _ _) as [id|] eqn:E; [case_bool_decide|].
  - exists [(lit "ns_pid", fmt_d n)]. split; [|done]. reflexivity.
  - apply container_id_hex in E as [_ Hid].
    exists [(lit "ns_pid", fmt_d n); (lit "container_id", quoted id)]. split.
    + unfold members_tail, quoted. cbn [map concat fst snd app]. repeat (rewrite <- ?app_assoc; cbn [app]). done.
    + jmember; [apply fmt_d_value|]. jmember; [by apply vt_str, hex_body|apply members_ok_nil].
  - exists [(lit "ns_pid", fmt_d n)]. split; [|done]. reflexivity.
Qed.

(** ** Properties *)

(** The command line of an exec event: when the argument block (each
    argument and its NUL) fits the 255 bytes the probe reads, the result is the
    arguments joined by single spaces, whatever environment bytes follow the
    block in the buffer. *)
Theorem full_command_joins_argv args rest :
  args <> [] -> Forall no_nul args -> (length (argv_block args) <= 255)%nat ->
  postprocess_full_command (argv_block args ++ rest) 256 (Z.of_nat (length (argv_block args))) = join_args args.
Proof.
  intros Hne Hargs Hl. destruct (argv_block_join args Hne Hargs) as (b & Hb & Hj). rewrite Hb in *.
  rewrite length_app in *. simpl in Hl. unfold postprocess_full_command. cbn [length].
  rewrite (proj2 (Z.eqb_neq _ 0)), (proj2 (Z.ltb_ge _ _)) by (change (u32 (256 - 1)) with 255; lia). cbn [orb].
  rewrite Nat2Z.id. rewrite (take_app_le (b ++ [0]) rest) by (rewrite length_app; simpl; lia).
  rewrite (firstn_all2 (b ++ [0])) by (rewrite length_app; simpl; lia).
  replace (Z.to_nat (Z.of_nat (length b + 1) - 1)) with (length b) by lia.
  rewrite take_app_length, drop_app_length. fold nul_to_space. rewrite Hj.
  apply (cstr_app (join_args args) [0]). by apply join_no_nul.
Qed.

Lemma full_command_joins_argv_witness :
  postprocess_full_command (lit "chmod" ++ [0] ++ lit "+x" ++ [0] ++ lit "/f" ++ [0] ++ lit "HOME=/root") 256 12
  = lit "chmod +x /f".
Proof.
  apply (full_command_joins_argv [lit "chmod"; lit "+x"; lit "/f"] (lit "HOME=/root")).
  - discriminate.
  - repeat constructor; discriminate.
  - vm_compute. lia.
Defined.

(** The namespace PID: from a status file whose NSpid line lists the PIDs
    of a process from the outermost to the innermost namespace, [get_ns_pid]
    returns the innermost one, and -1 when there is only the host's. *)
Theorem ns_pid_innermost status host_pid lines pids rest :
  status host_pid = Some (concat (map (fun l => l ++ [10]) lines) ++ nspid_line pids ++ 10 :: rest) ->
  Forall status_line lines -> Forall (fun p => 0 <= p < 2 ^ 31) pids -> (length (nspid_line pids) < 255)%nat ->
  get_ns_pid status host_pid = if (2 <=? length pids)%nat then default (-1) (last pids) else -1.
Proof.
  intros Hst Hlines Hp Hl. unfold get_ns_pid. rewrite Hst, status_skip by done.
  assert (10 ∉ nspid_line pids) as Hn.
  { unfold nspid_line. rewrite not_elem_of_app. split; [|by apply nspid_text_no_newline].
    intros Hin. apply list_elem_of_In in Hin. vm_compute in Hin. intuition discriminate. }
  rewrite fgets_lines_line by (done || lia). cbn [nspid_lines].
  assert (no_nul (nspid_line pids ++ [10])) as Hnn.
  { repeat apply no_nul_app; [by apply no_nul_test|by apply nspid_text_no_nul|by apply no_nul_test]. }
  assert (strneq (nspid_line pids ++ [10]) (lit "NSpid:") 6 = true) as ->.
  { unfold strneq. rewrite cstr_id by done. by apply bool_decide_eq_true. }
  rewrite cstr_id by done. change (drop 6 (nspid_line pids ++ [10])) with (nspid_text pids ++ [10]).
  rewrite nspid_loop_text by (done || lia). rewrite Z.add_0_l.
  destruct (Nat.leb_spec 2 (length pids)); [rewrite (proj2 (Z.leb_le _ _)) by lia; done
    |rewrite (proj2 (Z.leb_gt _ _)) by lia; done].
Qed.

Lemma ns_pid_innermost_witness :
  get_ns_pid (fun _ => Some (lit "Name:" ++ [9] ++ lit "node" ++ [10] ++ nspid_line [4242; 31; 7] ++ [10])) 4242 = 7.
Proof.
  apply (ns_pid_innermost (fun _ => Some (lit "Name:" ++ [9] ++ lit "node" ++ [10] ++ nspid_line [4242; 31; 7] ++ [10]))
    4242 [lit "Name:" ++ [9] ++ lit "node"] [4242; 31; 7] []).
  - reflexivity.
  - constructor; [|constructor]. split.
    { intros Hin. apply list_elem_of_In in Hin. vm_compute in Hin. intuition discriminate. }
    split; [by apply no_nul_test|]. split; [vm_compute; lia|reflexivity].
  - repeat constructor; lia.
  - vm_compute. lia.
Defined.
