(* ===== verification/FileAgg.v ===== *)
(** * FILE_OPEN rate limiting and deduplication (src/bpf/process.c)

    The per-process limiter of file events per second, the table that folds
    repeated opens of a file, and the FILE_OPEN line. *)

From S2P Require Import Prelude CLib Unicode Jsonl BpfFormat ProcessBpf ProcUtils MapFlush.

(** ** Data *)

Definition FILE_DEDUP_WINDOW_NS : Z := 60000000000.
Definition MAX_FILE_HASHES : nat := 1024.
Definition MAX_PID_LIMITS : nat := 256.
Definition MAX_DISTINCT_FILES_PER_SEC : Z := 30.

Record per_second_limit := PerSecondLimit {
  pl_pid : Z;
  current_second : Z;
  distinct_file_count : Z;
  should_warn_next : bool;
}.

Record file_hash_entry := FileHashEntry {
  fh_hash : Z;
  fh_timestamp_ns : Z;
  fh_count : Z;
  fh_pid : Z;
  fh_comm : bytes;
  fh_filepath : bytes;
  fh_flags : Z;
}.

(** The used parts of the two tables: [hash_count] and [pid_limit_count] are
    their lengths. *)
Record file_state := FileState {
  file_hashes : list file_hash_entry;
  pid_limits : list per_second_limit;
}.

(** ** The limiter *)

Definition find_limit (limits : list per_second_limit) (pid : Z) : option nat :=
  fst <$> list_find (fun l => pl_pid l = pid) limits.

(** The entry of a process, created when there is room. *)
Definition get_limit (limits : list per_second_limit) (pid current : Z) : list per_second_limit * option nat :=
  match find_limit limits pid with
  | Some i => (limits, Some i)
  | None =>
      if (length limits <? MAX_PID_LIMITS)%nat
      then (limits ++ [PerSecondLimit pid current 0 false], Some (length limits))
      else (limits, None)
  end.

(** The entry after an event in the second [current]: whether a warning is due
    and whether the event is dropped. *)
Definition limit_step (l : per_second_limit) (current : Z) : per_second_limit * bool * bool :=
  let new_second := negb (current_second l =? current) in
  let add_warning := new_second && should_warn_next l in
  let warn := if add_warning then false else should_warn_next l in
  let count := u32 ((if new_second then 0 else distinct_file_count l) + 1) in
  let over := MAX_DISTINCT_FILES_PER_SEC <? count in
  (PerSecondLimit (pl_pid l) current count (if over then true else warn), over, add_warning).

(** The limits, whether to drop the event, and [*add_warning]. *)
Definition should_rate_limit_file (limits : list per_second_limit) (pid timestamp_ns : Z)
    : list per_second_limit * bool * bool :=
  let current := timestamp_ns / 1000000000 in
  let '(limits, oi) := get_limit limits pid current in
  match oi with
  | None => (limits, false, false)
  | Some i =>
      match limits !! i with
      | None => (limits, false, false)
      | Some l => let '(l', drop, warn) := limit_step l current in (<[i := l']> limits, drop, warn)
      end
  end.

(** ** The line *)

(** [extra] is empty for NULL. *)
Definition print_file_open_event (env : procfs) (comm : bytes) (pid : Z) (filepath : bytes) (flags : Z)
    (timestamp_ns count : Z) (extra : bytes) : option bytes :=
  comm_esc ← json_escaped comm (TASK_COMM_LEN * 2 + 1);
  filepath_esc ← json_escaped filepath (MAX_FILENAME_LEN * 2 + 1);
  Some (lit "{" ++ jlit "'timestamp':" ++ fmt_u timestamp_ns ++ jlit ",'event':'FILE_OPEN','comm':'" ++ comm_esc
    ++ jlit "','pid':" ++ fmt_d pid ++ jlit ",'count':" ++ fmt_u count ++ jlit ",'filepath':'" ++ filepath_esc
    ++ jlit "','flags':" ++ fmt_d flags
    ++ (if bool_decide (extra = []) then [] else lit "," ++ extra)
    ++ print_container_fields env pid ++ lit "}" ++ [10]).

(** The line of a folded entry, through the event built for it. *)
Definition print_folded (env : procfs) (e : file_hash_entry) (timestamp_ns : Z) (extra : bytes) : option bytes :=
  print_file_open_event env (strncpy_term (fh_comm e) TASK_COMM_LEN) (fh_pid e)
    (strncpy_term (fh_filepath e) MAX_FILENAME_LEN) (fh_flags e) timestamp_ns (fh_count e) extra.

(** ** The table *)

(** The DJB2 hash of the process and the path.  [char] is signed. *)
Definition hash_file_open (pid : Z) (filepath : bytes) : Z :=
  let step h x := u64 (u64 (Z.shiftl h 5 + h) + x) in
  foldl (fun h c => step h (s8 c)) (step 5381 pid) (cstr filepath).

(** [t[i] = t[n - 1]; n--] *)
Definition swap_remove {A} (t : list A) (i : nat) : list A :=
  match last t with
  | Some x => take (length t - 1) (<[i := x]> t)
  | None => t
  end.

(** The loop that removes the entries [gone] selects, from index [i]; the
    removed entries are returned in order.  Each iteration moves on or shortens
    the table, so the length of the table is enough fuel. *)
Fixpoint sweep_loop (fuel : nat) (gone : file_hash_entry -> bool) (t : list file_hash_entry) (i : nat)
    : list file_hash_entry * list file_hash_entry :=
  match fuel with
  | O => (t, [])
  | S f =>
      match t !! i with
      | None => (t, [])
      | Some e =>
          if gone e then
            let '(t', out) := sweep_loop f gone (swap_remove t i) i in (t', e :: out)
          else sweep_loop f gone t (S i)
      end
  end.

Definition sweep (gone : file_hash_entry -> bool) (t : list file_hash_entry) :=
  sweep_loop (length t) gone t 0.

Definition expired (timestamp_ns : Z) (e : file_hash_entry) : bool :=
  FILE_DEDUP_WINDOW_NS <? u64 (timestamp_ns - fh_timestamp_ns e).

(** The text of several lines. *)
Definition print_lines {A} (p : A -> option bytes) (l : list A) : option bytes :=
  lines ← mapM p l; Some (concat lines).

Definition find_hash (t : list file_hash_entry) (hash : Z) : option nat :=
  fst <$> list_find (fun e => fh_hash e = hash) t.

(** [get_file_open_count] after the rate limit: the table, what is printed and
    the count returned. *)
Definition dedup_file_open (env : procfs) (verbose : bool) (t : list file_hash_entry)
    (pid : Z) (comm filepath : bytes) (flags timestamp_ns : Z) : option (list file_hash_entry * bytes * Z) :=
  let hash := hash_file_open pid filepath in
  let '(t, gone) := sweep (expired timestamp_ns) t in
  out ← print_lines (fun e => print_folded env e timestamp_ns (jlit "'window_expired':true"))
          (List.filter (fun e => 1 <? fh_count e) gone);
  match find_hash t hash with
  | Some i =>
      match t !! i with
      | None => None
      | Some e =>
          Some (<[i := FileHashEntry (fh_hash e) timestamp_ns (u32 (fh_count e + 1)) (fh_pid e) (fh_comm e)
                         (fh_filepath e) (fh_flags e)]> t, out, 0)
      end
  | None =>
      if (length t <? MAX_FILE_HASHES)%nat then
        Some (t ++ [FileHashEntry hash timestamp_ns 1 pid (strncpy_term comm TASK_COMM_LEN)
                      (strncpy_term filepath MAX_FILENAME_LEN) flags], out, 1)
      else if verbose then
        line ← print_file_open_event env comm pid filepath flags timestamp_ns 1 [];
        Some (t, out ++ line, 1)
      else Some (t, out, 1)
  end.

Definition rate_limit_warning : bytes :=
  jlit "'rate_limit_warning':'Previous second exceeded " ++ fmt_d MAX_DISTINCT_FILES_PER_SEC ++ jlit " file limit'".

(** The state, what is printed, the warning message and the count, for a file
    operation that is an open. *)
Definition get_file_open_count (env : procfs) (verbose : bool) (s : file_state)
    (pid : Z) (comm filepath : bytes) (flags timestamp_ns : Z) : option (file_state * bytes * bytes * Z) :=
  let '(limits, drop, add_warning) := should_rate_limit_file (pid_limits s) pid timestamp_ns in
  if drop : bool then Some (FileState (file_hashes s) limits, [], [], 0)
  else
    let warning := if add_warning : bool then snprintf_s 128 rate_limit_warning else [] in
    '(t, out, count) ← dedup_file_open env verbose (file_hashes s) pid comm filepath flags timestamp_ns;
    Some (FileState t limits, out, warning, count).

(** [flush_pid_file_opens]: the folded entries of a process are printed, all
    its entries removed. *)
Definition flush_pid_file_opens (env : procfs) (t : list file_hash_entry) (pid timestamp_ns : Z)
    : option (list file_hash_entry * bytes) :=
  out ← print_lines (fun e => print_folded env e timestamp_ns (jlit "'reason':'process_exit'"))
          (List.filter (fun e => (fh_pid e =? pid) && (1 <? fh_count e)) t);
  Some (fst (sweep (fun e => fh_pid e =? pid) t), out).

Example hash_collision : hash_file_open 1 (lit "b") = hash_file_open 2 (lit "A").
Proof. vm_compute. reflexivity. Qed.

(** ** Lemmas: sweeping *)

Lemma swap_remove_split {A} (l1 l2 : list A) x :
  swap_remove (l1 ++ x :: l2) (length l1) =
  l1 ++ match last l2 with Some y => y :: take (length l2 - 1) l2 | None => [] end.
Proof.
  unfold swap_remove. rewrite last_app_cons, last_cons.
  destruct (last l2) as [y|] eqn:E.
  - rewrite insert_app_r_alt, Nat.sub_diag by lia. cbn [insert list_insert].
    rewrite length_app. cbn [length]. rewrite take_app_ge by lia.
    replace (length l1 + S (length l2) - 1 - length l1)%nat with (length l2) by lia.
    assert (l2 <> []) as Hne by (by intros ->). destruct l2 as [|z l2]; [done|]. cbn [length take].
    by rewrite Nat.sub_succ, Nat.sub_0_r.
  - apply last_None in E as ->. rewrite insert_app_r_alt, Nat.sub_diag by lia. cbn [insert list_insert].
    rewrite length_app. cbn [length]. replace (length l1 + 1 - 1)%nat with (length l1) by lia.
    by rewrite take_app_length, app_nil_r.
Qed.

(** The moved entry and the rest are the entries behind the removed one. *)
Lemma swap_rest {A} (l : list A) :
  match last l with Some y => y :: take (length l - 1) l | None => [] end ≡ₚ l.
Proof.
  destruct (last l) as [y|] eqn:E; [|by apply last_None in E as ->].
  apply last_Some in E as [l' ->]. rewrite length_app. cbn [length].
  replace (length l' + 1 - 1)%nat with (length l') by lia. rewrite take_app_length.
  by rewrite Permutation_cons_append.
Qed.

(** From an index where the entries before are kept, the sweep keeps the
    others in some order and returns the removed ones. *)
Lemma sweep_loop_spec gone l1 l2 fuel :
  (length l2 <= fuel)%nat ->
  exists k, sweep_loop fuel gone (l1 ++ l2) (length l1) = (l1 ++ k, snd (sweep_loop fuel gone (l1 ++ l2) (length l1))) /\
    k ≡ₚ List.filter (fun e => negb (gone e)) l2 /\
    snd (sweep_loop fuel gone (l1 ++ l2) (length l1)) ≡ₚ List.filter gone l2.
Proof.
  revert l1 l2. induction fuel as [|f IH]; intros l1 l2 Hf.
  - destruct l2; [|simpl in Hf; lia]. exists []. cbn. by rewrite app_nil_r.
  - destruct l2 as [|e l2]; cbn [sweep_loop].
    + rewrite lookup_ge_None_2 by (rewrite length_app; simpl; lia). exists []. cbn. by rewrite app_nil_r.
    + rewrite list_lookup_middle by done. cbn [List.filter]. simpl in Hf. destruct (gone e) eqn:Eg; cbn [negb].
      * rewrite swap_remove_split. pose proof (swap_rest l2) as Hp.
        set (l2' := match last l2 with Some y => y :: take (length l2 - 1) l2 | None => [] end) in *.
        destruct (IH l1 l2') as (k & E & Hk & Ho); [rewrite Hp; lia|].
        rewrite E. cbn [snd]. exists k. split; [done|]. split.
        -- rewrite Hk. by apply filter_perm.
        -- rewrite Ho. constructor. by apply filter_perm.
      * replace (l1 ++ e :: l2) with ((l1 ++ [e]) ++ l2) by (by rewrite <- app_assoc).
        destruct (IH (l1 ++ [e]) l2) as (k & E & Hk & Ho); [lia|].
        rewrite length_app in E, Ho. cbn [length] in E, Ho. rewrite Nat.add_1_r in E, Ho.
        exists (e :: k). rewrite E. cbn [snd]. rewrite <- app_assoc. cbn [app].
        split; [done|]. split; [by constructor|exact Ho].
Qed.

Lemma sweep_spec gone t :
  fst (sweep gone t) ≡ₚ List.filter (fun e => negb (gone e)) t /\ snd (sweep gone t) ≡ₚ List.filter gone t.
Proof.
  destruct (sweep_loop_spec gone [] t (length t)) as (k & E & Hk & Ho); [lia|].
  cbn [app length] in E, Ho. unfold sweep. rewrite E. cbn [fst snd]. done.
Qed.

(** ** Lemmas: the limiter *)

(** The entry the limiter uses for a process. *)
Definition limit_of (limits : list per_second_limit) (pid : Z) : option per_second_limit :=
  snd <$> list_find (fun l => pl_pid l = pid) limits.

Lemma limit_of_cons l limits pid :
  limit_of (l :: limits) pid = if decide (pl_pid l = pid) then Some l else limit_of limits pid.
Proof.
  unfold limit_of. cbn [list_find]. destruct (decide _); [done|].
  by destruct (list_find _ limits) as [[i x]|].
Qed.

Lemma find_limit_cons l limits pid :
  find_limit (l :: limits) pid = if decide (pl_pid l = pid) then Some 0%nat else S <$> find_limit limits pid.
Proof.
  unfold find_limit. cbn [list_find]. destruct (decide _); [done|].
  by destruct (list_find _ limits) as [[i x]|].
Qed.

(** The limiter finds the entry, or makes one at the end. *)
Lemma find_limit_Some limits pid i :
  find_limit limits pid = Some i -> exists l, limits !! i = Some l /\ pl_pid l = pid /\ limit_of limits pid = Some l.
Proof.
  unfold find_limit, limit_of. destruct (list_find _ limits) as [[j l]|] eqn:E; [|done]. intros [= <-].
  apply list_find_Some in E as (Hj & Hp & _). by exists l.
Qed.

Lemma find_limit_None limits pid : find_limit limits pid = None <-> limit_of limits pid = None.
Proof. unfold find_limit, limit_of. by destruct (list_find _ limits). Qed.

Lemma limit_of_insert limits pid i l l' pid' :
  find_limit limits pid = Some i -> limits !! i = Some l -> pl_pid l' = pl_pid l ->
  limit_of (<[i := l']> limits) pid' = if decide (pid' = pid) then Some l' else limit_of limits pid'.
Proof.
  revert i. induction limits as [|x limits IH]; intros i Hf Hi Hp; [done|]. rewrite find_limit_cons in Hf.
  destruct (decide (pl_pid x = pid)) as [Hx|Hx].
  - injection Hf as <-. injection Hi as ->. cbn [insert list_insert]. rewrite !limit_of_cons, Hp, Hx.
    destruct (decide (pid = pid')) as [->|Hne]; [by rewrite decide_True|by rewrite decide_False by (by apply not_eq_sym)].
  - destruct (find_limit limits pid) as [j|]; [|done]. injection Hf as <-.
    change (<[S j := l']> (x :: limits)) with (x :: <[j := l']> limits).
    rewrite !limit_of_cons. rewrite (IH j) by done. destruct (decide (pl_pid x = pid')) as [<-|]; [|done].
    by rewrite decide_False.
Qed.

Lemma limit_of_app limits l pid :
  limit_of (limits ++ [l]) pid = match limit_of limits pid with
                                 | Some x => Some x
                                 | None => if decide (pl_pid l = pid) then Some l else None end.
Proof.
  induction limits as [|x limits IH]; cbn [app]; rewrite limit_of_cons; [done|].
  rewrite limit_of_cons. destruct (decide (pl_pid x = pid)); [done|exact IH].
Qed.

Lemma find_limit_app limits l :
  find_limit limits (pl_pid l) = None -> find_limit (limits ++ [l]) (pl_pid l) = Some (length limits).
Proof.
  induction limits as [|x limits IH]; cbn [app]; rewrite !find_limit_cons.
  - intros _. by rewrite decide_True.
  - destruct (decide _); [done|]. intros Hn. destruct (find_limit limits (pl_pid l)); [done|]. by rewrite IH.
Qed.

(** The entry an event of [pid] meets. *)
Definition limit_before (limits : list per_second_limit) (pid current : Z) : per_second_limit :=
  default (PerSecondLimit pid current 0 false) (limit_of limits pid).

(** One event: with an entry or room for one, the entry of its process takes a
    step and the other processes' entries stay. *)
Lemma rate_limit_event limits pid ts :
  is_Some (limit_of limits pid) \/ (length limits < MAX_PID_LIMITS)%nat ->
  let current := ts / 1000000000 in
  let '(l', dropped, warn) := limit_step (limit_before limits pid current) current in
  exists limits', should_rate_limit_file limits pid ts = (limits', dropped, warn) /\
    (length limits' <= S (length limits))%nat /\
    forall pid', limit_of limits' pid' = if decide (pid' = pid) then Some l' else limit_of limits pid'.
Proof.
  intros Hroom current. destruct (limit_step _ _) as [[l' dropped] warn] eqn:Es.
  unfold should_rate_limit_file. fold current. unfold get_limit, limit_before in *.
  assert (forall l, pl_pid (fst (fst (limit_step l current))) = pl_pid l) as Hpid by done.
  destruct (find_limit limits pid) as [i|] eqn:Ef.
  - destruct (find_limit_Some _ _ _ Ef) as (l & Hl & Hp & Hlo). rewrite Hlo in Es. cbn [default] in Es.
    rewrite Hl. unfold default, id in Es. rewrite Es. exists (<[i := l']> limits). split; [done|].
    split; [rewrite length_insert; lia|]. intros pid'. apply (limit_of_insert _ _ _ l); [done|done|].
    specialize (Hpid l). by rewrite Es in Hpid.
  - pose proof (proj1 (find_limit_None _ _) Ef) as Hn. rewrite Hn in Es.
    destruct Hroom as [[x Hx]|Hroom]; [congruence|]. rewrite (proj2 (Nat.ltb_lt _ _)) by done.
    rewrite lookup_app_r, Nat.sub_diag by lia. cbn [lookup list_lookup]. unfold default in Es. rewrite Es.
    set (l0 := PerSecondLimit pid current 0 false) in *. specialize (Hpid l0). rewrite Es in Hpid. cbn [fst] in Hpid.
    exists (<[length limits := l']> (limits ++ [l0])). split; [done|].
    split; [rewrite length_insert, length_app; simpl; lia|]. intros pid'.
    rewrite (limit_of_insert (limits ++ [l0]) pid (length limits) l0).
    + destruct (decide (pid' = pid)) as [->|Hne]; [done|]. rewrite limit_of_app.
      destruct (limit_of limits pid'); [done|]. by rewrite decide_False by (by apply not_eq_sym).
    + by apply (find_limit_app limits l0).
    + by rewrite list_lookup_middle.
    + exact Hpid.
Qed.

(** A run of the limiter: for each event its process and whether it passes. *)
Fixpoint limit_run (limits : list per_second_limit) (evs : list (Z * Z)) : list (Z * bool) :=
  match evs with
  | [] => []
  | (pid, ts) :: evs' =>
      let '(limits', dropped, _) := should_rate_limit_file limits pid ts in
      (pid, negb dropped) :: limit_run limits' evs'
  end.

Definition passed (pid : Z) (r : list (Z * bool)) : nat :=
  length (List.filter (fun x => (x.1 =? pid) && x.2) r).

Definition events_of (pid : Z) (evs : list (Z * Z)) : nat := length (List.filter (fun x => x.1 =? pid) evs).

(** The entry of [pid] after [k] of its events in the second [sec]. *)
Definition after_events (limits : list per_second_limit) (pid sec : Z) (k : nat) : Prop :=
  match limit_of limits pid with
  | None => k = O
  | Some l => if k is O then current_second l <> sec else current_second l = sec /\ distinct_file_count l = Z.of_nat k
  end.

Lemma limit_step_count l sec k :
  (if k is O then current_second l <> sec \/ (current_second l = sec /\ distinct_file_count l = 0)
   else current_second l = sec /\ distinct_file_count l = Z.of_nat k) ->
  Z.of_nat k < 2 ^ 31 ->
  let '(l', dropped, _) := limit_step l sec in
  current_second l' = sec /\ distinct_file_count l' = Z.of_nat (S k) /\ dropped = (30 <=? Z.of_nat k).
Proof.
  intros Hl Hk. unfold limit_step. cbn [current_second distinct_file_count].
  assert ((if negb (current_second l =? sec) then 0 else distinct_file_count l) = Z.of_nat k) as ->.
  { destruct k as [|k].
    - destruct Hl as [Hl|[-> ->]]; [by rewrite (proj2 (Z.eqb_neq _ _)) by done|by rewrite Z.eqb_refl].
    - destruct Hl as [-> ->]. by rewrite Z.eqb_refl. }
  rewrite (wrapu_id 32) by lia. split; [done|]. split; [lia|]. unfold MAX_DISTINCT_FILES_PER_SEC.
  destruct (Z.ltb_spec 30 (Z.of_nat k + 1)), (Z.leb_spec 30 (Z.of_nat k)); (done || lia).
Qed.

Lemma limit_run_passed evs limits pid sec k :
  Forall (fun e => e.2 / 1000000000 = sec) evs ->
  (length limits + length evs <= MAX_PID_LIMITS)%nat -> after_events limits pid sec k ->
  Z.of_nat k + Z.of_nat (length evs) < 2 ^ 30 ->
  (passed pid (limit_run limits evs) + Nat.min 30 k = Nat.min 30 (k + events_of pid evs))%nat.
Proof.
  revert limits k. induction evs as [|[p ts] evs IH]; intros limits k Hsec Hlen Hafter Hk.
  - unfold passed, events_of. cbn [limit_run List.filter length]. lia.
  - apply Forall_cons in Hsec as [Hts Hsec]. cbn [snd] in Hts. cbn [length] in Hlen. cbn [limit_run].
    pose proof (rate_limit_event limits p ts) as He. cbv zeta in He. rewrite Hts in He.
    destruct (limit_step (limit_before limits p sec) sec) as [[l' dropped] warn] eqn:Es.
    destruct He as (limits' & -> & Hl' & Hof); [right; unfold MAX_PID_LIMITS in *; lia|].
    unfold passed, events_of in *. cbn [List.filter fst snd].
    destruct (Z.eqb_spec p pid) as [->|Hne]; cbn [andb].
    + assert (if k is O then current_second (limit_before limits pid sec) <> sec \/
                (current_second (limit_before limits pid sec) = sec /\ distinct_file_count (limit_before limits pid sec) = 0)
              else current_second (limit_before limits pid sec) = sec /\
                   distinct_file_count (limit_before limits pid sec) = Z.of_nat k) as Hb.
      { unfold after_events, limit_before in *. destruct (limit_of limits pid); cbn [default id];
          [destruct k; [by left|done]|subst k; by right]. }
      pose proof (limit_step_count _ _ _ Hb ltac:(lia)) as Hc. rewrite Es in Hc. destruct Hc as (Hc1 & Hc2 & ->).
      assert (after_events limits' pid sec (S k)) as Hafter'.
      { unfold after_events. rewrite Hof, decide_True by done. done. }
      cbn [length] in *. rewrite <- Nat.add_succ_comm.
      specialize (IH limits' (S k) Hsec ltac:(lia) Hafter' ltac:(lia)).
      destruct (Z.leb_spec 30 (Z.of_nat k)); cbn [negb length]; lia.
    + specialize (IH limits' k Hsec ltac:(lia)). cbn [length] in *. rewrite IH; [done| |lia].
      unfold after_events in *. rewrite Hof, decide_False by (by apply not_eq_sym). done.
Qed.

(** ** Properties *)



(** One FILE_OPEN against the deduplication table: exactly the entries
    older than 60 seconds go (their order aside, the others stay), then either
    a live entry with the same hash has its count and time bumped and the
    event is swallowed, or there is none and the event is reported, with a new
    entry unless the table holds 1024 live entries; the table never grows past
    1024. *)
Theorem dedup_table_step env verbose t pid comm filepath flags ts t' out count :
  dedup_file_open env verbose t pid comm filepath flags ts = Some (t', out, count) ->
  exists kept, kept ≡ₚ List.filter (fun e => negb (expired ts e)) t /\
  ((count = 0 /\ exists i e, kept !! i = Some e /\ fh_hash e = hash_file_open pid filepath /\
      t' = <[i := FileHashEntry (fh_hash e) ts (u32 (fh_count e + 1)) (fh_pid e) (fh_comm e) (fh_filepath e) (fh_flags e)]> kept) \/
   (count = 1 /\ Forall (fun e => fh_hash e <> hash_file_open pid filepath) kept /\
      (((length kept < 1024)%nat /\ exists e, t' = kept ++ [e] /\ fh_hash e = hash_file_open pid filepath /\
          fh_count e = 1 /\ fh_pid e = pid /\ fh_timestamp_ns e = ts) \/
       ((1024 <= length kept)%nat /\ t' = kept)))) /\
  ((length t <= 1024)%nat -> (length t' <= 1024)%nat).
Proof.
  unfold dedup_file_open. intros E. destruct (sweep_spec (expired ts) t) as [Hk _].
  assert (length (List.filter (fun e => negb (expired ts e)) t) <= length t)%nat as Hle
    by (clear; induction t as [|e t IH]; cbn [List.filter length]; [lia|]; case_match; cbn [length]; lia).
  destruct (sweep (expired ts) t) as [kept gone]. cbn [fst] in Hk.
  pose proof (Permutation_length Hk) as Hlen. exists kept. split; [done|].
  destruct (print_lines _ _) as [lines|]; [|done]. cbn [mbind option_bind] in E.
  destruct (find_hash kept _) as [i|] eqn:Ef; unfold find_hash in Ef.
  - destruct (list_find _ kept) as [[j e]|] eqn:El; [|done]. injection Ef as ->.
    apply list_find_Some in El as (Hi & He & _). rewrite Hi in E. injection E as <- <- <-.
    split; [|rewrite length_insert; lia]. left. split; [done|]. by exists i, e.
  - destruct (list_find _ kept) as [[j e]|] eqn:El; [done|]. apply list_find_None in El.
    unfold MAX_FILE_HASHES in E. destruct (Nat.ltb_spec (length kept) 1024).
    + injection E as <- <- <-. split; [|rewrite length_app; simpl; lia].
      right. split; [done|]. split; [done|]. left. split; [done|]. by eexists.
    + destruct verbose.
      * destruct (print_file_open_event _ _ _ _ _ _ _ _); [|done]. injection E as <- <- <-.
        split; [|lia]. right. split; [done|]. split; [done|]. by right.
      * injection E as <- <- <-. split; [|lia]. right. split; [done|]. split; [done|]. by right.
Qed.

Lemma dedup_table_step_witness :
  let env := Procfs (fun _ => None) (fun _ => None) in
  let f := lit "/a" ++ [0] in
  let old := FileHashEntry 1 0 1 9 [0] [0] 0 in
  let cur := FileHashEntry (hash_file_open 7 f) 59000000000 1 7 [0] f 0 in
  exists t' out kept, dedup_file_open env false [old; cur] 7 [0] f 0 61000000000 = Some (t', out, 0) /\
    kept ≡ₚ List.filter (fun e => negb (expired 61000000000 e)) [old; cur] /\ (length t' <= 1024)%nat.
Proof.
  cbv zeta.
  destruct (dedup_file_open (Procfs (fun _ => None) (fun _ => None)) false
    [FileHashEntry 1 0 1 9 [0] [0] 0;
     FileHashEntry (hash_file_open 7 (lit "/a" ++ [0])) 59000000000 1 7 [0] (lit "/a" ++ [0]) 0]
    7 [0] (lit "/a" ++ [0]) 0 61000000000) as [[[t' out] count]|] eqn:E; [|vm_compute in E; discriminate E].
  destruct (dedup_table_step _ _ _ _ _ _ _ _ _ _ _ E) as (kept & Hk & _ & Hl).
  assert (count = 0) as -> by (vm_compute in E; injection E as _ _ <-; reflexivity).
  exists t', out, kept. split; [reflexivity|]. split; [exact Hk|]. apply Hl. vm_compute. lia.
Defined.

(** The table compares hashes only, and the hash mixes the process in by a
    plain sum: the first open of file "A" by process 2 within a minute of
    process 1 opening "b" is swallowed, counted as a repeat of process 1's
    file, and never appears under process 2. *)
Theorem dedup_collision_swallows env verbose comm comm' flags flags' ts :
  0 <= ts < 2 ^ 63 ->
  exists e, dedup_file_open env verbose [] 1 comm (lit "b" ++ [0]) flags ts = Some ([e], [], 1) /\
  forall ts', ts <= ts' <= ts + FILE_DEDUP_WINDOW_NS ->
    exists e', dedup_file_open env verbose [e] 2 comm' (lit "A" ++ [0]) flags' ts' = Some ([e'], [], 0) /\
    fh_pid e' = 1 /\ fh_count e' = 2 /\ cstr (fh_filepath e') = lit "b" /\
    flush_pid_file_opens env [e'] 2 ts' = Some ([e'], []).
Proof.
  intros Hts.
  set (f := strncpy_term (lit "b" ++ [0]) MAX_FILENAME_LEN). set (c := strncpy_term comm TASK_COMM_LEN).
  set (h := hash_file_open 1 (lit "b" ++ [0])).
  exists (FileHashEntry h ts 1 1 c f flags).
  split; [reflexivity|]. intros ts' Hts'. unfold FILE_DEDUP_WINDOW_NS in *.
  exists (FileHashEntry h ts' 2 1 c f flags). split; [|split_and!; reflexivity].
  assert (expired ts' (FileHashEntry h ts 1 1 c f flags) = false) as He.
  { unfold expired, FILE_DEDUP_WINDOW_NS. cbn [fh_timestamp_ns]. rewrite (wrapu_id 64) by lia. by decide_tests. }
  unfold dedup_file_open, sweep. cbn [length sweep_loop lookup list_lookup]. rewrite He. reflexivity.
Qed.

Lemma dedup_collision_swallows_witness :
  exists e e', dedup_file_open (Procfs (fun _ => None) (fun _ => None)) false [] 1 [0] (lit "b" ++ [0]) 0 5 = Some ([e], [], 1) /\
    dedup_file_open (Procfs (fun _ => None) (fun _ => None)) false [e] 2 [0] (lit "A" ++ [0]) 0 6 = Some ([e'], [], 0) /\
    fh_pid e' = 1.
Proof.
  destruct (dedup_collision_swallows (Procfs (fun _ => None) (fun _ => None)) false [0] [0] 0 0 5) as (e & E & H); [lia|].
  destruct (H 6) as (e' & E' & Hp & _); [unfold FILE_DEDUP_WINDOW_NS; lia|].
  exists e, e'. split; [exact E|]. split; [exact E'|exact Hp].
Defined.
