(* ===== verification/Userspace.v ===== *)
(** * Startup helpers of the process tracer (src/bpf/process_ext/userspace.h)

    The cgroup filter: path normalization, the cgroup id of a path, and the
    walk that loads the ids of a cgroup subtree into a BPF map; and the clock
    anchor line.  The file system, the clocks and the calendar are the
    environment's. *)

From S2P Require Import Prelude CLib Unicode Jsonl BpfMap.

(** ** The environment *)

(** What [stat] and [opendir]/[readdir] answer: the inode and whether the path
    is a directory, and the names in a directory or the errno. *)
Record filesystem := Filesystem {
  fs_stat : bytes -> option (Z * bool);
  fs_opendir : bytes -> list bytes + Z;
}.

(** ** Paths *)

(** The C string written to [output], None for false. *)
Definition normalize_cgroup_path (input : bytes) (output_len : nat) : option bytes :=
  let input := cstr input in
  match input with
  | [] => None
  | c :: _ =>
      if (output_len =? 0)%nat then None
      else if strneq input (lit "/sys/fs/cgroup") 14 then Some (snprintf_s output_len input)
      else if c =? 47 then Some (snprintf_s output_len (lit "/sys/fs/cgroup" ++ input))
      else Some (snprintf_s output_len (lit "/sys/fs/cgroup/" ++ input))
  end.

Definition resolve_cgroup_id_from_path (fs : filesystem) (cgroup_path : bytes) : option Z :=
  normalized ← normalize_cgroup_path cgroup_path 512;
  '(st_ino, _) ← fs_stat fs normalized;
  Some (u64 st_ino).

(** ** The cgroup map *)

Section cgroups.
Context `{BpfHash hmap} (fs : filesystem).

(** The [do] loop of [clear_u64_set_map]; [None]: not enough fuel. *)
Fixpoint clear_loop (fuel : nat) (m : hmap Z Z) (key : Z) : option (hmap Z Z) :=
  match fuel with
  | O => None
  | S f =>
      let m := bpf_map_delete_elem m key in
      match bpf_map_get_next_key m key with
      | None => Some m
      | Some next_key => clear_loop f m next_key
      end
  end.

Definition clear_u64_set_map (fuel : nat) (m : hmap Z Z) : option (hmap Z Z) :=
  match bpf_map_get_first_key m with
  | None => Some m
  | Some next_key => clear_loop fuel m next_key
  end.

(** The map, [*added_count] and the result. *)
Definition add_cgroup_path_inode_to_map (path : bytes) (st : hmap Z Z * Z) : (hmap Z Z * Z) * bool :=
  let '(m, added) := st in
  match fs_stat fs path with
  | Some (st_ino, true) =>
      let '(m, ok) := bpf_map_update_elem m (u64 st_ino) 1 BPF_ANY in
      if ok then ((m, added + 1), true) else ((m, added), false)
  | _ => ((m, added), false)
  end.

(** The entries of a directory the walk descends into. *)
Definition child_dir (root name : bytes) : option bytes :=
  if bool_decide (name = lit ".") || bool_decide (name = lit "..") then None
  else
    let child := root ++ lit "/" ++ name in
    if (1024 <=? length child)%nat then None
    else match fs_stat fs child with
    | Some (_, true) => Some child
    | _ => None
    end.

Fixpoint add_descendant_cgroup_ids (fuel : nat) (root : bytes) (st : hmap Z Z * Z)
    : option ((hmap Z Z * Z) * Z) :=
  match fuel with
  | O => None
  | S f =>
      match fs_opendir fs root with
      | inr errno => Some (st, - errno)
      | inl entries =>
          st' ← fold_opt (fun st name =>
                   match child_dir root name with
                   | None => Some st
                   | Some child =>
                       r ← add_descendant_cgroup_ids f child (fst (add_cgroup_path_inode_to_map child st));
                       Some (fst r)
                   end) st entries;
          Some (st', 0)
      end
  end.

Definition EINVAL : Z := 22.
Definition ENOENT : Z := 2.

(** [walk_fuel] bounds the depth of the walk, [fuel] the clearing of the map. *)
Definition populate_cgroup_filter_map (fuel walk_fuel : nat) (cgroup_path : bytes) (include_children : bool)
    (m : hmap Z Z) : option (hmap Z Z * Z) :=
  match normalize_cgroup_path cgroup_path 512 with
  | None => Some (m, - EINVAL)
  | Some normalized =>
      m ← clear_u64_set_map fuel m;
      let '((m, added), ok) := add_cgroup_path_inode_to_map normalized (m, 0) in
      if negb ok then Some (m, - ENOENT)
      else if include_children then
        '((m, added), rc) ← add_descendant_cgroup_ids walk_fuel normalized (m, added);
        Some (m, if rc <? 0 then rc else added)
      else Some (m, added)
  end.

End cgroups.

(** ** The clock anchor *)

(** What the clocks and the calendar answer. *)
Record clocks := Clocks {
  clk_monotonic : option (Z * Z);  (* seconds, nanoseconds *)
  clk_realtime : option (Z * Z);
  clk_strftime_utc : Z -> option bytes;
}.

(** [%09ld] *)
Definition fmt_09 (n : Z) : bytes := let d := fmt_u n in replicate (9 - length d) 48 ++ d.

Definition timespec_ns (t : Z * Z) : Z := u64 (u64 (fst t * 1000000000) + snd t).

Definition print_clock_sync_anchor (clk : clocks) (phase : bytes) : bytes :=
  match clk_monotonic clk, clk_realtime clk with
  | Some mono, Some realtime =>
      match clk_strftime_utc clk (fst realtime) with
      | None => []
      | Some wall_prefix =>
          jlit "{'timestamp':" ++ fmt_u (timespec_ns mono) ++ jlit ",'event':'CLOCK_SYNC','phase':'" ++ phase
          ++ jlit "','mono_ns':" ++ fmt_u (timespec_ns mono) ++ jlit ",'wall_time_ns':" ++ fmt_u (timespec_ns realtime)
          ++ jlit ",'wall_time':'" ++ wall_prefix ++ lit "." ++ fmt_09 (snd realtime) ++ jlit "Z'}" ++ [10]
      end
  | _, _ => []
  end.

Example normalize_ex :
  (normalize_cgroup_path (lit "/sys/fs/cgroup/a") 512, normalize_cgroup_path (lit "/a") 512, normalize_cgroup_path (lit "a") 512)
  = (Some (lit "/sys/fs/cgroup/a"), Some (lit "/sys/fs/cgroup/a"), Some (lit "/sys/fs/cgroup/a")).
Proof. vm_compute. reflexivity. Qed.

Example clock_ex :
  is_Some (parse_line (print_clock_sync_anchor
    (Clocks (Some (5, 6)) (Some (1700000000, 42)) (fun _ => Some (lit "2023-11-14T22:13:20"))) (lit "start"))).
Proof. vm_compute. by eexists. Qed.

(** ** Lemmas: clearing *)

Lemma clear_loop_all `{BpfHashLaws hmap} l (m : hmap Z Z) k v fuel :
  bpf_contents m = (k, v) :: l -> (length l < fuel)%nat ->
  exists m', clear_loop fuel m k = Some m' /\ bpf_contents m' = [] /\
    forall room : BpfRoom hmap, bpf_max_entries m' = bpf_max_entries m.
Proof.
  revert m k v fuel. induction l as [|[k' v'] l IH]; intros m k v fuel E Hf; (destruct fuel as [|f]; [simpl in Hf; lia|]);
    destruct (delete_first m k v _ E) as [E' Hk]; cbn [clear_loop];
    rewrite bpf_next_contents, next_after_absent, E' by (by rewrite E'); cbn [list_fmap fmap head fst].
  - eexists. split_and!; [done..|]. intros. apply bpf_delete_max.
  - destruct (IH (bpf_map_delete_elem m k) k' v' f) as (m' & E1 & E2 & Hm); [done|simpl in Hf; lia|].
    exists m'. split_and!; [done..|]. intros. rewrite Hm. apply bpf_delete_max.
Qed.

Lemma clear_all `{BpfHashLaws hmap} (m : hmap Z Z) :
  exists m', clear_u64_set_map (length (bpf_contents m)) m = Some m' /\ bpf_contents m' = [] /\
    forall room : BpfRoom hmap, bpf_max_entries m' = bpf_max_entries m.
Proof.
  unfold clear_u64_set_map. rewrite bpf_first_contents. destruct (bpf_contents m) as [|[k v] l] eqn:E; [by exists m|].
  cbn [list_fmap fmap head fst length]. apply (clear_loop_all l m k v); [done|lia].
Qed.

Lemma contents_nil_map `{BpfHashLaws hmap} {K V} `{Countable K} (m : hmap K V) : bpf_contents m = [] -> bpf_map m = ∅.
Proof. intros E. unfold bpf_map. by rewrite E. Qed.

(** ** Lemmas: the walk *)

Section walk.
Context (fs : filesystem).

Definition is_child (root child : bytes) : Prop :=
  exists entries name, fs_opendir fs root = inl entries /\ name ∈ entries /\ child_dir fs root name = Some child.

(** The directories of the subtree below [root], as far as path names of less
    than 1024 bytes reach. *)
Inductive below : bytes -> bytes -> Prop :=
  | below_child root d : is_child root d -> below root d
  | below_more root c d : is_child root c -> below c d -> below root d.

Definition dir_id (d : bytes) (id : Z) : Prop := exists ino, fs_stat fs d = Some (ino, true) /\ id = u64 ino.

(** [readdir] returns no empty name. *)
Definition names_ok : Prop := forall d l, fs_opendir fs d = inl l -> [] ∉ l.

Lemma child_dir_spec root name child :
  child_dir fs root name = Some child ->
  child = root ++ lit "/" ++ name /\ (length child < 1024)%nat /\ exists id, dir_id child id.
Proof.
  unfold child_dir. case_match; [done|]. destruct (Nat.leb_spec 1024 (length (root ++ lit "/" ++ name))); [done|].
  destruct (fs_stat fs _) as [[ino [|]]|] eqn:E; [|done..]. intros [= <-]. split_and!; [done|done|].
  by exists (u64 ino), ino.
Qed.

(** Every level of the walk lengthens the path by at least two bytes. *)
Lemma walk_terminates `{BpfHash hmap} fuel root (st : hmap Z Z * Z) :
  names_ok -> (1024 - length root < fuel)%nat ->
  exists st' rc, add_descendant_cgroup_ids fs fuel root st = Some (st', rc).
Proof.
  intros Hn. revert root st. induction fuel as [|f IH]; intros root st Hf; [lia|].
  cbn [add_descendant_cgroup_ids]. destruct (fs_opendir fs root) as [entries|errno] eqn:E; [|by do 2 eexists].
  pose proof (Hn _ _ E) as Hne. clear E. revert st. induction entries as [|name l IHl]; intros st; cbn [fold_opt].
  - cbn [mbind option_bind]. by do 2 eexists.
  - apply not_elem_of_cons in Hne as [Hname Hne]. specialize (IHl Hne).
    destruct (child_dir fs root name) as [child|] eqn:Ec; [|apply IHl].
    apply child_dir_spec in Ec as (-> & Hl & _). rewrite !length_app in Hl. destruct name as [|x name]; [done|]. simpl in Hl.
    destruct (IH (root ++ lit "/" ++ x :: name) (fst (add_cgroup_path_inode_to_map fs (root ++ lit "/" ++ x :: name) st)))
      as (st' & rc & ->); [rewrite !length_app; simpl; lia|]. cbn [mbind option_bind fst]. apply IHl.
Qed.
End walk.

(** The walk fails only when its root cannot be opened. *)
Lemma walk_rc `{BpfHash hmap} fs fuel root entries (st st' : hmap Z Z * Z) rc :
  fs_opendir fs root = inl entries -> add_descendant_cgroup_ids fs fuel root st = Some (st', rc) -> rc = 0.
Proof.
  intros E. destruct fuel as [|f]; [done|]. cbn [add_descendant_cgroup_ids]. rewrite E.
  destruct (fold_opt _ st entries); cbn [mbind option_bind]; congruence.
Qed.

(** What a part of the walk over the directories [dirs] does to the map. *)
Section walked.
Context `{BpfRoom hmap} (fs : filesystem).

Record walked (dirs : bytes -> Prop) (st st' : hmap Z Z * Z) : Prop := {
  w_max : bpf_max_entries st'.1 = bpf_max_entries st.1;
  w_added : st.2 <= st'.2;
  w_mono : dom (bpf_map st.1) ⊆ dom (bpf_map st'.1);
  w_sound : forall id, id ∈ dom (bpf_map st'.1) -> id ∈ dom (bpf_map st.1) \/ exists d, dirs d /\ dir_id fs d id;
  w_complete : (size (bpf_map st'.1) < bpf_max_entries st.1)%nat ->
    forall d id, dirs d -> dir_id fs d id -> id ∈ dom (bpf_map st'.1);
}.

Lemma walked_refl st : walked (fun _ => False) st st.
Proof. split; [done|lia|done|by left|done]. Qed.

Lemma walked_size P st st' : walked P st st' -> (size (bpf_map st.1) <= size (bpf_map st'.1))%nat.
Proof. intros Hw. rewrite <- !size_dom. apply subseteq_size, (w_mono _ _ _ Hw). Qed.

Lemma walked_trans P Q a b c : walked P a b -> walked Q b c -> walked (fun d => P d \/ Q d) a c.
Proof.
  intros Hab Hbc. pose proof (walked_size _ _ _ Hbc) as Hs. destruct Hab as [M1 A1 O1 S1 C1], Hbc as [M2 A2 O2 S2 C2]. split.
  - congruence.
  - lia.
  - set_solver.
  - intros id Hid. apply S2 in Hid as [Hid|(d & Hd & Hi)]; [|right; exists d; by split; [right|]].
    apply S1 in Hid as [Hid|(d & Hd & Hi)]; [by left|right; exists d; by split; [left|]].
  - intros Hc d id [Hd|Hd] Hi; [apply O2, (C1 ltac:(lia) d id Hd Hi)|]. rewrite M1 in C2. by apply (C2 Hc d id).
Qed.

Lemma walked_iff P Q a b : (forall d, P d <-> Q d) -> walked P a b -> walked Q a b.
Proof.
  intros Hpq [M A O S C]. split; try done.
  - intros id Hid. destruct (S id Hid) as [?|(d & Hd & Hi)]; [by left|right; exists d; by rewrite <- Hpq].
  - intros Hc d id Hd. apply C; [done|by apply Hpq].
Qed.

Lemma walked_add path st : walked (fun d => d = path) st (fst (add_cgroup_path_inode_to_map fs path st)).
Proof.
  destruct st as [m added]. unfold add_cgroup_path_inode_to_map.
  destruct (fs_stat fs path) as [[ino [|]]|] eqn:E;
    [|split; cbn; [done|lia|done|by left|intros _ d id -> (i & Hi & _); rewrite E in Hi; discriminate]..].
  pose proof (bpf_set_map_room m (u64 ino) 1) as Hroom. unfold has_room in Hroom. pose proof (bpf_update_max m (u64 ino) 1 BPF_ANY) as Hmax.
  unfold bpf_map_set in Hroom. destruct (bpf_map_update_elem m (u64 ino) 1 BPF_ANY) as [m' [|]] eqn:Eu; cbn [fst] in *.
  - apply bpf_update_map in Eu. split; cbn [fst snd]; [done|lia|rewrite Eu; set_solver| |].
    + intros id. rewrite Eu, dom_insert. intros [Hid|?]%elem_of_union; [|by left].
      right. exists path. split; [done|]. exists ino. split; [done|]. set_solver.
    + intros _ d id -> (i & Hi & ->). rewrite E in Hi. injection Hi as <-. rewrite Eu. set_solver.
  - apply bpf_update_map_fail in Eu. split; cbn [fst snd]; [done|lia|by rewrite Eu|intros id; rewrite Eu; by left|].
    rewrite Eu in *. intros Hc d id -> (i & Hi & ->). rewrite E in Hi. injection Hi as <-.
    rewrite Hroom by (by left). set_solver.
Qed.

Lemma walk_walked fuel root st st' rc :
  add_descendant_cgroup_ids fs fuel root st = Some (st', rc) -> walked (below fs root) st st'.
Proof.
  revert root st st' rc. induction fuel as [|f IH]; intros root st st' rc; [done|]. cbn [add_descendant_cgroup_ids].
  destruct (fs_opendir fs root) as [entries|errno] eqn:E.
  2: { intros [= <- _]. eapply walked_iff; [|apply walked_refl]. intros d. split; [done|].
       intros Hb. inversion Hb as [? ? (l & n & Hl & _)|? ? ? (l & n & Hl & _)]; subst; congruence. }
  set (body := fun (st : hmap Z Z * Z) name => _).
  assert (forall l st st', fold_opt body st l = Some st' ->
    walked (fun d => exists name c, name ∈ l /\ child_dir fs root name = Some c /\ (d = c \/ below fs c d)) st st') as Hl.
  { clear st st' rc E. intros l. induction l as [|name l IHl]; intros st st'; cbn [fold_opt].
    - intros [= <-]. eapply walked_iff; [|apply walked_refl]. intros d. split; [done|]. intros (n & c & Hn & _). by apply not_elem_of_nil in Hn.
    - destruct (body st name) as [st1|] eqn:Eb; [|done]. cbn [mbind option_bind]. intros Hf. apply IHl in Hf.
      unfold body in Eb. destruct (child_dir fs root name) as [c|] eqn:Ec.
      + destruct (add_descendant_cgroup_ids fs f c _) as [[st2 rc2]|] eqn:Ew; [|done]. injection Eb as <-.
        apply IH in Ew. pose proof (walked_add c st) as Ha. cbn [fst] in *.
        pose proof (walked_trans _ _ _ _ _ (walked_trans _ _ _ _ _ Ha Ew) Hf) as Hw. eapply walked_iff; [|exact Hw].
        intros d. cbn beta. split.
        * intros [Hd|(n & c' & Hn & Hc & Hd)]; [exists name, c|exists n, c']; (split; [set_solver|done]).
        * intros (n & c' & [->|Hn]%elem_of_cons & Hc & Hd); [left|right; by exists n, c']. congruence.
      + injection Eb as <-. eapply walked_iff; [|exact Hf]. intros d. split; intros (n & c & Hn & Hc & Hd).
        * exists n, c. split; [set_solver|done].
        * apply elem_of_cons in Hn as [->|Hn]; [congruence|by exists n, c]. }
  destruct (fold_opt body st entries) as [st1|] eqn:Ef; [|done]. cbn [mbind option_bind]. intros [= <- _].
  apply Hl in Ef. eapply walked_iff; [|exact Ef]. intros d. split.
  - intros (n & c & Hn & Hc & Hd). assert (is_child fs root c) as Hch by (by exists entries, n).
    destruct Hd as [->|Hd]; [by apply below_child|by apply (below_more fs root c)].
  - intros Hb. inversion Hb as [r d' (l & n & El & Hn & Hc)|r c d' (l & n & El & Hn & Hc) Hd]; subst;
      rewrite E in El; injection El as <-.
    + exists n, d. auto.
    + exists n, c. auto.
Qed.
End walked.

(** ** Properties *)

(** C35: the cgroup subtree filter: loading it always terminates (each level of
    the walk lengthens the path name by two bytes and names of 1024 bytes are
    skipped, so 1025 levels are enough, symbolic link cycles included); the
    ids of an earlier load are gone; every id loaded is that of the root or of
    a directory below it; and unless the map filled up, every such directory's
    id is loaded. *)
Theorem cgroup_filter_is_subtree `{BpfRoom hmap} fs path root ino entries (m : hmap Z Z) :
  names_ok fs -> normalize_cgroup_path path 512 = Some root -> fs_stat fs root = Some (ino, true) ->
  fs_opendir fs root = inl entries -> (0 < bpf_max_entries m)%nat ->
  exists m' added, populate_cgroup_filter_map fs (length (bpf_contents m)) 1025 path true m = Some (m', added) /\
    0 < added /\
    (forall id, is_Some (bpf_map m' !! id) -> exists d, (d = root \/ below fs root d) /\ dir_id fs d id) /\
    ((size (bpf_map m') < bpf_max_entries m)%nat ->
       forall d id, d = root \/ below fs root d -> dir_id fs d id -> is_Some (bpf_map m' !! id)).
Proof.
  intros Hn Hnorm Hst Hdir Hmax. unfold populate_cgroup_filter_map. rewrite Hnorm.
  destruct (clear_all m) as (m0 & -> & Hm0 & Hmax0). cbn [mbind option_bind].
  assert (add_cgroup_path_inode_to_map fs root (m0, 0) = ((bpf_map_set m0 (u64 ino) 1, 1), true)) as Ea.
  { unfold add_cgroup_path_inode_to_map, bpf_map_set. rewrite Hst.
    pose proof (bpf_update_room m0 (u64 ino) 1) as Hr. rewrite Hm0, Hmax0 in Hr. specialize (Hr (or_introl Hmax)).
    destruct (bpf_map_update_elem m0 (u64 ino) 1 BPF_ANY) as [m1 ok]. cbn [fst snd] in *. by subst ok. }
  pose proof (walked_add fs root (m0, 0)) as Ha. rewrite Ea in *. cbn [fst snd negb] in *.
  destruct (walk_terminates fs 1025 root (bpf_map_set m0 (u64 ino) 1, 1) Hn) as ([m2 added] & rc & Ew); [lia|].
  assert (rc = 0) as -> by (by eapply walk_rc; [exact Hdir|exact Ew]).
  rewrite Ew. cbn [mbind option_bind]. apply walk_walked in Ew. pose proof (w_added _ _ _ _ Ew) as Had. cbn [snd] in Had.
  pose proof (walked_trans _ _ _ _ _ _ Ha Ew) as [M A O S C].
  cbn [fst snd] in *. rewrite (contents_nil_map _ Hm0) in S. exists m2, added. split; [done|]. split; [lia|]. split.
  - intros id Hid. apply elem_of_dom in Hid. apply S in Hid as [Hid|Hid]; [set_solver|done].
  - rewrite Hmax0 in C. intros Hs d id Hd Hi. apply elem_of_dom. by apply (C Hs d id).
Qed.

(** A hierarchy with a nested cgroup and a stale entry in the map. *)
Definition cgroup_fs : filesystem :=
  Filesystem
    (fun p => if decide (p = lit "/sys/fs/cgroup/a") then Some (10, true)
              else if decide (p = lit "/sys/fs/cgroup/a/b") then Some (11, true)
              else if decide (p = lit "/sys/fs/cgroup/a/cgroup.procs") then Some (12, false) else None)
    (fun p => if decide (p = lit "/sys/fs/cgroup/a") then inl [lit "."; lit ".."; lit "cgroup.procs"; lit "b"]
              else if decide (p = lit "/sys/fs/cgroup/a/b") then inl [lit "."; lit ".."] else inr 2).

Lemma cgroup_filter_is_subtree_witness :
  let m : bounded Z Z := fst (bpf_map_update_elem (bd_empty 8) 99 1 BPF_ANY) in
  exists m' added, populate_cgroup_filter_map cgroup_fs 1 1025 (lit "a") true m = Some (m', added) /\ 0 < added /\
    bpf_map m' !! 99 = None /\ is_Some (bpf_map m' !! 11).
Proof.
  cbv zeta. destruct (cgroup_filter_is_subtree cgroup_fs (lit "a") (lit "/sys/fs/cgroup/a") 10
    [lit "."; lit ".."; lit "cgroup.procs"; lit "b"] (fst (bpf_map_update_elem (bd_empty (V:=Z) 8) 99 1 BPF_ANY)))
    as (m' & added & E & Ha & _ & Hc).
  - intros d l Hd. cbn [cgroup_fs fs_opendir] in Hd.
    repeat case_decide; try discriminate Hd; injection Hd as <-; rewrite list_elem_of_In; vm_compute; intuition discriminate.
  - reflexivity.
  - reflexivity.
  - reflexivity.
  - vm_compute. lia.
  - exists m', added. split; [exact E|]. split; [exact Ha|]. vm_compute in E. injection E as <- <-.
    split; [reflexivity|by eexists].
Defined.

(** Path normalization: a path below the cgroup mount, an absolute path
    and a relative path that name the same cgroup have one normal form, which
    is its own normal form. *)
Theorem normalize_cgroup_forms rel :
  no_nul rel -> head rel <> Some 47 -> (length rel <= 496)%nat -> strneq (lit "/" ++ rel) (lit "/sys/fs/cgroup") 14 = false ->
  strneq rel (lit "/sys/fs/cgroup") 14 = false -> rel <> [] ->
  let full := lit "/sys/fs/cgroup/" ++ rel in
  normalize_cgroup_path rel 512 = Some full /\ normalize_cgroup_path (lit "/" ++ rel) 512 = Some full /\
  normalize_cgroup_path full 512 = Some full.
Proof.
  intros Hn Hh Hl Ha Hr Hne. cbv zeta. unfold normalize_cgroup_path.
  assert (forall s, (length s <= 511)%nat -> snprintf_s 512 s = s) as Hs.
  { intros s Hs. unfold snprintf_s. by rewrite firstn_all2 by (change (512 - 1)%nat with 511%nat; lia). }
  rewrite !cstr_id by auto with nonul. destruct rel as [|c rel]; [done|]. split_and!.
  - rewrite Hr. rewrite (proj2 (Z.eqb_neq c 47)) by (intros ->; by apply Hh). cbn [Nat.eqb].
    rewrite Hs; [done|]. rewrite length_app. change (length (lit "/sys/fs/cgroup/")) with 15%nat. lia.
  - change (lit "/" ++ c :: rel) with (47 :: c :: rel) in *. rewrite Ha. cbn [Nat.eqb]. change (47 =? 47) with true. cbn match.
    rewrite Hs; [reflexivity|]. rewrite length_app. change (length (lit "/sys/fs/cgroup")) with 14%nat. simpl in *. lia.
  - assert (strneq (lit "/sys/fs/cgroup/" ++ c :: rel) (lit "/sys/fs/cgroup") 14 = true) as ->.
    { unfold strneq. rewrite !cstr_id by auto with nonul. by apply bool_decide_eq_true. }
    rewrite Hs; [reflexivity|]. rewrite length_app. change (length (lit "/sys/fs/cgroup/")) with 15%nat. lia.
Qed.

Lemma normalize_cgroup_forms_witness :
  normalize_cgroup_path (lit "/user.slice/x") 512 = Some (lit "/sys/fs/cgroup/user.slice/x").
Proof.
  apply (normalize_cgroup_forms (lit "user.slice/x")); [by apply no_nul_test|discriminate|vm_compute; lia|reflexivity..|discriminate].
Defined.
