(* ===== verification/ProcessMain.v ===== *)
(** * The process tracer's userspace program (src/bpf/process.c)

    Command line, seeding, the event handler, and the main loop over the
    kernel probes of [ProcessBpf]: a schedule interleaves probe invocations
    with the delivery of ring buffer samples. *)

From S2P Require Import Prelude CLib Unicode Jsonl ProcessFilter BpfFormat BpfMap ProcessBpf.
From S2P Require Import ProcUtils MapFlush FileAgg Userspace.

(** ** Configuration *)

Definition MAX_COMMAND_LIST : nat := 256.
Definition MAX_SEED_PIDS : nat := 4096.
Definition FLUSH_INTERVAL_S : Z := 5.

(** [command_count] and [seed_count] are the lengths of their lists. *)
Record env := Env {
  verbose : bool;
  min_duration_ms : Z;
  command_list : list bytes;
  seed_pids : list (Z * Z);
  env_filter_mode : filter_mode;
  env_pid : Z;
  session_id : Z;
  trace_fs : bool;
  trace_net : bool;
  env_trace_signals : bool;
  trace_mem : bool;
  env_trace_cow : bool;
  cgroup_filter_path : bytes;
  cgroup_filter_enabled : bool;
  cgroup_filter_children : bool;
}.

Definition env0 : env :=
  Env false 0 [] [] FILTER_MODE_PROC 0 0 false false false false false (replicate 256 0) false false.

Definition set_verbose e := Env true (min_duration_ms e) (command_list e) (seed_pids e) (env_filter_mode e) (env_pid e)
  (session_id e) (trace_fs e) (trace_net e) (env_trace_signals e) (trace_mem e) (env_trace_cow e)
  (cgroup_filter_path e) (cgroup_filter_enabled e) (cgroup_filter_children e).
Definition set_duration e d := Env (verbose e) d (command_list e) (seed_pids e) (env_filter_mode e) (env_pid e)
  (session_id e) (trace_fs e) (trace_net e) (env_trace_signals e) (trace_mem e) (env_trace_cow e)
  (cgroup_filter_path e) (cgroup_filter_enabled e) (cgroup_filter_children e).
Definition set_targets e commands seeds mode pid sid := Env (verbose e) (min_duration_ms e) commands seeds mode pid
  sid (trace_fs e) (trace_net e) (env_trace_signals e) (trace_mem e) (env_trace_cow e)
  (cgroup_filter_path e) (cgroup_filter_enabled e) (cgroup_filter_children e).
Definition set_mode e mode := set_targets e (command_list e) (seed_pids e) mode (env_pid e) (session_id e).
Definition set_commands e cs := set_targets e cs (seed_pids e) (env_filter_mode e) (env_pid e) (session_id e).
Definition set_trace e fs net sig mem cow := Env (verbose e) (min_duration_ms e) (command_list e) (seed_pids e)
  (env_filter_mode e) (env_pid e) (session_id e) fs net sig mem cow
  (cgroup_filter_path e) (cgroup_filter_enabled e) (cgroup_filter_children e).
Definition set_cgroup e path on children := Env (verbose e) (min_duration_ms e) (command_list e) (seed_pids e)
  (env_filter_mode e) (env_pid e) (session_id e) (trace_fs e) (trace_net e) (env_trace_signals e) (trace_mem e)
  (env_trace_cow e) path on children.

Definition parse_seed_pid_arg (arg : bytes) : option (Z * Z) :=
  let arg := cstr arg in
  let r := strtol10 arg in
  if st_erange r || (st_val r <=? 0) then None
  else
    let end1 := drop (st_end r) arg in
    '(ppid, end2) ←
      match end1 with
      | c :: ppid_start =>
          if c =? 58 then
            let r2 := strtol10 ppid_start in
            if st_erange r2 || (st_end r2 =? 0)%nat || (st_val r2 <? 0) then None
            else Some (st_val r2, drop (st_end r2) ppid_start)
          else Some (0, end1)
      | [] => Some (0, [])
      end;
    match end2 with
    | _ :: _ => None
    | [] => Some (s32 (st_val r), s32 ppid)
    end.

(** *** Comma-separated commands *)

(** [strtok_r] with the delimiter ",": the next token and the rest. *)
Definition strtok_comma (s : bytes) : option (bytes * bytes) :=
  let s := drop (length (take_while (fun c => c =? 44) s)) s in
  match s with
  | [] => None
  | _ => let t := take_while (fun c => negb (c =? 44)) s in Some (t, drop (S (length t)) s)
  end.

(** Leading blanks, then trailing ones; after the first loop the token is empty
    or starts with another character, so the second stops within it. *)
Definition trim (token : bytes) : bytes :=
  let t := drop (length (take_while is_blank token)) token in
  rev (drop (length (take_while is_blank (rev t))) (rev t)).

(** [None]: [strdup] failed, by [alloc]. *)
Fixpoint command_loop (fuel : nat) (alloc : bytes -> bool) (s : bytes) (commands : list bytes) : option (list bytes) :=
  match fuel with
  | O => Some commands
  | S f =>
      match strtok_comma s with
      | None => Some commands
      | Some (token, rest) =>
          if (length commands <? MAX_COMMAND_LIST)%nat then
            match trim token with
            | [] => command_loop f alloc rest commands
            | t => if alloc t then command_loop f alloc rest (commands ++ [t]) else None
            end
          else Some commands
      end
  end.

(** Every token takes a character, so the length of the text is enough fuel. *)
Definition parse_commands (alloc : bytes -> bool) (arg : bytes) (commands : list bytes) : option (list bytes) :=
  command_loop (S (length (cstr arg))) alloc (cstr arg) commands.

(** *** Options *)

Inductive option_key :=
  | KEY_v | KEY_d | KEY_p | SESSION_KEY | KEY_a | KEY_m | KEY_c
  | OPT_TRACE_FS | OPT_TRACE_NET | OPT_TRACE_SIGNALS | OPT_TRACE_MEM | OPT_TRACE_COW | OPT_TRACE_ALL
  | OPT_CGROUP_FILTER | OPT_CGROUP_FILTER_CHILDREN | OPT_SEED_PID | ARGP_KEY_ARG | KEY_OTHER.

(** [argp_usage] ends the program. *)
Inductive parse_outcome := PNext (e : env) | PUsage | PErrUnknown.

Definition mode_of (n : Z) : filter_mode :=
  if n =? 0 then FILTER_MODE_ALL else if n =? 1 then FILTER_MODE_PROC else FILTER_MODE_FILTER.

Definition parse_arg (alloc : bytes -> bool) (key : option_key) (arg : bytes) (e : env) : parse_outcome :=
  let r := strtol10 (cstr arg) in
  match key with
  | KEY_v => PNext (set_verbose e)
  | KEY_d => if st_erange r || (st_val r <=? 0) then PUsage else PNext (set_duration e (st_val r))
  | KEY_p =>
      let pid := s32 (st_val r) in
      if st_erange r || (pid <=? 0) then PUsage
      else PNext (set_targets e (command_list e) (seed_pids e) FILTER_MODE_FILTER pid (session_id e))
  | SESSION_KEY =>
      let sid := s32 (st_val r) in
      if st_erange r || (sid <=? 0) then PUsage
      else PNext (set_targets e (command_list e) (seed_pids e) FILTER_MODE_FILTER (env_pid e) sid)
  | KEY_a => PNext (set_mode e FILTER_MODE_ALL)
  | KEY_m =>
      let mode := s32 (st_val r) in
      if st_erange r || (mode <? 0) || (2 <? mode) then PUsage else PNext (set_mode e (mode_of mode))
  | KEY_c =>
      let e := set_mode e FILTER_MODE_FILTER in
      if negb (alloc (cstr arg)) then PErrUnknown
      else match parse_commands alloc arg (command_list e) with
      | Some cs => PNext (set_commands e cs)
      | None => PErrUnknown
      end
  | OPT_TRACE_FS => PNext (set_trace e true (trace_net e) (env_trace_signals e) (trace_mem e) (env_trace_cow e))
  | OPT_TRACE_NET => PNext (set_trace e (trace_fs e) true (env_trace_signals e) (trace_mem e) (env_trace_cow e))
  | OPT_TRACE_SIGNALS => PNext (set_trace e (trace_fs e) (trace_net e) true (trace_mem e) (env_trace_cow e))
  | OPT_TRACE_MEM => PNext (set_trace e (trace_fs e) (trace_net e) (env_trace_signals e) true (env_trace_cow e))
  | OPT_TRACE_COW => PNext (set_trace e (trace_fs e) (trace_net e) (env_trace_signals e) (trace_mem e) true)
  | OPT_TRACE_ALL => PNext (set_trace e true true true true (env_trace_cow e))
  | OPT_CGROUP_FILTER => PNext (set_cgroup e (strncpy_term arg 256) true (cgroup_filter_children e))
  | OPT_CGROUP_FILTER_CHILDREN => PNext (set_cgroup e (cgroup_filter_path e) (cgroup_filter_enabled e) true)
  | OPT_SEED_PID =>
      if (MAX_SEED_PIDS <=? length (seed_pids e))%nat then PUsage
      else match parse_seed_pid_arg arg with
      | None => PUsage
      | Some seed => PNext (set_targets e (command_list e) (seed_pids e ++ [seed]) (env_filter_mode e) (env_pid e) (session_id e))
      end
  | ARGP_KEY_ARG => PUsage
  | KEY_OTHER => PErrUnknown
  end.

(** *** What the loader is told *)

(** Which programs [configure_optional_programs] loads. *)
Definition configure_optional_programs (e : env) (p : probe) : bool :=
  match p with
  | P_unlinkat | P_unlink | P_renameat2 | P_renameat | P_rename | P_mkdirat | P_mkdir | P_ftruncate | P_chdir
  | P_write_enter | P_write_exit | P_pwrite64_enter | P_pwrite64_exit | P_writev_enter | P_writev_exit => trace_fs e
  | P_bind | P_listen | P_connect => trace_net e
  | P_setpgid | P_setsid | P_kill | P_fork => env_trace_signals e
  | P_mmap => trace_mem e
  | P_cow_fault => env_trace_cow e
  | P_bash_readline | P_exec | P_exit | P_openat | P_open => true
  end.

(** The read-only data, with the cgroup id the filter path resolved to. *)
Definition rodata (e : env) (cgroup_filter_id : Z) : bpf_config :=
  BpfConfig (bool_decide (env_filter_mode e = FILTER_MODE_FILTER)) (cgroup_filter_enabled e) (cgroup_filter_children e)
    cgroup_filter_id (trace_fs e) (trace_net e) (env_trace_signals e) (trace_mem e) (env_trace_cow e)
    (u64 (min_duration_ms e * 1000000)).

Example parse_seed_ex :
  (parse_seed_pid_arg (lit "42:7"), parse_seed_pid_arg (lit "42"), parse_seed_pid_arg (lit "42:"), parse_seed_pid_arg (lit "0"))
  = (Some (42, 7), Some (42, 0), None, None).
Proof. vm_compute. reflexivity. Qed.

Example parse_commands_ex :
  parse_commands (fun _ => true) (lit " claude , python,,ssh ") [] = Some [lit "claude"; lit "python"; lit "ssh"].
Proof. vm_compute. reflexivity. Qed.

(** ** The tracer's state *)

(** The environment of a run: /proc, [getsid], [readlink], and the page size
    in KB. *)
Record world := World {
  w_proc : procfs;
  w_getsid : Z -> Z;
  w_readlink : bytes -> option bytes;
  w_page_size_kb : Z;
}.

Section tracer.
Context `{BpfHash hmap} (env : env) (w : world).

(** The userspace tables, the kernel's maps, and what was printed. *)
Record tracer := Tracer {
  t_pids : pid_tracker;
  t_files : file_state;
  t_bpf : pstate hmap;
  t_out : bytes;
}.

Definition print (s : tracer) (out : bytes) : tracer := Tracer (t_pids s) (t_files s) (t_bpf s) (t_out s ++ out).
Definition set_pids (s : tracer) (p : pid_tracker) : tracer := Tracer p (t_files s) (t_bpf s) (t_out s).
Definition set_files (s : tracer) (f : file_state) : tracer := Tracer (t_pids s) f (t_bpf s) (t_out s).
Definition set_bpf (s : tracer) (b : pstate hmap) : tracer := Tracer (t_pids s) (t_files s) b (t_out s).

Definition set_tracked_pids (b : pstate hmap) m : pstate hmap :=
  PState (event_agg_map b) m (tracked_cgroups b) (agg_overflow_count b) (exit_mem b) (write_ctx_map b) (exec_start b) (rb b).
Definition set_tracked_cgroups (b : pstate hmap) m : pstate hmap :=
  PState (event_agg_map b) (tracked_pids b) m (agg_overflow_count b) (exit_mem b) (write_ctx_map b) (exec_start b) (rb b).
Definition set_rb (b : pstate hmap) r : pstate hmap :=
  PState (event_agg_map b) (tracked_pids b) (tracked_cgroups b) (agg_overflow_count b) (exit_mem b) (write_ctx_map b) (exec_start b) r.

(** ** Tracking *)

Definition process_in_target_session (pid : Z) : bool :=
  if session_id env <=? 0 then false else w_getsid w pid =? session_id env.

Definition should_track_event_process (tracker : pid_tracker) (comm : bytes) (pid ppid : Z) : bool :=
  if process_in_target_session pid then true
  else if 0 <? session_id env then false
  else should_track_process tracker comm pid ppid.

Definition add_tracked_pid_to_bpf (pid : Z) (b : pstate hmap) : pstate hmap :=
  if pid <=? 0 then b else set_tracked_pids b (bpf_map_set (tracked_pids b) (u32 pid) 1).

Definition remove_tracked_pid_from_bpf (pid : Z) (b : pstate hmap) : pstate hmap :=
  if pid <=? 0 then b else set_tracked_pids b (bpf_map_delete_elem (tracked_pids b) (u32 pid)).

(** One seed of [seed_initial_pids]: the state and [tracked_count]. *)
Definition seed_step (st : tracer * Z) (seed : Z * Z) : tracer * Z :=
  let '(s, tracked_count) := st in
  let '(pid, ppid) := seed in
  let already_tracked := pid_tracker_is_tracked (t_pids s) pid in
  let '(tr, ok) := pid_tracker_add (t_pids s) pid ppid in
  if ok && negb already_tracked
  then (set_bpf (set_pids s tr) (add_tracked_pid_to_bpf pid (t_bpf s)), tracked_count + 1)
  else (set_pids s tr, tracked_count).

Definition seed_initial_pids (s : tracer) : tracer * Z := foldl seed_step (s, 0) (seed_pids env).

(** ** Lines *)

(** The union's members all start with the text the handlers read. *)
Definition u_text (u : event_union) : bytes :=
  match u with UFilename f => f | UCommand c => c | UFileOp p _ _ _ => p end.

Definition print_exec_event (e : event) : option bytes :=
  let full_command := postprocess_full_command (e_full_command e) (Z.of_nat MAX_COMMAND_LEN) (e_exit_code e) in
  comm_esc ← json_escaped (e_comm e) (TASK_COMM_LEN * 2 + 1);
  filename_esc ← json_escaped (u_text (e_union e)) (MAX_FILENAME_LEN * 2 + 1);
  command_esc ← json_escaped (full_command ++ [0]) (MAX_COMMAND_LEN * 2 + 1);
  Some (lit "{" ++ jlit "'timestamp':" ++ fmt_u (e_timestamp_ns e) ++ jlit ",'event':'EXEC','comm':'" ++ comm_esc
    ++ jlit "','pid':" ++ fmt_d (e_pid e) ++ jlit ",'ppid':" ++ fmt_d (e_ppid e)
    ++ jlit ",'filename':'" ++ filename_esc ++ jlit "'" ++ jlit ",'full_command':'" ++ command_esc ++ jlit "'"
    ++ print_container_fields (w_proc w) (e_pid e) ++ lit "}" ++ [10]).

(** The line and the [exit_mem] map after it. *)
Definition print_exit_event (mem : hmap Z Z) (e : event) : option (bytes * hmap Z Z) :=
  comm_esc ← json_escaped (e_comm e) (TASK_COMM_LEN * 2 + 1);
  let hiwater := bpf_map_lookup_elem mem (u32 (e_pid e)) in
  Some (lit "{" ++ jlit "'timestamp':" ++ fmt_u (e_timestamp_ns e) ++ jlit ",'event':'EXIT','comm':'" ++ comm_esc
    ++ jlit "','pid':" ++ fmt_d (e_pid e) ++ jlit ",'ppid':" ++ fmt_d (e_ppid e)
    ++ jlit ",'exit_code':" ++ fmt_u (e_exit_code e)
    ++ (if e_duration_ns e =? 0 then [] else jlit ",'duration_ms':" ++ fmt_u (e_duration_ns e / 1000000))
    ++ (match hiwater with
        | Some rss => jlit ",'vm_hwm_kb':" ++ fmt_u (u64 (rss * w_page_size_kb w))
        | None => []
        end)
    ++ print_container_fields (w_proc w) (e_pid e) ++ lit "}" ++ [10],
    match hiwater with Some _ => bpf_map_delete_elem mem (u32 (e_pid e)) | None => mem end).

Definition print_bash_readline_event (e : event) : option bytes :=
  comm_esc ← json_escaped (e_comm e) (TASK_COMM_LEN * 2 + 1);
  command_esc ← json_escaped (u_text (e_union e)) (MAX_COMMAND_LEN * 2 + 1);
  Some (lit "{" ++ jlit "'timestamp':" ++ fmt_u (e_timestamp_ns e) ++ jlit ",'event':'BASH_READLINE','comm':'" ++ comm_esc
    ++ jlit "','pid':" ++ fmt_d (e_pid e) ++ jlit ",'command':'" ++ command_esc ++ jlit "'"
    ++ print_container_fields (w_proc w) (e_pid e) ++ lit "}" ++ [10]).

(** ** The handler *)

(** The loop that looks for a pending warning: the limits and [add_warning]. *)
Definition take_warning (limits : list per_second_limit) (pid : Z) : list per_second_limit * bool :=
  match list_find (fun l => pl_pid l = pid /\ should_warn_next l = true) limits with
  | Some (i, _) => (swap_remove limits i, true)
  | None => (limits, false)
  end.

Definition rate_limit_line (timestamp_ns pid : Z) : bytes :=
  jlit "{'timestamp':" ++ fmt_u timestamp_ns ++ jlit ",'event':'WARNING','comm':'','pid':" ++ fmt_d pid
  ++ jlit ",'type':'FILE_RATE_LIMIT','message':'Process had " ++ fmt_d MAX_DISTINCT_FILES_PER_SEC
  ++ jlit "+ file ops per second'}" ++ [10].

(** The exit branch of [handle_event]; [fuel] bounds the iteration over the
    aggregation map. *)
Definition on_exit (fuel : nat) (s : tracer) (e : event) : option tracer :=
  let was_tracked := pid_tracker_is_tracked (t_pids s) (e_pid e) in
  let s := set_pids s (pid_tracker_remove (t_pids s) (e_pid e)) in
  let s := set_bpf s (remove_tracked_pid_from_bpf (e_pid e) (t_bpf s)) in
  if negb was_tracked && bool_decide (tr_filter_mode (t_pids s) = FILTER_MODE_FILTER) then Some s
  else
    let '(limits, add_warning) := take_warning (pid_limits (t_files s)) (e_pid e) in
    '(line, mem) ← print_exit_event (exit_mem (t_bpf s)) e;
    '(hashes, opens) ← flush_pid_file_opens (w_proc w) (file_hashes (t_files s)) (e_pid e) (e_timestamp_ns e);
    '(agg, calls) ← flush_pid_from_agg_map fuel (event_agg_map (t_bpf s)) (u32 (e_pid e));
    summaries ← flush_output (w_readlink w) calls;
    let s := set_files s (FileState hashes limits) in
    let s := set_bpf s (set_agg (set_exit_mem (t_bpf s) mem) agg (agg_overflow_count (t_bpf s))) in
    Some (print s (line ++ (if add_warning then rate_limit_line (e_timestamp_ns e) (e_pid e) else []) ++ opens ++ summaries)).

(** [pid_tracker_add] and [add_tracked_pid_to_bpf]: the second does not depend
    on the first. *)
Definition track (s : tracer) (pid ppid : Z) : tracer :=
  let s := set_pids s (fst (pid_tracker_add (t_pids s) pid ppid)) in
  set_bpf s (add_tracked_pid_to_bpf pid (t_bpf s)).

Definition on_exec (s : tracer) (e : event) : option tracer :=
  if should_track_event_process (t_pids s) (e_comm e) (e_pid e) (e_ppid e) then
    line ← print_exec_event e; Some (print (track s (e_pid e) (e_ppid e)) line)
  else
    match tr_filter_mode (t_pids s) with
    | FILTER_MODE_FILTER => Some s
    | mode =>
        let s := if decide (mode = FILTER_MODE_PROC) then track s (e_pid e) (e_ppid e) else s in
        line ← print_exec_event e; Some (print s line)
    end.

Definition on_file_operation (s : tracer) (e : event) : option tracer :=
  match e_union e with
  | UFileOp filepath _ flags is_open =>
      if negb is_open then Some s
      else if negb (should_report_file_ops (t_pids s) (e_pid e)) then Some s
      else
        '(files, out, warning_msg, count) ←
          get_file_open_count (w_proc w) (verbose env) (t_files s) (e_pid e) (e_comm e) filepath flags (e_timestamp_ns e);
        let s := print (set_files s files) out in
        if count =? 0 then Some s
        else
          line ← print_file_open_event (w_proc w) (e_comm e) (e_pid e) filepath flags (e_timestamp_ns e) count warning_msg;
          Some (print s line)
  | _ => Some s
  end.

(** The probes send the three event types only: the handler's default branch,
    which prints an UNKNOWN line, has no event. *)
Definition handle_event (fuel : nat) (s : tracer) (e : event) : option tracer :=
  match e_type e with
  | EVENT_TYPE_PROCESS => if e_exit_event e then on_exit fuel s e else on_exec s e
  | EVENT_TYPE_BASH_READLINE =>
      if negb (should_report_bash_readline (t_pids s) (e_pid e)) then Some s
      else line ← print_bash_readline_event e; Some (print s line)
  | EVENT_TYPE_FILE_OPERATION => on_file_operation s e
  end.

End tracer.

Arguments tracer : clear implicits.
Arguments Tracer {hmap}.
Arguments t_pids {hmap}.
Arguments t_files {hmap}.
Arguments t_bpf {hmap}.
Arguments t_out {hmap}.

(** ** The main loop *)

(** What can happen while the program runs: a probe fires, or the poll hands
    the oldest sample to the handler. *)
Inductive item := Fire (p : probe) (c : bpf_ctx) | Deliver.

(** One turn of the loop: the flag [exiting] when it is tested, what happens
    before and after the poll returns, the poll's result, the clock, the CPU
    count and allocation [check_overflow] sees, and the file system the refresh
    of the cgroup map walks. *)
Record turn := Turn {
  tn_exiting : bool;
  tn_items : list item;
  tn_err : Z;
  tn_now : Z;
  tn_cpus : Z;
  tn_alloc : bool;
  tn_fs : filesystem;
}.

Definition EINTR : Z := 4.

Section main.
Context `{BpfHash hmap} (env : env) (w : world) (cfg : bpf_config) (fuel : nat).

(** Programs that are not loaded do not run. *)
Definition run_item (s : tracer hmap) (i : item) : option (tracer hmap) :=
  match i with
  | Fire p c =>
      if configure_optional_programs env p then b ← run_probe cfg p (t_bpf s) c; Some (set_bpf s b) else Some s
  | Deliver =>
      match rb (t_bpf s) with
      | [] => Some s
      | e :: rest => handle_event env w fuel (set_bpf s (set_rb (t_bpf s) rest)) e
      end
  end.

(** The flush of the aggregation map, printed. *)
Definition flush_all (s : tracer hmap) : option (tracer hmap) :=
  '(agg, calls) ← flush_agg_map fuel (event_agg_map (t_bpf s));
  out ← flush_output (w_readlink w) calls;
  Some (print (set_bpf s (set_agg (t_bpf s) agg (agg_overflow_count (t_bpf s)))) out).

Definition report_overflow (cpus : Z) (alloc : bool) (s : tracer hmap) : tracer hmap :=
  let '(o, _, out) := check_overflow cpus alloc (agg_overflow_count (t_bpf s)) in
  print (set_bpf s (set_agg (t_bpf s) (event_agg_map (t_bpf s)) o)) out.

Definition refresh_cgroups (fs : filesystem) (s : tracer hmap) : option (tracer hmap) :=
  '(m, _) ← populate_cgroup_filter_map fs fuel 1025 (cgroup_filter_path env) true (tracked_cgroups (t_bpf s));
  Some (set_bpf s (set_tracked_cgroups (t_bpf s) m)).

(** The times of the last flush and the last refresh. *)
Record timers := Timers { last_flush_time : Z; last_cgroup_refresh_time : Z }.

Definition periodic (t : turn) (s : tracer hmap) (tm : timers) : option (tracer hmap * timers) :=
  let now := tn_now t in
  '(s, refresh) ←
    (if cgroup_filter_enabled env && cgroup_filter_children env && (2 <=? u64 (now - last_cgroup_refresh_time tm))
     then s' ← refresh_cgroups (tn_fs t) s; Some (s', now)
     else Some (s, last_cgroup_refresh_time tm));
  if FLUSH_INTERVAL_S <=? u64 (now - last_flush_time tm)
  then s ← flush_all s; Some (report_overflow (tn_cpus t) (tn_alloc t) s, Timers now refresh)
  else Some (s, Timers (last_flush_time tm) refresh).

(** The loop, turn by turn, with [err]; the result is the state and, when the
    loop was left, [err]. *)
Fixpoint main_loop (turns : list turn) (s : tracer hmap) (tm : timers) (err : Z)
    : option (tracer hmap * option Z) :=
  match turns with
  | [] => Some (s, None)
  | t :: rest =>
      if tn_exiting t then Some (s, Some err)
      else
        s ← fold_opt run_item s (tn_items t);
        let err := tn_err t in
        if err =? - EINTR then Some (s, Some 0)
        else if err <? 0 then Some (s, Some err)
        else
          '(s, tm) ← periodic t s tm;
          main_loop rest s tm err
  end.

End main.

(** ** The program *)

(** What libbpf answers at startup, the fresh maps, and the environment. *)
Record startup (hmap : Type -> Type -> Type) := Startup {
  su_open : bool;
  su_load_err : Z;
  su_attach_err : Z;
  su_ring_buffer : bool;
  su_maps : pstate hmap;
  su_fs : filesystem;
  su_clk_start : clocks;
  su_clk_end : clocks;
}.
Arguments Startup {hmap}.
Arguments su_open {hmap}.
Arguments su_load_err {hmap}.
Arguments su_attach_err {hmap}.
Arguments su_ring_buffer {hmap}.
Arguments su_maps {hmap}.
Arguments su_fs {hmap}.
Arguments su_clk_start {hmap}.
Arguments su_clk_end {hmap}.

Inductive outcome (hmap : Type -> Type -> Type) := Exited (out : bytes) (code : Z) | Running (s : tracer hmap).
Arguments Exited {hmap}.
Arguments Running {hmap}.

Definition exit_code (err : Z) : Z := if err <? 0 then - err else 0.

Section program.
Context `{BpfHash hmap} (env : env) (w : world) (fuel : nat).

Definition init_tracer (maps : pstate hmap) : tracer hmap :=
  Tracer (pid_tracker_init (command_list env) (Z.of_nat (length (command_list env))) (env_filter_mode env) (env_pid env))
    (FileState [] []) maps [].

(** The end of the program once the loop was left. *)
Definition shutdown (clk : clocks) (s : tracer hmap) : option (tracer hmap) :=
  s ← flush_all w fuel s; Some (print s (print_clock_sync_anchor clk (lit "end"))).

(** [main] after the command line was parsed. *)
Definition main (su : startup hmap) (turns : list turn) : option (outcome hmap) :=
  if cgroup_filter_children env && negb (cgroup_filter_enabled env) then Some (Exited [] 1)
  else if negb (su_open su) then Some (Exited [] 1)
  else
    match (if cgroup_filter_enabled env then resolve_cgroup_id_from_path (su_fs su) (cgroup_filter_path env) else Some 0) with
    | None => Some (Exited [] EINVAL)
    | Some cgroup_filter_id =>
        if negb (su_load_err su =? 0) then Some (Exited [] (exit_code (su_load_err su)))
        else
          '(cgroups, rc) ←
            (if cgroup_filter_enabled env && cgroup_filter_children env
             then populate_cgroup_filter_map (su_fs su) fuel 1025 (cgroup_filter_path env) true (tracked_cgroups (su_maps su))
             else Some (tracked_cgroups (su_maps su), 0));
          if rc <? 0 then Some (Exited [] (- rc))
          else
            let s := fst (seed_initial_pids env (init_tracer (set_tracked_cgroups (su_maps su) cgroups))) in
            if negb (su_attach_err su =? 0) then Some (Exited [] (exit_code (su_attach_err su)))
            else if negb (su_ring_buffer su) then Some (Exited [] 1)
            else
              let s := print s (print_clock_sync_anchor (su_clk_start su) (lit "start")) in
              '(s, stop) ← main_loop env w (rodata env cgroup_filter_id) fuel turns s (Timers 0 0) 0;
              match stop with
              | None => Some (Running s)
              | Some err =>
                  s ← shutdown (su_clk_end su) s;
                  Some (Exited (t_out s) (exit_code err))
              end
    end.
End program.
