(* ===== verification/EventLines.v ===== *)
(** * What the output of the process tracer reports

    A line of output is an object of members.  Read byte by byte, without
    decoding, the members can be told apart whatever bytes the strings hold, and
    a line that can be read is nothing but its members, with its only newline at
    the end ([scan_line_sound]); when the strings are plain text the line is
    JSON.  A SUMMARY line reports the events of an aggregated entry and an
    AGG_MAP_OVERFLOW warning those that found the map full, the other lines
    report none: the count is read off the text. *)

From S2P Require Import Prelude CLib Unicode Jsonl BpfFormat BpfMap ProcessBpf MapFlush MapFlushSpec.

(** ** Reading a line byte by byte *)

(** The body of a string, which holds no newline, and what follows the closing
    quote. *)
Definition scan_string (s : bytes) : option (bytes * bytes) :=
  '(b, r) ← split_string s; if existsb (Z.eqb 10) b then None else Some (b, r).

(** The characters of numbers and of [true], [false] and [null]. *)
Definition word_char (c : Z) : bool := num_char c || ((97 <=? c) && (c <=? 122)).

Definition scan_value (s : bytes) : option (bytes * bytes) :=
  match s with
  | [] => None
  | c :: s1 =>
      if c =? 34 then '(b, r) ← scan_string s1; Some (quoted b, r)
      else if word_char c then let t := take_while word_char s in Some (t, drop (length t) s)
      else None
  end.

(** What follows a given character. *)
Definition expect (c : Z) (s : bytes) : option bytes :=
  match s with d :: r => if d =? c then Some r else None | [] => None end.

(** ["key":value], then [,] and more members or [}] and the end of line. *)
Fixpoint scan_members (fuel : nat) (s : bytes) : option (list (bytes * bytes)) :=
  match fuel with
  | O => None
  | S f =>
      s ← expect 34 s; '(k, r) ← scan_string s; r ← expect 58 r; '(v, r) ← scan_value r;
      if bool_decide (r = [125; 10]) then Some [(k, v)]
      else r ← expect 44 r; ms ← scan_members f r; Some ((k, v) :: ms)
  end.

Definition scan_line (s : bytes) : option (list (bytes * bytes)) := r ← expect 123 s; scan_members (length r) r.

(** The first member of that name. *)
Fixpoint field (k : bytes) (ms : list (bytes * bytes)) : option bytes :=
  match ms with
  | [] => None
  | (k', v) :: ms => if bool_decide (k' = k) then Some v else field k ms
  end.

(** The events the members of a line report. *)
Definition members_events (ms : list (bytes * bytes)) : Z :=
  match field (lit "event") ms with
  | Some name =>
      if bool_decide (name = quoted (lit "SUMMARY")) then default 0 (dec_value <$> field (lit "count") ms)
      else if bool_decide (name = quoted (lit "WARNING")) then default 0 (dec_value <$> field (lit "overflow_count") ms)
      else 0
  | None => 0
  end.

Definition line_events (line : bytes) : Z := default 0 (members_events <$> scan_line line).

Example line_events_ex :
  (line_events (jlit "{'timestamp':5,'event':'SUMMARY','count':12}" ++ [10]),
   line_events (jlit "{'event':'WARNING','type':'AGG_MAP_OVERFLOW','overflow_count':7}" ++ [10]),
   line_events (jlit "{'event':'FILE_OPEN','count':3}" ++ [10])) = (12, 7, 0).
Proof. vm_compute. reflexivity. Qed.

(** A quote inside a string does not end it, a newline is no part of one. *)
Example scan_line_ex :
  (scan_line (jlit "{'comm':'a\'b" ++ [255; 1] ++ jlit "','pid':-7}" ++ [10]), scan_line (jlit "{'comm':'" ++ [10] ++ jlit "'}" ++ [10])) =
  (Some [(lit "comm", quoted (jlit "a\'b" ++ [255; 1])); (lit "pid", lit "-7")], None).
Proof. vm_compute. reflexivity. Qed.

(** ** Texts that stay inside their string *)

(** The reader goes through the text, wherever it stands. *)
Definition closed (b : bytes) : Prop :=
  (10 ∉ b) /\ forall r, split_string (b ++ r) = '(t, r') ← split_string r; Some (b ++ t, r').

Lemma closed_nil : closed [].
Proof. split; [apply not_elem_of_nil|]. intros r. cbn [app]. by destruct (split_string r) as [[t r']|]. Qed.

Lemma closed_app a b : closed a -> closed b -> closed (a ++ b).
Proof.
  intros [Ha Sa] [Hb Sb]. split; [by rewrite not_elem_of_app|]. intros r. rewrite <- app_assoc, Sa, Sb.
  destruct (split_string r) as [[t r']|]; [|done]. cbn [mbind option_bind]. by rewrite app_assoc.
Qed.

Lemma closed_quote b r : closed b -> split_string (b ++ 34 :: r) = Some (b, r).
Proof. intros [_ Hs]. rewrite Hs. cbn. by rewrite app_nil_r. Qed.

Lemma closed_scan b r : closed b -> scan_string (b ++ 34 :: r) = Some (b, r).
Proof.
  intros Hb. unfold scan_string. rewrite closed_quote by done. cbn [mbind option_bind]. destruct (existsb (Z.eqb 10) b) eqn:E; [|done].
  apply existsb_exists in E as (x & Hx & <-%Z.eqb_eq). apply list_elem_of_In in Hx. by destruct Hb.
Qed.

(** Escapes are closed, whatever they escape. *)
Lemma closed_esc1 c : closed (esc1 c).
Proof.
  assert (forall e, e <> 10 -> closed [92; e]) as Hpair.
  { intros e He. split; [rewrite !not_elem_of_cons; split_and!; [lia|done|apply not_elem_of_nil]|]. intros r. cbn [app split_string].
    change (92 =? 34) with false. change (92 =? 92) with true. by destruct (split_string r) as [[t r']|]. }
  unfold esc1. destruct (Z.eqb_spec c 92); [by apply Hpair|]. destruct (Z.eqb_spec c 34); [by apply Hpair|].
  destruct (Z.eqb_spec c 10); [by apply Hpair|]. destruct (Z.eqb_spec c 9); [by apply Hpair|].
  split; [rewrite not_elem_of_cons; split; [done|apply not_elem_of_nil]|]. intros r. cbn [app split_string].
  decide_tests. by destruct (split_string r) as [[t r']|].
Qed.

Lemma closed_escs t : closed (escs t).
Proof. induction t as [|c t IH]; [apply closed_nil|]. change (escs (c :: t)) with (esc1 c ++ escs t). apply closed_app; [apply closed_esc1|done]. Qed.

(** A JSON string body is closed. *)
Lemma split_closed n b : (length b <= n)%nat -> split_string (b ++ [34]) = Some (b, []) ->
  forall r, split_string (b ++ r) = '(t, r') ← split_string r; Some (b ++ t, r').
Proof.
  revert b. induction n as [|n IH]; intros b Hn Hs r; destruct b as [|c b]; try (by apply closed_nil); [simpl in Hn; lia|]. cbn [app split_string] in *.
  destruct (c =? 34); [done|]. destruct (c =? 92).
  - destruct b as [|e b]; [done|]. cbn [app] in *. destruct (split_string (b ++ [34])) as [[t r']|] eqn:E; [|done]. injection Hs as -> ->.
    rewrite (IH b); [|simpl in Hn; lia|done]. by destruct (split_string r) as [[t r']|].
  - destruct (split_string (b ++ [34])) as [[t r']|] eqn:E; [|done]. injection Hs as -> ->.
    rewrite (IH b); [|simpl in Hn; lia|done]. by destruct (split_string r) as [[t r']|].
Qed.

Lemma hex_no_newline h d : hex_val h = Some d -> h <> 10.
Proof. by intros E ->. Qed.

Lemma json_body_no_newline b x : json_body b = Some x -> 10 ∉ b.
Proof.
  unfold json_body. generalize (length b) as f. intros f. revert b x.
  induction f as [|f IH]; intros b x; (destruct b as [|c b]; [intros _; apply not_elem_of_nil|]); [done|]. cbn [json_body_fuel].
  destruct (Z.eqb_spec c 92) as [->|].
  - destruct b as [|e b]; [done|]. destruct (Z.eqb_spec e 117) as [->|].
    + destruct b as [|h3 [|h2 [|h1 [|h0 b]]]]; try done.
      destruct (hex_val h3) eqn:E3; [|done]. destruct (hex_val h2) eqn:E2; [|done]. destruct (hex_val h1) eqn:E1; [|done]. destruct (hex_val h0) eqn:E0; [|done].
      cbn [mbind option_bind]. destruct (_ && _); [done|]. destruct (json_body_fuel f b) eqn:E; [|done]. intros _.
      apply hex_no_newline in E3, E2, E1, E0. apply IH in E. rewrite !not_elem_of_cons. split_and!; (done || congruence).
    + destruct (simple_escape e) eqn:Ee; [|done]. cbn [mbind option_bind]. destruct (json_body_fuel f b) eqn:E; [|done]. intros _. apply IH in E.
      rewrite !not_elem_of_cons. split_and!; [done| |done]. by intros <-.
  - destruct ((c =? 34) || (c <? 32)) eqn:Ec; [done|]. bool_to_prop.
    destruct (utf8_next (c :: b)) as [[cp n']|] eqn:Eu; [|done]. cbn [mbind option_bind].
    destruct (json_body_fuel f (drop n' (c :: b))) eqn:E; [|done]. intros _. apply IH in E.
    apply utf8_next_inv in Eu as (c' & cs & t & Hs & -> & _ & Hcs & _). simplify_eq/=. rewrite drop_app_length in E.
    rewrite not_elem_of_cons, not_elem_of_app. split_and!; [lia| |done].
    intros Hin. rewrite Forall_forall in Hcs. apply Hcs, is_cont_spec in Hin. lia.
Qed.

Lemma closed_body b x : json_body b = Some x -> closed b.
Proof.
  intros Hb. split; [by eapply json_body_no_newline|]. apply (split_closed (length b)); [done|]. by eapply split_string_body.
Qed.

(** ** Members *)

(** A value the reader delimits: a closed string or a word. *)
Definition raw_value (v : bytes) : Prop :=
  (exists b, v = quoted b /\ closed b) \/ (v <> [] /\ Forall (fun c => word_char c = true) v).

Definition raw_members (ms : list (bytes * bytes)) : Prop := Forall (fun m => closed m.1 /\ raw_value m.2) ms.

Lemma scan_raw_value v r : raw_value v -> match r with [] => True | c :: _ => word_char c = false end -> scan_value (v ++ r) = Some (v, r).
Proof.
  intros [(b & -> & Hb)|[Hne Hv]] Hr.
  - unfold quoted. cbn [app]. rewrite <- app_assoc. cbn [app scan_value]. change (34 =? 34) with true. cbn match.
    rewrite closed_scan by done. done.
  - destruct v as [|c v]; [done|]. cbn [app scan_value]. pose proof Hv as Hv'. apply Forall_cons in Hv' as [Hc _].
    rewrite (proj2 (Z.eqb_neq c 34)); [|by intros ->]. rewrite Hc. change (c :: v ++ r) with ((c :: v) ++ r).
    rewrite take_while_app by done. by rewrite drop_app_length.
Qed.

Lemma expect_here c r : expect c (c :: r) = Some r.
Proof. cbn [expect]. by rewrite Z.eqb_refl. Qed.

Lemma expect_sound c s r : expect c s = Some r -> s = c :: r.
Proof. destruct s as [|d s]; [done|]. cbn [expect]. destruct (Z.eqb_spec d c) as [->|]; [by intros [= ->]|done]. Qed.

Lemma scan_members_render ms f : ms <> [] -> raw_members ms -> (length ms <= f)%nat -> scan_members f (render_members ms ++ [125; 10]) = Some ms.
Proof.
  intros Hne Hms. revert f Hne. induction Hms as [|[k v] ms [Hk Hv] _ IH]; intros f Hne Hf; [done|]. cbn [fst snd] in *.
  destruct f as [|f]; [simpl in Hf; lia|]. simpl in Hf.
  assert (exists tl, render_members ((k, v) :: ms) ++ [125; 10] = 34 :: k ++ 34 :: 58 :: v ++ tl /\
    ((ms = [] /\ tl = [125; 10]) \/ (ms <> [] /\ tl = 44 :: render_members ms ++ [125; 10]))) as (tl & -> & Htl).
  { destruct ms as [|m ms]; [exists [125; 10]|eexists]; cbn [render_members app];
      rewrite <- !app_assoc; cbn [app]; rewrite <- ?app_assoc; eauto. }
  cbn [scan_members]. rewrite expect_here. cbn [mbind option_bind]. rewrite closed_scan by done. cbn [mbind option_bind].
  rewrite expect_here. cbn [mbind option_bind].
  destruct Htl as [[-> ->]|[Hms' ->]]; rewrite (scan_raw_value _ _ Hv) by done; cbn [mbind option_bind]; [done|].
  rewrite bool_decide_eq_false_2 by done. rewrite expect_here. cbn [mbind option_bind].
  by rewrite IH by (done || lia).
Qed.

(** The reader finds the members of a line. *)
Lemma scan_line_render ms : ms <> [] -> raw_members ms -> scan_line (render_line ms) = Some ms.
Proof.
  intros Hne Hms. unfold render_line. cbn [app]. unfold scan_line. rewrite expect_here. cbn [mbind option_bind]. apply scan_members_render; [done|done|].
  rewrite length_app. pose proof (render_members_length ms). lia.
Qed.

(** And a line it reads is nothing but those members. *)
Lemma split_string_sound n s b r : (length s <= n)%nat -> split_string s = Some (b, r) -> s = b ++ 34 :: r.
Proof.
  revert s b. induction n as [|n IH]; intros s b Hn; (destruct s as [|c s]; [done|]); cbn [length] in Hn; [lia|]. cbn [split_string].
  destruct (Z.eqb_spec c 34) as [->|]; [by intros [= <- <-]|]. destruct (c =? 92).
  - destruct s as [|e s]; [done|]. destruct (split_string s) as [[t r']|] eqn:E; [|done]. intros [= <- <-].
    cbn [length] in Hn. apply IH in E as ->; [done|lia].
  - destruct (split_string s) as [[t r']|] eqn:E; [|done]. intros [= <- <-]. apply IH in E as ->; [done|lia].
Qed.

Lemma scan_string_sound s b r : scan_string s = Some (b, r) -> s = b ++ 34 :: r /\ (10 ∉ b).
Proof.
  unfold scan_string. destruct (split_string s) as [[t r']|] eqn:E; [|done]. cbn [mbind option_bind]. destruct (existsb (Z.eqb 10) t) eqn:En; [done|].
  intros [= <- <-]. split; [by apply (split_string_sound (length s))|]. intros Hin. apply not_true_iff_false in En. apply En, existsb_exists.
  exists 10. split; [by apply list_elem_of_In|done].
Qed.

Lemma scan_value_sound s v r : scan_value s = Some (v, r) -> s = v ++ r /\ (10 ∉ v).
Proof.
  destruct s as [|c s]; [done|]. cbn [scan_value]. destruct (Z.eqb_spec c 34) as [->|].
  - destruct (scan_string s) as [[b r']|] eqn:E; [|done]. cbn [mbind option_bind]. intros [= <- <-]. apply scan_string_sound in E as [-> Hb].
    unfold quoted. cbn [app]. rewrite <- app_assoc. split; [done|]. rewrite not_elem_of_cons, not_elem_of_app, not_elem_of_cons. split_and!; (done || apply not_elem_of_nil).
  - destruct (word_char c); [|done]. intros E. apply (inj Some) in E. assert (v = take_while word_char (c :: s)) as -> by (by apply (f_equal fst) in E).
    assert (r = drop (length (take_while word_char (c :: s))) (c :: s)) as -> by (by apply (f_equal snd) in E). split; [by rewrite take_while_rest|].
    intros Hin. apply (proj1 (Forall_forall _ _) (take_while_all word_char (c :: s))) in Hin. discriminate Hin.
Qed.

Lemma scan_members_sound f s ms : scan_members f s = Some ms ->
  s = render_members ms ++ [125; 10] /\ ms <> [] /\ (10 ∉ render_members ms).
Proof.
  revert s ms. induction f as [|f IH]; intros s ms; [done|]. cbn [scan_members].
  destruct (expect 34 s) as [s1|] eqn:E1; [|done]. apply expect_sound in E1 as ->. cbn [mbind option_bind].
  destruct (scan_string s1) as [[k r]|] eqn:E2; [|done]. apply scan_string_sound in E2 as [-> Hk]. cbn [mbind option_bind].
  destruct (expect 58 r) as [r1|] eqn:E3; [|done]. apply expect_sound in E3 as ->. cbn [mbind option_bind].
  destruct (scan_value r1) as [[v r2]|] eqn:E4; [|done]. apply scan_value_sound in E4 as [-> Hv]. cbn [mbind option_bind].
  assert (forall tl, (10 ∉ tl) -> 10 ∉ ([34] ++ k ++ [34; 58] ++ v ++ tl)) as Hno.
  { intros tl Ht. rewrite !not_elem_of_app. split_and!; try done; rewrite ?not_elem_of_cons; split_and!; (done || apply not_elem_of_nil). }
  case_bool_decide as Hr; [subst r2|].
  - intros [= <-]. split; [|split; [done|]]; cbn [render_members].
    + cbn [app]. by rewrite <- !app_assoc.
    + specialize (Hno [] (not_elem_of_nil _)). by rewrite app_nil_r in Hno.
  - destruct (expect 44 r2) as [r3|] eqn:E5; [|done]. apply expect_sound in E5 as ->. cbn [mbind option_bind].
    destruct (scan_members f r3) as [ms'|] eqn:E6; [|done]. apply IH in E6 as (-> & Hne & Hms). intros [= <-]. destruct ms' as [|m ms']; [done|].
    change (render_members ((k, v) :: m :: ms')) with ([34] ++ k ++ [34; 58] ++ v ++ [44] ++ render_members (m :: ms')).
    split; [cbn [app]; rewrite <- !app_assoc; cbn [app]; rewrite <- ?app_assoc; done|]. split; [done|]. apply Hno.
    apply not_elem_of_cons. by split.
Qed.

Lemma scan_line_sound l ms : scan_line l = Some ms -> ms <> [] /\ exists body, l = render_line ms /\ l = body ++ [10] /\ (10 ∉ body).
Proof.
  unfold scan_line. destruct (expect 123 l) as [r|] eqn:E; [|done]. apply expect_sound in E as ->. cbn [mbind option_bind].
  intros Hm. apply scan_members_sound in Hm as (-> & Hne & Hn). split; [done|]. exists (123 :: render_members ms ++ [125]). split; [done|].
  split; [cbn [app]; by rewrite <- app_assoc|]. rewrite not_elem_of_cons, not_elem_of_app, not_elem_of_cons. split_and!; (done || apply not_elem_of_nil).
Qed.

(** What is known of the members of a line: that the reader finds them, and,
    under the condition [J] that the texts shown are plain, that they are JSON. *)
Definition fine_value (J : Prop) (v : bytes) : Prop := raw_value v /\ (J -> exists val, value_text v val).

Definition fine_members (J : Prop) (ms : list (bytes * bytes)) : Prop := raw_members ms /\ (J -> members_ok ms).

Lemma num_word t : Forall (fun c => num_char c = true) t -> Forall (fun c => word_char c = true) t.
Proof. intros Ht. eapply Forall_impl; [exact Ht|]. intros c Hc. unfold word_char. by rewrite Hc. Qed.

Lemma value_raw v val : value_text v val -> raw_value v.
Proof.
  intros [b cps Hb|t Hn Hc| | |].
  - left. exists b. split; [done|]. by eapply closed_body.
  - right. split; [by intros ->|by apply num_word].
  - right. split; [done|]. by repeat constructor.
  - right. split; [done|]. by repeat constructor.
  - right. split; [done|]. by repeat constructor.
Qed.

Section fine.
Context (J : Prop).

Lemma fine_text v val : value_text v val -> fine_value J v.
Proof. intros Hv. split; [by eapply value_raw|]. intros _. by exists val. Qed.

Lemma fine_u n : 0 <= n -> fine_value J (fmt_u n).
Proof. intros Hn. eapply fine_text. by apply fmt_u_value. Qed.

Lemma fine_d n : fine_value J (fmt_d n).
Proof. eapply fine_text. apply fmt_d_value. Qed.

Lemma fine_quoted b cps : json_body b = Some cps -> fine_value J (quoted b).
Proof. intros Hb. eapply fine_text. by apply vt_str. Qed.

Lemma fine_bool (b : bool) : fine_value J (if b then lit "true" else lit "false").
Proof. eapply fine_text. apply vt_bool. Qed.

(** An escaped text, which need not be plain. *)
Lemma fine_escs t : (J -> exists cps, plain_text t cps) -> fine_value J (quoted (escs t)).
Proof.
  intros Ht. split; [left; exists (escs t); split; [done|apply closed_escs]|]. intros HJ. destruct (Ht HJ) as [cps Hp].
  eexists. by apply plain_value.
Qed.

Lemma fine_nil : fine_members J [].
Proof. split; [constructor|]. intros _. apply members_ok_nil. Qed.

(** A member whose key is a plain literal. *)
Lemma fine_cons k v ms : json_body k = Some k -> fine_value J v -> fine_members J ms -> fine_members J ((k, v) :: ms).
Proof.
  intros Hk [Hv Hj] [Hms Hm]. split; [constructor; [split; [by eapply closed_body|done]|done]|].
  intros HJ. destruct (Hj HJ) as [val Hval]. eapply members_ok_lit; [done|exact Hval|by apply Hm].
Qed.

Lemma fine_app l1 l2 : fine_members J l1 -> fine_members J l2 -> fine_members J (l1 ++ l2).
Proof. intros [H1 J1] [H2 J2]. split; [by apply Forall_app|]. intros HJ. apply members_ok_app; auto. Qed.

(** Members that are JSON anyway. *)
Lemma fine_ok ms : members_ok ms -> fine_members J ms.
Proof.
  intros Hms. split; [|done]. destruct Hms as [vals Hf]. induction Hf as [|[k v] [key val] ms vals [Hk Hv] _ IH]; [constructor|].
  constructor; [|done]. split; [by eapply closed_body|by eapply value_raw].
Qed.
End fine.

Create HintDb line.
#[export] Hint Resolve fine_u fine_d fine_bool fine_nil : line.
#[export] Hint Extern 1 (fine_value _ (quoted (lit _))) => (eapply fine_quoted; reflexivity) : line.
#[export] Hint Extern 1 (fine_value _ (quoted [])) => (eapply fine_quoted; reflexivity) : line.

(** The members of a list whose keys are literals. *)
Ltac fine_list := repeat (first [apply fine_nil | apply fine_cons; [reflexivity|auto with line|]]).

(** ** Looking a member up *)

Lemma field_other k k' v ms : k' <> k -> field k ((k', v) :: ms) = field k ms.
Proof. intros Hk. cbn [field]. by rewrite bool_decide_eq_false_2. Qed.

Lemma field_here k v ms : field k ((k, v) :: ms) = Some v.
Proof. cbn [field]. by rewrite bool_decide_eq_true_2. Qed.

(** Look up a member of a list whose keys are literals. *)
Ltac find_field := repeat (rewrite field_other by (vm_compute; discriminate)); rewrite ?field_here.

(** The events named by the lines other than summaries and warnings. *)
Definition other_event (name : bytes) : bool := negb (bool_decide (name = lit "SUMMARY")) && negb (bool_decide (name = lit "WARNING")).

Lemma quoted_inj a b : quoted a = quoted b -> a = b.
Proof. unfold quoted. intros [= E]. by apply app_inj_tail in E as [? _]. Qed.

Lemma other_members v name ms : other_event name = true -> members_events ((lit "timestamp", v) :: (lit "event", quoted name) :: ms) = 0.
Proof.
  intros Ho. unfold members_events. find_field. unfold other_event in Ho. apply andb_true_iff in Ho as [H1 H2].
  apply negb_true_iff, bool_decide_eq_false in H1, H2.
  by rewrite !bool_decide_eq_false_2 by (by intros ?%quoted_inj).
Qed.

(** ** Lines *)

(** A line that reports [n] events. *)
Definition event_line (J : Prop) (n : Z) (line : bytes) : Prop :=
  exists m ms, line = render_line (m :: ms) /\ fine_members J (m :: ms) /\ members_events (m :: ms) = n.

Lemma event_line_events J n line : event_line J n line -> is_Some (scan_line line) /\ line_events line = n.
Proof.
  intros (m & ms & -> & [Hr _] & <-). unfold line_events. rewrite scan_line_render by done. by split; [eexists|].
Qed.

Lemma event_line_json (J : Prop) n line : J -> event_line J n line -> is_Some (parse_line line).
Proof. intros HJ (m & ms & -> & [_ Hj] & _). apply json_line_parses. exists m, ms. auto. Qed.

(** A line of another event, built from members and a tail of members. *)
Lemma event_line_tail J v name ms tail :
  fine_members J ((lit "timestamp", v) :: (lit "event", quoted name) :: ms) -> fine_members J tail -> other_event name = true ->
  event_line J 0 (lit "{" ++ [34] ++ lit "timestamp" ++ [34; 58] ++ v ++ members_tail ((lit "event", quoted name) :: ms)
                 ++ members_tail tail ++ lit "}" ++ [10]).
Proof.
  intros Hms Ht Ho. do 2 eexists. split; [apply line_tail_render|]. split; [by apply (fine_app J _ _ Hms Ht)|by apply other_members].
Qed.

(** A line without a tail. *)
Lemma event_line_values J n k v ms :
  fine_members J ((k, v) :: ms) -> members_events ((k, v) :: ms) = n ->
  event_line J n (lit "{" ++ [34] ++ k ++ [34; 58] ++ v ++ members_tail ms ++ lit "}" ++ [10]).
Proof.
  intros Hf Hn. exists (k, v), ms. split; [|done]. pose proof (line_tail_render k v ms []) as E. rewrite app_nil_r in E. exact E.
Qed.

(** ** Texts of several lines *)

Definition lines_events (ls : list bytes) : Z := foldr (fun l a => line_events l + a) 0 ls.

Lemma lines_events_app l1 l2 : lines_events (l1 ++ l2) = lines_events l1 + lines_events l2.
Proof. unfold lines_events. induction l1 as [|l l1 IH]; cbn [app foldr]; lia. Qed.

(** Lines that report [n] events in all. *)
Definition event_lines (J : Prop) (n : Z) (out : bytes) : Prop :=
  exists ls, out = concat ls /\ Forall (fun l => exists k, event_line J k l) ls /\ lines_events ls = n.

Section lines.
Context (J : Prop).

Lemma event_lines_nil : event_lines J 0 [].
Proof. by exists []. Qed.

Lemma event_lines_one n l : event_line J n l -> event_lines J n l.
Proof.
  intros Hl. exists [l]. split; [cbn; by rewrite app_nil_r|]. split; [constructor; [by exists n|done]|].
  destruct (event_line_events J n l Hl) as [_ Hn]. cbn. lia.
Qed.

Lemma event_lines_app n m a b : event_lines J n a -> event_lines J m b -> event_lines J (n + m) (a ++ b).
Proof.
  intros (la & -> & Ha & <-) (lb & -> & Hb & <-). exists (la ++ lb). rewrite concat_app. split; [done|].
  split; [by apply Forall_app|apply lines_events_app].
Qed.

(** Lines that report nothing before and after. *)
Lemma event_lines_before n a b : event_lines J 0 a -> event_lines J n b -> event_lines J n (a ++ b).
Proof. apply (event_lines_app 0 n). Qed.

Lemma event_lines_after n a b : event_lines J n a -> event_lines J 0 b -> event_lines J n (a ++ b).
Proof. intros Ha Hb. rewrite <- (Z.add_0_r n). by apply event_lines_app. Qed.

Lemma event_lines_eq n m a : n = m -> event_lines J n a -> event_lines J m a.
Proof. by intros ->. Qed.

(** What a reader of the text finds. *)
Lemma event_lines_read n a : event_lines J n a ->
  exists ls, a = concat ls /\ Forall (fun l => is_Some (scan_line l)) ls /\ lines_events ls = n /\ (J -> Forall (fun l => is_Some (parse_line l)) ls).
Proof.
  intros (ls & -> & Hls & Hn). exists ls. split; [done|]. split; [|split; [done|intros HJ]]; (eapply Forall_impl; [exact Hls|]); intros l [k Hl].
  - by eapply event_line_events.
  - exact (event_line_json J k l HJ Hl).
Qed.

(** ** Summaries *)

Lemma summary_events readlink key val :
  0 <= v_count val -> entry_ok key val ->
  (J -> exists cps, plain_text (cstr (v_comm val)) cps) -> (J -> exists cps, plain_text (entry_detail readlink key) cps) ->
  (J -> exists cps, plain_text (cstr (v_extra val)) cps) ->
  exists line, print_summary_json readlink key val = Some line /\ event_line J (v_count val) line.
Proof.
  intros Hn Hok Hc Hd He. eexists. split; [by apply summary_render|]. pose proof (eok_nums _ _ Hok) as (Hts & Hpid & _).
  assert (fine_members J (summary_members readlink key val)) as Hf.
  { unfold summary_members. repeat apply fine_app.
    - fine_list; try (by apply fine_escs). eapply fine_quoted, event_type_name_body.
    - destruct (Z.ltb_spec 0 (v_total_bytes val)); [|apply fine_nil]. fine_list. apply fine_u. lia.
    - destruct (entry_fd key); fine_list.
    - destruct (cstr (v_extra val)) eqn:E; [apply fine_nil|]. rewrite <- E in *. fine_list. by apply fine_escs. }
  unfold summary_members in *. cbn [app] in *. do 2 eexists. split; [reflexivity|]. split; [exact Hf|].
  unfold members_events. find_field. rewrite bool_decide_eq_true_2 by done. find_field. cbn. by apply fmt_u_spec.
Qed.
End lines.
