(* ===== verification/ProcessLines.v ===== *)
(** * The lines of the process tracer

    Every printer of [process.c] on events with strings of any bytes: it
    succeeds, and the line is one object whose members the reader of
    [EventLines] finds; when the strings are plain text the line is JSON.  Then
    the handler: it never fails, keeps its tables, and its books on the events
    of the aggregation map balance.  Everything is stated for the strings with a
    property [good], which is any text or plain text where it is used. *)

From S2P Require Import Prelude CLib Unicode Jsonl ProcessFilter BpfFormat BpfMap ProcessBpf ProcessBpfSpec.
From S2P Require Import ProcUtils MapFlush MapFlushSpec FileAgg Userspace ProcessMain EventLines.

(** ** Texts *)

(** UTF-8 with no control character but newline and tab. *)
Definition plain (t : bytes) : Prop := exists cps, plain_text t cps.

(** Any bytes. *)
Definition any_text (t : bytes) : Prop := True.

(** An array of at most [n] bytes that holds a good string. *)
Definition text_array (good : bytes -> Prop) (n : nat) (a : bytes) : Prop := 0 ∈ a /\ (length a <= n)%nat /\ good (cstr a).

(** The lines of an array's escaped text. *)
Lemma array_escaped good n a : text_array good n a -> Z.of_nat (2 * n + 1) < 2 ^ 32 ->
  json_escaped a (n * 2 + 1) = Some (escs (cstr a)).
Proof. intros (Hin & Hl & _) Hb. apply json_escaped_fits; [done|lia|lia]. Qed.

Lemma strncpy_term_id n (a : bytes) : 0 ∈ a -> (length a <= n)%nat -> cstr (strncpy_term a n) = cstr a.
Proof.
  intros Hin Hl. assert (length (cstr a) <= n - 1)%nat as Hc.
  { assert (length (cstr a) < length a)%nat; [|lia]. clear -Hin.
    induction a as [|c a IH]; [by apply not_elem_of_nil in Hin|]. unfold cstr in *. cbn [take_while length].
    destruct (Z.eqb_spec c 0); cbn [negb length]; [lia|]. apply elem_of_cons in Hin as [?|Hin]; [congruence|].
    specialize (IH Hin). lia. }
  unfold strncpy_term. rewrite take_app_ge by done. rewrite take_replicate, Nat.min_l by lia.
  rewrite <- app_assoc. destruct (n - 1 - length (cstr a))%nat; cbn [replicate app]; apply cstr_app, cstr_no_nul.
Qed.

Lemma strncpy_term_array good n a : text_array good n a -> (0 < n)%nat -> text_array good n (strncpy_term a n).
Proof.
  intros (Hin & Hl & Hp) Hn. split_and!.
  - unfold strncpy_term. apply elem_of_app. right. left.
  - unfold strncpy_term. rewrite length_app, length_take, length_app, length_replicate. cbn [length]. lia.
  - by rewrite strncpy_term_id.
Qed.

(** ** The lines of events *)

Definition nums_ok (e : event) : Prop := 0 <= e_timestamp_ns e /\ 0 <= e_exit_code e /\ 0 <= e_duration_ns e.

(** An event whose strings are good in the arrays of its struct, as far as its
    line shows them: that of an exit has neither text nor command. *)
Record event_texts (good : bytes -> Prop) (e : event) : Prop := {
  ep_comm : text_array good TASK_COMM_LEN (e_comm e);
  ep_text : match e_type e with
            | EVENT_TYPE_PROCESS =>
                e_exit_event e = false ->
                text_array good MAX_FILENAME_LEN (u_text (e_union e)) /\ good (postprocess_full_command (e_full_command e) 256 (e_exit_code e))
            | EVENT_TYPE_BASH_READLINE => text_array good MAX_COMMAND_LEN (u_text (e_union e))
            | EVENT_TYPE_FILE_OPERATION => text_array good MAX_FILENAME_LEN (u_text (e_union e))
            end;
  ep_nums : nums_ok e;
}.

(** Split the concatenations of an emitter to match [H]. *)
Ltac as_members H :=
  unfold members_tail at 1 in H; unfold quoted in H; cbn [map concat fst snd app] in H;
  repeat (rewrite <- ?app_assoc in H; cbn [app] in H);
  repeat (rewrite <- ?app_assoc; cbn [app]); exact H.

Ltac as_line v name ms tail Hms Ht :=
  let H := fresh in
  assert (H := event_line_tail _ v name ms tail Hms Ht eq_refl); as_members H.

(** Split the concatenations of an emitter whose members are known. *)
Ltac as_values n k v ms Hf Hn :=
  let H := fresh in
  assert (H := event_line_values _ n k v ms Hf Hn); as_members H.

Lemma full_command_array good e : good (postprocess_full_command (e_full_command e) 256 (e_exit_code e)) ->
  text_array good MAX_COMMAND_LEN (postprocess_full_command (e_full_command e) 256 (e_exit_code e) ++ [0]).
Proof.
  intros Hp. set (buf := e_full_command e) in *. set (n := e_exit_code e) in *.
  assert (exists t, postprocess_full_command buf 256 n = cstr (t ++ [0]) /\ (length t <= 255)%nat) as (t & Ht & Hl).
  { unfold postprocess_full_command. change (256 - 1) with 255. change (u32 255) with 255.
    destruct (Z.eqb_spec n 0); [|destruct (Z.ltb_spec 255 n)]; cbn [orb].
    1-2: exists (take (Z.to_nat 255) buf); split; [done|rewrite length_take; lia].
    rewrite app_assoc. eexists. split; [reflexivity|].
    rewrite length_app, length_map, <- length_app, take_drop, length_take. lia. }
  rewrite Ht in *. assert (length (cstr (t ++ [0%Z])) <= length t)%nat.
  { clear. induction t as [|c t IH]; [done|]. unfold cstr in *. cbn [app take_while].
    destruct (Z.eqb_spec c 0); cbn [negb length]; lia. }
  split_and!.
  - apply elem_of_app. right. left.
  - rewrite length_app. unfold MAX_COMMAND_LEN. cbn [length]. lia.
  - rewrite cstr_app by apply cstr_no_nul. done.
Qed.

Section lines.
Context (good : bytes -> Prop) (w : world).

(** The texts are plain. *)
Local Abbreviation J := (forall t, good t -> plain t).

Lemma array_value n a : text_array good n a -> fine_value J (quoted (escs (cstr a))).
Proof. intros (_ & _ & Ha). apply fine_escs. intros HJ. by apply HJ. Qed.
Hint Resolve array_value : line.

Lemma exec_line e : event_texts good e -> e_type e = EVENT_TYPE_PROCESS -> e_exit_event e = false ->
  exists line, print_exec_event w e = Some line /\ event_line J 0 line.
Proof.
  intros [Hc Ht (Hts & _)] Ety Ex. rewrite Ety in Ht. destruct (Ht Ex) as [Htext Hf]. clear Ht. rename Htext into Ht. unfold print_exec_event.
  change (Z.of_nat MAX_COMMAND_LEN) with 256. apply full_command_array in Hf.
  set (fc := postprocess_full_command _ _ _ ++ [0]) in *.
  rewrite (array_escaped good TASK_COMM_LEN), (array_escaped good MAX_FILENAME_LEN), (array_escaped good MAX_COMMAND_LEN) by (done || (vm_compute; done)).
  cbn [mbind option_bind]. eexists. split; [reflexivity|].
  destruct (container_fields_members (w_proc w) (e_pid e)) as (tail & -> & Htail). apply (fine_ok J) in Htail.
  assert (fine_members J [(lit "timestamp", fmt_u (e_timestamp_ns e)); (lit "event", quoted (lit "EXEC"));
    (lit "comm", quoted (escs (cstr (e_comm e)))); (lit "pid", fmt_d (e_pid e)); (lit "ppid", fmt_d (e_ppid e));
    (lit "filename", quoted (escs (cstr (u_text (e_union e))))); (lit "full_command", quoted (escs (cstr fc)))]) as Hms.
  { fine_list; by eapply array_value. }
  match type of Hms with fine_members _ ((_, ?v) :: (_, quoted ?name) :: ?ms) => as_line v name ms tail Hms Htail end.
Qed.

Lemma bash_line e : event_texts good e -> e_type e = EVENT_TYPE_BASH_READLINE ->
  exists line, print_bash_readline_event w e = Some line /\ event_line J 0 line.
Proof.
  intros [Hc Ht (Hts & _)] Ety. rewrite Ety in Ht. unfold print_bash_readline_event.
  rewrite (array_escaped good TASK_COMM_LEN), (array_escaped good MAX_COMMAND_LEN) by (done || (vm_compute; done)).
  cbn [mbind option_bind]. eexists. split; [reflexivity|].
  destruct (container_fields_members (w_proc w) (e_pid e)) as (tail & -> & Htail). apply (fine_ok J) in Htail.
  assert (fine_members J [(lit "timestamp", fmt_u (e_timestamp_ns e)); (lit "event", quoted (lit "BASH_READLINE"));
    (lit "comm", quoted (escs (cstr (e_comm e)))); (lit "pid", fmt_d (e_pid e));
    (lit "command", quoted (escs (cstr (u_text (e_union e)))))]) as Hms.
  { fine_list; by eapply array_value. }
  match type of Hms with fine_members _ ((_, ?v) :: (_, quoted ?name) :: ?ms) => as_line v name ms tail Hms Htail end.
Qed.

Lemma exit_line `{BpfHashLaws hmap} (mem : hmap Z Z) e : event_texts good e ->
  exists line mem', print_exit_event w mem e = Some (line, mem') /\ event_line J 0 line.
Proof.
  intros [Hc _ (Hts & Hx & Hd)]. unfold print_exit_event.
  rewrite (array_escaped good TASK_COMM_LEN) by (done || (vm_compute; done)).
  cbn [mbind option_bind]. do 2 eexists. split; [reflexivity|].
  destruct (container_fields_members (w_proc w) (e_pid e)) as (tail & -> & Htail). apply (fine_ok J) in Htail.
  set (dur := if e_duration_ns e =? 0 then [] else [(lit "duration_ms", fmt_u (e_duration_ns e / 1000000))]).
  set (hw := match bpf_map_lookup_elem mem (u32 (e_pid e)) with
             | Some rss => [(lit "vm_hwm_kb", fmt_u (u64 (rss * w_page_size_kb w)))] | None => [] end).
  assert (fine_members J (dur ++ hw ++ tail)) as Ht2.
  { apply fine_app; [|apply fine_app; [|done]].
    - unfold dur. destruct (_ =? 0); fine_list. apply fine_u, Z.div_pos; lia.
    - unfold hw. destruct (bpf_map_lookup_elem _ _); fine_list. apply fine_u, wrapu_bound; lia. }
  assert (fine_members J [(lit "timestamp", fmt_u (e_timestamp_ns e)); (lit "event", quoted (lit "EXIT"));
    (lit "comm", quoted (escs (cstr (e_comm e)))); (lit "pid", fmt_d (e_pid e)); (lit "ppid", fmt_d (e_ppid e));
    (lit "exit_code", fmt_u (e_exit_code e))]) as Hms.
  { fine_list. by eapply array_value. }
  replace ((if e_duration_ns e =? 0 then [] else jlit ",'duration_ms':" ++ fmt_u (e_duration_ns e / 1000000))
    ++ match bpf_map_lookup_elem mem (u32 (e_pid e)) with
       | Some rss => jlit ",'vm_hwm_kb':" ++ fmt_u (u64 (rss * w_page_size_kb w)) | None => [] end
    ++ members_tail tail ++ lit "}" ++ [10]) with (members_tail (dur ++ hw ++ tail) ++ lit "}" ++ [10]).
  2: { rewrite !members_tail_app, <- !app_assoc. f_equal; [|f_equal].
       - unfold dur. destruct (_ =? 0); [done|]. unfold members_tail. cbn [map concat fst snd]. by rewrite app_nil_r.
       - unfold hw. destruct (bpf_map_lookup_elem _ _); [|done]. unfold members_tail. cbn [map concat fst snd]. by rewrite app_nil_r. }
  match type of Hms with fine_members _ ((_, ?v) :: (_, quoted ?name) :: ?ms) => as_line v name ms (dur ++ hw ++ tail) Hms Ht2 end.
Qed.

(** What the callers of [print_file_open_event] pass as extra fields: nothing,
    or members. *)
Definition extra_ok (extra : bytes) : Prop :=
  extra = [] \/ (extra <> [] /\ exists ms, lit "," ++ extra = members_tail ms /\ members_ok ms).

Lemma file_open_line env comm pid path flags ts count extra :
  text_array good TASK_COMM_LEN comm -> text_array good MAX_FILENAME_LEN path -> 0 <= ts -> 0 <= count -> extra_ok extra ->
  exists line, print_file_open_event env comm pid path flags ts count extra = Some line /\ event_line J 0 line.
Proof.
  intros Hc Hp Hts Hn Hex. unfold print_file_open_event.
  rewrite (array_escaped good TASK_COMM_LEN), (array_escaped good MAX_FILENAME_LEN) by (done || (vm_compute; done)).
  cbn [mbind option_bind]. eexists. split; [reflexivity|].
  destruct (container_fields_members env pid) as (tail & -> & Htail).
  assert (exists xs, (if bool_decide (extra = []) then [] else lit "," ++ extra) = members_tail xs /\ members_ok xs) as (xs & -> & Hxs).
  { destruct Hex as [->|(Hne & ms & Hms & Hok)]; [exists []; split; [done|apply members_ok_nil]|].
    exists ms. by rewrite bool_decide_eq_false_2. }
  assert (fine_members J [(lit "timestamp", fmt_u ts); (lit "event", quoted (lit "FILE_OPEN"));
    (lit "comm", quoted (escs (cstr comm))); (lit "pid", fmt_d pid); (lit "count", fmt_u count);
    (lit "filepath", quoted (escs (cstr path))); (lit "flags", fmt_d flags)]) as Hms.
  { fine_list; by eapply array_value. }
  rewrite (app_assoc (members_tail xs)), <- (members_tail_app xs).
  pose proof (fine_ok J _ (members_ok_app _ _ Hxs Htail)) as Ht2.
  match type of Hms with fine_members _ ((_, ?v) :: (_, quoted ?name) :: ?ms) => as_line v name ms (xs ++ tail) Hms Ht2 end.
Qed.
End lines.

Lemma extra_member k v val : json_body k = Some k -> value_text v val -> extra_ok ([34] ++ k ++ [34; 58] ++ v).
Proof.
  intros Hk Hv. right. split; [done|]. exists [(k, v)]. split.
  - unfold members_tail. cbn [map concat fst snd]. by rewrite app_nil_r.
  - by eapply members_ok_lit; [| |apply members_ok_nil].
Qed.

(** *** The other lines *)

Section others.
Context (J : Prop).

Lemma rate_limit_event_line ts pid : 0 <= ts -> event_line J 0 (rate_limit_line ts pid).
Proof.
  intros Hts. unfold rate_limit_line.
  assert (fine_members J [(lit "timestamp", fmt_u ts); (lit "event", quoted (lit "WARNING")); (lit "comm", quoted []);
    (lit "pid", fmt_d pid); (lit "type", quoted (lit "FILE_RATE_LIMIT"));
    (lit "message", quoted (lit "Process had " ++ fmt_d MAX_DISTINCT_FILES_PER_SEC ++ lit "+ file ops per second"))]) as Hf.
  { fine_list. eapply fine_quoted. reflexivity. }
  match type of Hf with fine_members _ ((?k, ?v) :: ?ms) =>
    assert (members_events ((k, v) :: ms) = 0) as Hn by (unfold members_events; find_field; reflexivity);
    as_values 0 k v ms Hf Hn end.
Qed.

Lemma overflow_event_line total : 0 <= total ->
  event_line J total (jlit "{'timestamp':0,'event':'WARNING','comm':'','pid':0,'type':'AGG_MAP_OVERFLOW','overflow_count':"
       ++ fmt_u total ++ lit "}" ++ [10]).
Proof.
  intros Ht.
  assert (fine_members J [(lit "timestamp", fmt_u 0); (lit "event", quoted (lit "WARNING")); (lit "comm", quoted []);
    (lit "pid", fmt_u 0); (lit "type", quoted (lit "AGG_MAP_OVERFLOW")); (lit "overflow_count", fmt_u total)]) as Hf.
  { fine_list; by apply fine_u. }
  match type of Hf with fine_members _ ((?k, ?v) :: ?ms) =>
    assert (members_events ((k, v) :: ms) = total) as Hn
      by (unfold members_events; find_field; rewrite bool_decide_eq_false_2, bool_decide_eq_true_2 by done; cbn; by apply fmt_u_spec);
    change (fmt_u 0) with (lit "0") in Hf, Hn; change (fmt_u 0) with (lit "0"); as_values total k (lit "0") ms Hf Hn end.
Qed.

(** The calendar text is "YYYY-MM-DDTHH:MM:SS" in some spelling. *)
Definition clocks_ok (clk : clocks) : Prop :=
  (forall t p, clk_strftime_utc clk t = Some p -> json_body p = Some p) /\
  (forall t, clk_realtime clk = Some t -> 0 <= snd t).

Lemma clock_anchor_lines clk phase : clocks_ok clk -> json_body phase = Some phase ->
  event_lines J 0 (print_clock_sync_anchor clk phase).
Proof.
  intros [Hst Hns] Hph. unfold print_clock_sync_anchor. destruct (clk_monotonic clk) as [mono|]; [|apply event_lines_nil].
  destruct (clk_realtime clk) as [rt|]; [|apply event_lines_nil]. specialize (Hns rt eq_refl).
  destruct (clk_strftime_utc clk rt.1) as [wall|] eqn:E; [|apply event_lines_nil]. apply Hst in E. apply event_lines_one.
  assert (forall t, 0 <= timespec_ns t) as Hn by (intros t; apply wrapu_bound; lia).
  assert (json_body (fmt_09 rt.2) = Some (fmt_09 rt.2)) as H9.
  { apply digits_body. unfold fmt_09. apply Forall_app. split; [|by apply fmt_u_spec].
    apply Forall_replicate. done. }
  assert (fine_members J [(lit "timestamp", fmt_u (timespec_ns mono)); (lit "event", quoted (lit "CLOCK_SYNC"));
    (lit "phase", quoted phase); (lit "mono_ns", fmt_u (timespec_ns mono)); (lit "wall_time_ns", fmt_u (timespec_ns rt));
    (lit "wall_time", quoted (wall ++ lit "." ++ fmt_09 rt.2 ++ lit "Z"))]) as Hms.
  { fine_list; try by eapply fine_quoted. eapply fine_quoted.
    apply json_body_app; [done|]. apply json_body_app; [done|]. by apply json_body_app. }
  match type of Hms with fine_members _ ((_, ?v) :: (_, quoted ?name) :: ?ms) => as_line v name ms (@nil (bytes * bytes)) Hms (fine_nil J) end.
Qed.

(** The printing of several lines. *)
Lemma print_lines_count {A} (f : A -> option bytes) (g : A -> Z) l :
  Forall (fun x => exists line, f x = Some line /\ event_line J (g x) line) l ->
  exists out, print_lines f l = Some out /\ event_lines J (foldr (fun x a => g x + a) 0 l) out.
Proof.
  intros Hl. unfold print_lines. induction Hl as [|x l (line & E & Hj) _ (out & E' & Hout)]; [eexists; split; [reflexivity|apply event_lines_nil]|].
  cbn [mapM foldr]. rewrite E. cbn [mbind option_bind]. destruct (mapM f l) as [ls|]; [|done]. apply (inj Some) in E' as <-.
  eexists. split; [reflexivity|]. apply (event_lines_app _ _ _ line); [by apply event_lines_one|done].
Qed.

Lemma print_lines_quiet {A} (f : A -> option bytes) l :
  Forall (fun x => exists line, f x = Some line /\ event_line J 0 line) l ->
  exists out, print_lines f l = Some out /\ event_lines J 0 out.
Proof.
  intros Hl. destruct (print_lines_count f (fun _ => 0) l Hl) as (out & E & Hj). exists out. split; [done|].
  eapply event_lines_eq; [|exact Hj]. clear. induction l as [|x l IH]; cbn [foldr]; [done|lia].
Qed.
End others.

(** ** The tables *)

Lemma entries_sub (P : file_hash_entry -> Prop) f t : Forall P t -> Forall P (List.filter f t).
Proof.
  rewrite !Forall_forall. intros Ht x Hx. apply list_elem_of_In, filter_In in Hx as [Hx _].
  apply Ht. by apply list_elem_of_In.
Qed.

Lemma sweep_entries (P : file_hash_entry -> Prop) gone t :
  Forall P t -> Forall P (fst (sweep gone t)) /\ Forall P (snd (sweep gone t)).
Proof.
  intros Ht. destruct (sweep_spec gone t) as [-> ->]. split; by apply entries_sub.
Qed.

Definition entry_texts (good : bytes -> Prop) (e : file_hash_entry) : Prop :=
  text_array good TASK_COMM_LEN (fh_comm e) /\ text_array good MAX_FILENAME_LEN (fh_filepath e) /\ 0 <= fh_count e.

Definition agg_texts (good : bytes -> Prop) (readlink : bytes -> option bytes) (p : agg_key * agg_value) : Prop :=
  entry_ok p.1 p.2 /\ 0 < v_count p.2 /\
  good (cstr (v_comm p.2)) /\ good (entry_detail readlink p.1) /\ good (cstr (v_extra p.2)).

Section tables.
Context (good : bytes -> Prop).
Local Abbreviation J := (forall t, good t -> plain t).

Lemma folded_line env e ts extra : entry_texts good e -> 0 <= ts -> extra_ok extra ->
  exists line, print_folded env e ts extra = Some line /\ event_line J 0 line.
Proof.
  intros (Hc & Hp & Hn) Hts Hex. apply file_open_line; [|apply strncpy_term_array; [done|unfold MAX_FILENAME_LEN; lia]|done|done|done].
  apply strncpy_term_array; [done|unfold TASK_COMM_LEN; lia].
Qed.

Lemma flush_pid_file_opens_lines env t pid ts : Forall (entry_texts good) t -> 0 <= ts ->
  exists t' out, flush_pid_file_opens env t pid ts = Some (t', out) /\ event_lines J 0 out /\ Forall (entry_texts good) t'.
Proof.
  intros Ht Hts. unfold flush_pid_file_opens.
  destruct (print_lines_quiet J (fun e => print_folded env e ts (jlit "'reason':'process_exit'"))
    (List.filter (fun e => (fh_pid e =? pid) && (1 <? fh_count e)) t)) as (out & -> & Hout).
  { eapply Forall_impl; [by apply entries_sub|]. intros e He. apply folded_line; [done|done|].
    apply (extra_member (lit "reason") (quoted (lit "process_exit")) (JStr (lit "process_exit"))); [done|by apply vt_str]. }
  cbn [mbind option_bind]. do 2 eexists. split; [reflexivity|]. split; [done|]. by apply sweep_entries.
Qed.

Lemma get_file_open_count_lines env verbose s pid comm path flags ts :
  Forall (entry_texts good) (file_hashes s) -> text_array good TASK_COMM_LEN comm -> text_array good MAX_FILENAME_LEN path -> 0 <= ts ->
  exists s' out warn count, get_file_open_count env verbose s pid comm path flags ts = Some (s', out, warn, count) /\
    event_lines J 0 out /\ extra_ok warn /\ 0 <= count /\ Forall (entry_texts good) (file_hashes s').
Proof.
  intros Ht Hc Hp Hts. unfold get_file_open_count. destruct (should_rate_limit_file _ _ _) as [[limits drop] add].
  destruct drop; [do 4 eexists; split; [reflexivity|]; split_and!; [apply event_lines_nil|by left|done|done]|].
  assert (extra_ok (if add : bool then snprintf_s 128 rate_limit_warning else [])) as Hw.
  { destruct add; [|by left]. replace (snprintf_s 128 rate_limit_warning) with
      ([34] ++ lit "rate_limit_warning" ++ [34; 58] ++ quoted (lit "Previous second exceeded 30 file limit")) by (vm_compute; reflexivity).
    eapply extra_member; [done|by apply vt_str]. }
  unfold dedup_file_open. pose proof (sweep_entries (entry_texts good) (expired ts) (file_hashes s) Ht) as [Hk Hg].
  destruct (sweep (expired ts) (file_hashes s)) as [kept gone]. cbn [fst snd] in *.
  destruct (print_lines_quiet J (fun e => print_folded env e ts (jlit "'window_expired':true"))
    (List.filter (fun e => 1 <? fh_count e) gone)) as (out & -> & Hout).
  { eapply Forall_impl; [by apply entries_sub|]. intros e He. apply folded_line; [done|done|].
    apply (extra_member (lit "window_expired") (lit "true") (JBool true)); [done|apply (vt_bool true)]. }
  cbn [mbind option_bind]. destruct (find_hash kept _) as [i|] eqn:Ef; unfold find_hash in Ef.
  - destruct (list_find _ kept) as [[j e]|] eqn:El; [|done]. injection Ef as ->.
    apply list_find_Some in El as (Hi & _). rewrite Hi. cbn [mbind option_bind]. do 4 eexists. split; [reflexivity|].
    split_and!; [done|done|done|]. cbn [file_hashes]. apply Forall_insert; [done|].
    pose proof (proj1 (Forall_lookup _ _) Hk _ _ Hi) as (Hec & Hep & _). split_and!; [done|done|apply wrapu_bound; lia].
  - destruct (Nat.ltb_spec (length kept) MAX_FILE_HASHES).
    + cbn [mbind option_bind]. do 4 eexists. split; [reflexivity|]. split_and!; [done|done|done|]. cbn [file_hashes].
      apply Forall_app. split; [done|]. constructor; [|constructor].
      split_and!; cbn; [apply strncpy_term_array; [done|unfold TASK_COMM_LEN; lia]|apply strncpy_term_array; [done|unfold MAX_FILENAME_LEN; lia]|done].
    + destruct verbose; cbn [mbind option_bind].
      * destruct (file_open_line good env comm pid path flags ts 1 []) as (line & -> & Hline); [done|done|done|done|by left|].
        cbn [mbind option_bind]. do 4 eexists. split; [reflexivity|]. split_and!; [|done|done|done].
        apply event_lines_before; [done|by apply event_lines_one].
      * do 4 eexists. split; [reflexivity|]. by split_and!.
Qed.

(** *** The aggregation map *)

Lemma summary_line readlink p : agg_texts good readlink p ->
  exists line, print_summary_json readlink p.1 p.2 = Some line /\ event_line J (v_count p.2) line.
Proof. intros (Hok & Hn & Hc & Hd & He). apply summary_events; [lia|done|..]; intros HJ; by apply HJ. Qed.

Lemma flush_output_lines readlink l : Forall (agg_texts good readlink) l ->
  exists out, flush_output readlink l = Some out /\ event_lines J (list_total l) out.
Proof.
  intros Hl. destruct (print_lines_count J (fun '(k, v) => print_summary_json readlink k v) (fun p => v_count p.2) l) as (out & E & Ho); [|by exists out].
  eapply Forall_impl; [exact Hl|]. intros [k v] Hp. by apply summary_line in Hp.
Qed.
End tables.

(** ** The handler *)

Section handler.
Context `{BpfHashLaws hmap} (good : bytes -> Prop) (env : env) (w : world).
Local Abbreviation J := (forall t, good t -> plain t).

Record agg_inv (m : hmap agg_key agg_value) : Prop := {
  ai_zero : zero_key ∉ (bpf_contents m).*1;
  ai_texts : Forall (agg_texts good (w_readlink w)) (bpf_contents m);
}.

Lemma ai_positive m : agg_inv m -> Forall (fun p => 0 < v_count p.2) (bpf_contents m).
Proof. intros [_ Hp]. eapply Forall_impl; [exact Hp|]. by intros p (_ & ? & _). Qed.

(** Removing entries keeps it. *)
Lemma agg_inv_sublist m m' : bpf_contents m' `sublist_of` bpf_contents m -> agg_inv m -> agg_inv m'.
Proof.
  intros Hs [Hz Hp]. split.
  - intros Hin. apply Hz. eapply elem_of_sublist; [exact Hin|]. by apply fmap_sublist.
  - rewrite Forall_forall in Hp |- *. intros p Hin. apply Hp. by eapply elem_of_sublist.
Qed.

(** Only the first 256 entries a flush of a process prints are removed. *)
Lemma flush_pid_lines fuel m pid : agg_inv m -> (length (bpf_contents m) < fuel)%nat ->
  let mine := filter (fun p => of_pid pid p = true) (bpf_contents m) in
  exists m' calls out, flush_pid_from_agg_map fuel m pid = Some (m', calls) /\ flush_output (w_readlink w) calls = Some out /\
    event_lines J (list_total mine) out /\ bpf_contents m' `sublist_of` bpf_contents m /\
    list_total mine + list_total (bpf_contents m') = list_total (bpf_contents m) + list_total (drop 256 mine).
Proof.
  intros Hi Hf mine. destruct (flush_pid_all m pid fuel) as (m' & E & Hm'); [apply Hi|by apply ai_positive|done|].
  destruct (flush_output_lines good (w_readlink w) mine) as (out & Eo & Ho).
  { apply Forall_forall. intros p Hp. apply list_elem_of_filter in Hp as [_ Hp]. by apply (proj1 (Forall_forall _ _) (ai_texts _ Hi)). }
  exists m'. do 2 eexists. split; [exact E|]. split; [exact Eo|]. split; [done|].
  split; [rewrite Hm'; apply sublist_filter|]. rewrite Hm'. by apply flush_pid_total.
Qed.

(** The tables of the tracer hold good texts. *)
Record tracer_texts (s : tracer hmap) : Prop := {
  tp_files : Forall (entry_texts good) (file_hashes (t_files s));
  tp_agg : agg_inv (event_agg_map (t_bpf s));
}.

Definition agg_size (s : tracer hmap) : nat := length (bpf_contents (event_agg_map (t_bpf s))).

(** Between the states the output grew by lines, and the events they report
    and those pending are those pending before and [k] more. *)
Definition books (k : Z) (s s' : tracer hmap) : Prop :=
  exists n out, t_out s' = t_out s ++ out /\ event_lines J n out /\ n + pending (t_bpf s') = pending (t_bpf s) + k.

Lemma books_quiet k s s' : t_out s' = t_out s -> pending (t_bpf s') = pending (t_bpf s) + k -> books k s s'.
Proof. intros E Hp. exists 0, []. rewrite app_nil_r. split; [done|]. split; [apply event_lines_nil|lia]. Qed.

Lemma books_refl s : books 0 s s.
Proof. apply books_quiet; [done|lia]. Qed.

Lemma books_lines s s' out :
  t_out s' = t_out s ++ out -> event_lines J 0 out -> pending (t_bpf s') = pending (t_bpf s) -> books 0 s s'.
Proof. intros E Hj Hp. exists 0, out. split; [done|]. split; [done|lia]. Qed.

Lemma books_trans k1 k2 s1 s2 s3 : books k1 s1 s2 -> books k2 s2 s3 -> books (k1 + k2) s1 s3.
Proof.
  intros (n1 & o1 & E1 & J1 & H1) (n2 & o2 & E2 & J2 & H2). exists (n1 + n2), (o1 ++ o2).
  rewrite E2, E1, <- app_assoc. split; [done|]. split; [by apply event_lines_app|lia].
Qed.

Lemma books_then k s1 s2 s3 : books 0 s1 s2 -> books k s2 s3 -> books k s1 s3.
Proof. apply (books_trans 0 k). Qed.

Lemma books_eq k k' s s' : k = k' -> books k s s' -> books k' s s'.
Proof. by intros ->. Qed.

Lemma agg_add_tracked pid (b : pstate hmap) : event_agg_map (add_tracked_pid_to_bpf pid b) = event_agg_map b.
Proof. unfold add_tracked_pid_to_bpf. by destruct (pid <=? 0). Qed.

Lemma agg_remove_tracked pid (b : pstate hmap) : event_agg_map (remove_tracked_pid_from_bpf pid b) = event_agg_map b.
Proof. unfold remove_tracked_pid_from_bpf. by destruct (pid <=? 0). Qed.

(** What handling an event may do to the kernel's side: remove entries. *)
Record kernel_kept (b b' : pstate hmap) : Prop := {
  kk_agg : bpf_contents (event_agg_map b') `sublist_of` bpf_contents (event_agg_map b);
  kk_overflow : agg_overflow_count b' = agg_overflow_count b;
  kk_write : write_ctx_map b' = write_ctx_map b;
  kk_cgroups : tracked_cgroups b' = tracked_cgroups b;
  kk_rb : rb b' = rb b;
}.

Lemma kernel_kept_refl b : kernel_kept b b.
Proof. by split. Qed.

Lemma kernel_kept_trans b1 b2 b3 : kernel_kept b1 b2 -> kernel_kept b2 b3 -> kernel_kept b1 b3.
Proof. intros [? ? ? ? ?] [? ? ? ? ?]. split; [by etransitivity|congruence..]. Qed.

Lemma kept_add_tracked pid b : kernel_kept b (add_tracked_pid_to_bpf pid b).
Proof. unfold add_tracked_pid_to_bpf. destruct (pid <=? 0); by split. Qed.

Lemma kept_remove_tracked pid b : kernel_kept b (remove_tracked_pid_from_bpf pid b).
Proof. unfold remove_tracked_pid_from_bpf. destruct (pid <=? 0); by split. Qed.
Hint Resolve kernel_kept_refl kept_add_tracked kept_remove_tracked : core.

Lemma pending_same (b b' : pstate hmap) : event_agg_map b' = event_agg_map b -> agg_overflow_count b' = agg_overflow_count b -> pending b' = pending b.
Proof. unfold pending. by intros -> ->. Qed.

(** What an exit prints of the aggregation map and leaves there: the entries of
    the process beyond the first 256. *)
Definition exit_repeats (s : tracer hmap) (e : event) : Z :=
  if negb (pid_tracker_is_tracked (t_pids s) (e_pid e)) && bool_decide (tr_filter_mode (t_pids s) = FILTER_MODE_FILTER) then 0
  else list_total (drop 256 (entries_of (t_bpf s) (u32 (e_pid e)))).

Definition event_repeats (s : tracer hmap) (e : event) : Z :=
  match e_type e with EVENT_TYPE_PROCESS => if e_exit_event e then exit_repeats s e else 0 | _ => 0 end.

(** The outcome of handling an event. *)
Definition handled (k : Z) (s : tracer hmap) (r : option (tracer hmap)) : Prop :=
  exists s', r = Some s' /\ books k s s' /\ tracer_texts s' /\ kernel_kept (t_bpf s) (t_bpf s').

Lemma kept_size s s' : kernel_kept (t_bpf s) (t_bpf s') -> (agg_size s' <= agg_size s)%nat.
Proof. intros [Hs _ _ _ _]. by apply sublist_length. Qed.

Lemma track_pending s pid ppid : pending (t_bpf (track s pid ppid)) = pending (t_bpf s).
Proof. apply pending_same; cbn; [apply agg_add_tracked|apply kept_add_tracked]. Qed.

Lemma handled_track s pid ppid line :
  tracer_texts s -> event_line J 0 line -> handled 0 s (Some (print (track s pid ppid) line)).
Proof.
  intros [Hf Ha] Hl. eexists. split; [reflexivity|]. split; [apply (books_lines _ _ line); [done|by apply event_lines_one|apply track_pending]|].
  split; [split|]; cbn; rewrite ?agg_add_tracked; auto.
Qed.

Lemma handled_print s line : tracer_texts s -> event_line J 0 line -> handled 0 s (Some (print s line)).
Proof.
  intros [Hf Ha] Hl. eexists. split; [reflexivity|]. split; [apply (books_lines _ _ line); [done|by apply event_lines_one|done]|]. split; [by split|cbn; auto].
Qed.

Lemma handled_same s : tracer_texts s -> handled 0 s (Some s).
Proof. intros Hs. exists s. split; [done|]. split; [apply books_refl|]. auto. Qed.

Lemma on_exec_lines s e : tracer_texts s -> event_texts good e -> e_type e = EVENT_TYPE_PROCESS -> e_exit_event e = false -> handled 0 s (on_exec env w s e).
Proof.
  intros Hs He Ety Ex. unfold on_exec. destruct (exec_line good w e He Ety Ex) as (line & -> & Hl). cbn [mbind option_bind].
  destruct (should_track_event_process _ _ _ _ _ _); [by apply handled_track|].
  destruct (tr_filter_mode (t_pids s)); cbn [decide]; [|by apply handled_track|by apply handled_same].
  by apply handled_print.
Qed.

(** The lines of an exit, and the books: what it prints of the map is removed,
    the entries beyond the first 256 excepted. *)
Lemma on_exit_lines fuel s e : tracer_texts s -> event_texts good e -> (agg_size s < fuel)%nat -> handled (exit_repeats s e) s (on_exit w fuel s e).
Proof.
  intros [Hf Ha] He Hfuel. unfold on_exit, exit_repeats. cbv zeta. cbn [t_pids t_files t_bpf set_pids set_bpf].
  pose proof (kept_remove_tracked (e_pid e) (t_bpf s)) as Hk. pose proof (agg_remove_tracked (e_pid e) (t_bpf s)) as Eb.
  change (tr_filter_mode (pid_tracker_remove (t_pids s) (e_pid e))) with (tr_filter_mode (t_pids s)). destruct (negb _ && _).
  { eexists. split; [reflexivity|]. split; [apply books_quiet; [done|rewrite Z.add_0_r; by apply pending_same, Hk]|].
    split; [split|]; cbn; rewrite ?agg_remove_tracked; auto. }
  destruct (take_warning _ _) as [limits add]. set (b := remove_tracked_pid_from_bpf (e_pid e) (t_bpf s)) in *.
  destruct (exit_line good w (exit_mem b) e He) as (line & mem & -> & Hline). cbn [mbind option_bind].
  assert (0 <= e_timestamp_ns e) as Hts by (destruct He as [_ _ (? & _)]; done).
  destruct (flush_pid_file_opens_lines good (w_proc w) (file_hashes (t_files s)) (e_pid e) (e_timestamp_ns e) Hf Hts)
    as (hashes & opens & -> & Hopens & Hh). cbn [mbind option_bind]. rewrite Eb.
  destruct (flush_pid_lines fuel (event_agg_map (t_bpf s)) (u32 (e_pid e)) Ha Hfuel) as (m' & calls & out & -> & E & Ho & Hm' & Htot).
  cbn [mbind option_bind]. rewrite E. cbn [mbind option_bind]. eexists. split; [reflexivity|]. split.
  - do 2 eexists. split; [reflexivity|]. split.
    + apply event_lines_before; [by apply event_lines_one|]. apply event_lines_before; [destruct add; [by apply event_lines_one, rate_limit_event_line|apply event_lines_nil]|].
      apply event_lines_before; [done|exact Ho].
    + rewrite !pending_contents. cbn [t_bpf set_bpf print set_files set_agg set_exit_mem event_agg_map agg_overflow_count].
      rewrite (kk_overflow _ _ Hk). unfold entries_of. lia.
  - split; [split; [done|by eapply agg_inv_sublist]|]. destruct Hk as [_ ? ? ? ?]. by split.
Qed.

Lemma on_file_lines s e : tracer_texts s -> event_texts good e -> e_type e = EVENT_TYPE_FILE_OPERATION -> handled 0 s (on_file_operation env w s e).
Proof.
  intros [Hf Ha] [Hc Ht (Hts & _)] Ety. rewrite Ety in Ht. unfold on_file_operation.
  destruct (e_union e) as [f|c|path fd flags is_open]; [by apply handled_same; split..|]. cbn [u_text] in Ht.
  destruct is_open; cbn [negb]; [|by apply handled_same; split].
  destruct (should_report_file_ops _ _); cbn [negb]; [|by apply handled_same; split].
  destruct (get_file_open_count_lines good (w_proc w) (verbose env) (t_files s) (e_pid e) (e_comm e) path flags (e_timestamp_ns e))
    as (files & out & warn & count & -> & Ho & Hw & Hn & Hh); [done..|]. cbn [mbind option_bind].
  destruct (Z.eqb_spec count 0).
  - eexists. split; [reflexivity|]. split; [by apply (books_lines _ _ out)|]. split; [by split|cbn; auto].
  - destruct (file_open_line good (w_proc w) (e_comm e) (e_pid e) path flags (e_timestamp_ns e) count warn) as (line & -> & Hline); [done..|].
    cbn [mbind option_bind]. eexists. split; [reflexivity|]. split; [|split; [by split|cbn; auto]].
    apply (books_lines _ _ (out ++ line)); [|by apply event_lines_before; [|apply event_lines_one]|done].
    cbn [t_out print]. by rewrite <- app_assoc.
Qed.

Lemma handle_event_lines fuel s e : tracer_texts s -> event_texts good e -> (agg_size s < fuel)%nat ->
  handled (event_repeats s e) s (handle_event env w fuel s e).
Proof.
  intros Hs He Hf. unfold handle_event, event_repeats. destruct (e_type e) eqn:Ety.
  - destruct (e_exit_event e) eqn:Ex; [by apply on_exit_lines|by apply on_exec_lines].
  - destruct (should_report_bash_readline _ _); cbn [negb]; [|by apply handled_same].
    destruct (bash_line good w e He Ety) as (line & -> & Hl). cbn [mbind option_bind]. by apply handled_print.
  - by apply on_file_lines.
Qed.

Lemma events_lines fuel evs s : tracer_texts s -> Forall (event_texts good) evs -> (agg_size s < fuel)%nat ->
  exists s', fold_opt (handle_event env w fuel) s evs = Some s' /\ (exists k, books k s s') /\ tracer_texts s' /\ kernel_kept (t_bpf s) (t_bpf s').
Proof.
  revert s. induction evs as [|e evs IH]; intros s Hs Hevs Hf; cbn [fold_opt]; [exists s; split; [done|]; split; [by exists 0; apply books_refl|by split]|].
  apply Forall_cons in Hevs as [He Hevs]. destruct (handle_event_lines fuel s e Hs He Hf) as (s1 & -> & Ho1 & Hs1 & Hk1).
  cbn [mbind option_bind]. pose proof (kept_size _ _ Hk1). destruct (IH s1 Hs1 Hevs) as (s2 & -> & [k Ho2] & Hs2 & Hk2); [lia|].
  exists s2. split; [done|]. split; [by eexists; eapply books_trans|]. split; [done|by eapply kernel_kept_trans].
Qed.
End handler.

(** ** Properties *)

(** The output is lines, whatever bytes the strings hold: the handler never
    fails on events whose strings end in their arrays (no access outside a
    buffer, the iterations end), and what it prints for any sequence of events
    is a sequence of lines whose members the reader finds: no string ends its
    member or its line early.  When the strings are UTF-8 with no control
    character but newline and tab each line is JSON. *)
Theorem handled_events_print_lines `{BpfHashLaws hmap} good env w fuel evs (s : tracer hmap) :
  tracer_texts good w s -> Forall (event_texts good) evs -> (agg_size s < fuel)%nat ->
  exists s' ls, fold_opt (handle_event env w fuel) s evs = Some s' /\ t_out s' = t_out s ++ concat ls /\
    Forall (fun l => is_Some (scan_line l)) ls /\ ((forall t, good t -> plain t) -> Forall (fun l => is_Some (parse_line l)) ls).
Proof.
  intros Hs Hevs Hf. destruct (events_lines good env w fuel evs s Hs Hevs Hf) as (s' & E & (k & n & out & Eo & Hl & _) & _).
  apply event_lines_read in Hl as (ls & -> & Hl & _ & Hj). exists s', ls. done.
Qed.

Definition array_of (n : nat) (s : bytes) : bytes := s ++ replicate (n - length s) 0.

(** An exec, an open and the exit of process 7. *)
Definition sample_events : list event :=
  let comm := array_of 16 (lit "node") in
  [Event EVENT_TYPE_PROCESS 7 1 7 0 1000 comm (array_of 256 (lit "node x")) (UFilename (array_of 127 (lit "/bin/node"))) false;
   Event EVENT_TYPE_FILE_OPERATION 7 0 0 0 2000 comm (replicate 256 0) (UFileOp (array_of 127 (jlit "/tmp/'a'")) (-1) 0 true) false;
   Event EVENT_TYPE_PROCESS 7 1 0 5000000 3000 comm (replicate 256 0) (UFilename (replicate 127 0)) true].

Lemma text_array_test n a : existsb (Z.eqb 0) a = true -> (length a <=? n)%nat = true -> text_array any_text n a.
Proof. intros H1 H2. split; [by apply elem_test|]. by apply Nat.leb_le in H2. Qed.

(** Arrays and numbers of concrete events and entries. *)
Ltac texts_test := repeat constructor; try (apply text_array_test; vm_compute; reflexivity); vm_compute; discriminate.

Lemma plain_array_test n a :
  existsb (Z.eqb 0) a = true -> (length a <=? n)%nat = true ->
  forallb (fun c => (32 <=? c) || (c =? 10) || (c =? 9)) (cstr a) = true -> is_some (utf8_decode (cstr a)) = true ->
  text_array plain n a.
Proof.
  intros H1 H2 H3 H4. split_and!; [by apply elem_test|by apply Nat.leb_le|].
  destruct (utf8_decode (cstr a)) as [cps|] eqn:E; [|done]. exists cps. by apply plain_test.
Qed.

Definition sample_tracer : tracer bounded := init_tracer env0 pstate0.
Definition sample_world : world := World (Procfs (fun _ => None) (fun _ => None)) (fun _ => -1) (fun _ => None) 4.

Lemma sample_texts good : tracer_texts good sample_world sample_tracer.
Proof. split; [constructor|]. split; [apply not_elem_of_nil|constructor]. Qed.

Lemma handled_events_print_lines_witness :
  exists s' ls, fold_opt (handle_event env0 sample_world 5) sample_tracer sample_events = Some s' /\
    t_out s' = concat ls /\ Forall (fun l => is_Some (parse_line l)) ls.
Proof.
  destruct (handled_events_print_lines plain env0 sample_world 5 sample_events sample_tracer) as (s' & ls & E & Ho & _ & Hj).
  - apply sample_texts.
  - repeat constructor; try (apply plain_array_test; vm_compute; reflexivity); try (vm_compute; (reflexivity || discriminate));
      (eexists; apply plain_test; vm_compute; reflexivity).
  - vm_compute. lia.
  - exists s', ls. split; [exact E|]. split; [exact Ho|]. exact (Hj (fun t Ht => Ht)).
Defined.

(** A path that is UTF-8 text, but is cut in the middle of a character when the
    probe copies it into the 127 bytes of the event: the line keeps its members
    and is no JSON text. *)
Lemma cut_path_not_json :
  let path := replicate 125 97 ++ utf8_encode 233 in
  is_some (utf8_decode path) = true /\
  option_map (fun line => (is_some (scan_line line), is_some (parse_line line)))
    (print_file_open_event (w_proc sample_world) (array_of 16 (lit "node")) 7 (local_str MAX_FILENAME_LEN path) 0 5 1 []) = Some (true, false).
Proof. vm_compute. split; reflexivity. Qed.
