(* ===== verification/ProcessTrack.v ===== *)
(** * The process tracer follows the process tree

    The abstract specification of tracking, a set of PIDs that exec and exit
    events change, and its refinement by the handler: the userspace table and
    the kernel's filter map hold exactly that set, and what is reported is
    decided by it. *)

From S2P Require Import Prelude CLib Unicode Jsonl ProcessFilter ProcessFilterTable BpfFormat BpfMap ProcessBpf ProcessBpfSpec.
From S2P Require Import ProcUtils MapFlush MapFlushSpec FileAgg Userspace ProcessMain ProcessLines.

(** ** Specification *)

Section spec.
Context (env : env) (w : world).

(** Whether an exec makes its process tracked on its own account. *)
Definition selected (S : gset Z) (e : event) : Prop :=
  if decide (0 < session_id env) then w_getsid w (e_pid e) = session_id env
  else env_filter_mode env <> FILTER_MODE_FILTER \/ (0 < env_pid env /\ e_pid e = env_pid env) \/
       e_ppid e ∈ S \/ cstr (e_comm e) ∈ cstr <$> command_list env.

#[global] Instance selected_dec S e : Decision (selected S e).
Proof. unfold selected. case_decide; apply _. Defined.

Definition spec_event (S : gset Z) (e : event) : gset Z :=
  match e_type e with
  | EVENT_TYPE_PROCESS =>
      if e_exit_event e then S ∖ {[e_pid e]}
      else if decide (selected S e \/ env_filter_mode env = FILTER_MODE_PROC) then {[e_pid e]} ∪ S else S
  | _ => S
  end.

(** Whether the event passes the filter mode. *)
Definition reported (S : gset Z) (e : event) : Prop :=
  match e_type e with
  | EVENT_TYPE_PROCESS =>
      env_filter_mode env <> FILTER_MODE_FILTER \/ (if e_exit_event e then e_pid e ∈ S else selected S e)
  | EVENT_TYPE_BASH_READLINE => env_filter_mode env <> FILTER_MODE_FILTER \/ e_pid e ∈ S
  | EVENT_TYPE_FILE_OPERATION => env_filter_mode env = FILTER_MODE_ALL \/ e_pid e ∈ S
  end.

#[global] Instance reported_dec S e : Decision (reported S e).
Proof. unfold reported. destruct (e_type e); [destruct (e_exit_event e)|..]; apply _. Defined.

(** At most 4096 processes are tracked at a time. *)
Fixpoint fits (S : gset Z) (evs : list event) : Prop :=
  match evs with
  | [] => True
  | e :: evs' => (size (spec_event S e) <= slots)%nat /\ fits (spec_event S e) evs'
  end.

Definition pid_ok (pid : Z) : Prop := 0 < pid < 2 ^ 31.

End spec.

(** ** Refinement *)

Section refine.
Context `{BpfRoom hmap} (env : env) (w : world).

Record tracking (s : tracer hmap) (S : gset Z) : Prop := {
  tk_ok : tracker_ok (t_pids s);
  tk_table : dom (tracked_map (t_pids s)) = S;
  tk_kernel : dom (bpf_map (tracked_pids (t_bpf s))) = S;
  tk_max : bpf_max_entries (tracked_pids (t_bpf s)) = slots;
  tk_mode : tr_filter_mode (t_pids s) = env_filter_mode env;
  tk_target : target_pid (t_pids s) = env_pid env;
  tk_commands : command_filters (t_pids s) = command_list env;
  tk_count : command_filter_count (t_pids s) = Z.of_nat (length (command_list env));
}.

Lemma tracked_in s S pid : tracking s S -> pid_tracker_is_tracked (t_pids s) pid = bool_decide (pid ∈ S).
Proof.
  intros Ht. rewrite is_tracked_refines by apply Ht. unfold TrackerSpec.is_tracked. apply bool_decide_ext.
  by rewrite <- (tk_table _ _ Ht), elem_of_dom.
Qed.

Lemma u32_pid pid : pid_ok pid -> u32 pid = pid.
Proof. unfold pid_ok. intros. apply wrapu_id. lia. Qed.

Lemma tracking_track s S pid ppid : tracking s S -> pid_ok pid -> (size ({[pid]} ∪ S) <= slots)%nat ->
  tracking (track s pid ppid) ({[pid]} ∪ S).
Proof.
  intros [Hok Ht Hk Hmax Hm Htg Hc Hn] Hpid Hsz. destruct (add_refines (t_pids s) pid ppid Hok) as [Hok' Hadd].
  assert (forall es, tr_filter_mode (set_entries (t_pids s) es) = tr_filter_mode (t_pids s)) by done.
  assert (exists es, fst (pid_tracker_add (t_pids s) pid ppid) = set_entries (t_pids s) es) as [es Ees].
  { unfold pid_tracker_add. destruct (add_entry _ _ _). by eexists. }
  assert (pid ∈ S \/ (size S < slots)%nat) as Hroom.
  { destruct (decide (pid ∈ S)); [by left|right]. rewrite size_union, size_singleton in Hsz by set_solver. lia. }
  split; cbn [track set_bpf set_pids t_pids t_bpf]; try (by rewrite Ees).
  - done.
  - apply (f_equal fst) in Hadd. cbn [fst] in Hadd. rewrite Hadd. unfold TrackerSpec.add. destruct (tracked_map (t_pids s) !! pid) eqn:E; cbn [fst].
    + assert (pid ∈ S) by (rewrite <- Ht; by apply elem_of_dom_2 in E). set_solver.
    + apply not_elem_of_dom in E. rewrite Ht in E. rewrite decide_True; [cbn [fst]; by rewrite dom_insert_L, Ht|].
      rewrite <- size_dom, Ht. by destruct Hroom.
  - unfold add_tracked_pid_to_bpf. rewrite (proj2 (Z.leb_gt pid 0)) by (unfold pid_ok in Hpid; lia).
    cbn [set_tracked_pids tracked_pids]. rewrite u32_pid by done. rewrite bpf_set_map_room; [by rewrite dom_insert_L, Hk|].
    unfold has_room. rewrite Hmax, <- size_dom, Hk, <- elem_of_dom, Hk. by destruct Hroom; [right|left].
  - unfold add_tracked_pid_to_bpf. destruct (pid <=? 0); [done|]. cbn [set_tracked_pids tracked_pids]. by rewrite bpf_set_max.
Qed.

Lemma tracking_untrack s S pid : tracking s S -> pid_ok pid ->
  tracking (set_bpf (set_pids s (pid_tracker_remove (t_pids s) pid)) (remove_tracked_pid_from_bpf pid (t_bpf s))) (S ∖ {[pid]}).
Proof.
  intros [Hok Ht Hk Hmax Hm Htg Hc Hn] Hpid. destruct (remove_refines (t_pids s) pid Hok) as [Hok' Hrem].
  assert ((pid <=? 0) = false) as Hp by (apply Z.leb_gt; unfold pid_ok in Hpid; lia).
  split; cbn [set_bpf set_pids t_pids t_bpf]; try done.
  - rewrite Hrem. unfold TrackerSpec.remove. by rewrite dom_delete_L, Ht.
  - unfold remove_tracked_pid_from_bpf. rewrite Hp. cbn [set_tracked_pids tracked_pids].
    by rewrite u32_pid, bpf_delete_map, dom_delete_L, Hk by done.
  - unfold remove_tracked_pid_from_bpf. rewrite Hp. cbn [set_tracked_pids tracked_pids]. by rewrite bpf_delete_max.
Qed.

(** States that agree on the tracker and the kernel's filter. *)
Lemma tracking_ext s s' S : t_pids s' = t_pids s -> tracked_pids (t_bpf s') = tracked_pids (t_bpf s) -> tracking s S -> tracking s' S.
Proof. intros E1 E2 [? ? ? ? ? ? ? ?]. split; rewrite ?E1, ?E2; done. Qed.

Lemma selected_spec s S e : tracking s S ->
  should_track_event_process env w (t_pids s) (e_comm e) (e_pid e) (e_ppid e) = bool_decide (selected env w S e).
Proof.
  intros Ht. apply eq_true_iff_eq. rewrite bool_decide_eq_true.
  unfold should_track_event_process, process_in_target_session, selected.
  destruct (decide (0 < session_id env)) as [Hs|Hs].
  - rewrite (proj2 (Z.leb_gt _ _)), (proj2 (Z.ltb_lt _ _)) by done.
    destruct (Z.eqb_spec (w_getsid w (e_pid e)) (session_id env)); done.
  - rewrite (proj2 (Z.leb_le _ _)), (proj2 (Z.ltb_ge _ _)) by lia.
    rewrite should_track_process_iff by (rewrite ?(tk_count _ _ Ht), ?(tk_commands _ _ Ht); apply Ht || lia).
    rewrite (tk_mode _ _ Ht), (tk_target _ _ Ht), (tk_count _ _ Ht), (tk_commands _ _ Ht), <- elem_of_dom, (tk_table _ _ Ht).
    assert ((exists i f, Z.of_nat i < Z.of_nat (length (command_list env)) /\ command_list env !! i = Some f /\ cstr (e_comm e) = cstr f)
      <-> cstr (e_comm e) ∈ cstr <$> command_list env) as ->; [|done].
    rewrite list_elem_of_fmap. split.
    + intros (i & f & _ & Hf & E). exists f. split; [done|]. by apply list_elem_of_lookup_2 in Hf.
    + intros (f & E & Hf). apply list_elem_of_lookup in Hf as [i Hi]. exists i, f. split_and!; [|done|done].
      apply lookup_lt_Some in Hi. lia.
Qed.

(** What handling an event does, to the tracked set and to what is shown. *)
Record follows (s s' : tracer hmap) (S : gset Z) (e : event) : Prop := {
  fl_tracking : tracking s' (spec_event env w S e);
  fl_silent : ~ reported env w S e ->
    t_out s' = t_out s /\ t_files s' = t_files s /\ event_agg_map (t_bpf s') = event_agg_map (t_bpf s);
  fl_shown : reported env w S e -> e_type e <> EVENT_TYPE_FILE_OPERATION -> exists line, line <> [] /\ exists out, t_out s' = t_out s ++ line ++ out;
}.

(** Every line starts with a brace. *)
Ltac open_brace :=
  intros E; repeat match type of E with mbind _ (json_escaped ?a ?n) = _ =>
    destruct (json_escaped a n); [cbn [mbind option_bind] in E|done] end;
  simplify_eq; by eexists.

Lemma exec_brace e line : print_exec_event w e = Some line -> exists out, line = [123] ++ out.
Proof. unfold print_exec_event. open_brace. Qed.

Lemma bash_brace e line : print_bash_readline_event w e = Some line -> exists out, line = [123] ++ out.
Proof. unfold print_bash_readline_event. open_brace. Qed.

Lemma exit_brace (mem mem' : hmap Z Z) e line : print_exit_event w mem e = Some (line, mem') -> exists out, line = [123] ++ out.
Proof. unfold print_exit_event. open_brace. Qed.

Lemma follows_print s s1 S e line : tracking s1 (spec_event env w S e) -> t_out s1 = t_out s ->
  reported env w S e -> (exists out, line = [123] ++ out) -> follows s (print s1 line) S e.
Proof.
  intros Ht Ho Hr (out & ->). split.
  - by eapply tracking_ext; [| |exact Ht].
  - done.
  - intros _ _. exists [123]. split; [done|]. exists out. cbn [print t_out]. by rewrite Ho.
Qed.

Lemma follows_silent s s1 S e : tracking s1 (spec_event env w S e) -> ~ reported env w S e ->
  t_out s1 = t_out s -> t_files s1 = t_files s -> event_agg_map (t_bpf s1) = event_agg_map (t_bpf s) -> follows s s1 S e.
Proof. by split. Qed.

Lemma on_exec_follows s S e s' : tracking s S -> pid_ok (e_pid e) -> (size (spec_event env w S e) <= slots)%nat ->
  e_type e = EVENT_TYPE_PROCESS -> e_exit_event e = false -> on_exec env w s e = Some s' -> follows s s' S e.
Proof.
  intros Ht Hpid Hsz Ety Ex. unfold on_exec. rewrite (selected_spec s S e Ht), (tk_mode _ _ Ht). intros E.
  assert (spec_event env w S e = if decide (selected env w S e \/ env_filter_mode env = FILTER_MODE_PROC) then {[e_pid e]} ∪ S else S) as Hspec
    by (unfold spec_event; by rewrite Ety, Ex).
  assert (reported env w S e <-> env_filter_mode env <> FILTER_MODE_FILTER \/ selected env w S e) as Hrep
    by (unfold reported; by rewrite Ety, Ex).
  destruct (print_exec_event w e) as [line|] eqn:El.
  2: { case_bool_decide; [done|]. destruct (env_filter_mode env) eqn:Em; [done..|]. injection E as <-.
       rewrite decide_False in Hspec by (intros [?|?]; done). apply follows_silent; rewrite ?Hspec, ?Hrep, ?Em; (done || by intros [?|?]). }
  apply exec_brace in El. cbn [mbind option_bind] in E. case_bool_decide as Hsel; [|destruct (env_filter_mode env) eqn:Em]; injection E as <-.
  - rewrite decide_True in Hspec by (by left). rewrite Hspec in Hsz.
    apply follows_print; [rewrite Hspec; by apply tracking_track|done|apply Hrep; by right|done].
  - rewrite decide_False in Hspec by (intros [?|?]; done). apply follows_print; [by rewrite Hspec|done|apply Hrep; by left|done].
  - rewrite decide_True in Hspec by (by right). rewrite Hspec in Hsz.
    apply follows_print; [rewrite Hspec; by apply tracking_track|done|apply Hrep; by left|done].
  - rewrite decide_False in Hspec by (intros [?|?]; done). apply follows_silent; rewrite ?Hspec, ?Hrep, ?Em; (done || by intros [?|?]).
Qed.

Lemma on_exit_follows fuel s S e s' : tracking s S -> pid_ok (e_pid e) ->
  e_type e = EVENT_TYPE_PROCESS -> e_exit_event e = true -> on_exit w fuel s e = Some s' -> follows s s' S e.
Proof.
  intros Ht Hpid Ety Ex. unfold on_exit. cbv zeta. rewrite (tracked_in s S _ Ht).
  pose proof (tracking_untrack s S (e_pid e) Ht Hpid) as Hu.
  set (s1 := set_bpf (set_pids s _) _) in *. cbn [t_pids set_bpf set_pids] in *.
  change (remove_tracked_pid_from_bpf (e_pid e) (t_bpf (set_pids s (pid_tracker_remove (t_pids s) (e_pid e)))))
    with (remove_tracked_pid_from_bpf (e_pid e) (t_bpf s)). fold s1.
  assert (spec_event env w S e = S ∖ {[e_pid e]}) as Hspec by (unfold spec_event; by rewrite Ety, Ex).
  rewrite <- Hspec in Hu. change (tr_filter_mode (t_pids s1)) with (tr_filter_mode (t_pids s)). rewrite (tk_mode _ _ Ht).
  assert (reported env w S e <-> env_filter_mode env <> FILTER_MODE_FILTER \/ e_pid e ∈ S) as Hrep
    by (unfold reported; by rewrite Ety, Ex).
  destruct (negb (bool_decide (e_pid e ∈ S)) && bool_decide (env_filter_mode env = FILTER_MODE_FILTER)) eqn:Eg; intros E.
  - injection E as <-. apply andb_true_iff in Eg as [E1 E2]. apply negb_true_iff, bool_decide_eq_false in E1. apply bool_decide_eq_true in E2.
    apply follows_silent; [done|rewrite Hrep; by intros [?|?]|done|done|]. apply (agg_remove_tracked (e_pid e) (t_bpf s)).
  - assert (reported env w S e) as Hr.
    { apply Hrep. destruct (decide (e_pid e ∈ S)); [by right|left]. intros Em. rewrite bool_decide_eq_false_2, bool_decide_eq_true_2 in Eg by done. done. }
    destruct (take_warning _ _) as [limits add].
    destruct (print_exit_event w _ e) as [[line mem]|] eqn:El; [|done]. cbn [mbind option_bind] in E. apply exit_brace in El as (out & ->).
    destruct (flush_pid_file_opens _ _ _ _) as [[hashes opens]|]; [|done]. cbn [mbind option_bind] in E.
    destruct (flush_pid_from_agg_map _ _ _) as [[agg calls]|]; [|done]. cbn [mbind option_bind] in E.
    destruct (flush_output _ _) as [sums|]; [|done]. cbn [mbind option_bind] in E. injection E as <-.
    apply follows_print; [by eapply tracking_ext; [| |exact Hu]|done|done|]. by eexists.
Qed.

Lemma handle_event_follows fuel s S e s' : tracking s S -> pid_ok (e_pid e) -> (size (spec_event env w S e) <= slots)%nat ->
  handle_event env w fuel s e = Some s' -> follows s s' S e.
Proof.
  intros Ht Hpid Hsz. unfold handle_event. destruct (e_type e) eqn:Ety.
  - destruct (e_exit_event e) eqn:Ex; [by apply on_exit_follows|by apply on_exec_follows].
  - assert (spec_event env w S e = S) as Hspec by (unfold spec_event; by rewrite Ety).
    assert (reported env w S e <-> env_filter_mode env <> FILTER_MODE_FILTER \/ e_pid e ∈ S) as Hrep by (unfold reported; by rewrite Ety).
    assert (should_report_bash_readline (t_pids s) (e_pid e) = true <-> reported env w S e) as Hb.
    { rewrite Hrep. unfold should_report_bash_readline. rewrite (tk_mode _ _ Ht), (tracked_in s S) by done.
      destruct (env_filter_mode env); [split; [by left|done]..|]. rewrite bool_decide_eq_true. split; [by right|by intros [?|?]]. }
    destruct (should_report_bash_readline _ _); cbn [negb]; intros E.
    + destruct (print_bash_readline_event w e) as [line|] eqn:El; [|done]. injection E as <-.
      apply follows_print; [by rewrite Hspec|done|by apply Hb|by eapply bash_brace].
    + injection E as <-. apply follows_silent; [by rewrite Hspec|by intros ?%Hb|done..].
  - assert (spec_event env w S e = S) as Hspec by (unfold spec_event; by rewrite Ety).
    assert (reported env w S e <-> env_filter_mode env = FILTER_MODE_ALL \/ e_pid e ∈ S) as Hrep by (unfold reported; by rewrite Ety).
    assert (should_report_file_ops (t_pids s) (e_pid e) = true <-> reported env w S e) as Hb.
    { rewrite Hrep. unfold should_report_file_ops. rewrite (tk_mode _ _ Ht), (tracked_in s S) by done.
      destruct (env_filter_mode env); [split; [by left|done]|..]; rewrite bool_decide_eq_true; (split; [by right|by intros [?|?]]). }
    unfold on_file_operation. intros E.
    assert (s' = s \/ (reported env w S e /\ t_pids s' = t_pids s /\ tracked_pids (t_bpf s') = tracked_pids (t_bpf s))) as Hs'.
    { destruct (e_union e) as [f|c|path fd flags is_open]; [left; congruence..|]. destruct is_open; [|left; cbn in E; congruence].
      cbn [negb] in E. destruct (should_report_file_ops _ _); cbn [negb] in E; [right|left; congruence].
      split; [by apply Hb|]. destruct (get_file_open_count _ _ _ _ _ _ _ _) as [[[[files out] warn] count]|]; [|done].
      cbn [mbind option_bind] in E. destruct (count =? 0); [by injection E as <-|].
      destruct (print_file_open_event _ _ _ _ _ _ _ _) as [line|]; [|done]. cbn [mbind option_bind] in E. by injection E as <-. }
    split; rewrite ?Hspec.
    + destruct Hs' as [->|(_ & E1 & E2)]; [done|by apply (tracking_ext s)].
    + intros Hn. by destruct Hs' as [->|(? & _)].
    + by intros _ ?.
Qed.
Lemma seed_step_tracking s n S pid ppid : tracking s S -> pid_ok pid -> (size ({[pid]} ∪ S) <= slots)%nat ->
  exists s', seed_step (s, n) (pid, ppid) = (s', if decide (pid ∈ S) then n else n + 1) /\ tracking s' ({[pid]} ∪ S) /\
    t_out s' = t_out s /\ t_files s' = t_files s /\ event_agg_map (t_bpf s') = event_agg_map (t_bpf s).
Proof.
  intros Ht Hpid Hsz. pose proof (tracking_track s S pid ppid Ht Hpid Hsz) as Htr. unfold seed_step.
  rewrite (tracked_in s S pid Ht). destruct (add_refines (t_pids s) pid ppid (tk_ok _ _ Ht)) as [_ Hadd].
  apply (f_equal snd) in Hadd. cbn [snd] in Hadd. unfold track in Htr.
  destruct (pid_tracker_add (t_pids s) pid ppid) as [tr ok] eqn:Ea. cbn [fst snd] in *.
  unfold TrackerSpec.add in Hadd. destruct (decide (pid ∈ S)) as [Hin|Hin].
  - rewrite bool_decide_eq_true_2 by done. rewrite andb_false_r. eexists. split; [reflexivity|]. split; [|done].
    destruct Htr as [A B C D E F G I]. split; try done; cbn [set_pids t_pids t_bpf].
    + rewrite (tk_kernel _ _ Ht). set_solver.
    + apply Ht.
  - rewrite bool_decide_eq_false_2 by done. assert (ok = true) as ->.
    { rewrite Hadd. destruct (tracked_map (t_pids s) !! pid); [done|]. rewrite decide_True; [done|].
      rewrite <- size_dom, (tk_table _ _ Ht). rewrite size_union, size_singleton in Hsz by set_solver. lia. }
    eexists. split; [reflexivity|]. split; [exact Htr|]. split; [done|]. split; [done|]. apply agg_add_tracked.
Qed.

Lemma seeds_tracking seeds s n S : tracking s S -> Forall (fun p => pid_ok p.1) seeds ->
  (size S + length seeds <= slots)%nat ->
  exists s' n', foldl seed_step (s, n) seeds = (s', n') /\ tracking s' (list_to_set seeds.*1 ∪ S) /\
    n' - n = Z.of_nat (size (list_to_set seeds.*1 ∪ S)) - Z.of_nat (size S) /\
    t_out s' = t_out s /\ t_files s' = t_files s /\ event_agg_map (t_bpf s') = event_agg_map (t_bpf s).
Proof.
  revert s n S. induction seeds as [|[pid ppid] seeds IH]; intros s n S Ht Hp Hsz.
  - exists s, n. cbn [foldl list_fmap fmap list_to_set]. rewrite (left_id_L ∅ (∪)). split_and!; (done || lia).
  - apply Forall_cons in Hp as [Hpid Hp]. cbn [fst] in Hpid. cbn [length] in Hsz.
    assert (size ({[pid]} ∪ S) = if decide (pid ∈ S) then size S else (1 + size S)%nat) as Hs1.
    { case_decide; [f_equal; set_solver|]. by rewrite size_union, size_singleton by set_solver. }
    assert (size ({[pid]} ∪ S) <= 1 + size S)%nat as Hs2 by (rewrite Hs1; case_decide; lia).
    destruct (seed_step_tracking s n S pid ppid Ht Hpid) as (s1 & E1 & Ht1 & Ho1 & Hf1 & Ha1); [lia|].
    cbn [foldl]. rewrite E1. destruct (IH s1 (if decide (pid ∈ S) then n else n + 1) _ Ht1 Hp) as (s2 & n2 & E2 & Ht2 & Hn & Ho2 & Hf2 & Ha2); [lia|].
    exists s2, n2. cbn [list_fmap fmap list_to_set fst].
    replace ({[pid]} ∪ list_to_set seeds.*1 ∪ S) with (list_to_set seeds.*1 ∪ ({[pid]} ∪ S)) by set_solver.
    split; [done|]. split; [done|]. split; [|split_and!; congruence]. rewrite Hs1 in Hn. case_decide; lia.
Qed.

Lemma init_tracking (maps : pstate hmap) : bpf_contents (tracked_pids maps) = [] -> bpf_max_entries (tracked_pids maps) = slots ->
  tracking (init_tracer env maps) ∅.
Proof.
  intros Hc Hm. destruct (init_refines (command_list env) (Z.of_nat (length (command_list env))) (env_filter_mode env) (env_pid env)) as [Hok Hmap].
  split; try done.
  - cbn [init_tracer t_bpf]. by rewrite (contents_nil_map _ Hc), dom_empty_L.
Qed.

End refine.

(** ** Properties *)

(** C8: the tracer follows the process tree: starting with the set [S] of
    tracked processes, after any sequence of events, whatever their strings, during which at most
    4096 processes are tracked at a time, the userspace table and the kernel's
    filter map both hold exactly the set the specification computes: an exec
    adds the process when its session, PID, parent or command name selects it
    (every exec in the ALL and PROC modes), an exit removes it, nothing else
    changes it. *)
Theorem tracking_follows_process_tree `{BpfRoom hmap} env w fuel evs (s : tracer hmap) S :
  tracking env s S -> tracer_texts any_text w s -> Forall (event_texts any_text) evs -> (agg_size s < fuel)%nat ->
  Forall (fun e => pid_ok (e_pid e)) evs -> fits env w S evs ->
  exists s', fold_opt (handle_event env w fuel) s evs = Some s' /\
    (forall pid, pid_tracker_is_tracked (t_pids s') pid = bool_decide (pid ∈ foldl (spec_event env w) S evs)) /\
    dom (bpf_map (tracked_pids (t_bpf s'))) = foldl (spec_event env w) S evs.
Proof.
  intros Ht Hs Hevs Hf. destruct (events_lines any_text env w fuel evs s Hs Hevs Hf) as (s' & E & _). intros Hp Hfit.
  exists s'. split; [done|]. clear Hs Hevs Hf. revert s S Ht Hp Hfit E. induction evs as [|e evs IH]; intros s S Ht Hp Hfit E; cbn [fold_opt foldl] in *.
  - injection E as <-. split; [intros pid; by apply (tracked_in env)|apply Ht].
  - apply Forall_cons in Hp as [Hpe Hp]. destruct Hfit as [Hsz Hfit].
    destruct (handle_event env w fuel s e) as [s1|] eqn:E1; [|done]. cbn [mbind option_bind] in E.
    destruct (handle_event_follows env w fuel s S e s1 Ht Hpe Hsz E1) as [Ht1 _ _]. by apply (IH s1 (spec_event env w S e)).
Qed.


(** Seeding: after [seed_initial_pids] on fresh maps the tracked processes,
    in the table and in the kernel's map, are the seeds (at most 4096, which
    the command line enforces), and the count returned is that of the distinct
    ones. *)
Theorem seeds_are_tracked `{BpfRoom hmap} env (maps : pstate hmap) :
  bpf_contents (tracked_pids maps) = [] -> bpf_max_entries (tracked_pids maps) = slots ->
  Forall (fun p => pid_ok p.1) (seed_pids env) -> (length (seed_pids env) <= MAX_SEED_PIDS)%nat ->
  let '(s, count) := seed_initial_pids env (init_tracer env maps) in
  tracking env s (list_to_set (seed_pids env).*1) /\
  count = Z.of_nat (size (list_to_set (seed_pids env).*1 : gset Z)) /\ t_out s = [].
Proof.
  intros Hc Hm Hp Hl. unfold seed_initial_pids.
  destruct (seeds_tracking env (seed_pids env) (init_tracer env maps) 0 ∅) as (s & n & -> & Ht & Hn & Ho & _).
  - by apply init_tracking.
  - done.
  - pose proof slots_eq. unfold TRACKED_PIDS_HASH_SIZE, MAX_SEED_PIDS in *. rewrite size_empty. lia.
  - rewrite (right_id_L ∅ (∪)) in Ht, Hn. rewrite size_empty in Hn. split; [done|]. split; [lia|by rewrite Ho].
Qed.

(** *** Witnesses *)

(** The FILTER mode with one command filter and two seeds. *)
Definition filter_env : env :=
  set_targets env0 [lit "node"] [(7, 1); (7, 1)] FILTER_MODE_FILTER 0 0.

Definition filter_maps : pstate bounded :=
  set_tracked_pids pstate0 (bd_empty (Z.to_nat TRACKED_PIDS_HASH_SIZE)).

Lemma filter_maps_max : bpf_max_entries (tracked_pids filter_maps) = slots.
Proof. apply Nat2Z.inj. rewrite slots_eq. cbn -[Z.of_nat Z.to_nat]. by rewrite Z2Nat.id. Qed.

Definition filter_tracer : tracer bounded := init_tracer filter_env filter_maps.

Lemma filter_tracking : tracking filter_env filter_tracer ∅.
Proof. apply init_tracking; [reflexivity|apply filter_maps_max]. Qed.

Lemma slots_ge n : (n <= 4096)%nat -> (n <= slots)%nat.
Proof. pose proof slots_eq. unfold TRACKED_PIDS_HASH_SIZE in *. lia. Qed.

(** "node" starts, starts a shell, the shell starts an unrelated command after
    "node" exited. *)
Definition tree_events : list event :=
  let ev pid ppid name ex := Event EVENT_TYPE_PROCESS pid ppid 0 0 1000 (array_of 16 (lit name)) (replicate 256 0)
                            (UFilename (array_of 127 (lit "/bin/x"))) ex in
  [ev 7 1 "node" false; ev 8 7 "bash" false; ev 7 1 "node" true; ev 9 8 "ls" false; ev 10 1 "ls" false]%string.

Lemma tree_events_texts : Forall (event_texts any_text) tree_events.
Proof. texts_test. Qed.

Lemma filter_texts : tracer_texts any_text sample_world filter_tracer.
Proof. split; [constructor|]. split; [apply not_elem_of_nil|constructor]. Qed.

Lemma tracking_follows_process_tree_witness :
  exists s', fold_opt (handle_event filter_env sample_world 5) filter_tracer tree_events = Some s' /\
    pid_tracker_is_tracked (t_pids s') 9 = true /\ pid_tracker_is_tracked (t_pids s') 10 = false /\
    dom (bpf_map (tracked_pids (t_bpf s'))) = ({[8; 9]} : gset Z).
Proof.
  destruct (tracking_follows_process_tree filter_env sample_world 5 tree_events filter_tracer ∅) as (s' & E & Ht & Hk).
  - apply filter_tracking.
  - apply filter_texts.
  - apply tree_events_texts.
  - vm_compute. lia.
  - repeat constructor.
  - repeat split; apply slots_ge; vm_compute; lia.
  - exists s'. split; [exact E|]. rewrite !Ht, Hk. split_and!; vm_compute; reflexivity.
Defined.

(** The exec of an unrelated command, with a name that is no text. *)
Definition other_exec : event :=
  Event EVENT_TYPE_PROCESS 10 1 0 0 1000 (array_of 16 [108; 10; 255]) (replicate 256 0) (UFilename (replicate 127 0)) false.


Lemma seeds_are_tracked_witness :
  let '(s, count) := seed_initial_pids filter_env filter_tracer in tracking filter_env s {[7]} /\ count = 1.
Proof.
  pose proof (seeds_are_tracked filter_env filter_maps) as Hs. unfold filter_tracer.
  destruct (seed_initial_pids filter_env (init_tracer filter_env filter_maps)) as [s count].
  destruct Hs as (Ht & Hc & _); [reflexivity|apply filter_maps_max|repeat constructor|vm_compute; lia|].
  split; [exact Ht|]. rewrite Hc. vm_compute. reflexivity.
Defined.
