(* ===== verification/ProcessMainSpec.v ===== *)
(** * The process tracer's command line, exits and shutdown

    Properties of [ProcessMain]: the parsers of the options, the agreement of
    program loading with the run-time switches, what an exit leaves behind, and
    what the end of the program delivers. *)

From S2P Require Import Prelude CLib Unicode Jsonl ProcessFilter ProcessFilterTable BpfFormat BpfMap ProcessBpf ProcessBpfSpec.
From S2P Require Import ProcUtils MapFlush MapFlushSpec FileAgg Userspace ProcessMain ProcessLines.

(** ** Lemmas: seeds *)

Lemma strtol10_fmt_u n r : 0 <= n <= LONG_MAX -> match r with [] => True | c :: _ => is_digit c = false end ->
  strtol10 (fmt_u n ++ r) = StrtolResult n (length (fmt_u n)) false.
Proof.
  intros Hn Hr. destruct (fmt_u_spec n) as (H1 & H2 & H3 & _); [lia|].
  rewrite strtol10_digits by (rewrite ?H3; done || lia). by rewrite H3.
Qed.

Lemma parse_seed_text p end2 :
  1 <= p <= LONG_MAX -> no_nul end2 -> match end2 with [] => True | c :: _ => is_digit c = false end ->
  parse_seed_pid_arg (fmt_u p ++ end2) =
  match end2 with
  | [] => Some (s32 p, 0)
  | c :: ppid_start =>
      if c =? 58 then
        let r2 := strtol10 ppid_start in
        if st_erange r2 || (st_end r2 =? 0)%nat || (st_val r2 <? 0) then None
        else match drop (st_end r2) ppid_start with [] => Some (s32 p, s32 (st_val r2)) | _ => None end
      else None
  end.
Proof.
  intros Hp Hn Hd. unfold parse_seed_pid_arg. rewrite cstr_id by (apply no_nul_app; [apply fmt_u_no_nul; lia|done]).
  rewrite strtol10_fmt_u by (done || lia). cbn [st_erange st_val st_end orb]. rewrite (proj2 (Z.leb_gt _ _)) by lia.
  rewrite drop_app_length. destruct end2 as [|c ps]; [done|]. destruct (c =? 58); [|done].
  destruct (st_erange _ || _ || _); [done|]. cbn [mbind option_bind]. by destruct (drop _ ps).
Qed.

(** ** Lemmas: command lists *)

Definition blanks (l : bytes) : Prop := Forall (fun c => is_blank c = true) l.

Definition blank_free_ends (name : bytes) : Prop :=
  match name with [] => False | c :: _ => is_blank c = false end /\
  match rev name with [] => False | c :: _ => is_blank c = false end.

Lemma drop_take_while p l r :
  Forall (fun c => p c = true) l -> match r with [] => True | c :: _ => p c = false end ->
  drop (length (take_while p (l ++ r))) (l ++ r) = r.
Proof. intros Hl Hr. by rewrite take_while_app, drop_app_length by done. Qed.

Lemma trim_name l name r : blanks l -> blanks r -> blank_free_ends name -> trim (l ++ name ++ r) = name.
Proof.
  intros Hl Hr [H1 H2]. unfold trim. rewrite drop_take_while; [|done|by destruct name].
  rewrite rev_app_distr. rewrite drop_take_while; [apply rev_involutive|by apply Forall_rev|by destruct (rev name)].
Qed.

Definition no_comma (s : bytes) : Prop := Forall (fun c => negb (c =? 44) = true) s.

Lemma strtok_token t rest : t <> [] -> no_comma t ->
  strtok_comma t = Some (t, []) /\ strtok_comma (t ++ 44 :: rest) = Some (t, rest).
Proof.
  intros Hne Ht. destruct t as [|c t]; [done|]. pose proof Ht as Ht'. apply Forall_cons in Ht' as [Hc _]. apply negb_true_iff in Hc.
  unfold strtok_comma. cbn [app take_while]. rewrite Hc. cbn [length drop].
  split.
  - pose proof (take_while_app (fun c => negb (c =? 44)) (c :: t) [] Ht I) as E. rewrite app_nil_r in E. rewrite E.
    by rewrite drop_ge by (simpl; lia).
  - change (c :: t ++ 44 :: rest) with ((c :: t) ++ 44 :: rest). rewrite (take_while_app _ (c :: t)) by done. f_equal. f_equal.
    cbn [length app drop]. clear. induction t as [|d t IH]; [done|]. cbn [length app drop]. exact IH.
Qed.

(** One padded name of the list. *)
Record padded := Padded { pd_left : bytes; pd_name : bytes; pd_right : bytes }.

Definition pd_text (p : padded) : bytes := pd_left p ++ pd_name p ++ pd_right p.

Definition padded_ok (p : padded) : Prop :=
  blanks (pd_left p) /\ blanks (pd_right p) /\ blank_free_ends (pd_name p) /\ no_comma (pd_name p) /\ no_nul (pd_name p).

(** The option's argument: the texts joined by commas. *)
Fixpoint comma_list (ps : list padded) : bytes :=
  match ps with
  | [] => []
  | [p] => pd_text p
  | p :: rest => pd_text p ++ 44 :: comma_list rest
  end.

Lemma blanks_chars l : blanks l -> no_comma l /\ no_nul l.
Proof.
  intros Hl. split; (eapply Forall_impl; [exact Hl|]); intros c Hc; unfold is_blank in Hc;
    apply orb_true_iff in Hc as [Hc|Hc]; apply Z.eqb_eq in Hc as ->; done.
Qed.

Lemma padded_text p : padded_ok p -> pd_text p <> [] /\ no_comma (pd_text p) /\ no_nul (pd_text p).
Proof.
  intros (Hl & Hr & [Hn _] & Hc & Hz). apply blanks_chars in Hl as [? ?], Hr as [? ?]. unfold pd_text. split_and!.
  - destruct (pd_name p); [done|]. by destruct (pd_left p).
  - by repeat (apply Forall_app; split).
  - by repeat apply no_nul_app.
Qed.

Lemma comma_list_no_nul ps : Forall padded_ok ps -> no_nul (comma_list ps).
Proof.
  induction 1 as [|p ps Hp _ IH]; [constructor|]. apply padded_text in Hp as (_ & _ & Hz). destruct ps as [|q ps]; [done|].
  cbn [comma_list] in *. apply no_nul_app; [done|]. constructor; [lia|done].
Qed.

Lemma command_loop_list alloc ps fuel done0 :
  Forall padded_ok ps -> Forall (fun p => alloc (pd_name p) = true) ps ->
  (length done0 + length ps <= MAX_COMMAND_LIST)%nat -> (length (comma_list ps) < fuel)%nat ->
  command_loop fuel alloc (comma_list ps) done0 = Some (done0 ++ map pd_name ps).
Proof.
  intros Hps Ha. revert fuel done0. induction Hps as [|p ps Hp Hps IH]; intros fuel done0 Hn Hf; (destruct fuel as [|f]; [simpl in Hf; lia|]).
  - cbn. by rewrite app_nil_r.
  - apply Forall_cons in Ha as [Hap Ha]. specialize (IH Ha). destruct (padded_text p Hp) as (Hne & Hc & _).
    destruct Hp as (Hl & Hr & Hb & _). cbn [length] in Hn. cbn [command_loop map].
    assert (trim (pd_text p) = pd_name p) as Ht by by apply trim_name.
    assert (exists x name, pd_name p = x :: name) as (x & name & En) by (destruct Hb as [Hb _]; destruct (pd_name p); [done|by do 2 eexists]).
    destruct ps as [|q ps].
    + cbn [comma_list]. rewrite (proj1 (strtok_token _ [] Hne Hc)). rewrite (proj2 (Nat.ltb_lt _ _)) by lia.
      rewrite Ht, En, <- En, Hap. destruct f; reflexivity.
    + change (comma_list (p :: q :: ps)) with (pd_text p ++ 44 :: comma_list (q :: ps)) in *.
      rewrite (proj2 (strtok_token _ (comma_list (q :: ps)) Hne Hc)). rewrite (proj2 (Nat.ltb_lt _ _)) by lia.
      rewrite Ht, En, <- En, Hap. rewrite length_app in Hf. cbn [length] in Hf. rewrite IH.
      * by rewrite <- app_assoc.
      * rewrite length_app. cbn [length] in *. lia.
      * lia.
Qed.

(** ** Lemmas: shutdown *)

Section shutdown.
Context `{BpfHashLaws hmap} (w : world).

(** A flush of everything: each entry is printed once and the map is empty. *)
Lemma flush_all_spec fuel (s : tracer hmap) out :
  zero_key ∉ (bpf_contents (event_agg_map (t_bpf s))).*1 ->
  Forall (fun p => 0 < v_count p.2) (bpf_contents (event_agg_map (t_bpf s))) -> (agg_size s < fuel)%nat ->
  flush_output (w_readlink w) (bpf_contents (event_agg_map (t_bpf s))) = Some out ->
  exists s', flush_all w fuel s = Some s' /\ bpf_contents (event_agg_map (t_bpf s')) = [] /\ t_out s' = t_out s ++ out /\
    agg_overflow_count (t_bpf s') = agg_overflow_count (t_bpf s) /\ t_pids s' = t_pids s /\ t_files s' = t_files s.
Proof.
  intros Hz Hp Hf Ho. unfold flush_all, flush_agg_map.
  destruct (flush_loop_all (bpf_contents (event_agg_map (t_bpf s))) (event_agg_map (t_bpf s)) zero_key fuel) as (m' & E & Hm'); [done..|].
  rewrite E. cbn [mbind option_bind]. rewrite Ho. cbn [mbind option_bind]. eexists. split; [reflexivity|]. by split_and!.
Qed.
End shutdown.

(** ** Lemmas: the limiter's table *)

Lemma find_limit_of limits pid : limit_of limits pid = None -> find_limit limits pid = None.
Proof. unfold limit_of, find_limit. by destruct (list_find _ limits) as [[i l]|]. Qed.

(** The entries of a full table keep their processes. *)
Lemma full_step limits pid ts : length limits = MAX_PID_LIMITS ->
  let limits' := fst (fst (should_rate_limit_file limits pid ts)) in
  map pl_pid limits' = map pl_pid limits.
Proof.
  intros Hl. unfold should_rate_limit_file, get_limit. destruct (find_limit limits pid) as [i|].
  - destruct (limits !! i) as [l|] eqn:Hi; [|done]. destruct (limit_step l _) as [[l' d] wn] eqn:E. cbn [fst].
    assert (pl_pid l' = pl_pid l) as Hpl by (unfold limit_step in E; by injection E as <- _ _).
    apply list_eq. intros j. change (map pl_pid) with (fmap (M:=list) pl_pid). rewrite !list_lookup_fmap. destruct (decide (i = j)) as [->|Hne].
    + rewrite list_lookup_insert_eq by (by apply lookup_lt_Some in Hi). rewrite Hi. cbn. by rewrite Hpl.
    + by rewrite list_lookup_insert_ne.
  - rewrite Hl, Nat.ltb_irrefl. done.
Qed.

Lemma limit_of_pids limits pid : limit_of limits pid = None <-> pid ∉ map pl_pid limits.
Proof.
  unfold limit_of. rewrite fmap_None, list_find_None, Forall_forall. split.
  - intros Hn Hin. apply list_elem_of_In, in_map_iff in Hin as (l & E & Hl). by apply (Hn l); [apply list_elem_of_In|].
  - intros Hn l Hl E. apply Hn. apply list_elem_of_In, in_map_iff. exists l. split; [done|by apply list_elem_of_In].
Qed.

Lemma exit_event_mem `{BpfHashLaws hmap} w (mem mem' : hmap Z Z) e line :
  print_exit_event w mem e = Some (line, mem') -> bpf_map mem' !! u32 (e_pid e) = None.
Proof.
  unfold print_exit_event. destruct (json_escaped _ _) as [ce|]; [|done]. cbn [mbind option_bind]. intros E.
  apply (f_equal (option_map snd)) in E. cbn [option_map snd] in E.
  destruct (bpf_map_lookup_elem mem (u32 (e_pid e))) eqn:El; injection E as <-.
  - by rewrite bpf_delete_map, lookup_delete_eq.
  - by rewrite <- bpf_lookup.
Qed.

(** ** Properties *)

(** The seeds of the collector: the decimal forms "PID" and "PID:PPID" are
    accepted for any PID from 1 and PPID from 0 that fit a long, and yield the
    numbers converted to pid_t: the same numbers up to 2^31 - 1, wrapped ones
    beyond. *)
Theorem seed_pid_arg_parses p q :
  1 <= p <= LONG_MAX -> 0 <= q <= LONG_MAX ->
  parse_seed_pid_arg (fmt_u p) = Some (s32 p, 0) /\
  parse_seed_pid_arg (fmt_u p ++ lit ":" ++ fmt_u q) = Some (s32 p, s32 q).
Proof.
  intros Hp Hq. split.
  - rewrite <- (app_nil_r (fmt_u p)). rewrite parse_seed_text; [done|done|constructor|done].
  - rewrite parse_seed_text; [|done|apply no_nul_app; [by apply no_nul_test|apply fmt_u_no_nul; lia]|done].
    change (lit ":" ++ fmt_u q) with (58 :: fmt_u q). cbn match. change (58 =? 58) with true. cbn match.
    pose proof (strtol10_fmt_u q [] Hq I) as E. rewrite app_nil_r in E. rewrite E. cbn [st_erange st_end st_val].
    destruct (fmt_u_spec q) as (_ & Hl & _); [lia|]. rewrite (proj2 (Nat.eqb_neq _ _)), (proj2 (Z.ltb_ge _ _)) by lia.
    by rewrite drop_all.
Qed.

Lemma seed_pid_arg_parses_witness :
  parse_seed_pid_arg (lit "4242:17") = Some (4242, 17) /\ parse_seed_pid_arg (lit "4294967297") = Some (1, 0).
Proof.
  split.
  - apply (seed_pid_arg_parses 4242 17); unfold LONG_MAX; lia.
  - apply (seed_pid_arg_parses 4294967297 0); unfold LONG_MAX; lia.
Defined.

(** The command list of -c: names joined by commas, each padded by any
    blanks, are exactly the filters the option adds, in order, while they fit
    the 256 there is room for. *)
Theorem command_list_parses alloc ps commands :
  Forall padded_ok ps -> Forall (fun p => alloc (pd_name p) = true) ps ->
  (length commands + length ps <= MAX_COMMAND_LIST)%nat ->
  parse_commands alloc (comma_list ps) commands = Some (commands ++ map pd_name ps).
Proof.
  intros Hps Ha Hn. unfold parse_commands. rewrite cstr_id by by apply comma_list_no_nul.
  apply command_loop_list; (done || lia).
Qed.

Lemma command_list_parses_witness :
  parse_commands (fun _ => true) (lit " claude , python") [lit "node"] = Some [lit "node"; lit "claude"; lit "python"].
Proof.
  apply (command_list_parses (fun _ => true) [Padded [32] (lit "claude") [32]; Padded [32] (lit "python") []] [lit "node"]).
  - repeat constructor; discriminate.
  - repeat constructor.
  - vm_compute. lia.
Defined.

(** Program loading agrees with the run-time switches: a probe
    [configure_optional_programs] does not load would change nothing if it ran,
    so leaving it out loses no event. *)
Theorem unloaded_probe_is_noop `{BpfHash hmap} env id p (s : pstate hmap) c :
  configure_optional_programs env p = false -> run_probe (rodata env id) p s c = Some s.
Proof.
  intros Hp. destruct p; cbn [configure_optional_programs] in Hp; try discriminate Hp; cbn [run_probe];
    unfold trace_unlinkat, trace_unlink, trace_renameat2, trace_renameat, trace_rename, trace_mkdirat, trace_mkdir,
      trace_ftruncate, trace_chdir, trace_write_enter, trace_write_exit, trace_pwrite64_enter, trace_pwrite64_exit,
      trace_writev_enter, trace_writev_exit, trace_bind, trace_connect, trace_listen, trace_setpgid, trace_setsid, trace_kill, trace_fork,
      trace_mmap, trace_cow_fault, agg_path_event, trace_write_enter_common, trace_write_exit_common, trace_sockaddr;
    cbn [rodata trace_fs_mutations trace_network trace_signals trace_memory ProcessBpf.trace_cow]; rewrite Hp; reflexivity.
Qed.

Lemma unloaded_probe_is_noop_witness :
  run_probe (rodata env0 0) P_unlinkat pstate0 (ctx_at 7 7 5 (fun _ => 0) 0) = Some pstate0.
Proof. apply unloaded_probe_is_noop. reflexivity. Defined.


Definition exit_event_7 : event :=
  Event EVENT_TYPE_PROCESS 7 1 0 5000000 3000 (array_of 16 (lit "node")) (replicate 256 0) (UFilename (replicate 127 0)) true.

(** A tracer with a folded open of process 7 and of process 8. *)
Definition busy_tracer : tracer bounded :=
  set_files sample_tracer (FileState
    [FileHashEntry 1 0 3 7 (array_of 16 (lit "node")) (array_of 127 (lit "/a")) 0;
     FileHashEntry 2 0 1 8 (array_of 16 (lit "sh")) (array_of 127 (lit "/b")) 0] []).


(** The limiter is off for new processes once 256 have been seen: entries
    are never evicted (an exit removes one only when its warning is pending),
    and with a full table every event of a process without an entry passes,
    however many and however interleaved. *)
Theorem limiter_off_when_full limits evs pid :
  length limits = MAX_PID_LIMITS -> limit_of limits pid = None ->
  passed pid (limit_run limits evs) = events_of pid evs /\
  (forall old l, limit_of limits old = Some l -> Forall (fun l => pl_pid l = old -> should_warn_next l = false) limits ->
     take_warning limits old = (limits, false)).
Proof.
  intros Hl Hn. split.
  - revert limits Hl Hn. induction evs as [|[p ts] evs IH]; intros limits Hl Hn; [done|]. cbn [limit_run].
    pose proof (full_step limits p ts Hl) as Hs. cbv zeta in Hs.
    assert (p = pid -> should_rate_limit_file limits p ts = (limits, false, false)) as Hp.
    { intros ->. unfold should_rate_limit_file, get_limit. by rewrite (find_limit_of _ _ Hn), Hl, Nat.ltb_irrefl. }
    destruct (should_rate_limit_file limits p ts) as [[limits' d] wn]. cbn [fst] in Hs.
    assert (length limits' = MAX_PID_LIMITS) as Hl' by (rewrite <- (length_map pl_pid), Hs, length_map; done).
    assert (limit_of limits' pid = None) as Hn' by (rewrite limit_of_pids, Hs, <- limit_of_pids; done).
    specialize (IH limits' Hl' Hn'). unfold passed, events_of in *. cbn [List.filter fst snd].
    destruct (Z.eqb_spec p pid) as [E|E]; cbn [andb]; [|done].
    specialize (Hp E). injection Hp as _ -> _. cbn [negb length]. by rewrite IH.
  - intros old l _ Hw. unfold take_warning. destruct (list_find _ limits) as [[i x]|] eqn:E; [|done].
    apply list_find_Some in E as (Hi & (Hp & Hx) & _). pose proof (proj1 (Forall_lookup _ _) Hw _ _ Hi Hp). congruence.
Qed.

Definition full_limits : list per_second_limit := map (fun i => PerSecondLimit (1000 + Z.of_nat i) 1 2 false) (seq 0 256).

Lemma limiter_off_when_full_witness :
  passed 7 (limit_run full_limits (repeat (7, 5000000000) 100)) = 100%nat /\ take_warning full_limits 1003 = (full_limits, false).
Proof.
  destruct (limiter_off_when_full full_limits (repeat (7, 5000000000) 100) 7) as [H1 H2].
  - vm_compute. reflexivity.
  - vm_compute. reflexivity.
  - split; [rewrite H1; vm_compute; reflexivity|]. apply (H2 1003 (PerSecondLimit 1003 1 2 false)).
    + vm_compute. reflexivity.
    + unfold full_limits. apply Forall_forall. intros l Hl. apply list_elem_of_In, in_map_iff in Hl as (i & <- & _). reflexivity.
Defined.


(** A tracer with one aggregated event and three uncounted ones. *)
Definition pending_tracer : tracer bounded :=
  set_bpf sample_tracer (set_agg pstate0 (fst (bpf_map_update_elem (bd_empty 8) write_key write_val BPF_ANY)) [3; 0]).

