(* ===== verification/ProcessRun.v ===== *)
(** * The process tracer from the kernel to its output

    Whatever bytes the names, paths and arguments of the traced processes hold,
    the probes keep the aggregation map and the ring buffer in the state the
    printers need; hence the program, from its start to its end and under any
    schedule of probes, deliveries, flushes and refreshes, never fails and
    prints lines whose counts add up to the events that happened.  When the
    strings are printable ASCII the lines are JSON.  The texts of a run are made
    of the characters of a class [ch], which is all of them or the printable ones
    where it is used. *)

From S2P Require Import Prelude CLib Unicode Jsonl ProcessFilter ProcessFilterTable BpfFormat BpfMap Tracer ProcessBpf ProcessBpfSpec.
From S2P Require Import ProcUtils MapFlush MapFlushSpec FileAgg Userspace ProcessMain EventLines ProcessLines ProcessMainSpec.

(** ** Characters and texts *)

Definition printable (c : Z) : Prop := 32 <= c < 128.

Definition any_char (c : Z) : Prop := True.

(** What the tracer itself writes is printable. *)
Class Chars (ch : Z -> Prop) : Prop := chars_printable : forall c, printable c -> ch c.

#[export] Instance printable_chars : Chars printable.
Proof. by intros c. Qed.

#[export] Instance any_chars : Chars any_char.
Proof. by intros c. Qed.

Definition text (ch : Z -> Prop) (t : bytes) : Prop := Forall ch t.

Lemma any_char_text t : text any_char t.
Proof. by apply list.Forall_forall. Qed.

Lemma utf8_decode_ascii t : text printable t -> utf8_decode t = Some t.
Proof.
  unfold utf8_decode. induction 1 as [|c t Hc _ IH]; [done|]. unfold printable in Hc. cbn [length utf8_decode_fuel].
  rewrite utf8_next_ascii by lia. cbn [mbind option_bind]. change (drop 1 (c :: t)) with t. by rewrite IH.
Qed.

Lemma printable_plain t : text printable t -> plain t.
Proof.
  intros Ht. exists t. split; [|by apply utf8_decode_ascii]. eapply Forall_impl; [exact Ht|]. unfold printable. intros c Hc. lia.
Qed.

(** A block of NUL-separated texts. *)
Definition text_block (ch : Z -> Prop) (b : bytes) : Prop := Forall (fun c => c = 0 \/ ch c) b.

Create HintDb text.

Section texts.
Context (ch : Z -> Prop) {Hch : Chars ch}.

Lemma text_nil : text ch [].
Proof. constructor. Qed.

Lemma text_app a b : text ch a -> text ch b -> text ch (a ++ b).
Proof. intros Ha Hb. by apply Forall_app. Qed.

Lemma text_take n t : text ch t -> text ch (take n t).
Proof. apply Forall_take. Qed.

Lemma text_printable t : text printable t -> text ch t.
Proof. intros Ht. eapply Forall_impl; [exact Ht|]. apply Hch. Qed.

Lemma text_lit t : forallb (fun c => (32 <=? c) && (c <? 128)) t = true -> text ch t.
Proof.
  intros Ht. apply text_printable, list.Forall_forall. intros c Hc. apply list_elem_of_In in Hc. apply (proj1 (forallb_forall _ _) Ht) in Hc.
  apply andb_true_iff in Hc as [H1 H2]. bool_to_prop. unfold printable. lia.
Qed.

Lemma text_d n : text ch (fmt_d n).
Proof.
  apply text_printable. eapply Forall_impl; [apply fmt_d_chars|]. intros c [Hc| ->]; unfold printable; [apply is_digit_spec in Hc; lia|lia].
Qed.

Lemma text_u n : 0 <= n -> text ch (fmt_u n).
Proof.
  intros Hn. apply text_printable. destruct (fmt_u_spec n Hn) as (Hd & _). eapply Forall_impl; [exact Hd|]. intros c Hc. apply is_digit_spec in Hc. unfold printable. lia.
Qed.

Lemma text_cstr t : text ch t -> text ch (cstr t).
Proof.
  induction 1 as [|c b Hc _ IH]; [constructor|]. unfold cstr. cbn [take_while]. destruct (c =? 0); cbn [negb]; [constructor|]. by constructor.
Qed.

Lemma block_cstr b : text_block ch b -> text ch (cstr b).
Proof.
  induction 1 as [|c b Hc _ IH]; [constructor|]. unfold cstr. cbn [take_while]. destruct (Z.eqb_spec c 0); cbn [negb]; [constructor|].
  constructor; [by destruct Hc|done].
Qed.

Lemma text_block_of t : text ch t -> text_block ch t.
Proof. intros Ht. eapply Forall_impl; [exact Ht|]. by right. Qed.

Lemma text_block_app a b : text_block ch a -> text_block ch b -> text_block ch (a ++ b).
Proof. intros Ha Hb. by apply Forall_app. Qed.

Lemma text_block_zeros n : text_block ch (replicate n 0).
Proof. apply Forall_replicate. by left. Qed.

(** The command line of a block. *)
Lemma postprocess_text buf n m : text_block ch buf -> text ch (postprocess_full_command buf n m).
Proof.
  intros Hb. unfold postprocess_full_command. assert (text_block ch [0]) as H0 by (apply (text_block_zeros 1)).
  destruct (_ || _); apply block_cstr; [apply text_block_app; [by apply Forall_take|done]|].
  apply text_block_app; [|apply text_block_app; [|done]].
  - apply Forall_map. eapply Forall_impl; [apply Forall_take, Forall_take, Hb|]. intros c Hc. right.
    destruct (Z.eqb_spec c 0); [apply Hch; unfold printable; lia|by destruct Hc].
  - by apply Forall_drop, Forall_take.
Qed.

(** Without arguments it is the text before the first NUL. *)
Lemma postprocess_first t rest n : text ch t -> no_nul t -> text ch (postprocess_full_command (t ++ 0 :: rest) n 0).
Proof.
  intros Ht Hz. unfold postprocess_full_command. cbn [Z.eqb orb]. set (k := Z.to_nat (n - 1)).
  assert (cstr (take k (t ++ 0 :: rest) ++ [0]) = take k t) as ->; [|by apply text_take].
  destruct (decide (k <= length t)%nat).
  - rewrite take_app_le by done. apply cstr_app. by apply no_nul_take.
  - rewrite take_app_ge by lia. replace (k - length t)%nat with (S (k - length t - 1)) by lia. cbn [firstn].
    rewrite <- app_assoc. cbn [app]. rewrite cstr_app by done. by rewrite take_ge by lia.
Qed.

(** A string read into an array. *)
Lemma str_into_array_text n dst (str : bytes) : (length dst <= n)%nat -> (0 < n)%nat -> text ch (cstr str) -> text_array (text ch) n (str_into dst str).
Proof.
  intros Hd Hn Ha. assert (no_nul (take (length dst - 1) (cstr str))) as Hz by (apply no_nul_take, cstr_no_nul).
  unfold str_into. split_and!.
  - apply elem_of_app. right. left.
  - rewrite !length_app, length_drop, length_take. cbn [length]. lia.
  - cbn [app]. rewrite cstr_app by done. by apply text_take.
Qed.

Lemma dir_text_text p : text ch p -> text ch (dir_text p).
Proof. intros Hp. unfold dir_text. cbv zeta. destruct (0 <? _); auto using text_take. Qed.
End texts.

#[export] Hint Resolve text_nil text_app text_take text_d text_u text_cstr : text.
#[export] Hint Extern 1 (text _ (lit _)) => (apply text_lit; [apply _|reflexivity]) : text.

(** ** Invocations *)

(** What the kernel guarantees of an invocation by processes whose names, paths
    and arguments are texts of the class: the fields have their types, the
    command name ends in its array. *)
Record text_ctx (ch : Z -> Prop) (c : bpf_ctx) : Prop := {
  pc_ok : ctx_ok c;
  pc_time : 0 <= c_ktime c;
  pc_comm : length (c_comm c) = TASK_COMM_LEN /\ 0 ∈ c_comm c /\ text ch (cstr (c_comm c));
  pc_str : forall a s, c_user_str c a = Some s -> text ch (cstr s);
  pc_filename : text ch (cstr (c_filename c));
  pc_args : forall b, c_user_mem c (c_arg_start c) (MAX_COMMAND_LEN - 1) = Some b -> text_block ch b;
  pc_slot : forall e u, c_rb_slot c = Some (e, u) -> 0 <= e_duration_ns e;
}.

(** Links lead to paths of the class. *)
Definition links_text (ch : Z -> Prop) (readlink : bytes -> option bytes) : Prop := forall p t, readlink p = Some t -> text ch t.

Section keys.
Context (ch : Z -> Prop) {Hch : Chars ch}.

(** The text of a key. *)
Lemma sockaddr_text_text c : ctx_ok c -> text ch (sockaddr_text c).
Proof.
  intros (_ & _ & Hm). unfold sockaddr_text. cbv zeta.
  assert (forall a n b i, c_user_mem c a n = Some b -> 0 <= mem_byte b i < 256) as Hb.
  { intros a n b i E. by apply mem_byte_ok, (Hm a n b). }
  destruct (_ =? 2).
  - destruct (c_user_mem c (c_args c 1%nat) 16) as [b|] eqn:E; [|auto with text]. pose proof (fun i => Hb _ _ _ i E) as Hi.
    pose proof (Hi 2%nat). pose proof (Hi 3%nat). unfold ipv4_port_text.
    repeat (apply text_app || (apply text_u; [done|])); try (apply text_lit; [done|reflexivity]); try (apply Z.mod_pos_bound; lia); lia.
  - apply text_app; [auto with text|]. apply text_u; [done|]. destruct (c_user_mem c (c_args c 1%nat) 2) as [b|] eqn:E; [|lia].
    pose proof (Hb _ _ _ 0%nat E). pose proof (Hb _ _ _ 1%nat E). lia.
Qed.

Lemma probe_text_text `{BpfHash hmap} p (s : pstate hmap) c t : text_ctx ch c -> probe_text p s c = Some t -> text ch t.
Proof.
  intros Hc. pose proof (c_pid_bound c (pc_ok _ _ Hc)).
  assert (forall a t, dir_text <$> (take 126 ∘ cstr <$> c_user_str c a) = Some t -> text ch t) as Hpath.
  { intros a t' Ht. destruct (c_user_str c a) as [str|] eqn:E; [|done]. injection Ht as <-. apply dir_text_text, text_take. by eapply (pc_str _ _ Hc). }
  assert (forall m id t, fd_text <$> bpf_map_lookup_elem (m : hmap Z Z) id = Some t -> text ch t) as Hfd.
  { intros m id t' Ht. destruct (bpf_map_lookup_elem m id); [|done]. apply (inj Some) in Ht as <-. unfold fd_text. auto with text. }
  destruct p; cbn [probe_text]; try done; try (by apply Hpath); try (destruct (0 <? _); [by apply Hfd|done]).
  2: { destruct (c_user_str c _) as [str|] eqn:E; [|done]. intros [= <-]. apply text_take. by eapply (pc_str _ _ Hc). }
  all: try (destruct (Z.odd _); [|done]); intros E; apply (inj Some) in E as <-; unfold fd_text; try (by apply sockaddr_text_text, Hc); try (by constructor);
    auto 8 with text lia.
Qed.

(** ** The kernel's side *)

Lemma entry_detail_text readlink key t :
  links_text ch readlink -> detail_ok (k_detail key) t -> text ch t -> text ch (entry_detail readlink key).
Proof.
  intros Hl (Hd & _ & _) Ht. unfold entry_detail. destruct (entry_path readlink key) as [p|] eqn:E; cbn [default from_option id]; [|by rewrite Hd].
  unfold entry_path in E. destruct (entry_fd key) as [fd|]; [|done]. cbn [mbind option_bind] in E. unfold resolve_fd_path in E.
  destruct (readlink _) as [target|] eqn:El; [|done]. apply Hl in El. case_bool_decide; [done|]. injection E as <-.
  rewrite strncpy_term_id; [|apply elem_of_app; right; left|rewrite length_app, length_take; unfold MAX_FILENAME_LEN; cbn [length]; lia].
  apply block_cstr, text_block_app; [by apply text_block_of, text_take|apply (text_block_zeros ch 1)].
Qed.
End keys.

Section kernel.
Context (ch : Z -> Prop) {Hch : Chars ch}.
Context `{BpfHashLaws hmap} (cfg : bpf_config) (readlink : bytes -> option bytes) (Hlinks : links_text ch readlink).
Implicit Types (s : pstate hmap) (c : bpf_ctx).

(** The entries of the map hold texts. *)
Definition agg_entries_text s : Prop := map_Forall (fun k v => agg_texts (text ch) readlink (k, v)) (bpf_map (event_agg_map s)).

Lemma entries_text_contents s : agg_entries_text s <-> Forall (agg_texts (text ch) readlink) (bpf_contents (event_agg_map s)).
Proof.
  unfold agg_entries_text. rewrite Forall_forall. split.
  - intros Hm [k v] Hin. apply bpf_map_lookup_list in Hin. by apply Hm.
  - intros Hf k v Hkv. apply Hf. by apply bpf_map_lookup_list.
Qed.

(** The entry a probe creates or updates. *)
Lemma counted_entry_text s s' c key n v v' t :
  text_ctx ch c -> agg_entries_text s -> counts_ok (bpf_map (event_agg_map s')) ->
  k_pid key = c_pid c -> detail_ok (k_detail key) t -> text ch t -> extra_from s s' c key ->
  v = bpf_map (event_agg_map s) !! key -> bpf_map (event_agg_map s') !! key = Some v' -> v_last_ts v' = c_ktime c -> v_comm v' = c_comm c -> n = v_count v' ->
  agg_texts (text ch) readlink (key, v').
Proof.
  intros Hc Hm Hcnt Hpid Hd Ht Hx Ev Hv' Hts Hcm Hn. pose proof (Hcnt _ _ Hv') as Hpos. pose proof (c_pid_bound c (pc_ok _ _ Hc)) as Hpb.
  destruct (pc_comm _ _ Hc) as (Hcl & Hcz & Hca). pose proof (pc_time _ _ Hc).
  assert (exists old, (0 ∈ old /\ length old = MAX_FILENAME_LEN /\ text ch (cstr old)) /\
    (v_extra v' = old \/ exists a str, c_user_str c a = Some str /\ v_extra v' = str_into old (local_str MAX_FILENAME_LEN str))) as (old & (Hoz & Hol & Hop) & Hex).
  { eexists. split; [|exact (Hx v' Hv')]. rewrite <- Ev. destruct v as [v|]; cbn [fmap option_fmap option_map default from_option id].
    - destruct (Hm key v (eq_sym Ev)) as ([_ _ [Hz Hl] _] & _ & _ & _ & Hp). done.
    - split; [|split; [reflexivity|apply text_nil]]. apply elem_test. reflexivity. }
  assert (0 ∈ v_extra v' /\ length (v_extra v') = MAX_FILENAME_LEN /\ text ch (cstr (v_extra v'))) as (Hz & Hl & Hp).
  { destruct Hex as [-> |(a & str & Hs & ->)]; [done|].
    destruct (str_into_array old (local_str MAX_FILENAME_LEN str)) as (E & Hz & Hl); [rewrite Hol; unfold MAX_FILENAME_LEN; lia|].
    split; [done|]. split; [congruence|]. rewrite E, local_str_cstr. apply text_take, text_take. by eapply (pc_str _ _ Hc). }
  destruct Hd as (Hdt & Hdz & Hdl). split; [|split; [cbn; lia|split; [|split; [|done]]]]; cbn [fst snd].
  - split; [by split|by rewrite Hcm; split|by split|]. rewrite Hts, Hpid. lia.
  - by rewrite Hcm.
  - by apply (entry_detail_text ch _ _ t).
Qed.

(** A probe keeps the entries and adds at most one. *)
Lemma probe_entries_text p s c s' :
  text_ctx ch c -> state_ok s -> counts_ok (bpf_map (event_agg_map s')) -> agg_entries_text s -> run_probe cfg p s c = Some s' ->
  agg_entries_text s' /\ (size (bpf_map (event_agg_map s')) <= S (size (bpf_map (event_agg_map s))))%nat.
Proof.
  intros Hc Hok Hcnt Hm Hr. destruct (probe_type p) as [ty|] eqn:Ety.
  - destruct (probe_outcome cfg p s c ty (pc_ok _ _ Hc) (sok_write _ Hok) Ety) as (s1 & E & _ & _ & Ho). rewrite E in Hr. injection Hr as ->.
    destruct (if probe_flag cfg p && is_event_tracked cfg s c then probe_text p s c else None) as [t|] eqn:Et.
    2: { destruct Ho as [Eo _]. unfold agg_entries_text. rewrite Eo. auto. }
    assert (text ch t) as Ht by (destruct (_ && _); [by eapply probe_text_text|done]).
    destruct Ho as (key & Hp & _ & Hd & [(v' & Em & _ & Hts & Hcm & _)|(Em & _)] & Hx); unfold agg_entries_text; rewrite Em; [|auto].
    split; [|rewrite map_size_insert; destruct (bpf_map (event_agg_map s) !! key); unfold id; lia]. apply map_Forall_insert_2; [|done].
    eapply counted_entry_text; [exact Hc|exact Hm|exact Hcnt|exact Hp|exact Hd|exact Ht|exact Hx|reflexivity| |exact Hts|exact Hcm|reflexivity].
    rewrite Em. apply lookup_insert_eq.
  - destruct (ring_probe_same cfg p s c Ety) as (s1 & E & E1 & _). rewrite E in Hr. injection Hr as ->. unfold agg_entries_text. rewrite E1. auto.
Qed.

(** *** The ring buffer *)

Definition adds_texts s s' : Prop := adds_one (event_texts (text ch)) (rb s) (rb s').

Lemma comm_array c : text_ctx ch c -> text_array (text ch) TASK_COMM_LEN (c_comm c).
Proof. intros Hc. destruct (pc_comm _ _ Hc) as (Hl & Hz & Ha). split; [done|]. split; [by rewrite Hl|done]. Qed.

(** The command line of an exec: the argument block, or the name of the
    process. *)
Lemma exec_command_text c e0 :
  text_ctx ch c -> let '(cmd, n) := exec_command c e0 in text ch (postprocess_full_command cmd 256 n) /\ 0 <= n.
Proof.
  intros Hc. destruct (pc_comm _ _ Hc) as (_ & _ & Ha). unfold exec_command. cbv zeta. set (n := if _ <? u64 _ then _ else _).
  destruct (0 <? n).
  - split; [|apply Z.land_nonneg; by right]. apply postprocess_text; [done|].
    destruct (c_user_mem c (c_arg_start c) _) as [b|] eqn:E; [apply text_block_app; [by apply (pc_args _ _ Hc)|by apply (text_block_zeros ch 1)]|].
    unfold str_into. apply text_block_app; [by apply text_block_of, text_take|]. apply text_block_app; [by apply (text_block_zeros ch 1)|].
    rewrite drop_replicate. apply text_block_zeros.
  - split; [|done]. unfold str_into. apply postprocess_first; [by apply text_take|apply no_nul_take, cstr_no_nul].
Qed.

Lemma bash_texts s c s' : text_ctx ch c -> bash_readline cfg s c = Some s' -> adds_texts s s'.
Proof.
  intros Hc. unfold bash_readline. cbv zeta. destruct (_ =? 0); [intros [= <-]; by left|]. destruct (negb (is_cgroup_tracked _ _ _)); [intros [= <-]; by left|].
  destruct (_ || _); [intros [= <-]; by left|]. destruct (c_rb_slot c) as [[e0 u0]|]; [|intros [= <-]; by left].
  intros E. apply (inj Some) in E as <-. apply adds_sample. split; cbn [e_type e_comm e_union u_text]; [by apply comm_array| |].
  - destruct (c_user_str c (c_ret c)) as [str|] eqn:E.
    + apply str_into_array_text; [rewrite length_take; lia|unfold MAX_COMMAND_LEN; lia|by eapply (pc_str _ _ Hc)].
    + split; [apply elem_test; reflexivity|]. split; [by rewrite length_replicate|apply text_nil].
  - split; [apply (pc_time _ _ Hc)|done].
Qed.

Lemma exec_texts s c s' : text_ctx ch c -> handle_exec cfg s c = Some s' -> adds_texts s s'.
Proof.
  intros Hc. unfold handle_exec. cbv zeta. destruct (negb (is_cgroup_tracked _ _ _)); [intros [= <-]; by left|].
  destruct (negb (min_duration_ns cfg =? 0)); [intros [= <-]; by left|]. destruct (c_rb_slot c) as [[e0 u0]|] eqn:Es; [|intros [= <-]; by left].
  pose proof (exec_command_text c e0 Hc) as Hx. destruct (exec_command c e0) as [cmd n]. destruct Hx as [Hp Hn].
  intros E. apply (inj Some) in E as <-. apply adds_sample. split; cbn [e_type e_comm e_union e_full_command e_exit_code u_text]; [by apply comm_array| |].
  - intros _. split; [|done]. apply str_into_array_text; [rewrite length_take; lia|unfold MAX_FILENAME_LEN; lia|apply (pc_filename _ _ Hc)].
  - split; [apply (pc_time _ _ Hc)|]. split; [done|]. exact (pc_slot _ _ Hc e0 u0 Es).
Qed.

Lemma exit_texts s c s' : text_ctx ch c -> handle_exit cfg s c = Some s' -> adds_texts s s'.
Proof.
  intros Hc. unfold handle_exit. cbv zeta. destruct (negb (is_cgroup_tracked _ _ _)); [intros [= <-]; by left|].
  destruct (negb (c_pid c =? c_tid c)); [intros [= <-]; by left|]. set (dur := match bpf_map_lookup_elem _ _ with Some t => _ | None => 0 end).
  assert (0 <= dur) as Hdur by (unfold dur; case_match; [apply wrapu_bound; lia|lia]). clearbody dur.
  destruct (_ && _); [intros [= <-]; by left|]. destruct (_ && _); [intros [= <-]; by left|].
  destruct (c_rb_slot c) as [[e0 u0]|] eqn:Es; [|intros [= <-]; by left].
  intros E. apply (inj Some) in E as <-. destruct (0 <? c_signal_maxrss c); (apply adds_sample;
    split; cbn [e_type e_comm e_exit_event]; [by apply comm_array|done|]; split; [apply (pc_time _ _ Hc)|]; split; [apply Z.land_nonneg; by right|done]).
Qed.

Lemma open_texts s c s' a flags : text_ctx ch c -> file_open_event cfg s c a flags = Some s' -> adds_texts s s'.
Proof.
  intros Hc. unfold file_open_event. destruct (negb (is_cgroup_tracked _ _ _)); [intros [= <-]; by left|].
  destruct (c_user_str c a) as [str|] eqn:E; [|intros [= <-]; by left]. cbv zeta. destruct (c_rb_slot c) as [[e0 u0]|]; [|intros [= <-]; by left].
  intros Er. apply (inj Some) in Er as <-. apply adds_sample. split; cbn [e_type e_comm e_union u_text]; [by apply comm_array| |split; [apply (pc_time _ _ Hc)|done]].
  apply str_into_array_text; [rewrite length_take; lia|unfold MAX_FILENAME_LEN; lia|]. rewrite local_str_cstr. apply text_take. by eapply (pc_str _ _ Hc).
Qed.

(** A probe submits at most one sample, with texts in its arrays. *)
Lemma probe_samples_text p s c s' : text_ctx ch c -> write_ctx_ok s -> run_probe cfg p s c = Some s' -> adds_texts s s'.
Proof.
  intros Hc Hw Hr. destruct (probe_type p) as [ty|] eqn:Ety.
  { destruct (probe_outcome cfg p s c ty (pc_ok _ _ Hc) Hw Ety) as (s1 & E & (_ & _ & _ & _ & Hrb) & _). rewrite E in Hr. injection Hr as ->. by left. }
  destruct p; try discriminate Ety; cbn [run_probe] in Hr; try (by eapply bash_texts); try (by eapply exec_texts); try (by eapply exit_texts); try (by eapply open_texts).
  all: revert Hr; unfold trace_write_enter, trace_pwrite64_enter, trace_writev_enter, trace_write_enter_common; repeat case_match; intros [= <-]; by left.
Qed.
End kernel.

(** ** The cgroup filter *)

(** The ids of the directories of the hierarchy are among [ids]. *)
Definition ids_of (fs : filesystem) (ids : gset Z) : Prop := forall d id, dir_id fs d id -> id ∈ ids.

Lemma clear_fuel `{BpfHashLaws hmap} fuel (m : hmap Z Z) :
  (length (bpf_contents m) <= fuel)%nat -> exists m', clear_u64_set_map fuel m = Some m' /\ bpf_contents m' = [].
Proof.
  intros Hf. unfold clear_u64_set_map. rewrite bpf_first_contents. destruct (bpf_contents m) as [|[k v] l] eqn:E; [by exists m|].
  cbn [list_fmap fmap head fst length] in *. destruct (clear_loop_all l m k v fuel E) as (m' & -> & Hm & _); [lia|]. by exists m'.
Qed.

Lemma contents_size `{BpfHashLaws hmap} {K V} `{Countable K} (m : hmap K V) : length (bpf_contents m) = size (bpf_map m).
Proof. unfold bpf_map. rewrite map_size_list_to_map by apply bpf_contents_NoDup. done. Qed.

(** Whatever the hierarchy, a load ends and the map holds ids of directories. *)
Lemma populate_within `{BpfRoom hmap} fs fuel path ids (m : hmap Z Z) :
  names_ok fs -> ids_of fs ids -> dom (bpf_map m) ⊆ ids -> (size ids <= fuel)%nat ->
  exists m' rc, populate_cgroup_filter_map fs fuel 1025 path true m = Some (m', rc) /\ dom (bpf_map m') ⊆ ids.
Proof.
  intros Hn Hids Hd Hf. unfold populate_cgroup_filter_map. destruct (normalize_cgroup_path path 512) as [root|]; [|by do 2 eexists].
  assert (length (bpf_contents m) <= fuel)%nat as Hl.
  { rewrite contents_size, <- size_dom. etransitivity; [by apply subseteq_size|done]. }
  destruct (clear_fuel fuel m Hl) as (m0 & -> & Hm0). cbn [mbind option_bind].
  pose proof (walked_add fs root (m0, 0)) as Ha. destruct (add_cgroup_path_inode_to_map fs root (m0, 0)) as [[m1 added] ok]. cbn [fst] in Ha.
  assert (forall P m2, walked fs P (m0, 0) m2 -> dom (bpf_map m2.1) ⊆ ids) as Hw.
  { intros P m2 [_ _ _ Hs _] id Hid. apply Hs in Hid as [Hid|(d & _ & Hi)]; [|by eapply Hids]. cbn [fst] in Hid. rewrite (contents_nil_map _ Hm0) in Hid. set_solver. }
  destruct ok; cbn [negb]; [|do 2 eexists; split; [reflexivity|by apply (Hw _ (m1, added) Ha)]].
  destruct (walk_terminates fs 1025 root (m1, added) Hn) as ([m2 added2] & rc & E); [lia|]. rewrite E. cbn [mbind option_bind].
  do 2 eexists. split; [reflexivity|]. apply walk_walked in E. exact (Hw _ (m2, added2) (walked_trans fs _ _ _ _ _ Ha E)).
Qed.

(** ** The run *)

(** The invocations among what happens. *)
Definition fires (l : list item) : nat := length (List.filter (fun i => match i with Fire _ _ => true | Deliver => false end) l).

Definition turns_fires (turns : list turn) : nat := list_sum (map (fun t => fires (tn_items t)) turns).

(** *** The events of a run *)

Section events.
Context `{BpfHashLaws hmap} (env : env) (w : world) (cfg : bpf_config) (fuel : nat).
Implicit Types (s : tracer hmap).

(** The event a probe counts, when it is loaded. *)
Definition counted_by s (i : item) : Z :=
  match i with
  | Fire p c => if configure_optional_programs env p && counts cfg p (t_bpf s) c then 1 else 0
  | Deliver => 0
  end.

(** The events a delivered exit reports and leaves in the map. *)
Definition repeated_by s (i : item) : Z :=
  match i with
  | Fire _ _ => 0
  | Deliver => match rb (t_bpf s) with [] => 0 | e :: _ => event_repeats s e end
  end.

(** The sum of [f] over what happens. *)
Fixpoint items_sum (f : tracer hmap -> item -> Z) s (l : list item) : Z :=
  match l with
  | [] => 0
  | i :: l => f s i + match run_item env w cfg fuel s i with Some s' => items_sum f s' l | None => 0 end
  end.

(** The same over the turns of the main loop, up to the one that ends it. *)
Fixpoint run_sum (f : tracer hmap -> item -> Z) (turns : list turn) s (tm : timers) : Z :=
  match turns with
  | [] => 0
  | t :: turns =>
      if tn_exiting t then 0
      else items_sum f s (tn_items t) +
        match fold_opt (run_item env w cfg fuel) s (tn_items t) with
        | Some s1 =>
            if tn_err t <? 0 then 0
            else match periodic env w fuel t s1 tm with Some (s2, tm2) => run_sum f turns s2 tm2 | None => 0 end
        | None => 0
        end
  end.

Lemma items_sum_add f g s l : items_sum (fun s i => f s i + g s i) s l = items_sum f s l + items_sum g s l.
Proof.
  revert s. induction l as [|i l IH]; intros s; cbn [items_sum]; [done|]. destruct (run_item _ _ _ _ _ _) as [s'|]; [rewrite IH|]; lia.
Qed.

Lemma run_sum_add f g turns s tm : run_sum (fun s i => f s i + g s i) turns s tm = run_sum f turns s tm + run_sum g turns s tm.
Proof.
  revert s tm. induction turns as [|t turns IH]; intros s tm; cbn [run_sum]; [done|]. destruct (tn_exiting t); [done|]. rewrite items_sum_add.
  destruct (fold_opt _ _ _) as [s1|]; [|lia]. destruct (_ <? 0); [lia|]. destruct (periodic _ _ _ _ _ _) as [[s2 tm2]|]; [rewrite IH|]; lia.
Qed.
End events.

Section run.
Context (ch : Z -> Prop) {Hch : Chars ch}.
Context `{BpfRoom hmap} (env : env) (w : world) (cfg : bpf_config) (fuel ncpu : nat) (ids : gset Z).
Context (Hlinks : links_text ch (w_readlink w)) (Hids : (size ids <= fuel)%nat).
Local Abbreviation J := (forall t, text ch t -> plain t).
Implicit Types (s : tracer hmap).

Definition item_ok (i : item) : Prop :=
  match i with Fire _ c => text_ctx ch c /\ (c_cpu c < ncpu)%nat | Deliver => True end.

Record turn_ok (t : turn) : Prop := {
  to_items : Forall item_ok (tn_items t);
  to_names : names_ok (tn_fs t);
  to_ids : ids_of (tn_fs t) ids;
}.

(** The state when [n] more probes can run. *)
Record run_inv (n : nat) s : Prop := {
  ri_texts : tracer_texts (text ch) w s;
  ri_state : state_ok (t_bpf s);
  ri_keys : keys_ok (bpf_map (event_agg_map (t_bpf s)));
  ri_pending : pending (t_bpf s) + Z.of_nat n < 2 ^ 64;
  ri_size : (agg_size s + n < fuel)%nat;
  ri_rb : Forall (event_texts (text ch)) (rb (t_bpf s));
  ri_cpus : length (agg_overflow_count (t_bpf s)) = ncpu;
  ri_cgroups : dom (bpf_map (tracked_cgroups (t_bpf s))) ⊆ ids;
}.

(** A step prints lines, by the books of [k] events, and leaves room for
    [n] more probes. *)
Definition good_step (k : Z) (n : nat) s (r : option (tracer hmap)) : Prop := exists s', r = Some s' /\ books (text ch) k s s' /\ run_inv n s'.

Lemma run_inv_less n m s : (m <= n)%nat -> run_inv n s -> run_inv m s.
Proof. intros Hm [? ? ? ? ? ? ? ?]. split; (done || lia). Qed.

Lemma good_same n s : run_inv n s -> good_step 0 n s (Some s).
Proof. intros Hs. exists s. split; [done|]. split; [apply (books_refl (text ch))|done]. Qed.

(** States that differ in the userspace tables and the output only. *)
Lemma run_inv_ext n s s' : t_bpf s' = t_bpf s -> tracer_texts (text ch) w s' -> run_inv n s -> run_inv n s'.
Proof. intros E Hp [? ? ? ? ? ? ? ?]. unfold agg_size in *. split; rewrite ?E; try done. unfold agg_size. by rewrite E. Qed.

Lemma zero_absent (b : pstate hmap) : keys_ok (bpf_map (event_agg_map b)) -> zero_key ∉ (bpf_contents (event_agg_map b)).*1.
Proof.
  intros Hk Hin. apply list_elem_of_fmap in Hin as ([k v] & E & Hin). cbn in E. subst k.
  apply bpf_map_lookup_list in Hin. apply Hk in Hin. cbn in Hin. lia.
Qed.

(** *** Removing entries *)

Lemma list_total_sublist (l l' : list (agg_key * agg_value)) :
  l' `sublist_of` l -> Forall (fun p => 0 < v_count p.2) l -> list_total l' <= list_total l.
Proof.
  induction 1 as [|p l l' _ IH|p l l' _ IH]; intros Hp; [done|..]; apply Forall_cons in Hp as [Hx Hp]; specialize (IH Hp); unfold list_total in *; cbn [foldr]; lia.
Qed.

(** An invariant state whose map lost entries and whose counters were read. *)
Lemma run_inv_sub n s s' :
  run_inv n s -> tracer_texts (text ch) w s' -> bpf_contents (event_agg_map (t_bpf s')) `sublist_of` bpf_contents (event_agg_map (t_bpf s)) ->
  Forall (fun x => 0 <= x) (agg_overflow_count (t_bpf s')) -> length (agg_overflow_count (t_bpf s')) = ncpu ->
  overflow_total (agg_overflow_count (t_bpf s')) <= overflow_total (agg_overflow_count (t_bpf s)) ->
  write_ctx_map (t_bpf s') = write_ctx_map (t_bpf s) -> dom (bpf_map (tracked_cgroups (t_bpf s'))) ⊆ ids ->
  Forall (event_texts (text ch)) (rb (t_bpf s')) -> run_inv n s'.
Proof.
  intros [Hp [Hc Ho Hw] Hk Hpd Hsz Hrb Hcpu Hcg] Hp' Hsub Ho' Hcpu' Hot Hw' Hcg' Hrb'.
  assert (forall k v, bpf_map (event_agg_map (t_bpf s')) !! k = Some v -> bpf_map (event_agg_map (t_bpf s)) !! k = Some v) as Hm.
  { intros k v Hkv. apply bpf_map_lookup_list. apply bpf_map_lookup_list in Hkv. by eapply elem_of_sublist. }
  pose proof (counts_ok_contents _ Hc) as Hpos. pose proof (list_total_sublist _ _ Hsub Hpos). rewrite pending_contents in Hpd.
  split; try done.
  - split; [intros k v Hkv; by eapply Hc, Hm|done|]. intros id fd. rewrite Hw'. apply Hw.
  - intros k v Hkv. by eapply Hk, Hm.
  - rewrite pending_contents. lia.
  - apply sublist_length in Hsub. unfold agg_size in *. lia.
Qed.

Lemma run_inv_kept n s s' :
  run_inv n s -> tracer_texts (text ch) w s' -> kernel_kept (t_bpf s) (t_bpf s') -> run_inv n s'.
Proof.
  intros Hs Hp [Hsub Ho Hw Hcg Hrb]. pose proof Hs as [_ [_ Hov _] _ _ _ Hr Hcpu Hcgs].
  apply (run_inv_sub n s s' Hs Hp Hsub); rewrite ?Ho, ?Hcg, ?Hrb; done.
Qed.

(** *** The steps *)

Lemma fire_step n s p c : item_ok (Fire p c) -> run_inv (S n) s ->
  good_step (counted_by env cfg s (Fire p c)) n s (run_item env w cfg fuel s (Fire p c)).
Proof.
  intros [Hc Hcpu] Hs. cbn [run_item counted_by]. destruct (configure_optional_programs env p); cbn [andb]; [|apply good_same; by eapply run_inv_less; [|exact Hs]; lia].
  pose proof Hs as [[Hf Ha] Hst Hk Hpd Hsz Hrb Hcpus Hcg].
  destruct (probe_pending cfg p (t_bpf s) c (pc_ok _ _ Hc) Hst) as (b & E & Hst' & Hp' & Hl'); [by rewrite Hcpus|lia|]. rewrite E. cbn [mbind option_bind].
  pose proof (probe_keys cfg p (t_bpf s) c b (pc_ok _ _ Hc) Hst E Hk) as Hk'. pose proof (counts_le cfg p (t_bpf s) c).
  destruct (probe_entries_text ch cfg (w_readlink w) Hlinks p (t_bpf s) c b Hc Hst (sok_counts _ Hst')) as [Hm Hsize];
    [apply (entries_text_contents ch), Ha|done|].
  eexists. split; [reflexivity|]. split; [by apply books_quiet|]. split; cbn [set_bpf t_bpf t_files]; try done.
  - split; [done|]. split; [by apply zero_absent|by apply (entries_text_contents ch)].
  - lia.
  - unfold agg_size in *. cbn [set_bpf t_bpf]. rewrite contents_size in *. lia.
  - destruct (probe_samples_text ch cfg p (t_bpf s) c b Hc (sok_write _ Hst) E) as [-> |(e & -> & He)]; [done|].
    apply Forall_app. split; [done|by constructor].
  - by rewrite Hl'.
  - pose proof (tracked_frame cfg p (t_bpf s) c b (pc_ok _ _ Hc) (sok_write _ Hst) E) as Ef. apply (f_equal snd) in Ef. cbn [snd] in Ef. by rewrite Ef.
Qed.

Lemma deliver_step n s : run_inv n s -> good_step (repeated_by s Deliver) n s (run_item env w cfg fuel s Deliver).
Proof.
  intros Hs. cbn [run_item repeated_by]. pose proof Hs as [Hp _ _ _ Hsz Hrb _ _]. destruct (rb (t_bpf s)) as [|e rest] eqn:Er; [by apply good_same|].
  apply Forall_cons in Hrb as [He Hrest]. set (s1 := set_bpf s (set_rb (t_bpf s) rest)).
  assert (run_inv n s1) as Hs1.
  { destruct Hs as [[Hf Ha] [? ? ?] ? ? ? _ ? ?]. split; cbn; try done; by split. }
  assert (agg_size s1 < fuel)%nat as Hfuel by (pose proof (ri_size _ _ Hs1); lia).
  destruct (handle_event_lines (text ch) env w fuel s1 e (ri_texts _ _ Hs1) He Hfuel) as (s2 & E & Ho & Hp2 & Hk). exists s2. split; [done|]. split; [done|].
  by eapply run_inv_kept.
Qed.

Lemma items_step l n s : Forall item_ok l -> run_inv (fires l + n) s ->
  good_step (items_sum env w cfg fuel (fun s i => counted_by env cfg s i + repeated_by s i) s l) n s (fold_opt (run_item env w cfg fuel) s l).
Proof.
  intros Hl. revert s. induction Hl as [|i l Hi _ IH]; intros s Hs; cbn [fold_opt items_sum]; [by apply good_same|].
  assert (good_step (counted_by env cfg s i + repeated_by s i) (fires l + n) s (run_item env w cfg fuel s i)) as (s1 & -> & Ho1 & Hs1).
  { destruct i as [p c|]; [cbn [repeated_by]; rewrite Z.add_0_r; by apply fire_step|by apply deliver_step]. }
  cbn [mbind option_bind]. destruct (IH s1 Hs1) as (s2 & -> & Ho2 & Hs2). exists s2. split; [done|]. split; [by eapply books_trans|done].
Qed.

Lemma flush_step n s : run_inv n s -> good_step 0 n s (flush_all w fuel s).
Proof.
  intros Hs. pose proof Hs as [[Hf Ha] [Hc Ho Hw] Hk Hpd Hsz Hrb Hcpu Hcg]. pose proof (counts_ok_contents _ Hc) as Hpos. unfold flush_all, flush_agg_map.
  destruct (flush_loop_all (bpf_contents (event_agg_map (t_bpf s))) (event_agg_map (t_bpf s)) zero_key fuel) as (m & -> & Hm);
    [done|apply Ha|done|unfold agg_size in Hsz; lia|]. cbn [mbind option_bind].
  destruct (flush_output_lines (text ch) (w_readlink w) (bpf_contents (event_agg_map (t_bpf s))) (ai_texts _ _ _ Ha)) as (out & -> & Hout). cbn [mbind option_bind].
  eexists. split; [reflexivity|]. split.
  { do 2 eexists. split; [reflexivity|]. split; [exact Hout|]. rewrite !pending_contents. cbn [t_bpf set_bpf print set_agg event_agg_map agg_overflow_count].
    rewrite Hm. cbn [list_total foldr]. lia. }
  assert (bpf_contents m `sublist_of` bpf_contents (event_agg_map (t_bpf s))) as Hsub by (rewrite Hm; apply sublist_nil_l).
  apply (run_inv_sub n s _ Hs); cbn; try done. split; [done|by eapply agg_inv_sublist].
Qed.

Lemma overflow_app o1 o2 : overflow_total (o1 ++ o2) = overflow_total o1 + overflow_total o2.
Proof. unfold overflow_total. induction o1; cbn [app foldr]; lia. Qed.

(** The report of the counters, whatever the number of CPUs it is told. *)
Lemma check_overflow_lines cpus alloc o : Forall (fun x => 0 <= x) o -> overflow_total o < 2 ^ 64 ->
  let '(o', total, out) := check_overflow cpus alloc o in
  Forall (fun x => 0 <= x) o' /\ length o' = length o /\ 0 <= total /\ overflow_total o' + total = overflow_total o /\ event_lines J total out.
Proof.
  intros Ho Hlt. unfold check_overflow. destruct alloc; cbn [negb]; [|split_and!; [done|done|done|lia|apply event_lines_nil]].
  set (n := Z.to_nat _). pose proof (overflow_app (take n o) (drop n o)) as Hsum. rewrite take_drop in Hsum.
  pose proof (overflow_nonneg _ (Forall_take _ n _ Ho)) as Hn1. pose proof (overflow_nonneg _ (Forall_drop _ n _ Ho)) as Hn2.
  assert (overflow_total (take n (o ++ replicate n 0)) = overflow_total (take n o)) as Hz.
  { rewrite firstn_app, overflow_app, take_replicate, overflow_replicate. lia. }
  rewrite foldl_sum; [|apply Forall_take, Forall_app; split; [done|by apply Forall_replicate]|done|lia]. rewrite Hz, Z.add_0_l.
  destruct (Z.ltb_spec 0 (overflow_total (take n o))); split_and!; try done; try lia.
  - apply Forall_app. split; [by apply Forall_replicate|by apply Forall_drop].
  - rewrite length_app, length_replicate, length_drop. lia.
  - rewrite overflow_app, overflow_replicate. lia.
  - by apply event_lines_one, overflow_event_line.
  - eapply event_lines_eq; [|apply event_lines_nil]. lia.
Qed.

Lemma overflow_step n cpus alloc s : run_inv n s -> good_step 0 n s (Some (report_overflow cpus alloc s)).
Proof.
  intros Hs. pose proof Hs as [[Hf Ha] [Hc Ho Hw] Hk Hpd Hsz Hrb Hcpu Hcg]. unfold report_overflow.
  pose proof (agg_total_nonneg _ Hc) as Hnn. unfold pending in Hpd.
  pose proof (check_overflow_lines cpus alloc _ Ho ltac:(lia)) as Hx. destruct (check_overflow _ _ _) as [[o total] out]. destruct Hx as (Ho' & Hl & Hp & Hle & Hj).
  eexists. split; [reflexivity|]. split.
  - exists total, out. split; [done|]. split; [done|]. unfold pending. cbn [t_bpf set_bpf print set_agg event_agg_map agg_overflow_count]. lia.
  - apply (run_inv_sub n s _ Hs); cbn [t_bpf set_bpf print set_agg event_agg_map agg_overflow_count]; try done; first [by split | by rewrite Hl | lia].
Qed.

Lemma refresh_step n fs s : names_ok fs -> ids_of fs ids -> run_inv n s -> good_step 0 n s (refresh_cgroups env fuel fs s).
Proof.
  intros Hn Hi Hs. pose proof Hs as [[Hf Ha] [Hc Ho Hw] Hk Hpd Hsz Hrb Hcpu Hcg]. unfold refresh_cgroups.
  destruct (populate_within fs fuel (cgroup_filter_path env) ids (tracked_cgroups (t_bpf s)) Hn Hi Hcg Hids) as (m & rc & -> & Hm). cbn [mbind option_bind].
  eexists. split; [reflexivity|]. split; [apply books_quiet; [done|by rewrite Z.add_0_r]|]. apply (run_inv_sub n s _ Hs); cbn; try done; by split.
Qed.

Lemma periodic_step n t s tm : turn_ok t -> run_inv n s -> exists s' tm', periodic env w fuel t s tm = Some (s', tm') /\ books (text ch) 0 s s' /\ run_inv n s'.
Proof.
  intros [_ Hn Hi] Hs. unfold periodic.
  assert (exists s1 r, (if cgroup_filter_enabled env && cgroup_filter_children env && (2 <=? u64 (tn_now t - last_cgroup_refresh_time tm))
     then s' ← refresh_cgroups env fuel (tn_fs t) s; Some (s', tn_now t) else Some (s, last_cgroup_refresh_time tm)) = Some (s1, r) /\
     books (text ch) 0 s s1 /\ run_inv n s1) as (s1 & r & -> & Ho1 & Hs1).
  { destruct (_ && _ && _).
    - destruct (refresh_step n (tn_fs t) s Hn Hi Hs) as (s1 & -> & Ho & Hs1). by exists s1, (tn_now t).
    - exists s, (last_cgroup_refresh_time tm). split; [done|]. split; [apply (books_refl (text ch))|done]. }
  cbn [mbind option_bind]. destruct (FLUSH_INTERVAL_S <=? _); [|by do 2 eexists].
  destruct (flush_step n s1 Hs1) as (s2 & -> & Ho2 & Hs2). cbn [mbind option_bind].
  destruct (overflow_step n (tn_cpus t) (tn_alloc t) s2 Hs2) as (s3 & E & Ho3 & Hs3). injection E as ->.
  do 2 eexists. split; [reflexivity|]. split; [|done]. eapply books_then; [exact Ho1|]. by eapply books_then.
Qed.

(** The events of a run: those counted, and those reported twice. *)
Local Abbreviation run_events := (run_sum env w cfg fuel (fun s i => counted_by env cfg s i + repeated_by s i)).

Lemma main_loop_step turns s tm err :
  Forall turn_ok turns -> run_inv (turns_fires turns) s ->
  exists s' stop, main_loop env w cfg fuel turns s tm err = Some (s', stop) /\ books (text ch) (run_events turns s tm) s s' /\ run_inv 0 s'.
Proof.
  intros Ht. revert s tm err. induction Ht as [|t turns Hok _ IH]; intros s tm err Hs; cbn [main_loop run_sum].
  - exists s, None. split; [done|]. split; [apply (books_refl (text ch))|done].
  - destruct (tn_exiting t).
    { exists s, (Some err). split; [done|]. split; [apply (books_refl (text ch))|]. eapply run_inv_less; [|exact Hs]. lia. }
    change (turns_fires (t :: turns)) with (fires (tn_items t) + turns_fires turns)%nat in Hs.
    destruct (items_step (tn_items t) _ s (to_items _ Hok) Hs) as (s1 & -> & Ho1 & Hs1). cbn [mbind option_bind].
    assert (forall stop k, k = 0 -> exists s' stop', Some (s1, stop : option Z) = Some (s', stop') /\
      books (text ch) (items_sum env w cfg fuel (fun s i => counted_by env cfg s i + repeated_by s i) s (tn_items t) + k) s s' /\ run_inv 0 s') as Hstop.
    { intros stop k ->. exists s1, stop. split; [done|]. rewrite Z.add_0_r. split; [done|]. eapply run_inv_less; [|exact Hs1]. lia. }
    destruct (Z.eqb_spec (tn_err t) (- EINTR)) as [-> |_]; [by apply Hstop|]. destruct (tn_err t <? 0); [by apply Hstop|].
    destruct (periodic_step _ t s1 tm Hok Hs1) as (s2 & tm2 & -> & Ho2 & Hs2). cbn [mbind option_bind].
    destruct (IH s2 tm2 (tn_err t) Hs2) as (s3 & stop & -> & Ho3 & Hs3). exists s3, stop. split; [done|].
    split; [|done]. eapply books_trans; [exact Ho1|]. by eapply books_then.
Qed.
End run.

(** ** The program *)

(** The maps as libbpf creates them on a machine with [ncpu] CPUs. *)
Record fresh_maps `{BpfHashLaws hmap} (ncpu : nat) (b : pstate hmap) : Prop := {
  fr_agg : bpf_contents (event_agg_map b) = [];
  fr_rb : rb b = [];
  fr_write : bpf_map (write_ctx_map b) = ∅;
  fr_cgroups : bpf_map (tracked_cgroups b) = ∅;
  fr_overflow : agg_overflow_count b = replicate ncpu 0;
}.

(** What has been printed. *)
Definition outcome_out {hmap} (o : outcome hmap) : bytes := match o with Exited out _ => out | Running s => t_out s end.

Lemma seeds_frame `{BpfHashLaws hmap} l (st : tracer hmap * Z) :
  let s' := (foldl seed_step st l).1 in
  kernel_kept (t_bpf st.1) (t_bpf s') /\ t_files s' = t_files st.1 /\ t_out s' = t_out st.1.
Proof.
  cbv zeta. revert st. induction l as [|[pid ppid] l IH]; intros [s n]; [split; [apply kernel_kept_refl|done]|]. cbn [foldl].
  destruct (IH (seed_step (s, n) (pid, ppid))) as (Hk & Hf & Ho). 
  assert (kernel_kept (t_bpf s) (t_bpf (seed_step (s, n) (pid, ppid)).1) /\ t_files (seed_step (s, n) (pid, ppid)).1 = t_files s /\
    t_out (seed_step (s, n) (pid, ppid)).1 = t_out s) as (Hk1 & Hf1 & Ho1).
  { unfold seed_step. destruct (pid_tracker_add _ _ _) as [tr ok]. destruct (_ && _); cbn; (split; [|done]); [apply kept_add_tracked|apply kernel_kept_refl]. }
  cbn [fst] in *. split; [by eapply kernel_kept_trans|]. by rewrite Hf, Ho, Hf1, Ho1.
Qed.

Lemma init_run_inv ch `{BpfRoom hmap} env w fuel ncpu ids n (b : pstate hmap) cgroups :
  fresh_maps ncpu b -> dom (bpf_map cgroups) ⊆ ids -> (n < fuel)%nat -> Z.of_nat n < 2 ^ 64 ->
  run_inv ch w fuel ncpu ids n (init_tracer env (set_tracked_cgroups b cgroups)).
Proof.
  intros [Ha Hr Hw Hc Ho] Hd Hf Hn.
  assert (bpf_map (event_agg_map b) = ∅) as Hm by (unfold bpf_map; by rewrite Ha).
  assert (overflow_total (agg_overflow_count b) = 0) as Hz by (rewrite Ho; apply overflow_replicate).
  split; cbn; try done.
  - split; [constructor|]. cbn. split; rewrite Ha; [apply not_elem_of_nil|constructor].
  - split; cbn; rewrite ?Hm, ?Ho; [intros k v Hkv; by rewrite lookup_empty in Hkv|by apply Forall_replicate|].
    intros id fd. cbn. by rewrite Hw, lookup_empty.
  - rewrite Hm. intros k v Hkv. by rewrite lookup_empty in Hkv.
  - change (agg_total (bpf_map (event_agg_map b)) + overflow_total (agg_overflow_count b) + Z.of_nat n < 2 ^ 64).
    rewrite Hm, Hz. change (agg_total ∅) with 0. lia.
  - unfold agg_size. cbn. rewrite Ha. cbn. lia.
  - by rewrite Hr.
  - rewrite Ho. apply length_replicate.
Qed.

(** The startup calls succeed, the cgroup options are resolved to [id] and the
    cgroup map is loaded with [cgroups]. *)
Record started `{BpfHashLaws hmap} (env : env) (fuel : nat) (su : startup hmap) (id : Z) (cgroups : hmap Z Z) : Prop := {
  sd_options : cgroup_filter_children env && negb (cgroup_filter_enabled env) = false;
  sd_open : su_open su = true;
  sd_id : (if cgroup_filter_enabled env then resolve_cgroup_id_from_path (su_fs su) (cgroup_filter_path env) else Some 0) = Some id;
  sd_load : su_load_err su = 0;
  sd_cgroups : exists rc, 0 <= rc /\
    (if cgroup_filter_enabled env && cgroup_filter_children env
     then populate_cgroup_filter_map (su_fs su) fuel 1025 (cgroup_filter_path env) true (tracked_cgroups (su_maps su))
     else Some (tracked_cgroups (su_maps su), 0)) = Some (cgroups, rc);
  sd_attach : su_attach_err su = 0;
  sd_ring_buffer : su_ring_buffer su = true;
}.

(** The state in which the main loop begins. *)
Definition loop_start `{BpfHashLaws hmap} (env : env) (su : startup hmap) (cgroups : hmap Z Z) : tracer hmap :=
  print (fst (seed_initial_pids env (init_tracer env (set_tracked_cgroups (su_maps su) cgroups))))
    (print_clock_sync_anchor (su_clk_start su) (lit "start")).

(** The shutdown prints what the map holds, and the second anchor. *)
Lemma shutdown_books ch {Hch : Chars ch} `{BpfRoom hmap} w fuel ncpu ids clk (s : tracer hmap) : clocks_ok clk -> run_inv ch w fuel ncpu ids 0 s ->
  exists s' n out, shutdown w fuel clk s = Some s' /\ t_out s' = t_out s ++ out /\ event_lines (forall t, text ch t -> plain t) n out /\
    n + overflow_total (agg_overflow_count (t_bpf s)) = pending (t_bpf s).
Proof.
  intros Hclk Hs. pose proof (ri_texts _ _ _ _ _ _ _ Hs) as [_ Ha].
  destruct (flush_output_lines (text ch) (w_readlink w) (bpf_contents (event_agg_map (t_bpf s))) (ai_texts _ _ _ Ha)) as (out & Eo & Hj).
  destruct (flush_all_spec w fuel s out (ai_zero _ _ _ Ha) (ai_positive _ _ _ Ha) ltac:(pose proof (ri_size _ _ _ _ _ _ _ Hs); lia) Eo) as (s' & E & _ & Hout & _).
  unfold shutdown. rewrite E. cbn [mbind option_bind]. do 3 eexists. split; [reflexivity|]. cbn [print t_out]. rewrite Hout, <- app_assoc.
  split; [reflexivity|]. split; [apply event_lines_after; [exact Hj|by apply clock_anchor_lines]|]. by rewrite pending_contents.
Qed.

Section program.
Context (ch : Z -> Prop) {Hch : Chars ch}.
Context `{BpfRoom hmap} (env : env) (w : world) (fuel ncpu : nat) (ids : gset Z) (su : startup hmap) (turns : list turn).
Context (Hlinks : links_text ch (w_readlink w)) (Hstart : clocks_ok (su_clk_start su)) (Hend : clocks_ok (su_clk_end su)).
Context (Hfresh : fresh_maps ncpu (su_maps su)) (Hnames : names_ok (su_fs su)) (Hids : ids_of (su_fs su) ids).
Context (Hturns : Forall (turn_ok ch ncpu ids) turns) (Hsize : (size ids <= fuel)%nat).
Context (Hfires : (turns_fires turns < fuel)%nat) (Hcount : Z.of_nat (turns_fires turns) < 2 ^ 64).

(** The program stops during the startup, or starts. *)
Lemma main_cases :
  (exists code, main env w fuel su turns = Some (Exited [] code)) \/ exists id cgroups, started env fuel su id cgroups.
Proof.
  unfold main. destruct (_ && negb _) eqn:E1; [left; by eexists|]. destruct (su_open su) eqn:E2; cbn [negb]; [|left; by eexists].
  destruct (if cgroup_filter_enabled env then _ else _) as [id|] eqn:E3; [|left; by eexists].
  destruct (Z.eqb_spec (su_load_err su) 0) as [E4|]; cbn [negb]; [|left; by eexists].
  assert (exists m rc, (if cgroup_filter_enabled env && cgroup_filter_children env
     then populate_cgroup_filter_map (su_fs su) fuel 1025 (cgroup_filter_path env) true (tracked_cgroups (su_maps su))
     else Some (tracked_cgroups (su_maps su), 0)) = Some (m, rc)) as (m & rc & E5).
  { destruct (cgroup_filter_enabled env && cgroup_filter_children env); [|do 2 eexists; reflexivity].
    destruct (populate_within (su_fs su) fuel (cgroup_filter_path env) ids (tracked_cgroups (su_maps su))) as (m & rc & E & _);
      [exact Hnames|exact Hids|rewrite (fr_cgroups _ _ Hfresh); set_solver|exact Hsize|do 2 eexists; exact E]. }
  rewrite E5. cbn [mbind option_bind]. destruct (Z.ltb_spec rc 0); [left; by eexists|].
  destruct (Z.eqb_spec (su_attach_err su) 0) as [E6|]; cbn [negb]; [|left; by eexists].
  destruct (su_ring_buffer su) eqn:E7; cbn [negb]; [|left; by eexists]. right. exists id, m. split; try done. by exists rc.
Qed.

(** A started program runs the main loop and shuts down. *)
Lemma main_started id cgroups : started env fuel su id cgroups ->
  main env w fuel su turns =
  '(s, stop) ← main_loop env w (rodata env id) fuel turns (loop_start env su cgroups) (Timers 0 0) 0;
  match stop with
  | None => Some (Running s)
  | Some err => s ← shutdown w fuel (su_clk_end su) s; Some (Exited (t_out s) (exit_code err))
  end.
Proof.
  intros [E1 E2 E3 E4 (rc & Hrc & E5) E6 E7]. unfold main. rewrite E1, E2, E3, E4. cbn [negb Z.eqb]. rewrite E5. cbn [mbind option_bind].
  rewrite (proj2 (Z.ltb_ge _ _) Hrc), E6, E7. done.
Qed.

Lemma started_cgroups id cgroups : started env fuel su id cgroups -> dom (bpf_map cgroups) ⊆ ids.
Proof.
  intros Hs. destruct (sd_cgroups _ _ _ _ _ Hs) as (rc & _ & E). pose proof (fr_cgroups _ _ Hfresh) as Hcg. destruct (_ && _).
  - destruct (populate_within (su_fs su) fuel (cgroup_filter_path env) ids (tracked_cgroups (su_maps su))) as (m & rc' & E' & Hm);
      [exact Hnames|exact Hids|rewrite Hcg; set_solver|exact Hsize|]. rewrite E' in E. injection E as <- _. exact Hm.
  - injection E as <- <-. rewrite Hcg. set_solver.
Qed.

(** The loop begins with room for all the probes of the run, nothing pending
    and the clock anchor printed. *)
Lemma loop_start_ok id cgroups : started env fuel su id cgroups ->
  run_inv ch w fuel ncpu ids (turns_fires turns) (loop_start env su cgroups) /\
  pending (t_bpf (loop_start env su cgroups)) = 0 /\ event_lines (forall t, text ch t -> plain t) 0 (t_out (loop_start env su cgroups)).
Proof.
  intros Hs. apply started_cgroups in Hs. unfold loop_start. set (s0 := init_tracer env _).
  pose proof (init_run_inv ch env w fuel ncpu ids (turns_fires turns) _ cgroups Hfresh Hs Hfires Hcount) as Hs0. fold s0 in Hs0.
  destruct (seeds_frame (seed_pids env) (s0, 0)) as (Hk & Hfl & Hout).
  change (foldl seed_step (s0, 0) (seed_pids env)) with (seed_initial_pids env s0) in Hk, Hfl, Hout.
  set (s1 := fst (seed_initial_pids env s0)) in *. cbn [fst] in Hk, Hfl, Hout.
  assert (run_inv ch w fuel ncpu ids (turns_fires turns) s1) as Hs1.
  { eapply run_inv_kept; [exact Hsize|exact Hs0| |exact Hk]. pose proof (ri_texts _ _ _ _ _ _ _ Hs0) as [Hf Ha]. split; [by rewrite Hfl|].
    eapply agg_inv_sublist; [apply Hk|exact Ha]. }
  split; [|split].
  - apply (run_inv_ext ch w fuel ncpu ids _ s1); [done| |done]. destruct (ri_texts _ _ _ _ _ _ _ Hs1). by split.
  - cbn [print t_bpf]. rewrite pending_contents, (kk_overflow _ _ Hk). destruct Hk as [Hsub _ _ _ _]. destruct Hfresh as [Ha _ _ _ Ho].
    change (bpf_contents (event_agg_map (t_bpf s0))) with (bpf_contents (event_agg_map (su_maps su))) in Hsub. rewrite Ha in Hsub.
    apply sublist_nil_r in Hsub as ->. change (agg_overflow_count (t_bpf s0)) with (agg_overflow_count (su_maps su)). rewrite Ho, overflow_replicate. done.
  - cbn [print t_out]. rewrite Hout. by apply clock_anchor_lines.
Qed.

(** The run of a started program. *)
Lemma started_run id cgroups : started env fuel su id cgroups ->
  exists s stop n out, main_loop env w (rodata env id) fuel turns (loop_start env su cgroups) (Timers 0 0) 0 = Some (s, stop) /\
    t_out s = out /\ event_lines (forall t, text ch t -> plain t) n out /\ run_inv ch w fuel ncpu ids 0 s /\
    n + pending (t_bpf s) =
    run_sum env w (rodata env id) fuel (fun s i => counted_by env (rodata env id) s i + repeated_by s i) turns (loop_start env su cgroups) (Timers 0 0).
Proof.
  intros Hs. destruct (loop_start_ok id cgroups Hs) as (Hi & Hp & Hj).
  destruct (main_loop_step ch env w (rodata env id) fuel ncpu ids Hlinks Hsize turns _ (Timers 0 0) 0 Hturns Hi) as (s & stop & E & (n & out & Eo & Hn & Hb) & Hs').
  exists s, stop, n. eexists. split; [exact E|]. split; [exact Eo|]. split; [by apply event_lines_before|]. split; [done|]. lia.
Qed.
End program.

(** C4: the process tracer from the kernel to its output: from its start to its
    end, with any options and under any schedule of probe invocations, deliveries,
    flushes, cgroup refreshes and interruptions, whatever /proc and the startup
    calls answer and whatever bytes the names, paths and arguments of the
    processes hold, the program never fails (no access outside a buffer, every
    iteration ends within the fuel) and everything it prints is a sequence of
    lines whose members a reader that does not decode finds: no string ends its
    member or its line early.  When the strings are printable ASCII each line
    parses as one JSON object. *)
Theorem process_run_prints_lines ch `{Chars ch} `{BpfRoom hmap} env w fuel ncpu ids (su : startup hmap) turns :
  links_text ch (w_readlink w) -> clocks_ok (su_clk_start su) -> clocks_ok (su_clk_end su) ->
  fresh_maps ncpu (su_maps su) -> names_ok (su_fs su) -> ids_of (su_fs su) ids -> Forall (turn_ok ch ncpu ids) turns ->
  (size ids <= fuel)%nat -> (turns_fires turns < fuel)%nat -> Z.of_nat (turns_fires turns) < 2 ^ 64 ->
  exists o ls, main env w fuel su turns = Some o /\ outcome_out o = concat ls /\ Forall (fun l => is_Some (scan_line l)) ls /\
    ((forall c, ch c -> printable c) -> Forall (fun l => is_Some (parse_line l)) ls).
Proof.
  intros Hl Hcs Hce Hfr Hn Hids Ht Hf1 Hf2 Hf3.
  assert (forall o n, main env w fuel su turns = Some o -> event_lines (forall t, text ch t -> plain t) n (outcome_out o) ->
    exists o ls, main env w fuel su turns = Some o /\ outcome_out o = concat ls /\ Forall (fun l => is_Some (scan_line l)) ls /\
      ((forall c, ch c -> printable c) -> Forall (fun l => is_Some (parse_line l)) ls)) as Hdone.
  { intros o n E Hj. apply event_lines_read in Hj as (ls & Eo & Hls & _ & Hj). exists o, ls. split; [done|]. split; [done|]. split; [done|].
    intros Hp. apply Hj. intros t Htx. apply printable_plain. by eapply Forall_impl. }
  destruct (main_cases ch env w fuel ncpu ids su turns Hl Hcs Hce Hfr Hn Hids Ht Hf1 Hf2 Hf3) as [[code E]|(id & cgroups & Hs)].
  { apply (Hdone _ 0 E), event_lines_nil. }
  pose proof (main_started env w fuel su turns id cgroups Hs) as E.
  destruct (started_run ch env w fuel ncpu ids su turns Hl Hcs Hce Hfr Hn Hids Ht Hf1 Hf2 Hf3 id cgroups Hs) as (s & stop & n & out & El & Eo & Hj & Hi & _).
  rewrite El in E. cbn [mbind option_bind] in E. destruct stop as [err|]; [|apply (Hdone _ n E); cbn; by rewrite Eo].
  destruct (shutdown_books ch w fuel ncpu ids _ s Hce Hi) as (s' & m & out' & Es & Eo' & Hj' & _). rewrite Es in E.
  apply (Hdone _ (n + m) E). cbn [outcome_out]. rewrite Eo', Eo. by apply event_lines_app.
Qed.


(** A small run: process 700 starts, removes a file and exits, and the program is interrupted. *)
Definition run_env : env :=
  Env false 0 [lit "node"] [] FILTER_MODE_ALL 0 0 true false false false false (replicate 256 0) false false.
Definition empty_fs : filesystem := Filesystem (fun _ => None) (fun _ => inr 2).
Definition run_ctx (name path : bytes) (t : Z) : bpf_ctx :=
  BpfCtx (700 * 2 ^ 32 + 700) 1 t (array_of 16 name) 0 (fun _ => 0) (fun _ => Some path) (fun _ _ => None)
    (Some (Event EVENT_TYPE_PROCESS 0 0 0 0 0 [] (replicate 256 0) (UFilename []) false, replicate 256 0)) 1 256 0 path 0 0 0.
Definition run_turns (name path : bytes) : list turn :=
  [ Turn false [Fire P_exec (run_ctx name path 5); Fire P_unlink (run_ctx name path 6); Deliver; Fire P_exit (run_ctx name path 9); Deliver] 0 100 2 true empty_fs;
    Turn true [] 0 100 2 true empty_fs ].
Definition run_startup : startup bounded :=
  Startup true 0 0 true pstate0 empty_fs (Clocks (Some (1, 2)) (Some (3, 4)) (fun _ => Some (lit "12:00:00"))) (Clocks None None (fun _ => None)).

Lemma run_ctx_text ch name path t : text ch (cstr (array_of 16 name)) -> (length name < 16)%nat -> text ch (cstr path) -> 0 <= t ->
  text_ctx ch (run_ctx name path t).
Proof.
  intros Hn Hl Hp Ht. split; cbn; try done.
  - unfold array_of in *. split; [rewrite length_app, length_replicate; unfold TASK_COMM_LEN; lia|]. split; [|done].
    apply elem_of_app. right. apply elem_of_replicate. lia.
  - by intros a s [= <-].
  - by intros e u [= <- <-].
Qed.

Lemma run_turns_ok ch name path : text ch (cstr (array_of 16 name)) -> (length name < 16)%nat -> text ch (cstr path) ->
  Forall (turn_ok ch 2 ∅) (run_turns name path).
Proof.
  intros Hn Hl Hp. apply Forall_cons_2; [|apply Forall_cons_2; [|apply Forall_nil_2]]; (split;
    [|intros d l E; discriminate E|intros d id (ino & E & _); discriminate E]); cbn [tn_items];
    repeat apply Forall_cons_2; try apply Forall_nil_2; try exact I; (split; [by apply run_ctx_text; [..|lia]|cbn; lia]).
Qed.

Lemma run_clocks_ok : clocks_ok (su_clk_start run_startup) /\ clocks_ok (su_clk_end run_startup).
Proof.
  split; (split; [intros t p E|intros t E]); try discriminate E; injection E as <-; [reflexivity|cbn; lia].
Qed.

Lemma process_run_prints_lines_witness :
  exists o ls, main run_env sample_world 10 run_startup (run_turns (lit "node") (lit "/tmp/a")) = Some o /\ outcome_out o = concat ls /\
    Forall (fun l => is_Some (parse_line l)) ls.
Proof.
  destruct (process_run_prints_lines printable run_env sample_world 10 2 ∅ run_startup (run_turns (lit "node") (lit "/tmp/a"))) as (o & ls & E & Eo & _ & Hj).
  - intros p t E. discriminate E.
  - apply run_clocks_ok.
  - apply run_clocks_ok.
  - split; reflexivity.
  - intros d l E. discriminate E.
  - intros d id (ino & E & _). discriminate E.
  - apply run_turns_ok; [apply (text_lit printable); reflexivity|cbn; lia|apply (text_lit printable); reflexivity].
  - vm_compute. lia.
  - vm_compute. lia.
  - vm_compute. done.
  - exists o, ls. split; [exact E|]. split; [exact Eo|]. exact (Hj (fun c Hc => Hc)).
Defined.

(** The run prints the start anchor, the EXEC and EXIT records and the summary of the removal. *)
Example run_prints_four_lines :
  option_map (fun o => length (filter (fun c => c = 10) (outcome_out o))) (main run_env sample_world 10 run_startup (run_turns (lit "node") (lit "/tmp/a"))) = Some 4%nat.
Proof. vm_compute. reflexivity. Qed.

(** A process whose name is no text and whose paths contain the end of a line
    and a summary of its own. *)
Definition forged_name : bytes := [34; 44; 255; 10].
Definition forged_path : bytes := jlit "/'}" ++ [10] ++ jlit "{'timestamp':1,'event':'SUMMARY','count':99}" ++ [10].
Definition forged_turns : list turn := run_turns forged_name forged_path.

(** The removal is the one event of the run, and nothing is reported twice. *)
Lemma run_totals :
  let total f := run_sum run_env sample_world (rodata run_env 0) 10 f forged_turns (loop_start run_env run_startup (bd_empty 64)) (Timers 0 0) in
  total (counted_by run_env (rodata run_env 0)) + total repeated_by = 1.
Proof. vm_compute. reflexivity. Qed.

