(* ===== verification/UserMem.v ===== *)
(** * User memory

    The memory of a traced process as a probe reads it: a partial map from
    addresses to bytes, where a read of a byte that is not mapped faults. *)

From S2P Require Import Prelude.

(** ** Reads *)

(** [bpf_probe_read_user] of [n] bytes at [a]; None is a fault. *)
Definition user_read (mem : Z -> option Z) (a n : Z) : option bytes :=
  mapM (fun i => mem (u64 (a + Z.of_nat i))) (seq 0 (Z.to_nat n)).

(** Little-endian integers. *)
Definition le_decode (b : bytes) : Z := foldr (fun x acc => x + 256 * acc) 0 b.

(** The [n] 64-bit fields of a structure at [a]. *)
Definition read_words (mem : Z -> option Z) (a : Z) (n : nat) : option (list Z) :=
  b ← user_read mem a (8 * Z.of_nat n);
  Some (map (fun i => le_decode (take 8 (drop (8 * i) b))) (seq 0 n)).

(** The buffer after [l] was copied to offset [off]. *)
Definition copy_at (buf : bytes) (off : Z) (l : bytes) : bytes :=
  take (Z.to_nat off) buf ++ l ++ drop (Z.to_nat off + length l) buf.

(** ** Lemmas *)

Lemma user_read_Some mem a n l :
  user_read mem a n = Some l <->
  length l = Z.to_nat n /\ forall i, (i < Z.to_nat n)%nat -> mem (u64 (a + Z.of_nat i)) = l !! i.
Proof.
  unfold user_read. rewrite mapM_Some. split.
  - intros Hl. pose proof (Forall2_length _ _ _ Hl) as Hlen. rewrite length_seq in Hlen. split; [done|].
    intros i Hi. destruct (lookup_lt_is_Some_2 l i) as [x Hx]; [lia|].
    pose proof (Forall2_lookup_lr _ _ _ i i x Hl) as Hr. rewrite Hx. apply Hr; [|done]. apply lookup_seq. lia.
  - intros [Hlen Hi]. apply Forall2_same_length_lookup. rewrite length_seq. split; [done|].
    intros i j x Hj Hx. apply lookup_seq in Hj as [-> Hj]. rewrite Nat.add_0_l. by rewrite Hi.
Qed.

Lemma user_read_length mem a n l : user_read mem a n = Some l -> length l = Z.to_nat n.
Proof. by intros [? _]%user_read_Some. Qed.

(** A shorter read of readable memory is the prefix. *)
Lemma user_read_prefix mem a n m l :
  user_read mem a n = Some l -> m <= n -> user_read mem a m = Some (take (Z.to_nat m) l).
Proof.
  rewrite !user_read_Some. intros [Hl Hi] Hm. split; [rewrite length_take; lia|].
  intros i Hlt. rewrite lookup_take_lt by done. apply Hi. lia.
Qed.

(** The rest of readable memory is readable. *)
Lemma user_read_suffix mem a n m l :
  user_read mem a n = Some l -> 0 <= m <= n -> user_read mem (u64 (a + m)) (n - m) = Some (drop (Z.to_nat m) l).
Proof.
  rewrite !user_read_Some. intros [Hl Hi] Hm. split; [rewrite length_drop; lia|].
  intros i Hlt. rewrite lookup_drop, <- Hi by lia. f_equal. unfold wrapu.
  rewrite Z.add_mod_idemp_l by done. f_equal. lia.
Qed.

(** Memory of bytes gives bytes. *)
Definition mem_ok (mem : Z -> option Z) : Prop := forall a b, mem a = Some b -> byte_ok b.

Lemma user_read_ok mem a n l : mem_ok mem -> user_read mem a n = Some l -> bytes_ok l.
Proof.
  intros Hm [Hl Hi]%user_read_Some. apply Forall_lookup. intros i x Hx. pose proof (lookup_lt_Some _ _ _ Hx).
  apply (Hm (u64 (a + Z.of_nat i))). by rewrite Hi by lia.
Qed.

Lemma le_decode_bound l : bytes_ok l -> 0 <= le_decode l < 256 ^ Z.of_nat (length l).
Proof.
  induction 1 as [|b l Hb _ IH]; [done|]. cbn [le_decode foldr length]. fold (le_decode l).
  rewrite Nat2Z.inj_succ, Z.pow_succ_r by lia. unfold byte_ok in Hb. lia.
Qed.

Lemma read_words_bound mem a n ws : mem_ok mem -> read_words mem a n = Some ws -> Forall (fun w => 0 <= w < 2 ^ 64) ws.
Proof.
  intros Hm. unfold read_words. destruct (user_read mem a (8 * Z.of_nat n)) as [b|] eqn:E; [|done].
  cbn [mbind option_bind]. intros [= <-]. apply Forall_forall. intros w Hw. apply list_elem_of_In, in_map_iff in Hw as (i & <- & _).
  assert (bytes_ok (take 8 (drop (8 * i) b))) as Hb by (apply Forall_take, Forall_drop; by eapply user_read_ok).
  pose proof (le_decode_bound _ Hb) as Hd. assert (length (take 8 (drop (8 * i) b)) <= 8)%nat by (rewrite length_take; lia).
  split; [apply Hd|]. eapply Z.lt_le_trans; [apply Hd|]. change (2 ^ 64) with (256 ^ 8). apply Z.pow_le_mono_r; lia.
Qed.
