(* ===== verification/SslBpf.v ===== *)
(** * The TLS tracer's kernel probes (src/bpf/sslsniff.bpf.c, sslsniff.h)

    The state is that of the three BPF maps and of the ring buffer; a probe is
    a function from a state and the context of its invocation.  User memory is
    a partial map from addresses to bytes: a read fails when one of its bytes
    is not mapped. *)

From S2P Require Import Prelude CLib BpfMap UserMem.

(** ** Data *)

Definition MAX_BUF_SIZE : Z := 256 * 1024.
Definition MAX_RUSTLS_IOVECS : nat := 2.
Definition MAX_GROK_IOVECS : nat := 8.
Definition GROK_MAX_CAPTURE_SIZE : Z := 64 * 1024.
Definition RUSTLS_COPY_CHUNK_SIZE : Z := 16 * 1024.
Definition MAX_RUSTLS_CHUNKS_PER_IOV : nat := 8.

(** [buf_filled] and [rw] are ints, [is_handshake] an int used as a flag. *)
Record probe_SSL_data_t := SslData {
  d_timestamp_ns : Z;
  d_delta_ns : Z;
  d_pid : Z;
  d_tid : Z;
  d_uid : Z;
  d_len : Z;
  d_buf_size : Z;
  d_buf_filled : Z;
  d_rw : Z;
  d_comm : bytes;
  d_buf : bytes;
  d_is_handshake : bool;
}.

Record rustls_iovec := RustlsIovec { iov_base : Z; iov_len : Z }.

Record rustls_outbound_chunks := RustlsOutboundChunks {
  oc_count : Z;
  oc_data : Z;
  oc_start_or_len : Z;
  oc_end : Z;
}.

(** ** Invocations *)

(** [x_mem] is the user memory, [x_slot] the stale data buffer of the reserved
    sample (None when the ring buffer is full), [x_arg i] the i-th argument of
    the probed function and [x_rc] its return value. *)
Record ssl_ctx := SslCtx {
  x_pid_tgid : Z;
  x_uid_gid : Z;
  x_ktime : Z;
  x_comm : bytes;
  x_mem : Z -> option Z;
  x_slot : option bytes;
  x_arg : nat -> Z;
  x_rc : Z;
}.

Definition x_pid (c : ssl_ctx) : Z := Z.shiftr (x_pid_tgid c) 32.
Definition x_tid (c : ssl_ctx) : Z := u32 (x_pid_tgid c).
Definition x_uid (c : ssl_ctx) : Z := u32 (x_uid_gid c).

Definition read_iovec (mem : Z -> option Z) (a : Z) : option rustls_iovec :=
  match read_words mem a 2 with Some [base; len] => Some (RustlsIovec base len) | _ => None end.

Definition read_outbound (mem : Z -> option Z) (a : Z) : option rustls_outbound_chunks :=
  match read_words mem a 4 with
  | Some [count; data; start_or_len; end_] => Some (RustlsOutboundChunks count data start_or_len end_)
  | _ => None
  end.

(** ** Probes *)

Section probes.
Context `{BpfHash hmap}.

(** What the loader sets; -1 is the uid 2^32 - 1. *)
Record ssl_config := SslConfig { targ_pid : Z; targ_uid : Z }.

Definition NO_UID : Z := 2 ^ 32 - 1.

Context (cfg : ssl_config).

Record ssl_state := SslState {
  readbytes_ptrs : hmap Z Z;
  start_ns : hmap Z Z;
  bufs : hmap Z Z;
  ssl_rb : list probe_SSL_data_t;  (* the submitted samples, oldest first *)
}.

Definition set_readbytes (s : ssl_state) m := SslState m (start_ns s) (bufs s) (ssl_rb s).
Definition set_start_ns (s : ssl_state) m := SslState (readbytes_ptrs s) m (bufs s) (ssl_rb s).
Definition set_bufs (s : ssl_state) m := SslState (readbytes_ptrs s) (start_ns s) m (ssl_rb s).
Definition ssl_submit (s : ssl_state) d := SslState (readbytes_ptrs s) (start_ns s) (bufs s) (ssl_rb s ++ [d]).

Definition trace_allowed (uid pid : Z) : bool :=
  if negb (targ_pid cfg =? 0) && negb (u32 (targ_pid cfg) =? pid) then false
  else if negb (targ_uid cfg =? NO_UID) && negb (targ_uid cfg =? uid) then false
  else true.

Definition submit_rustls_write (s : ssl_state) (c : ssl_ctx) (buf : bytes) (total copied : Z) : ssl_state :=
  ssl_submit s (SslData (x_ktime c) 0 (x_pid c) (x_tid c) (x_uid c)
    (if 2 ^ 32 - 1 <? total then 2 ^ 32 - 1 else total) copied (if 0 <? copied then 1 else 0) 1 (x_comm c) buf false).

(** The data buffer and [copied] after one chunk. *)
Definition copy_rustls_iovec (mem : Z -> option Z) (buf : bytes) (iovec : rustls_iovec) (copied : Z) : bytes * Z :=
  if (iov_len iovec =? 0) || (GROK_MAX_CAPTURE_SIZE <=? copied) then (buf, copied)
  else
    let capacity := GROK_MAX_CAPTURE_SIZE - copied in
    let destination := Z.land copied (GROK_MAX_CAPTURE_SIZE - 1) in
    let copy_size := Z.min (Z.min (iov_len iovec) GROK_MAX_CAPTURE_SIZE) capacity in
    if copy_size =? 0 then (buf, copied)
    else match user_read mem (iov_base iovec) copy_size with
    | None => (buf, copied)
    | Some l => (copy_at buf destination l, copied + copy_size)
    end.

Definition probe_rustls_write (s : ssl_state) (c : ssl_ctx) : ssl_state :=
  let buf := x_arg c 1 in
  let len := x_arg c 2 in
  let copied := if MAX_BUF_SIZE <? len then MAX_BUF_SIZE else len in
  if negb (trace_allowed (x_uid c) (x_pid c)) || (buf =? 0) || (len =? 0) then s
  else match x_slot c with
  | None => s
  | Some slot =>
      match user_read (x_mem c) buf copied with
      | None => s  (* discarded *)
      | Some l => submit_rustls_write s c (copy_at slot 0 l) len copied
      end
  end.

(** The inner loop of [probe_rustls_write_vectored]: one iovec in chunks. *)
Fixpoint chunk_loop (fuel : nat) (mem : Z -> option Z) (source remaining : Z) (buf : bytes) (copied : Z) : bytes * Z :=
  match fuel with
  | O => (buf, copied)
  | S f =>
      if (remaining =? 0) || (MAX_BUF_SIZE - RUSTLS_COPY_CHUNK_SIZE <? copied) then (buf, copied)
      else
        let copy_size := if RUSTLS_COPY_CHUNK_SIZE <? remaining then RUSTLS_COPY_CHUNK_SIZE else remaining in
        match user_read mem source copy_size with
        | None => (buf, copied)
        | Some l => chunk_loop f mem (u64 (source + copy_size)) (remaining - copy_size) (copy_at buf copied l) (copied + copy_size)
        end
  end.

(** The outer loop, from index [i]: the buffer, [copied] and [total]. *)
Fixpoint iovec_loop (fuel : nat) (mem : Z -> option Z) (iovecs iovcnt i : Z) (buf : bytes) (copied total : Z) : bytes * Z * Z :=
  match fuel with
  | O => (buf, copied, total)
  | S f =>
      if iovcnt <=? i then (buf, copied, total)
      else match read_iovec mem (u64 (iovecs + 16 * i)) with
      | None => (buf, copied, total)
      | Some iovec =>
          let total := u64 (total + iov_len iovec) in
          let '(buf, copied) := chunk_loop MAX_RUSTLS_CHUNKS_PER_IOV mem (iov_base iovec) (iov_len iovec) buf copied in
          iovec_loop f mem iovecs iovcnt (i + 1) buf copied total
      end
  end.

Definition probe_rustls_write_vectored (s : ssl_state) (c : ssl_ctx) : ssl_state :=
  let iovecs := x_arg c 1 in
  let iovcnt := x_arg c 2 in
  if negb (trace_allowed (x_uid c) (x_pid c)) || (iovecs =? 0) || (iovcnt =? 0) then s
  else match x_slot c with
  | None => s
  | Some slot =>
      let '(buf, copied, total) := iovec_loop MAX_RUSTLS_IOVECS (x_mem c) iovecs iovcnt 0 slot 0 0 in
      let total := if (Z.of_nat MAX_RUSTLS_IOVECS <? iovcnt) && (total <=? copied) then copied + 1 else total in
      submit_rustls_write s c buf total copied
  end.

(** The loop over the chunks of a Multiple, from index [i]. *)
Fixpoint outbound_loop (fuel : nat) (mem : Z -> option Z) (outbound : rustls_outbound_chunks) (total i : Z)
    (buf : bytes) (copied inspected_total : Z) : bytes * Z :=
  match fuel with
  | O => (buf, copied)
  | S f =>
      if oc_count outbound <=? i then (buf, copied)
      else match read_iovec mem (u64 (oc_data outbound + 16 * i)) with
      | None => (buf, copied)
      | Some iovec =>
          if (total <? inspected_total) || (total - inspected_total <? iov_len iovec) then (buf, 0)
          else
            let '(buf, copied) := copy_rustls_iovec mem buf iovec copied in
            outbound_loop f mem outbound total (i + 1) buf copied (inspected_total + iov_len iovec)
      end
  end.

Definition probe_rustls_buffer_plaintext (s : ssl_state) (c : ssl_ctx) : ssl_state :=
  let chunks := x_arg c 1 in
  if negb (trace_allowed (x_uid c) (x_pid c)) || (chunks =? 0) then s
  else match read_outbound (x_mem c) chunks with
  | None => s
  | Some outbound =>
      if oc_count outbound =? 0 then
        let total := oc_start_or_len outbound in
        if (oc_data outbound =? 0) || (total =? 0) then s
        else
          let copied := if GROK_MAX_CAPTURE_SIZE <? total then GROK_MAX_CAPTURE_SIZE else total in
          match x_slot c with
          | None => s
          | Some slot =>
              match user_read (x_mem c) (oc_data outbound) copied with
              | None => s
              | Some l => submit_rustls_write s c (copy_at slot 0 l) total copied
              end
          end
      else if (oc_data outbound =? 0) || negb (oc_start_or_len outbound =? 0) || (oc_end outbound =? 0) then s
      else
        let total := oc_end outbound in
        match x_slot c with
        | None => s
        | Some slot =>
            let '(buf, copied) := outbound_loop MAX_GROK_IOVECS (x_mem c) outbound total 0 slot 0 0 in
            if copied =? 0 then s else submit_rustls_write s c buf total copied
        end
  end.

Definition probe_SSL_rw_enter (s : ssl_state) (c : ssl_ctx) : ssl_state :=
  if negb (trace_allowed (x_uid c) (x_pid c)) then s
  else
    let s := set_bufs s (bpf_map_set (bufs s) (x_tid c) (x_arg c 1)) in
    set_start_ns s (bpf_map_set (start_ns s) (x_tid c) (x_ktime c)).

(** What [SSL_exit] and [ex_SSL_exit] share: they differ in the length and in
    how many bytes of it are copied. *)
Definition exit_common (s : ssl_state) (c : ssl_ctx) (rw len buf_copy_size : Z) : ssl_state :=
  if negb (trace_allowed (x_uid c) (x_pid c)) then s
  else match bpf_map_lookup_elem (bufs s) (x_tid c) with
  | None => s
  | Some bufp =>
      match bpf_map_lookup_elem (start_ns s) (x_tid c) with
      | None => s
      | Some tsp =>
          let delta_ns := u64 (x_ktime c - tsp) in
          if len <=? 0 then s  (* no data *)
          else match x_slot c with
          | None => s
          | Some slot =>
              let ret := user_read (x_mem c) bufp buf_copy_size in
              let s := set_bufs s (bpf_map_delete_elem (bufs s) (x_tid c)) in
              let s := set_start_ns s (bpf_map_delete_elem (start_ns s) (x_tid c)) in
              let mk size filled buf := SslData (x_ktime c) delta_ns (x_pid c) (x_tid c) (x_uid c) len size filled rw
                                          (x_comm c) buf false in
              ssl_submit s (match ret with
                            | Some l => mk buf_copy_size 1 (copy_at slot 0 l)
                            | None => mk 0 0 slot
                            end)
          end
      end
  end.

Definition SSL_exit (rw : Z) (s : ssl_state) (c : ssl_ctx) : ssl_state :=
  let len := s32 (x_rc c) in
  exit_common s c rw len (Z.min MAX_BUF_SIZE len).

Definition ex_SSL_exit (rw len : Z) (s : ssl_state) (c : ssl_ctx) : ssl_state :=
  let masked := Z.land (u32 len) 0xFFFFF in
  exit_common s c rw len (if MAX_BUF_SIZE <? masked then MAX_BUF_SIZE else masked).

Definition probe_SSL_read_exit := SSL_exit 0.
Definition probe_SSL_write_exit := SSL_exit 1.

Definition probe_SSL_write_ex_enter (s : ssl_state) (c : ssl_ctx) : ssl_state :=
  if negb (trace_allowed (x_uid c) (x_pid c)) then s
  else
    let s := set_bufs s (bpf_map_set (bufs s) (x_tid c) (x_arg c 1)) in
    let s := set_start_ns s (bpf_map_set (start_ns s) (x_tid c) (x_ktime c)) in
    set_readbytes s (bpf_map_set (readbytes_ptrs s) (x_tid c) (x_arg c 3)).

Definition probe_SSL_read_ex_enter := probe_SSL_write_ex_enter.

(** The exit of an _ex function: the length is what it stored through its last
    argument, when it succeeded. *)
Definition ex_exit_common (rw : Z) (s : ssl_state) (c : ssl_ctx) : ssl_state :=
  match bpf_map_lookup_elem (readbytes_ptrs s) (x_tid c) with
  | None => s
  | Some readbytes_ptr =>
      let written := match read_words (x_mem c) readbytes_ptr 1 with Some [n] => n | _ => 0 end in
      let s := set_readbytes s (bpf_map_delete_elem (readbytes_ptrs s) (x_tid c)) in
      let len := if s32 (x_rc c) =? 1 then s32 written else 0 in
      ex_SSL_exit rw len s c
  end.

Definition probe_SSL_write_ex_exit := ex_exit_common 1.
Definition probe_SSL_read_ex_exit := ex_exit_common 0.

Definition probe_SSL_do_handshake_enter (s : ssl_state) (c : ssl_ctx) : ssl_state :=
  if negb (trace_allowed (x_uid c) (x_pid c)) then s
  else set_start_ns s (bpf_map_set (start_ns s) (x_tid c) (x_ktime c)).

(** The filter is given the process in the place of the user. *)
Definition probe_SSL_do_handshake_exit (s : ssl_state) (c : ssl_ctx) : ssl_state :=
  let tgid := x_pid c in
  if negb (trace_allowed tgid (x_pid c)) then s
  else match bpf_map_lookup_elem (start_ns s) (x_tid c) with
  | None => s
  | Some tsp =>
      let ret := s32 (x_rc c) in
      if ret <=? 0 then s  (* handshake failed *)
      else match x_slot c with
      | None => s
      | Some slot =>
          ssl_submit (set_start_ns s (bpf_map_delete_elem (start_ns s) (x_tid c)))
            (SslData (x_ktime c) (u64 (x_ktime c - tsp)) (x_pid c) (x_tid c) (x_uid c) ret 0 0 2 (x_comm c) slot true)
      end
  end.

(** ** The probes, by attachment point *)

Inductive ssl_probe :=
  | SP_rustls_write | SP_rustls_write_vectored | SP_rustls_buffer_plaintext
  | SP_rw_enter | SP_read_exit | SP_write_exit
  | SP_write_ex_enter | SP_read_ex_enter | SP_write_ex_exit | SP_read_ex_exit
  | SP_handshake_enter | SP_handshake_exit.

Definition run_ssl (p : ssl_probe) : ssl_state -> ssl_ctx -> ssl_state :=
  match p with
  | SP_rustls_write => probe_rustls_write
  | SP_rustls_write_vectored => probe_rustls_write_vectored
  | SP_rustls_buffer_plaintext => probe_rustls_buffer_plaintext
  | SP_rw_enter => probe_SSL_rw_enter
  | SP_read_exit => probe_SSL_read_exit
  | SP_write_exit => probe_SSL_write_exit
  | SP_write_ex_enter => probe_SSL_write_ex_enter
  | SP_read_ex_enter => probe_SSL_read_ex_enter
  | SP_write_ex_exit => probe_SSL_write_ex_exit
  | SP_read_ex_exit => probe_SSL_read_ex_exit
  | SP_handshake_enter => probe_SSL_do_handshake_enter
  | SP_handshake_exit => probe_SSL_do_handshake_exit
  end.

End probes.

Arguments ssl_state : clear implicits.
Arguments SslState {hmap}.
Arguments readbytes_ptrs {hmap}.
Arguments start_ns {hmap}.
Arguments bufs {hmap}.
Arguments ssl_rb {hmap}.
