(* ===== verification/SslBpfSpec.v ===== *)
(** * What the TLS probes capture

    What the copies leave in the buffer of a sample, for one read and for the
    loops over scattered pieces, and the type of the samples: they are well
    formed whatever the probed process does. *)

From S2P Require Import Prelude CLib BpfMap Tracer UserMem SslBpf.

(** ** User memory *)

Lemma read_iovec_bound mem a iv : mem_ok mem -> read_iovec mem a = Some iv -> 0 <= iov_base iv < 2 ^ 64 /\ 0 <= iov_len iv < 2 ^ 64.
Proof.
  intros Hm. unfold read_iovec. destruct (read_words mem a 2) as [ws|] eqn:E; [|done]. apply read_words_bound in E; [|done].
  destruct ws as [|base [|len [|? ?]]]; try done. intros [= <-]. apply Forall_cons in E as [? E]. by apply Forall_cons in E as [? _].
Qed.

(** ** The data buffer *)

(** The first [n] bytes of the sample's buffer are [l]. *)
Definition holds (buf : bytes) (n : Z) (l : bytes) : Prop :=
  Z.of_nat (length buf) = MAX_BUF_SIZE /\ Z.of_nat (length l) = n /\ take (length l) buf = l.

Lemma holds_nil buf : Z.of_nat (length buf) = MAX_BUF_SIZE -> holds buf 0 [].
Proof. by split. Qed.

Lemma holds_le buf n l : holds buf n l -> 0 <= n <= MAX_BUF_SIZE.
Proof. intros (Hb & Hn & Ht). apply (f_equal length) in Ht. rewrite length_take in Ht. lia. Qed.

Lemma holds_copy buf n l new :
  holds buf n l -> n + Z.of_nat (length new) <= MAX_BUF_SIZE ->
  holds (copy_at buf n new) (n + Z.of_nat (length new)) (l ++ new).
Proof.
  intros (Hb & Hn & Ht) Hle. unfold copy_at. replace (Z.to_nat n) with (length l) by lia. rewrite Ht. split_and!.
  - rewrite !length_app, length_drop. lia.
  - rewrite length_app. lia.
  - rewrite app_assoc. by rewrite take_app_length.
Qed.

Lemma holds_copy0 slot l n :
  Z.of_nat (length slot) = MAX_BUF_SIZE -> length l = Z.to_nat n -> 0 <= n <= MAX_BUF_SIZE -> holds (copy_at slot 0 l) n l.
Proof.
  intros Hs Hl Hn. pose proof (holds_copy slot 0 [] l (holds_nil slot Hs)) as H. cbn [app] in H.
  replace (0 + Z.of_nat (length l)) with n in H by lia. apply H. lia.
Qed.

(** [new] is what a piece of memory contributed. *)
Definition piece (mem : Z -> option Z) (base len : Z) (new : bytes) : Prop :=
  Z.of_nat (length new) <= len /\ user_read mem base (Z.of_nat (length new)) = Some new.

Lemma piece_nil mem base len : 0 <= len -> piece mem base len [].
Proof. by split. Qed.

Lemma piece_app mem base len l new :
  0 <= len -> length l = Z.to_nat len -> user_read mem base len = Some l ->
  forall rest, piece mem (u64 (base + len)) rest new -> piece mem base (len + rest) (l ++ new).
Proof.
  intros Hpos Hl Hr rest [Hn Hnew]. split; [rewrite length_app; lia|].
  apply user_read_Some in Hr as [_ Hr], Hnew as [_ Hnew]. apply user_read_Some. rewrite length_app. split; [lia|].
  intros i Hi. destruct (decide (i < length l)%nat).
  - rewrite lookup_app_l by done. apply Hr. lia.
  - rewrite lookup_app_r by lia. rewrite <- (Hnew (i - length l)%nat) by lia. f_equal. unfold wrapu.
    rewrite Z.add_mod_idemp_l by done. f_equal. lia.
Qed.

(** ** The loops *)

(** One iovec of a vectored write: a prefix of it follows what was there. *)
Lemma chunk_loop_piece fuel mem source remaining buf copied l buf' copied' :
  0 <= remaining -> holds buf copied l -> chunk_loop fuel mem source remaining buf copied = (buf', copied') ->
  exists new, piece mem source remaining new /\ holds buf' copied' (l ++ new).
Proof.
  revert source remaining buf copied l. induction fuel as [|f IH]; intros source remaining buf copied l Hrem Hh; cbn [chunk_loop].
  - intros [= <- <-]. exists []. rewrite app_nil_r. split; [by apply piece_nil|done].
  - destruct (Z.eqb_spec remaining 0); cbn [orb]; [|destruct (Z.ltb_spec (MAX_BUF_SIZE - RUSTLS_COPY_CHUNK_SIZE) copied)].
    1-2: intros [= <- <-]; exists []; rewrite app_nil_r; split; [by apply piece_nil|done].
    set (k := if RUSTLS_COPY_CHUNK_SIZE <? remaining then RUSTLS_COPY_CHUNK_SIZE else remaining).
    assert (0 < k <= remaining /\ k <= RUSTLS_COPY_CHUNK_SIZE) as [Hn1 Hn2].
    { unfold k, RUSTLS_COPY_CHUNK_SIZE. destruct (Z.ltb_spec (16 * 1024) remaining); lia. }
    destruct (user_read mem source k) as [x|] eqn:E.
    + pose proof (user_read_length _ _ _ _ E) as Hx. intros Hc.
      assert (holds (copy_at buf copied x) (copied + k) (l ++ x)) as Hh'.
      { replace k with (Z.of_nat (length x)) by lia. apply holds_copy; [done|lia]. }
      destruct (IH (u64 (source + k)) (remaining - k) _ _ _ ltac:(lia) Hh' Hc) as (new & Hp & Hh2).
      exists (x ++ new). rewrite app_assoc. split; [|done].
      replace remaining with (k + (remaining - k)) by lia. apply piece_app; (done || lia).
    + intros [= <- <-]. exists []. rewrite app_nil_r. split; [apply piece_nil; lia|done].
Qed.

(** A readable one is captured up to [fuel] chunks. *)
Lemma chunk_loop_readable fuel mem source remaining buf copied l p :
  0 <= remaining -> holds buf copied l -> user_read mem source remaining = Some p ->
  copied + RUSTLS_COPY_CHUNK_SIZE * Z.of_nat fuel <= MAX_BUF_SIZE ->
  exists buf' copied', chunk_loop fuel mem source remaining buf copied = (buf', copied') /\
    holds buf' copied' (l ++ take (fuel * Z.to_nat RUSTLS_COPY_CHUNK_SIZE) p).
Proof.
  revert source remaining buf copied l p. induction fuel as [|f IH]; intros source remaining buf copied l p Hrem Hh Hr Hcap; cbn [chunk_loop].
  - rewrite Nat.mul_0_l. cbn [firstn]. rewrite app_nil_r. by do 2 eexists.
  - pose proof (user_read_length _ _ _ _ Hr) as Hp. destruct (Z.eqb_spec remaining 0) as [->|Hne]; cbn [orb].
    { destruct p; [|done]. rewrite take_nil, app_nil_r. by do 2 eexists. }
    assert (0 < RUSTLS_COPY_CHUNK_SIZE) as HC by done.
    rewrite (proj2 (Z.ltb_ge _ _)) by lia.
    set (n := if RUSTLS_COPY_CHUNK_SIZE <? remaining then RUSTLS_COPY_CHUNK_SIZE else remaining).
    assert (n = Z.min RUSTLS_COPY_CHUNK_SIZE remaining) as Hn by (unfold n; destruct (Z.ltb_spec RUSTLS_COPY_CHUNK_SIZE remaining); lia).
    rewrite (user_read_prefix mem source remaining n p Hr) by lia.
    assert (length (take (Z.to_nat n) p) = Z.to_nat n) as Hx by (rewrite length_take; lia).
    assert (holds (copy_at buf copied (take (Z.to_nat n) p)) (copied + n) (l ++ take (Z.to_nat n) p)) as Hh'.
    { replace n with (Z.of_nat (length (take (Z.to_nat n) p))) at 2 by lia. apply holds_copy; [done|]. rewrite Hx. lia. }
    destruct (IH (u64 (source + n)) (remaining - n) _ _ _ (drop (Z.to_nat n) p) ltac:(lia) Hh') as (buf' & copied' & -> & Hh2).
    + apply user_read_suffix; (done || lia).
    + lia.
    + do 2 eexists. split; [reflexivity|]. rewrite <- app_assoc in Hh2.
      replace (take (Z.to_nat n) p ++ take (f * Z.to_nat RUSTLS_COPY_CHUNK_SIZE) (drop (Z.to_nat n) p))
        with (take (S f * Z.to_nat RUSTLS_COPY_CHUNK_SIZE) p) in Hh2; [done|].
      set (C := Z.to_nat RUSTLS_COPY_CHUNK_SIZE) in *. rewrite Nat.mul_succ_l, (Nat.add_comm _ C).
      destruct (decide (n = RUSTLS_COPY_CHUNK_SIZE)) as [->|]; [by rewrite <- take_take_drop|].
      rewrite (firstn_all2 (n:=Z.to_nat n)) by lia. rewrite drop_ge, take_nil, app_nil_r by lia. apply firstn_all2. lia.
Qed.

Lemma holds_reset buf n l : holds buf n l -> holds buf 0 [].
Proof. intros (Hb & _). by apply holds_nil. Qed.

Lemma piece_ok mem base len new : mem_ok mem -> piece mem base len new -> bytes_ok new.
Proof. intros Hm [_ Hr]. by eapply user_read_ok. Qed.

(** A scattered write appends bytes of memory. *)
Lemma iovec_loop_holds fuel mem iovecs iovcnt i buf copied total l buf' copied' total' :
  mem_ok mem -> bytes_ok l -> holds buf copied l -> 0 <= total < 2 ^ 64 ->
  iovec_loop fuel mem iovecs iovcnt i buf copied total = (buf', copied', total') ->
  exists new, bytes_ok new /\ holds buf' copied' (l ++ new) /\ 0 <= total' < 2 ^ 64.
Proof.
  intros Hm. revert i buf copied total l. induction fuel as [|f IH]; intros i buf copied total l Hl Hh Ht; cbn [iovec_loop].
  - intros [= <- <- <-]. exists []. rewrite app_nil_r. split; [constructor|done].
  - destruct (iovcnt <=? i); [intros [= <- <- <-]; exists []; rewrite app_nil_r; split; [constructor|done]|].
    destruct (read_iovec mem _) as [iv|] eqn:Ei; [|intros [= <- <- <-]; exists []; rewrite app_nil_r; split; [constructor|done]].
    apply read_iovec_bound in Ei as [_ Hlen]; [|done].
    destruct (chunk_loop _ _ _ _ _ _) as [b1 c1] eqn:Ec.
    destruct (chunk_loop_piece _ _ _ _ _ _ l _ _ (proj1 Hlen) Hh Ec) as (n1 & Hp1 & Hh1). apply piece_ok in Hp1; [|done].
    intros E. destruct (IH _ _ _ _ (l ++ n1) (proj2 (bytes_ok_app _ _) (conj Hl Hp1)) Hh1 (wrapu_bound 64 _ eq_refl) E) as (n2 & H2 & Hh2 & Ht2).
    exists (n1 ++ n2). rewrite app_assoc. split; [by apply bytes_ok_app|done].
Qed.

(** One chunk of a Multiple: what fits of 64 KB, or nothing on a fault. *)
Lemma copy_iovec_piece mem buf iv copied l buf' copied' :
  0 <= iov_len iv -> holds buf copied l -> copied <= GROK_MAX_CAPTURE_SIZE ->
  copy_rustls_iovec mem buf iv copied = (buf', copied') ->
  exists new, piece mem (iov_base iv) (iov_len iv) new /\ holds buf' copied' (l ++ new) /\ copied' <= GROK_MAX_CAPTURE_SIZE.
Proof.
  intros Hlen Hh Hc. pose proof (holds_le _ _ _ Hh) as Hpos. unfold copy_rustls_iovec.
  assert (exists new, piece mem (iov_base iv) (iov_len iv) new /\ holds buf copied (l ++ new) /\ copied <= GROK_MAX_CAPTURE_SIZE) as Hsame.
  { exists []. rewrite app_nil_r. split; [by apply piece_nil|done]. }
  destruct (_ || _) eqn:Eg; [by intros [= <- <-]|]. bool_to_prop.
  destruct (_ =? 0) eqn:E0; [by intros [= <- <-]|]. bool_to_prop.
  set (k := Z.min (Z.min (iov_len iv) GROK_MAX_CAPTURE_SIZE) (GROK_MAX_CAPTURE_SIZE - copied)) in *.
  assert (k = Z.min (Z.min (iov_len iv) GROK_MAX_CAPTURE_SIZE) (GROK_MAX_CAPTURE_SIZE - copied)) as Hk by done. clearbody k.
  assert (0 < k <= iov_len iv /\ copied + k <= GROK_MAX_CAPTURE_SIZE) as [Hk1 Hk2] by lia.
  destruct (user_read mem (iov_base iv) k) as [x|] eqn:E; [|by intros [= <- <-]]. intros [= <- <-].
  pose proof (user_read_length _ _ _ _ E) as Hx. exists x. split; [|split; [|done]].
  - split; [lia|]. by replace (Z.of_nat (length x)) with k by lia.
  - assert (Z.land copied (GROK_MAX_CAPTURE_SIZE - 1) = copied) as ->.
    { unfold GROK_MAX_CAPTURE_SIZE in *. change (64 * 1024 - 1) with (2 ^ 16 - 1). rewrite land_mask by lia. apply Z.mod_small. lia. }
    replace k with (Z.of_nat (length x)) by lia. apply holds_copy; [done|]. unfold MAX_BUF_SIZE, GROK_MAX_CAPTURE_SIZE in *. lia.
Qed.

Lemma outbound_loop_holds fuel mem ob total i buf copied inspected l buf' copied' :
  mem_ok mem -> bytes_ok l -> holds buf copied l -> copied <= GROK_MAX_CAPTURE_SIZE ->
  outbound_loop fuel mem ob total i buf copied inspected = (buf', copied') ->
  exists new, bytes_ok new /\ holds buf' copied' new.
Proof.
  intros Hm. revert i buf copied inspected l. induction fuel as [|f IH]; intros i buf copied inspected l Hl Hh Hc; cbn [outbound_loop].
  - intros [= <- <-]. by exists l.
  - destruct (_ <=? _); [intros [= <- <-]; by exists l|].
    destruct (read_iovec mem _) as [iv|] eqn:Ei; [|intros [= <- <-]; by exists l].
    apply read_iovec_bound in Ei as [_ Hlen]; [|done].
    destruct (_ || _); [intros [= <- <-]; exists []; split; [constructor|by eapply holds_reset]|].
    destruct (copy_rustls_iovec _ _ _ _) as [b1 c1] eqn:Ec.
    destruct (copy_iovec_piece _ _ _ _ l _ _ (proj1 Hlen) Hh Hc Ec) as (n1 & Hp1 & Hh1 & Hc1). apply piece_ok in Hp1; [|done].
    by apply (IH _ _ _ _ (l ++ n1)); [apply bytes_ok_app|..].
Qed.

(** ** Well-formed samples *)

(** What the kernel guarantees of an invocation. *)
Record ssl_ctx_ok (c : ssl_ctx) : Prop := {
  xok_ids : 0 <= x_pid_tgid c < 2 ^ 64;
  xok_time : 0 <= x_ktime c < 2 ^ 64;
  xok_comm : length (x_comm c) = 16%nat;
  xok_mem : mem_ok (x_mem c);
  xok_slot : forall b, x_slot c = Some b -> Z.of_nat (length b) = MAX_BUF_SIZE;
  xok_arg : forall i, 0 <= x_arg c i < 2 ^ 64;
}.

(** The fields of a sample are in the range of their types and describe the
    data it holds. *)
Record ssl_sample_ok (d : probe_SSL_data_t) : Prop := {
  sok_time : 0 <= d_timestamp_ns d < 2 ^ 64 /\ 0 <= d_delta_ns d < 2 ^ 64;
  sok_ids : 0 <= d_pid d < 2 ^ 32 /\ 0 <= d_tid d < 2 ^ 32 /\ 0 <= d_uid d < 2 ^ 32;
  sok_len : 0 <= d_len d < 2 ^ 32;
  sok_data : exists data, bytes_ok data /\ holds (d_buf d) (d_buf_size d) data;
  sok_filled : (d_buf_filled d = 1 \/ d_buf_filled d = 0 /\ d_buf_size d = 0);
  sok_rw : if d_is_handshake d then d_rw d = 2 else 0 <= d_rw d <= 1;
  sok_comm : length (d_comm d) = 16%nat;
}.

Section samples.
Context `{BpfHash hmap} (cfg : ssl_config).
Implicit Types (s : ssl_state hmap) (c : ssl_ctx).

(** At most one sample is added, and it is well formed. *)
Definition adds_ok s s' : Prop := adds_one ssl_sample_ok (ssl_rb s) (ssl_rb s').

Lemma adds_ok_same s s' : ssl_rb s' = ssl_rb s -> adds_ok s s'.
Proof. intros E. by left. Qed.

Lemma x_ids c : ssl_ctx_ok c -> 0 <= x_pid c < 2 ^ 32 /\ 0 <= x_tid c < 2 ^ 32 /\ 0 <= x_uid c < 2 ^ 32.
Proof.
  intros [Hi _ _ _ _ _]. unfold x_pid. rewrite Z.shiftr_div_pow2 by lia. split.
  - split; [apply Z.div_pos; lia|apply Z.div_lt_upper_bound; lia].
  - split; by apply wrapu_bound.
Qed.

Lemma rustls_submit_ok s c buf total copied data :
  ssl_ctx_ok c -> bytes_ok data -> holds buf copied data -> 0 <= total ->
  adds_ok s (submit_rustls_write s c buf total copied).
Proof.
  intros Hc Hd Hh Ht. apply adds_sample. pose proof (holds_le _ _ _ Hh). pose proof (x_ids c Hc).
  destruct Hc as [_ Hk Hcm _ _ _]. split; cbn; try done.
  - destruct (Z.ltb_spec (2 ^ 32 - 1) total); lia.
  - by exists data.
  - destruct (Z.ltb_spec 0 copied); [by left|right; lia].
Qed.

Lemma slot_holds c slot : ssl_ctx_ok c -> x_slot c = Some slot -> holds slot 0 [].
Proof. intros Hc Hs. apply holds_nil, (xok_slot _ Hc), Hs. Qed.

Lemma exit_common_ok s c rw len size :
  ssl_ctx_ok c -> 0 <= rw <= 1 -> len < 2 ^ 32 -> (0 < len -> 0 <= size <= MAX_BUF_SIZE) ->
  adds_ok s (exit_common cfg s c rw len size).
Proof.
  intros Hc Hrw Hlen Hsize. unfold exit_common. destruct (trace_allowed _ _ _); [|by left]. cbn [negb].
  destruct (bpf_map_lookup_elem (bufs s) _) as [bufp|]; [|by left]. destruct (bpf_map_lookup_elem (start_ns s) _) as [tsp|]; [|by left].
  destruct (Z.leb_spec len 0); [by left|]. destruct (x_slot c) as [slot|] eqn:Es; [|by left].
  apply adds_sample. pose proof (x_ids c Hc). pose proof (slot_holds c slot Hc Es) as Hh.
  assert (0 <= u64 (x_ktime c - tsp) < 2 ^ 64) by (by apply wrapu_bound). destruct Hc as [_ Hk Hcm Hm Hsl _].
  destruct (user_read (x_mem c) bufp size) as [l|] eqn:E.
  - split; cbn; try done; [lia| |by left]. exists l. split; [by eapply user_read_ok|].
    apply holds_copy0; [by apply Hsl|by eapply user_read_length|lia].
  - split; cbn; try done; [lia| |by right]. exists []. by split; [constructor|].
Qed.

Lemma ex_exit_ok rw s c : ssl_ctx_ok c -> 0 <= rw <= 1 -> adds_ok s (ex_exit_common cfg rw s c).
Proof.
  intros Hc Hrw. unfold ex_exit_common. destruct (bpf_map_lookup_elem _ _) as [ptr|]; [|by left].
  set (len := if s32 (x_rc c) =? 1 then _ else 0).
  assert (len < 2 ^ 32) as Hlen.
  { unfold len. destruct (_ =? 1); [|done]. match goal with |- s32 ?x < _ => pose proof (wraps_bound 32 x) end. lia. }
  apply (exit_common_ok (set_readbytes s _)); try done. intros _.
  assert (0 <= Z.land (u32 len) 0xFFFFF) by (apply Z.land_nonneg; by right).
  destruct (Z.ltb_spec MAX_BUF_SIZE (Z.land (u32 len) 0xFFFFF)); unfold MAX_BUF_SIZE in *; lia.
Qed.

Lemma rustls_write_ok s c : ssl_ctx_ok c -> adds_ok s (probe_rustls_write cfg s c).
Proof.
  intros Hc. unfold probe_rustls_write. destruct (_ || _) eqn:Eg; [by left|]. bool_to_prop. pose proof (xok_arg _ Hc 2%nat).
  destruct (x_slot c) as [slot|] eqn:Es; [|by left]. set (k := if _ <? _ then _ else _).
  assert (0 <= k <= MAX_BUF_SIZE) by (unfold k; destruct (Z.ltb_spec MAX_BUF_SIZE (x_arg c 2)); unfold MAX_BUF_SIZE in *; lia).
  destruct (user_read _ _ _) as [l|] eqn:E; [|by left].
  eapply (rustls_submit_ok _ _ _ _ _ l); try done; [by eapply user_read_ok; [apply Hc|]| |lia].
  apply holds_copy0; [by apply (xok_slot _ Hc)|by eapply user_read_length|done].
Qed.

Lemma rustls_vectored_ok s c : ssl_ctx_ok c -> adds_ok s (probe_rustls_write_vectored cfg s c).
Proof.
  intros Hc. unfold probe_rustls_write_vectored. destruct (_ || _) eqn:Eg; [by left|]. destruct (x_slot c) as [slot|] eqn:Es; [|by left].
  destruct (iovec_loop _ _ _ _ _ _ _ _) as [[buf copied] total] eqn:El.
  apply (iovec_loop_holds _ _ _ _ _ _ _ _ []) in El as (new & Hn & Hh & Ht); [|apply Hc|constructor|by eapply slot_holds|lia].
  pose proof (holds_le _ _ _ Hh). cbn [app] in Hh.
  eapply (rustls_submit_ok _ _ _ _ _ new); try done; destruct (_ && _); lia.
Qed.

Lemma rustls_plaintext_ok s c : ssl_ctx_ok c -> adds_ok s (probe_rustls_buffer_plaintext cfg s c).
Proof.
  intros Hc. unfold probe_rustls_buffer_plaintext. destruct (_ || _) eqn:Eg; [by left|]. bool_to_prop.
  unfold read_outbound. destruct (read_words _ _ 4) as [ws|] eqn:Ew; [|by left]. apply read_words_bound in Ew; [|apply Hc].
  destruct ws as [|w0 [|w1 [|w2 [|w3 [|? ?]]]]]; try (by left). cbn [oc_count oc_data oc_start_or_len oc_end].
  repeat (apply Forall_cons in Ew as [? Ew]). destruct (w0 =? 0).
  - destruct (_ || _) eqn:Eg2; [by left|]. bool_to_prop. destruct (x_slot c) as [slot|] eqn:Es; [|by left].
    set (k := if _ <? _ then _ else _).
    assert (0 <= k <= MAX_BUF_SIZE) by (unfold k; destruct (Z.ltb_spec GROK_MAX_CAPTURE_SIZE w2); unfold MAX_BUF_SIZE, GROK_MAX_CAPTURE_SIZE in *; lia).
    destruct (user_read _ _ _) as [l|] eqn:E; [|by left].
    eapply (rustls_submit_ok _ _ _ _ _ l); try done; [by eapply user_read_ok; [apply Hc|]| |lia].
    apply holds_copy0; [by apply (xok_slot _ Hc)|by eapply user_read_length|done].
  - destruct (_ || _) eqn:Eg2; [by left|]. bool_to_prop. destruct (x_slot c) as [slot|] eqn:Es; [|by left].
    destruct (outbound_loop _ _ _ _ _ _ _ _) as [buf copied] eqn:El.
    apply (outbound_loop_holds _ _ _ _ _ _ _ _ []) in El as (new & Hn & Hh); [|apply Hc|constructor|by eapply slot_holds|done].
    destruct (Z.eqb_spec copied 0); [by left|]. eapply (rustls_submit_ok _ _ _ _ _ new); try done; lia.
Qed.

Lemma handshake_exit_ok s c : ssl_ctx_ok c -> adds_ok s (probe_SSL_do_handshake_exit cfg s c).
Proof.
  intros Hc. unfold probe_SSL_do_handshake_exit. destruct (trace_allowed _ _ _); [|by left]. cbn [negb].
  destruct (bpf_map_lookup_elem _ _) as [tsp|]; [|by left]. destruct (Z.leb_spec (s32 (x_rc c)) 0); [by left|].
  destruct (x_slot c) as [slot|] eqn:Es; [|by left]. apply adds_sample. pose proof (x_ids c Hc).
  pose proof (wraps_bound 32 (x_rc c)). assert (0 <= u64 (x_ktime c - tsp) < 2 ^ 64) by (by apply wrapu_bound).
  pose proof (slot_holds c slot Hc Es). destruct Hc as [_ Hk Hcm Hm Hsl _]. split; cbn; try done; [lia| |by right].
  exists []. by split; [constructor|].
Qed.

(** The probes as a tracer. *)
Definition ssl_system : probe_system ssl_probe ssl_ctx (ssl_state hmap) probe_SSL_data_t := ProbeSystem (run_ssl cfg) x_tid ssl_rb.

#[export] Instance ssl_samples_ok : SampleLaws ssl_system ssl_ctx_ok ssl_sample_ok.
Proof.
  intros p s c Hc. change (adds_ok s (run_ssl cfg p s c)). pose proof (wraps_bound 32 (x_rc c)).
  destruct p; cbn [run_ssl]; auto using rustls_write_ok, rustls_vectored_ok, rustls_plaintext_ok, handshake_exit_ok.
  - unfold probe_SSL_rw_enter. destruct (trace_allowed _ _ _); by left.
  - apply exit_common_ok; try done; [lia|unfold MAX_BUF_SIZE; lia].
  - apply exit_common_ok; try done; [lia|unfold MAX_BUF_SIZE; lia].
  - unfold probe_SSL_write_ex_enter. destruct (trace_allowed _ _ _); by left.
  - unfold probe_SSL_read_ex_enter, probe_SSL_write_ex_enter. destruct (trace_allowed _ _ _); by left.
  - by apply ex_exit_ok.
  - by apply ex_exit_ok.
  - unfold probe_SSL_do_handshake_enter. destruct (trace_allowed _ _ _); by left.
Qed.
End samples.

(** ** Sequences of probes *)

Definition run_probes `{BpfHash hmap} (cfg : ssl_config) (l : list (ssl_probe * ssl_ctx)) (s : ssl_state hmap) : ssl_state hmap :=
  foldl (fun s pc => run_ssl cfg pc.1 s pc.2) s l.

(** C12: type preservation of the samples: whatever sequence of probes runs,
    with whatever contents of user memory, arguments and stale ring-buffer
    slots, every sample sent to the TLS tracer is well typed: each field is in
    the range of its C type, [rw] is 2 exactly on handshakes, [buf_size] never
    exceeds the 256 KB buffer, the first [buf_size] bytes of the buffer are
    bytes read from the process (never the stale contents of the slot), and
    [buf_filled] is 0 only with an empty capture. *)
Theorem ssl_samples_well_typed `{BpfHash hmap} cfg (l : list (ssl_probe * ssl_ctx)) (s : ssl_state hmap) :
  Forall (fun pc => ssl_ctx_ok pc.2) l -> Forall ssl_sample_ok (ssl_rb s) ->
  Forall ssl_sample_ok (ssl_rb (run_probes cfg l s)).
Proof. apply (run_all_good (ssl_system cfg)). Qed.

(** ** Witnesses *)

Definition stale_slot : bytes := replicate (Z.to_nat MAX_BUF_SIZE) 255.

Lemma stale_slot_length : Z.of_nat (length stale_slot) = MAX_BUF_SIZE.
Proof. unfold stale_slot. rewrite length_replicate. apply Z2Nat.id. done. Qed.
#[global] Opaque stale_slot.

(** A process whose memory holds the byte [a mod 256] at each address. *)
Definition ssl_ctx_at (tgid tid t : Z) (arg : nat -> Z) (rc : Z) : ssl_ctx :=
  SslCtx (tgid * 2 ^ 32 + tid) 0 t (replicate 16 0) (fun a => Some (wrapu 8 a)) (Some stale_slot) arg rc.

Lemma ssl_ctx_at_ok tgid tid t arg rc :
  0 <= tgid < 2 ^ 32 -> 0 <= tid < 2 ^ 32 -> 0 <= t < 2 ^ 64 -> (forall i, 0 <= arg i < 2 ^ 64) -> ssl_ctx_ok (ssl_ctx_at tgid tid t arg rc).
Proof.
  intros Hg Hi Ht Ha. split; cbn [ssl_ctx_at x_pid_tgid x_ktime x_comm x_mem x_slot x_arg]; try done.
  - lia.
  - intros a b [= <-]. by apply (wrapu_bound 8).
  - intros b [= <-]. apply stale_slot_length.
Qed.

Definition ssl_state0 : ssl_state bounded := SslState (bd_empty 64) (bd_empty 64) (bd_empty 64) [].

Definition two_threads : list (ssl_probe * ssl_ctx) :=
  [(SP_rw_enter, ssl_ctx_at 7 7 10 (fun _ => 65) 0); (SP_rustls_write, ssl_ctx_at 7 8 11 (fun _ => 3) 0);
   (SP_write_exit, ssl_ctx_at 7 7 15 (fun _ => 0) 4)].

Lemma ssl_samples_well_typed_witness :
  length (ssl_rb (run_probes (SslConfig 0 NO_UID) two_threads ssl_state0)) = 2%nat /\
  Forall ssl_sample_ok (ssl_rb (run_probes (SslConfig 0 NO_UID) two_threads ssl_state0)).
Proof.
  split; [vm_compute; reflexivity|]. apply ssl_samples_well_typed; [|constructor].
  repeat apply Forall_cons_2; try apply Forall_nil_2; apply ssl_ctx_at_ok; intros; lia.
Defined.
