(* ===== verification/SslCalls.v ===== *)
(** * The TLS calls a sample belongs to

    A probe touches only the entries of its own thread, so the sample of a call
    carries the buffer of that call whatever the other threads do; and the
    captures of Rustls' scattered writes are what the readable pieces hold. *)

From S2P Require Import Prelude CLib BpfMap Tracer UserMem SslBpf SslBpfSpec.

(** ** Frames *)

Section frame.
Context `{BpfHashLaws hmap} (cfg : ssl_config).
Implicit Types (s : ssl_state hmap) (c : ssl_ctx).

(** The entries of a thread. *)
Definition ssl_entries s (k : Z) : option Z * option Z * option Z :=
  (bpf_map (bufs s) !! k, bpf_map (start_ns s) !! k, bpf_map (readbytes_ptrs s) !! k).

(** Nothing but the entries of thread [t] and new samples differs. *)
Definition only_thread (t : Z) s s' : Prop := forall k, t <> k -> ssl_entries s' k = ssl_entries s k.

#[global] Instance only_thread_refl t : Reflexive (only_thread t).
Proof. by intros s k Hk. Qed.

Lemma only_thread_trans t s1 s2 s3 : only_thread t s1 s2 -> only_thread t s2 s3 -> only_thread t s1 s3.
Proof. intros H1 H2 k Hk. by rewrite (H2 k Hk), (H1 k Hk). Qed.

Lemma only_submit t s d : only_thread t s (ssl_submit s d).
Proof. by intros k Hk. Qed.

Lemma only_bufs_set t s v : only_thread t s (set_bufs s (bpf_map_set (bufs s) t v)).
Proof. intros k Hk. unfold ssl_entries. cbn. by rewrite bpf_set_other. Qed.

Lemma only_start_set t s v : only_thread t s (set_start_ns s (bpf_map_set (start_ns s) t v)).
Proof. intros k Hk. unfold ssl_entries. cbn. by rewrite bpf_set_other. Qed.

Lemma only_readbytes_set t s v : only_thread t s (set_readbytes s (bpf_map_set (readbytes_ptrs s) t v)).
Proof. intros k Hk. unfold ssl_entries. cbn. by rewrite bpf_set_other. Qed.

Lemma only_bufs_delete t s : only_thread t s (set_bufs s (bpf_map_delete_elem (bufs s) t)).
Proof. intros k Hk. unfold ssl_entries. cbn. by rewrite bpf_delete_map, lookup_delete_ne. Qed.

Lemma only_start_delete t s : only_thread t s (set_start_ns s (bpf_map_delete_elem (start_ns s) t)).
Proof. intros k Hk. unfold ssl_entries. cbn. by rewrite bpf_delete_map, lookup_delete_ne. Qed.

Lemma only_readbytes_delete t s : only_thread t s (set_readbytes s (bpf_map_delete_elem (readbytes_ptrs s) t)).
Proof. intros k Hk. unfold ssl_entries. cbn. by rewrite bpf_delete_map, lookup_delete_ne. Qed.

Ltac only_step := first [apply only_submit | apply only_bufs_set | apply only_start_set | apply only_readbytes_set
  | apply only_bufs_delete | apply only_start_delete | apply only_readbytes_delete].
Ltac own := repeat first [only_step | eapply only_thread_trans; [|only_step]].

Lemma exit_common_only s c rw len size : only_thread (x_tid c) s (exit_common cfg s c rw len size).
Proof.
  unfold exit_common. destruct (trace_allowed _ _ _); [|done]. cbn [negb].
  destruct (bpf_map_lookup_elem (bufs s) _); [|done]. destruct (bpf_map_lookup_elem (start_ns s) _); [|done].
  destruct (_ <=? _); [done|]. destruct (x_slot c); [|done]. cbv zeta. own.
Qed.

Lemma ex_exit_only rw s c : only_thread (x_tid c) s (ex_exit_common cfg rw s c).
Proof.
  unfold ex_exit_common, ex_SSL_exit. destruct (bpf_map_lookup_elem _ _); [|done]. cbv zeta.
  eapply only_thread_trans; [apply only_readbytes_delete|apply exit_common_only].
Qed.

Lemma write_ex_enter_only s c : only_thread (x_tid c) s (probe_SSL_write_ex_enter cfg s c).
Proof. unfold probe_SSL_write_ex_enter. destruct (trace_allowed _ _ _); [|done]. cbn [negb]. cbv zeta. own. Qed.

#[export] Instance ssl_frame : FrameLaws (ssl_system cfg) ssl_entries.
Proof.
  intros p s c. change (only_thread (x_tid c) s (run_ssl cfg p s c)).
  destruct p; cbn [run_ssl]; try apply exit_common_only; try apply ex_exit_only; try apply write_ex_enter_only.
  - unfold probe_rustls_write. repeat case_match; try done; own.
  - unfold probe_rustls_write_vectored. repeat case_match; try done; own.
  - unfold probe_rustls_buffer_plaintext. repeat case_match; try done; own.
  - unfold probe_SSL_rw_enter. destruct (trace_allowed _ _ _); [|done]. cbn [negb]. cbv zeta. own.
  - unfold probe_SSL_do_handshake_enter. destruct (trace_allowed _ _ _); [|done]. cbn [negb]. own.
  - unfold probe_SSL_do_handshake_exit. repeat case_match; try done. own.
Qed.
End frame.

(** ** Locality *)

Section local.
Context `{BpfRoom hmap} (cfg : ssl_config).
Implicit Types (s : ssl_state hmap) (c : ssl_ctx).

Definition ssl_room (n : nat) s : Prop := bpf_room n (bufs s) /\ bpf_room n (start_ns s) /\ bpf_room n (readbytes_ptrs s).

(** Two states that agree on thread [t] do so after a step that submits the
    same samples, all of that thread. *)
Definition same_step (t : Z) s1 s2 s1' s2' : Prop :=
  ssl_entries s1' t = ssl_entries s2' t /\
  exists l, ssl_rb s1' = ssl_rb s1 ++ l /\ ssl_rb s2' = ssl_rb s2 ++ l /\ Forall (fun d => d_tid d = t) l.

Lemma same_step_quiet t s1 s2 s1' s2' :
  ssl_entries s1' t = ssl_entries s2' t -> ssl_rb s1' = ssl_rb s1 -> ssl_rb s2' = ssl_rb s2 -> same_step t s1 s2 s1' s2'.
Proof. intros He E1 E2. split; [done|]. exists []. rewrite E1, E2, !app_nil_r. by split. Qed.

Lemma same_step_submit t s1 s2 s1' s2' d :
  ssl_entries s1' t = ssl_entries s2' t -> ssl_rb s1' = ssl_rb s1 -> ssl_rb s2' = ssl_rb s2 -> d_tid d = t ->
  same_step t s1 s2 (ssl_submit s1' d) (ssl_submit s2' d).
Proof. intros He E1 E2 Hd. split; [done|]. exists [d]. cbn. rewrite E1, E2. split; [done|]. split; [done|]. by repeat constructor. Qed.

Lemma entries_inj s1 s2 t : ssl_entries s1 t = ssl_entries s2 t ->
  bpf_map (bufs s1) !! t = bpf_map (bufs s2) !! t /\ bpf_map (start_ns s1) !! t = bpf_map (start_ns s2) !! t /\
  bpf_map (readbytes_ptrs s1) !! t = bpf_map (readbytes_ptrs s2) !! t.
Proof. by intros [= -> -> ->]. Qed.

Lemma rustls_local s1 s2 c : ssl_entries s1 (x_tid c) = ssl_entries s2 (x_tid c) ->
  same_step (x_tid c) s1 s2 (probe_rustls_write cfg s1 c) (probe_rustls_write cfg s2 c) /\
  same_step (x_tid c) s1 s2 (probe_rustls_write_vectored cfg s1 c) (probe_rustls_write_vectored cfg s2 c) /\
  same_step (x_tid c) s1 s2 (probe_rustls_buffer_plaintext cfg s1 c) (probe_rustls_buffer_plaintext cfg s2 c).
Proof.
  intros He. split_and!; unfold probe_rustls_write, probe_rustls_write_vectored, probe_rustls_buffer_plaintext; cbv zeta;
    repeat case_match; first [by apply same_step_quiet | by apply same_step_submit].
Qed.

Lemma exit_common_local s1 s2 c rw len size : ssl_entries s1 (x_tid c) = ssl_entries s2 (x_tid c) ->
  same_step (x_tid c) s1 s2 (exit_common cfg s1 c rw len size) (exit_common cfg s2 c rw len size).
Proof.
  intros He. destruct (entries_inj _ _ _ He) as (Eb & Es & Er). unfold exit_common. rewrite !bpf_lookup, Eb, Es.
  destruct (trace_allowed _ _ _); cbn [negb]; [|by apply same_step_quiet].
  destruct (bpf_map (bufs s2) !! _); [|by apply same_step_quiet]. destruct (bpf_map (start_ns s2) !! _); [|by apply same_step_quiet].
  cbv zeta. destruct (_ <=? _); [by apply same_step_quiet|]. destruct (x_slot c); [|by apply same_step_quiet].
  apply same_step_submit; [|done|done|by case_match]. unfold ssl_entries. cbn. by rewrite !bpf_delete_map, !lookup_delete_eq, Er.
Qed.

Lemma ex_exit_local rw s1 s2 c : ssl_entries s1 (x_tid c) = ssl_entries s2 (x_tid c) ->
  same_step (x_tid c) s1 s2 (ex_exit_common cfg rw s1 c) (ex_exit_common cfg rw s2 c).
Proof.
  intros He. destruct (entries_inj _ _ _ He) as (Eb & Es & Er). unfold ex_exit_common, ex_SSL_exit. rewrite !bpf_lookup, Er.
  destruct (bpf_map (readbytes_ptrs s2) !! _); [|by apply same_step_quiet]. cbv zeta.
  apply (exit_common_local (set_readbytes s1 _) (set_readbytes s2 _)). unfold ssl_entries. cbn. by rewrite !bpf_delete_map, !lookup_delete_eq, Eb, Es.
Qed.

(** An entry overwrites the entries of its thread. *)
Lemma enter_local n s1 s2 c : ssl_room (S n) s1 -> ssl_room (S n) s2 -> ssl_entries s1 (x_tid c) = ssl_entries s2 (x_tid c) ->
  same_step (x_tid c) s1 s2 (probe_SSL_rw_enter cfg s1 c) (probe_SSL_rw_enter cfg s2 c) /\
  same_step (x_tid c) s1 s2 (probe_SSL_write_ex_enter cfg s1 c) (probe_SSL_write_ex_enter cfg s2 c) /\
  same_step (x_tid c) s1 s2 (probe_SSL_do_handshake_enter cfg s1 c) (probe_SSL_do_handshake_enter cfg s2 c).
Proof.
  intros (Hb1 & Hs1 & Hr1) (Hb2 & Hs2 & Hr2) He. destruct (entries_inj _ _ _ He) as (Eb & Es & Er).
  unfold probe_SSL_rw_enter, probe_SSL_write_ex_enter, probe_SSL_do_handshake_enter. cbv zeta.
  split_and!; destruct (trace_allowed _ _ _); cbn [negb]; try (by apply same_step_quiet);
    (apply same_step_quiet; [|done|done]; unfold ssl_entries; cbn; rewrite !bpf_set_map_room by (eauto with room);
     rewrite !lookup_insert_eq, ?Eb, ?Es, ?Er; done).
Qed.

Lemma ssl_room_less n s : ssl_room (S n) s -> ssl_room n s.
Proof. intros (? & ? & ?). split_and!; auto with room. Qed.

Lemma ssl_room_step n p s c : ssl_room (S n) s -> ssl_room n (run_ssl cfg p s c).
Proof.
  intros Hr. pose proof (ssl_room_less n s Hr) as Hl. destruct Hr as (Hb & Hs & Hrb).
  destruct p; cbn [run_ssl]; unfold probe_rustls_write, probe_rustls_write_vectored, probe_rustls_buffer_plaintext, probe_SSL_rw_enter,
    probe_SSL_read_exit, probe_SSL_write_exit, SSL_exit, probe_SSL_read_ex_enter, probe_SSL_write_ex_enter, probe_SSL_write_ex_exit,
    probe_SSL_read_ex_exit, ex_exit_common, ex_SSL_exit, exit_common, probe_SSL_do_handshake_enter, probe_SSL_do_handshake_exit; cbv zeta;
    repeat case_match; try exact Hl; split_and!; cbn; auto with room.
Qed.

(** The samples and entries of a thread depend on that thread alone. *)
#[export] Instance ssl_local : LocalLaws (ssl_system cfg) ssl_entries (fun _ => tt) (fun _ => True) d_tid ssl_room.
Proof.
  split; [done|exact ssl_room_step|exact ssl_room_less|].
  intros n p s1 s2 c _ Hr1 Hr2 _ He. change (same_step (x_tid c) s1 s2 (run_ssl cfg p s1 c) (run_ssl cfg p s2 c)). cbn [ps_thread ssl_system] in He.
  destruct (rustls_local s1 s2 c He) as (R1 & R2 & R3), (enter_local n s1 s2 c Hr1 Hr2 He) as (E1 & E2 & E3).
  destruct p; cbn [run_ssl]; try done; try (by apply exit_common_local); try (by apply ex_exit_local).
  destruct (entries_inj _ _ _ He) as (Eb & Es & Er). unfold probe_SSL_do_handshake_exit. rewrite !bpf_lookup, Es.
  destruct (trace_allowed _ _ _); cbn [negb]; [|by apply same_step_quiet].
  destruct (bpf_map (start_ns s2) !! _); [|by apply same_step_quiet].
  destruct (_ <=? _); [by apply same_step_quiet|]. destruct (x_slot c); [|by apply same_step_quiet].
  apply same_step_submit; [|done..]. unfold ssl_entries. cbn. by rewrite !bpf_delete_map, !lookup_delete_eq, Eb, Er.
Qed.
End local.

(** ** Calls *)

(** A traced function: its direction and whether it is an _ex variant. *)
Record ssl_call := SslCall { call_write : bool; call_ex : bool }.

Definition entry_probe (k : ssl_call) : ssl_probe :=
  if call_ex k then if call_write k then SP_write_ex_enter else SP_read_ex_enter else SP_rw_enter.

Definition exit_probe (k : ssl_call) : ssl_probe :=
  match call_write k, call_ex k with
  | true, true => SP_write_ex_exit
  | true, false => SP_write_exit
  | false, true => SP_read_ex_exit
  | false, false => SP_read_exit
  end.

(** The bytes a call moved: its return value, or for an _ex function that
    returned 1 the size it stored where its last argument points. *)
Definition call_bytes (k : ssl_call) (ce cx : ssl_ctx) : Z :=
  if call_ex k then
    if s32 (x_rc cx) =? 1
    then s32 (match read_words (x_mem cx) (x_arg ce 3) 1 with Some [n] => n | _ => 0 end)
    else 0
  else s32 (x_rc cx).

Section calls.
Context `{BpfRoom hmap} (cfg : ssl_config).
Implicit Types (s : ssl_state hmap) (c : ssl_ctx) (k : ssl_call).

(** The entry of a call in progress. *)
Definition in_call s k ce : Prop :=
  bpf_map (bufs s) !! x_tid ce = Some (x_arg ce 1) /\
  bpf_map (start_ns s) !! x_tid ce = Some (x_ktime ce) /\
  (call_ex k = true -> bpf_map (readbytes_ptrs s) !! x_tid ce = Some (x_arg ce 3)).

Lemma entry_in_call s k ce :
  trace_allowed cfg (x_uid ce) (x_pid ce) = true ->
  has_room (bufs s) (x_tid ce) -> has_room (start_ns s) (x_tid ce) -> has_room (readbytes_ptrs s) (x_tid ce) ->
  in_call (run_ssl cfg (entry_probe k) s ce) k ce.
Proof.
  intros Ha Hb Hs Hr. assert (call_ex k = false \/ call_ex k = true) as [E|E] by (destruct (call_ex k); auto).
  - unfold entry_probe. rewrite E. cbn [run_ssl]. unfold probe_SSL_rw_enter. rewrite Ha. cbn [negb]. cbv zeta.
    split_and!; cbn; [by rewrite bpf_set_map_room, lookup_insert_eq..|congruence].
  - replace (run_ssl cfg (entry_probe k) s ce) with (probe_SSL_write_ex_enter cfg s ce)
      by (unfold entry_probe; rewrite E; by destruct (call_write k)).
    unfold probe_SSL_write_ex_enter. rewrite Ha. cbn [negb]. cbv zeta.
    split_and!; cbn; intros; by rewrite bpf_set_map_room, lookup_insert_eq.
Qed.

Lemma other_threads_in_call l s k ce :
  Forall (fun pc => x_tid pc.2 <> x_tid ce) l -> in_call s k ce -> in_call (run_probes cfg l s) k ce.
Proof.
  intros Hl. pose proof (run_all_other (ssl_system cfg) ssl_entries l s _ Hl) as E. change (run_all (ssl_system cfg) l s) with (run_probes cfg l s) in E.
  destruct (entries_inj _ _ _ E) as (Eb & Es & Er). unfold in_call. by rewrite Eb, Es, Er.
Qed.

(** What an exit submits for a call in progress. *)
Lemma exit_common_in_call s c rw len size bufp tsp slot data :
  trace_allowed cfg (x_uid c) (x_pid c) = true -> 0 < len ->
  bpf_map (bufs s) !! x_tid c = Some bufp -> bpf_map (start_ns s) !! x_tid c = Some tsp ->
  x_slot c = Some slot -> user_read (x_mem c) bufp size = Some data ->
  let s' := exit_common cfg s c rw len size in
  ssl_rb s' = ssl_rb s ++ [SslData (x_ktime c) (u64 (x_ktime c - tsp)) (x_pid c) (x_tid c) (x_uid c) len size 1 rw
                             (x_comm c) (copy_at slot 0 data) false] /\
  bpf_map (bufs s') !! x_tid c = None /\ bpf_map (start_ns s') !! x_tid c = None.
Proof.
  intros Ha Hl Hb Ht Hs Hd. unfold exit_common. rewrite Ha, !bpf_lookup, Hb, Ht. cbn [negb]. cbv zeta.
  decide_tests. rewrite Hs, Hd. cbn [ssl_submit ssl_rb bufs start_ns set_bufs set_start_ns].
  by rewrite !bpf_delete_map, !lookup_delete_eq.
Qed.

(** Without an entry an exit does nothing. *)
Lemma exit_common_idle s c rw len size : bpf_map (bufs s) !! x_tid c = None -> exit_common cfg s c rw len size = s.
Proof. intros Hb. unfold exit_common. rewrite bpf_lookup, Hb. by destruct (trace_allowed _ _ _). Qed.

Lemma exit_runs_common k s ce cx :
  in_call s k ce -> x_tid cx = x_tid ce -> call_bytes k ce cx < 2 ^ 20 -> 0 < call_bytes k ce cx ->
  exists s0, bufs s0 = bufs s /\ start_ns s0 = start_ns s /\ ssl_rb s0 = ssl_rb s /\
    run_ssl cfg (exit_probe k) s cx =
      exit_common cfg s0 cx (Z.b2z (call_write k)) (call_bytes k ce cx) (Z.min MAX_BUF_SIZE (call_bytes k ce cx)).
Proof.
  intros (_ & _ & Hr) Ht Hlt Hpos. unfold exit_probe, call_bytes in *. destruct (call_ex k); cycle 1.
  - exists s. do 3 (split; [done|]). by destruct (call_write k).
  - specialize (Hr eq_refl). rewrite <- Ht in Hr.
    set (len := if s32 (x_rc cx) =? 1 then _ else 0) in *.
    exists (set_readbytes s (bpf_map_delete_elem (readbytes_ptrs s) (x_tid cx))). do 3 (split; [done|]).
    assert (forall rw, ex_exit_common cfg rw s cx =
      exit_common cfg (set_readbytes s (bpf_map_delete_elem (readbytes_ptrs s) (x_tid cx))) cx rw len (Z.min MAX_BUF_SIZE len)) as He.
    { intros rw. unfold ex_exit_common. rewrite bpf_lookup, Hr. cbv zeta. fold len. unfold ex_SSL_exit. f_equal.
      rewrite (wrapu_id 32) by (cbv delta [len] in *; lia). change 0xFFFFF with (2 ^ 20 - 1).
      rewrite land_mask by lia. rewrite Z.mod_small by lia. destruct (Z.ltb_spec MAX_BUF_SIZE len); lia. }
    destruct (call_write k); apply He.
Qed.
End calls.

(** ** A sample carries the data of its own call *)

(** C7: the TLS capture is attributed to the right call: when a thread enters
    SSL_read, SSL_write or an _ex variant with buffer argument [x_arg ce 1],
    then whatever probes the other threads run meanwhile, its exit having moved
    [n] bytes ([0 < n < 2^20]) submits exactly one sample, with the length [n],
    the direction of the call, the time since the entry, and as data the first
    [min n 256K] bytes at the buffer the entry was given; the entry is consumed,
    so that another exit of that thread submits nothing. *)
Theorem ssl_exit_reports_entry_buffer `{BpfRoom hmap} cfg k (s : ssl_state hmap) ce l cx slot data :
  let n := call_bytes k ce cx in
  let size := Z.min MAX_BUF_SIZE n in
  let s2 := run_probes cfg l (run_ssl cfg (entry_probe k) s ce) in
  let s3 := run_ssl cfg (exit_probe k) s2 cx in
  trace_allowed cfg (x_uid ce) (x_pid ce) = true -> trace_allowed cfg (x_uid cx) (x_pid cx) = true ->
  x_tid cx = x_tid ce -> Forall (fun pc => x_tid pc.2 <> x_tid ce) l ->
  has_room (bufs s) (x_tid ce) -> has_room (start_ns s) (x_tid ce) -> has_room (readbytes_ptrs s) (x_tid ce) ->
  0 < n < 2 ^ 20 -> x_slot cx = Some slot -> Z.of_nat (length slot) = MAX_BUF_SIZE ->
  user_read (x_mem cx) (x_arg ce 1) size = Some data ->
  (exists d, ssl_rb s3 = ssl_rb s2 ++ [d] /\
    d_pid d = x_pid cx /\ d_tid d = x_tid cx /\ d_uid d = x_uid cx /\ d_comm d = x_comm cx /\
    d_timestamp_ns d = x_ktime cx /\ d_delta_ns d = u64 (x_ktime cx - x_ktime ce) /\
    d_rw d = Z.b2z (call_write k) /\ d_is_handshake d = false /\
    d_len d = n /\ d_buf_filled d = 1 /\ d_buf_size d = size /\ holds (d_buf d) size data) /\
  (forall rw len size' c, x_tid c = x_tid ce -> exit_common cfg s3 c rw len size' = s3).
Proof.
  cbv zeta. intros Hae Hax Ht Hl Hrb Hrs Hrr Hn Hs Hsl Hd.
  pose proof (other_threads_in_call cfg l _ k ce Hl (entry_in_call cfg s k ce Hae Hrb Hrs Hrr)) as Hin.
  set (s2 := run_probes cfg l _) in *. destruct (exit_runs_common cfg k s2 ce cx Hin Ht (proj2 Hn) (proj1 Hn)) as (s0 & Eb & Es & Er & ->).
  destruct Hin as (Hb & Hts & _). rewrite <- Ht, <- Eb in Hb. rewrite <- Ht, <- Es in Hts.
  destruct (exit_common_in_call cfg s0 cx (Z.b2z (call_write k)) _ _ _ _ slot data Hax (proj1 Hn) Hb Hts Hs Hd) as (E & Hgone & _).
  split.
  - eexists. rewrite <- Er. split; [exact E|]. cbn. do 11 (split; [done|]).
    apply holds_copy0; [done|by eapply user_read_length|unfold MAX_BUF_SIZE; lia].
  - intros rw len size' c Hc. apply exit_common_idle. by rewrite Hc, <- Ht.
Qed.

(** C6: the capture does not depend on scheduling: two interleavings of the same
    probe invocations of any number of threads (each thread's own sequence is
    the same, and the maps have room for them) submit for every thread the same
    samples in the same order and leave it the same entries, so that the
    samples of the two runs are the same up to the order between threads. *)
Theorem ssl_interleaving_independent `{BpfRoom hmap} cfg (l1 l2 : list (ssl_probe * ssl_ctx)) (s : ssl_state hmap) :
  ssl_room (length l1) s -> ssl_room (length l2) s ->
  (forall t, filter (fun pc => x_tid pc.2 = t) l1 = filter (fun pc => x_tid pc.2 = t) l2) ->
  let s1 := run_probes cfg l1 s in
  let s2 := run_probes cfg l2 s in
  ssl_rb s1 ≡ₚ ssl_rb s2 /\
  forall t, filter (fun d => d_tid d = t) (ssl_rb s1) = filter (fun d => d_tid d = t) (ssl_rb s2) /\ ssl_entries s1 t = ssl_entries s2 t.
Proof.
  cbv zeta. intros Hr1 Hr2 Ho. assert (forall l : list (ssl_probe * ssl_ctx), Forall (fun pc => True) l) as Hq by (intros; by apply Forall_true).
  destruct (interleavings_agree (ssl_system cfg) ssl_entries (fun _ => tt) (fun _ => True) d_tid ssl_room l1 l2 s (Hq _) (Hq _) Hr1 Hr2 Ho) as [Hs Hp].
  split; [exact Hp|]. intros t. by destruct (Hs t) as (He & _ & Hd).
Qed.

(** ** Scattered writes *)

(** The iovec array at [a]: the entries from index [i]. *)
Definition iovecs_at (mem : Z -> option Z) (a i : Z) (ivs : list rustls_iovec) : Prop :=
  forall j iv, ivs !! j = Some iv -> read_iovec mem (u64 (a + 16 * (i + Z.of_nat j))) = Some iv.

(** The pieces are readable. *)
Definition pieces_at (mem : Z -> option Z) : list rustls_iovec -> list bytes -> Prop :=
  Forall2 (fun iv p => 0 <= iov_len iv /\ user_read mem (iov_base iv) (iov_len iv) = Some p).

Lemma iovecs_at_cons mem a i iv ivs :
  iovecs_at mem a i (iv :: ivs) -> read_iovec mem (u64 (a + 16 * i)) = Some iv /\ iovecs_at mem a (i + 1) ivs.
Proof.
  intros Hi. split.
  - pose proof (Hi 0%nat iv eq_refl) as E. by rewrite Z.add_0_r in E.
  - intros j iv' Hj. pose proof (Hi (S j) iv' Hj) as E. by replace (i + Z.of_nat (S j)) with (i + 1 + Z.of_nat j) in E by lia.
Qed.

Lemma pieces_at_cons mem iv ivs ps :
  pieces_at mem (iv :: ivs) ps ->
  exists p ps', ps = p :: ps' /\ iov_len iv = Z.of_nat (length p) /\ user_read mem (iov_base iv) (iov_len iv) = Some p /\ pieces_at mem ivs ps'.
Proof.
  intros (p & ps' & [Hn Hp] & Hps & ->)%Forall2_cons_inv_l. exists p, ps'. pose proof (user_read_length _ _ _ _ Hp).
  do 2 (split; [lia || done|]). done.
Qed.

(** What the vectored probe keeps of each piece: 8 chunks of 16 KB. *)
Definition PIECE_MAX : nat := MAX_RUSTLS_CHUNKS_PER_IOV * Z.to_nat RUSTLS_COPY_CHUNK_SIZE.

Lemma PIECE_MAX_Z : Z.of_nat PIECE_MAX = 128 * 1024.
Proof. unfold PIECE_MAX. rewrite Nat2Z.inj_mul. reflexivity. Qed.

Lemma take_pieces_length n (ps : list bytes) : (length (concat (map (take n) ps)) <= n * length ps)%nat.
Proof. induction ps as [|p ps IH]; cbn [map concat length]; [lia|]. rewrite length_app, length_take. lia. Qed.

(** Cut pieces that are as long as the pieces are the pieces. *)
Lemma take_pieces_all n (ps : list bytes) :
  (length (concat ps) <= length (concat (map (take n) ps)))%nat -> concat (map (take n) ps) = concat ps.
Proof.
  intros Hl. assert (forall ps : list bytes, length (concat (map (take n) ps)) <= length (concat ps))%nat as Hle.
  { clear. induction ps as [|p ps IH]; cbn [map concat]; [done|]. rewrite !length_app, length_take. lia. }
  induction ps as [|p ps IH]; [done|]. cbn [map concat] in *. rewrite !length_app, length_take in Hl. pose proof (Hle ps).
  f_equal; [apply take_ge; lia|apply IH; lia].
Qed.

Lemma iovec_loop_readable fuel mem a ivs ps i buf copied total l :
  iovecs_at mem a i ivs -> pieces_at mem ivs ps -> holds buf copied l ->
  copied + Z.of_nat PIECE_MAX * Z.of_nat fuel <= MAX_BUF_SIZE -> 0 <= total -> total + Z.of_nat (length (concat ps)) < 2 ^ 64 ->
  exists buf' copied',
    iovec_loop fuel mem a (i + Z.of_nat (length ivs)) i buf copied total
      = (buf', copied', total + Z.of_nat (length (concat (take fuel ps)))) /\
    holds buf' copied' (l ++ concat (map (take PIECE_MAX) (take fuel ps))).
Proof.
  revert ivs ps i buf copied total l. induction fuel as [|f IH]; intros ivs ps i buf copied total l Hi Hp Hh Hcap Ht Hsum; cbn [iovec_loop].
  - exists buf, copied. cbn. by rewrite app_nil_r, Z.add_0_r.
  - destruct ivs as [|iv ivs].
    + apply Forall2_nil_inv_l in Hp as ->. cbn [length]. decide_tests. exists buf, copied. cbn. by rewrite app_nil_r, Z.add_0_r.
    + apply iovecs_at_cons in Hi as [Hiv Hi]. apply pieces_at_cons in Hp as (p & ps' & -> & Hlen & Hr & Hp).
      cbn [length concat firstn map] in *. rewrite length_app in *. decide_tests. rewrite Hiv.
      pose proof (chunk_loop_readable MAX_RUSTLS_CHUNKS_PER_IOV mem (iov_base iv) (iov_len iv) buf copied l p) as Hloop.
      fold PIECE_MAX in Hloop. destruct Hloop as (b1 & c1 & Ec & Hh1); [lia|done|done| |].
      { rewrite PIECE_MAX_Z in Hcap. unfold RUSTLS_COPY_CHUNK_SIZE, MAX_RUSTLS_CHUNKS_PER_IOV. lia. }
      cbv zeta. rewrite Ec. pose proof (holds_le _ _ _ Hh) as Hc0. pose proof Hh as (_ & Hll & _). pose proof Hh1 as (_ & Hc1 & _).
      rewrite length_app, length_take in Hc1.
      rewrite (wrapu_id 64) by lia. 
      replace (i + Z.of_nat (S (length ivs))) with (i + 1 + Z.of_nat (length ivs)) by lia.
      destruct (IH ivs ps' (i + 1) b1 c1 (total + iov_len iv) (l ++ take PIECE_MAX p)) as (b2 & c2 & -> & Hh2); try done; [lia..|].
      exists b2, c2. rewrite <- app_assoc in Hh2. split; [|done]. f_equal. lia.
Qed.


(** ** Buffered plaintext *)

Definition GROK_MAX : nat := Z.to_nat GROK_MAX_CAPTURE_SIZE.

Lemma GROK_MAX_Z : Z.of_nat GROK_MAX = GROK_MAX_CAPTURE_SIZE.
Proof. unfold GROK_MAX. by rewrite Z2Nat.id. Qed.
#[global] Opaque GROK_MAX.

(** The OutboundChunks at [a] holds the pieces [ps]: a single slice, or chunks
    that start at 0 and end where the last one ends. *)
Definition outbound_at (mem : Z -> option Z) (a : Z) (ps : list bytes) : Prop :=
  (exists data end_ p, ps = [p] /\ data <> 0 /\ p <> [] /\
     read_outbound mem a = Some (RustlsOutboundChunks 0 data (Z.of_nat (length p)) end_) /\
     user_read mem data (Z.of_nat (length p)) = Some p) \/
  (exists data ivs, ivs <> [] /\ data <> 0 /\
     read_outbound mem a = Some (RustlsOutboundChunks (Z.of_nat (length ivs)) data 0 (Z.of_nat (length (concat ps)))) /\
     iovecs_at mem data 0 ivs /\ pieces_at mem ivs ps).

Lemma length_pos {A} (l : list A) : l <> [] -> (0 < length l)%nat.
Proof. destruct l; [done|cbn [length]; lia]. Qed.

Lemma take_min_length (n : nat) (p : bytes) : take (Nat.min n (length p)) p = take n p.
Proof. destruct (Nat.le_gt_cases n (length p)); [by rewrite Nat.min_l|rewrite Nat.min_r, !take_ge by lia; done]. Qed.

(** A piece that is readable is captured as far as 64 KB allow. *)
Lemma copy_iovec_readable mem buf iv l p :
  holds buf (Z.of_nat (length (take GROK_MAX l))) (take GROK_MAX l) ->
  iov_len iv = Z.of_nat (length p) -> user_read mem (iov_base iv) (iov_len iv) = Some p ->
  exists buf' copied', copy_rustls_iovec mem buf iv (Z.of_nat (length (take GROK_MAX l))) = (buf', copied') /\
    copied' = Z.of_nat (length (take GROK_MAX (l ++ p))) /\ holds buf' copied' (take GROK_MAX (l ++ p)).
Proof.
  intros Hh Hlen Hr. set (copied := Z.of_nat (length (take GROK_MAX l))) in *.
  assert (copied = Z.min (Z.of_nat GROK_MAX) (Z.of_nat (length l))) as Hc by (unfold copied; rewrite length_take; lia).
  clearbody copied. rewrite take_app, GROK_MAX_Z in *. unfold copy_rustls_iovec.
  destruct (_ || _) eqn:Eg.
  - exists buf, copied. assert (take (GROK_MAX - length l) p = []) as ->; [|destruct Hh as (? & <- & ?); by rewrite app_nil_r].
    apply orb_true_iff in Eg as [Eg|Eg]; bool_to_prop; [|pose proof GROK_MAX_Z].
    + destruct p; [by rewrite take_nil|]. exfalso. cbn [length] in Hlen. lia.
    + apply Z.leb_le in Eg. replace (GROK_MAX - length l)%nat with 0%nat by lia. done.
  - bool_to_prop. cbv zeta.
    set (k := Z.min (Z.min (iov_len iv) GROK_MAX_CAPTURE_SIZE) (GROK_MAX_CAPTURE_SIZE - copied)).
    assert (0 < k <= iov_len iv /\ Z.to_nat k = Nat.min (GROK_MAX - length l) (length p)) as [Hk Hn] by (pose proof GROK_MAX_Z; unfold k; lia).
    decide_tests. rewrite (user_read_prefix _ _ _ k p Hr) by lia.
    assert (take (GROK_MAX - length l) p = take (Z.to_nat k) p) as -> by (rewrite Hn, take_min_length; done).
    assert (length (take (Z.to_nat k) p) = Z.to_nat k) as Hk2 by (rewrite length_take; lia).
    assert (Z.land copied (GROK_MAX_CAPTURE_SIZE - 1) = copied) as ->.
    { unfold GROK_MAX_CAPTURE_SIZE in *. change (64 * 1024 - 1) with (2 ^ 16 - 1). rewrite land_mask by lia. apply Z.mod_small. lia. }
    pose proof (holds_copy _ _ _ (take (Z.to_nat k) p) Hh) as Hh2.
    replace (copied + Z.of_nat (length (take (Z.to_nat k) p))) with (copied + k) in Hh2 by lia.
    do 2 eexists. split; [reflexivity|]. destruct Hh2 as (Hb & Hl2 & Ht2); [unfold k, MAX_BUF_SIZE, GROK_MAX_CAPTURE_SIZE in *; lia|].
    split; [done|]. by split.
Qed.

Lemma outbound_loop_readable fuel mem n data ivs ps i total buf inspected l :
  iovecs_at mem data i ivs -> pieces_at mem ivs ps -> n = i + Z.of_nat (length ivs) ->
  holds buf (Z.of_nat (length (take GROK_MAX l))) (take GROK_MAX l) ->
  0 <= inspected -> inspected + Z.of_nat (length (concat ps)) <= total ->
  exists buf' copied', outbound_loop fuel mem (RustlsOutboundChunks n data 0 total) total i buf (Z.of_nat (length (take GROK_MAX l))) inspected
      = (buf', copied') /\ holds buf' copied' (take GROK_MAX (l ++ concat (take fuel ps))).
Proof.
  revert ivs ps i buf inspected l. induction fuel as [|f IH]; intros ivs ps i buf inspected l Hi Hp Hn Hh Ht Hsum; cbn [outbound_loop oc_count oc_data].
  - do 2 eexists. split; [reflexivity|]. cbn [firstn concat]. by rewrite app_nil_r.
  - destruct ivs as [|iv ivs].
    + apply Forall2_nil_inv_l in Hp as ->. cbn [length] in Hn. decide_tests. do 2 eexists. split; [reflexivity|]. cbn [firstn concat]. by rewrite app_nil_r.
    + apply iovecs_at_cons in Hi as [Hiv Hi]. apply pieces_at_cons in Hp as (p & ps' & -> & Hlen & Hr & Hp).
      cbn [length concat firstn] in *. rewrite length_app in *. decide_tests. rewrite Hiv. decide_tests. cbn [orb].
      destruct (copy_iovec_readable mem buf iv l p Hh Hlen Hr) as (b1 & c1 & -> & -> & Hh1).
      rewrite app_assoc. apply (IH ivs); (done || lia).
Qed.

(** ** Findings *)

(** An _ex call that moves exactly 1 MB is captured as empty, and not as
    failed: the mask of its length is 0. *)
Lemma ex_megabyte_captured_empty `{BpfHashLaws hmap} cfg rw (s : ssl_state hmap) c bufp tsp slot :
  trace_allowed cfg (x_uid c) (x_pid c) = true -> bpf_map (bufs s) !! x_tid c = Some bufp ->
  bpf_map (start_ns s) !! x_tid c = Some tsp -> x_slot c = Some slot ->
  exists d, ssl_rb (ex_SSL_exit cfg rw (2 ^ 20) s c) = ssl_rb s ++ [d] /\ d_len d = 2 ^ 20 /\ d_buf_size d = 0 /\ d_buf_filled d = 1.
Proof.
  intros Ha Hb Ht Hs. unfold ex_SSL_exit. change (Z.land (u32 (2 ^ 20)) 0xFFFFF) with 0. change (if MAX_BUF_SIZE <? 0 then _ else _) with 0.
  destruct (exit_common_in_call cfg s c rw (2 ^ 20) 0 bufp tsp slot [] Ha eq_refl Hb Ht Hs eq_refl) as [-> _]. by eexists.
Qed.

(** With a uid filter the handshakes of a process whose pid is not that uid are
    not reported, whoever runs it. *)
Lemma handshake_filter_takes_pid_for_uid `{BpfHash hmap} cfg (s : ssl_state hmap) c :
  targ_uid cfg <> NO_UID -> targ_uid cfg <> x_pid c -> probe_SSL_do_handshake_exit cfg s c = s.
Proof.
  intros Hu Hp. unfold probe_SSL_do_handshake_exit, trace_allowed. cbv zeta.
  rewrite (proj2 (Z.eqb_neq _ _) Hu), (proj2 (Z.eqb_neq _ _) Hp). by destruct (_ && _).
Qed.

(** A call that returns no data leaves its entry behind. *)
Lemma empty_call_leaves_entry `{BpfHash hmap} cfg rw (s : ssl_state hmap) c :
  s32 (x_rc c) <= 0 -> SSL_exit cfg rw s c = s.
Proof. intros Hr. unfold SSL_exit, exit_common. repeat case_match; try done; bool_to_prop; lia. Qed.

(** ** Witnesses *)

Lemma ssl_exit_reports_entry_buffer_witness :
  let cfg := SslConfig 0 NO_UID in
  let ce := ssl_ctx_at 7 7 10 (fun _ => 65) 0 in
  let cx := ssl_ctx_at 7 7 15 (fun _ => 0) 4 in
  let k := SslCall true false in
  let s2 := run_probes cfg [(SP_rw_enter, ssl_ctx_at 7 8 11 (fun _ => 3) 0)] (run_ssl cfg (entry_probe k) ssl_state0 ce) in
  exists d, ssl_rb (run_ssl cfg (exit_probe k) s2 cx) = ssl_rb s2 ++ [d] /\ d_delta_ns d = 5 /\ d_len d = 4 /\
    holds (d_buf d) 4 [65; 66; 67; 68].
Proof.
  cbv zeta. edestruct (ssl_exit_reports_entry_buffer (SslConfig 0 NO_UID) (SslCall true false) ssl_state0
    (ssl_ctx_at 7 7 10 (fun _ => 65) 0) [(SP_rw_enter, ssl_ctx_at 7 8 11 (fun _ => 3) 0)] (ssl_ctx_at 7 7 15 (fun _ => 0) 4)
    stale_slot [65; 66; 67; 68]) as [(d & E & _ & _ & _ & _ & _ & Hd & _ & _ & Hl & _ & _ & Hh) _].
  1-3: reflexivity.
  - repeat constructor. vm_compute. discriminate.
  - left. vm_compute. lia.
  - left. vm_compute. lia.
  - left. vm_compute. lia.
  - vm_compute. split; reflexivity.
  - reflexivity.
  - apply stale_slot_length.
  - vm_compute. reflexivity.
  - exists d. split; [exact E|]. split; [rewrite Hd; vm_compute; reflexivity|]. split; [rewrite Hl; vm_compute; reflexivity|exact Hh].
Defined.

(** Two calls, one after the other and overlapping. *)
Definition enter_7 : ssl_probe * ssl_ctx := (SP_rw_enter, ssl_ctx_at 7 7 10 (fun _ => 65) 0).
Definition exit_7 : ssl_probe * ssl_ctx := (SP_write_exit, ssl_ctx_at 7 7 15 (fun _ => 0) 4).
Definition enter_8 : ssl_probe * ssl_ctx := (SP_rw_enter, ssl_ctx_at 7 8 11 (fun _ => 97) 0).
Definition exit_8 : ssl_probe * ssl_ctx := (SP_read_exit, ssl_ctx_at 7 8 14 (fun _ => 0) 2).

Lemma ssl_interleaving_independent_witness :
  let one_by_one := ssl_rb (run_probes (SslConfig 0 NO_UID) [enter_7; exit_7; enter_8; exit_8] ssl_state0) in
  let overlapping := ssl_rb (run_probes (SslConfig 0 NO_UID) [enter_7; enter_8; exit_8; exit_7] ssl_state0) in
  length one_by_one = 2%nat /\ one_by_one ≡ₚ overlapping.
Proof.
  cbv zeta. split; [vm_compute; reflexivity|].
  apply (ssl_interleaving_independent (SslConfig 0 NO_UID) [enter_7; exit_7; enter_8; exit_8] [enter_7; enter_8; exit_8; exit_7] ssl_state0).
  - vm_compute. lia.
  - vm_compute. lia.
  - intros t. rewrite !filter_cons. change (x_tid enter_7.2) with 7. change (x_tid exit_7.2) with 7.
    change (x_tid enter_8.2) with 8. change (x_tid exit_8.2) with 8. destruct (decide (7 = t)), (decide (8 = t)); [lia|reflexivity..].
Defined.

(** A memory of the given segments. *)
Fixpoint mem_of (segs : list (Z * bytes)) (a : Z) : option Z :=
  match segs with
  | [] => None
  | (base, l) :: rest =>
      if (base <=? a) && (a <? base + Z.of_nat (length l)) then l !! Z.to_nat (a - base) else mem_of rest a
  end.

(** A 64-bit little-endian word. *)
Definition word_bytes (x : Z) : bytes := map (fun i => wrapu 8 (Z.shiftr x (8 * Z.of_nat i))) (seq 0 8).

Definition two_pieces : Z -> option Z :=
  mem_of [(64, concat (map word_bytes [1024; 3; 2048; 2]));
          (256, concat (map word_bytes [2; 64; 0; 5]));
          (1024, [71; 69; 84]); (2048, [32; 47])].

Definition rustls_ctx (arg : nat -> Z) : ssl_ctx := SslCtx (7 * 2 ^ 32 + 7) 0 10 (replicate 16 0) two_pieces (Some stale_slot) arg 0.


