(* ===== verification/Offsets.v ===== *)
(** * Finding the TLS functions of a stripped binary (src/bpf/codex_offsets.h,
    src/bpf/sslsniff.c)

    The byte patterns, the two pattern searches, the tables of Rustls offsets,
    the scan of a binary for markers through a buffer that carries 32 bytes
    over, and the detector of BoringSSL.  A binary is the bytes of its mapping
    or what successive reads returned; offsets are [nat], and [None] is the
    result [(size_t)-1]. *)

From S2P Require Import Prelude CLib.

(** ** Patterns *)

Definition codex_rustls_write_prefix : bytes :=
  [0x41; 0x56; 0x53; 0x48; 0x83; 0xec; 0x48; 0x49; 0x89; 0xfe; 0x48; 0x89; 0x74; 0x24; 0x10; 0x48;
   0x89; 0x54; 0x24; 0x18; 0x48; 0xc7; 0x44; 0x24; 0x08; 0x00; 0x00; 0x00].

Definition codex_rustls_writev_prefix : bytes :=
  [0x55; 0x41; 0x57; 0x41; 0x56; 0x41; 0x55; 0x41; 0x54; 0x53; 0x48; 0x83; 0xec; 0x68; 0x48; 0x85;
   0xd2; 0x74].

Definition codex_rustls_writev_iov : bytes :=
  [0x49; 0x89; 0xfe; 0x48; 0x83; 0xfa; 0x01; 0x75].

Definition codex_rustls_writev_copy : bytes :=
  [0xf3; 0x0f; 0x6f; 0x06; 0xf3; 0x0f; 0x7f; 0x44; 0x24; 0x10].

Definition grok_rustls_buffer_plaintext_prefix : bytes :=
  [0x55; 0x41; 0x57; 0x41; 0x56; 0x41; 0x55; 0x41; 0x54; 0x53; 0x48; 0x83; 0xec; 0x68; 0x49; 0x89;
   0xd6; 0x48; 0x89; 0xfd; 0x48; 0x8b; 0x9f; 0x08; 0x03; 0x00; 0x00; 0x4c; 0x8b; 0xa7; 0x10; 0x03;
   0x00; 0x00; 0x4c; 0x8b; 0xaf; 0x18; 0x03; 0x00; 0x00; 0x48; 0xb8; 0x00; 0x00; 0x00; 0x00; 0x00;
   0x00; 0x00; 0x80].

Definition grok_rustls_outbound_tag : bytes :=
  [0x4c; 0x8b; 0x26].

Definition grok_rustls_outbound_range : bytes :=
  [0x4c; 0x8b; 0x7e; 0x10; 0x48; 0x8b; 0x7e; 0x18; 0x48; 0x89; 0xfb; 0x4c; 0x29; 0xfb; 0x4d; 0x85;
   0xe4; 0x49; 0x0f; 0x44; 0xdf].

Definition grok_rustls_outbound_data : bytes :=
  [0x48; 0x8b; 0x46; 0x08; 0x4d; 0x85; 0xe4; 0x74; 0x1d; 0x4c; 0x8d; 0x3c; 0x3b].

Definition handshake_pat : bytes :=
  [0x55; 0x48; 0x89; 0xe5; 0x41; 0x57; 0x41; 0x56; 0x41; 0x55; 0x41; 0x54; 0x53; 0x48; 0x83; 0xec;
   0x28; 0x49; 0x89; 0xfc; 0x48; 0x8b; 0x47; 0x30].

Definition read_pat : bytes :=
  [0x55; 0x48; 0x89; 0xe5; 0x41; 0x57; 0x41; 0x56; 0x53; 0x50; 0x48; 0x83; 0xbf; 0x98; 0x00; 0x00;
   0x00; 0x00; 0x74].

Definition write_pat : bytes :=
  [0x55; 0x48; 0x89; 0xe5; 0x41; 0x57; 0x41; 0x56; 0x41; 0x55; 0x41; 0x54; 0x53; 0x48; 0x83; 0xec;
   0x18; 0x41; 0x89; 0xd7; 0x49; 0x89; 0xf6; 0x48; 0x89; 0xfb].

Definition CODEX_MAX_RUSTLS_OFFSETS : nat := 64.
Definition GROK_RUSTLS_OUTBOUND_TAG_OFFSET : nat := 0xd7.
Definition GROK_RUSTLS_OUTBOUND_RANGE_OFFSET : nat := 0xe7.
Definition GROK_RUSTLS_OUTBOUND_DATA_OFFSET : nat := 0x3f1.
Definition READ_HANDSHAKE_DELTA : nat := 0x6F0.
Definition WRITE_READ_DELTA : nat := 0xCA0.

(** ** Searches *)

(** The loop of [codex_find_pattern]; every turn advances, so [S (length data)]
    turns are enough. *)
Fixpoint codex_find_loop (fuel : nat) (data pattern : bytes) (offset : nat) : option nat :=
  match fuel with
  | O => None
  | S f =>
      if (offset + length pattern <=? length data)%nat then
        match memchr (take (length data - offset - length pattern + 1) (drop offset data)) (default 0 (head pattern)) with
        | None => None
        | Some j =>
            let offset := (offset + j)%nat in
            if memeq_at data offset pattern then Some offset else codex_find_loop f data pattern (S offset)
        end
      else None
  end.

Definition codex_find_pattern (data pattern : bytes) : option nat :=
  codex_find_loop (S (length data)) data pattern 0.

Fixpoint pattern_loop (n : nat) (data pattern : bytes) (i : nat) : option nat :=
  match n with
  | O => None
  | S n' => if memeq_at data i pattern then Some i else pattern_loop n' data pattern (S i)
  end.

Definition find_pattern (data pattern : bytes) : option nat :=
  if (length data <? length pattern)%nat then None
  else pattern_loop (length data - length pattern + 1) data pattern 0.

(** ** Rustls offsets *)

Record codex_rustls_offset := RustlsOffset { ro_offset : nat; ro_vectored : bool }.

(** The entries in use, [count] being their number. *)
Definition codex_rustls_offsets := list codex_rustls_offset.

Definition codex_add_rustls_offset (out : codex_rustls_offsets) (offset : nat) (vectored : bool) : option codex_rustls_offsets :=
  if (length out =? CODEX_MAX_RUSTLS_OFFSETS)%nat then None else Some (out ++ [RustlsOffset offset vectored]).

(** The stable blocks after the prefix of [write_vectored]. *)
Definition writev_blocks (data : bytes) (offset : nat) : bool :=
  (offset + 28 + length codex_rustls_writev_copy <=? length data)%nat
  && memeq_at data (offset + 19) codex_rustls_writev_iov
  && memeq_at data (offset + 28) codex_rustls_writev_copy.

Fixpoint writev_loop (fuel : nat) (data : bytes) (search : nat) (out : codex_rustls_offsets) : codex_rustls_offsets :=
  match fuel with
  | O => out
  | S f =>
      if (search + length codex_rustls_writev_prefix <=? length data)%nat then
        match codex_find_pattern (drop search data) codex_rustls_writev_prefix with
        | None => out
        | Some relative =>
            let offset := (search + relative)%nat in
            if writev_blocks data offset then
              match codex_add_rustls_offset out offset true with
              | None => out
              | Some out => writev_loop f data (offset + 1) out
              end
            else writev_loop f data (offset + 1) out
        end
      else out
  end.

Fixpoint write_loop (fuel : nat) (data : bytes) (search : nat) (out : codex_rustls_offsets) : codex_rustls_offsets :=
  match fuel with
  | O => out
  | S f =>
      if (search + length codex_rustls_write_prefix <=? length data)%nat then
        match codex_find_pattern (drop search data) codex_rustls_write_prefix with
        | None => out
        | Some relative =>
            match codex_add_rustls_offset out (search + relative) false with
            | None => out
            | Some out => write_loop f data (search + relative + 1) out
            end
        end
      else out
  end.

(** [file] is the mapping of the binary, [None] when it cannot be opened,
    examined or mapped. *)
Definition codex_find_rustls_offsets (file : option bytes) : codex_rustls_offsets * bool :=
  match file with
  | None | Some [] => ([], false)
  | Some data =>
      let out := writev_loop (S (length data)) data 0 [] in
      let out := write_loop (S (length data)) data 0 out in
      (out, (0 <? length out)%nat)
  end.

Definition grok_find_rustls_buffer_plaintext_offset (file : option bytes) : option nat :=
  match file with
  | None | Some [] => None
  | Some data =>
      match codex_find_pattern data grok_rustls_buffer_plaintext_prefix with
      | None => None
      | Some found =>
          if (length data <? GROK_RUSTLS_OUTBOUND_DATA_OFFSET + length grok_rustls_outbound_data)%nat
             || (length data - length grok_rustls_outbound_data - GROK_RUSTLS_OUTBOUND_DATA_OFFSET <? found)%nat
             || negb (memeq_at data (found + GROK_RUSTLS_OUTBOUND_TAG_OFFSET) grok_rustls_outbound_tag)
             || negb (memeq_at data (found + GROK_RUSTLS_OUTBOUND_RANGE_OFFSET) grok_rustls_outbound_range)
             || negb (memeq_at data (found + GROK_RUSTLS_OUTBOUND_DATA_OFFSET) grok_rustls_outbound_data)
          then None else Some found
      end
  end.

(** ** Markers *)

(** What a read(2) returned; the end of the list of results is the end of the
    file. *)
Inductive read_result := RData (l : bytes) | REintr | RError.

Definition codex_buf_contains (buf needle : bytes) : bool :=
  (0 <? length needle)%nat && (length needle <=? length buf)%nat
  && match codex_find_pattern buf needle with Some _ => true | None => false end.

(** [carried] is the start of the buffer when the read is made. *)
Fixpoint marker_loop (reads : list read_result) (marker_a : bytes) (marker_b : option bytes)
    (carried : bytes) (has_agent has_rustls : bool) : bool :=
  match reads with
  | [] | RError :: _ | RData [] :: _ => false
  | REintr :: reads => marker_loop reads marker_a marker_b carried has_agent has_rustls
  | RData l :: reads =>
      let buf := carried ++ l in
      let has_agent := has_agent || (codex_buf_contains buf marker_a
                        || match marker_b with Some b => codex_buf_contains buf b | None => false end) in
      let has_rustls := has_rustls || codex_buf_contains buf (lit "rustls") in
      if has_agent && has_rustls then true
      else
        let carry := if (length buf <? 32)%nat then length buf else 32%nat in
        marker_loop reads marker_a marker_b (drop (length buf - carry) buf) has_agent has_rustls
  end.

(** [file] is what the reads return once the binary is open. *)
Definition binary_has_rustls_markers (file : option (list read_result)) (marker_a : bytes) (marker_b : option bytes) : bool :=
  match file with
  | None => false
  | Some reads => marker_loop reads marker_a marker_b [] false false
  end.

Definition codex_binary_has_tls_markers (file : option (list read_result)) : bool :=
  binary_has_rustls_markers file (lit "codex-cli") (Some (lit "@openai/codex")).

Definition grok_binary_has_tls_markers (file : option (list read_result)) : bool :=
  binary_has_rustls_markers file (lit "grok-cli") None.

(** ** BoringSSL *)

Record boringssl_offsets := BoringOffsets {
  bo_ssl_write : nat;
  bo_ssl_read : nat;
  bo_ssl_do_handshake : nat;
  bo_write_is_ex : bool;
  bo_read_is_ex : bool;
  bo_found : bool;
}.

(** The read loop: the bytes of the file, when all of them could be read. *)
Fixpoint read_fully (file_size : nat) (reads : list read_result) (data : bytes) : option bytes :=
  if (file_size <=? length data)%nat then Some data
  else match reads with
  | [] | RError :: _ | RData [] :: _ => None
  | REintr :: reads => read_fully file_size reads data
  | RData l :: reads => read_fully file_size reads (data ++ l)
  end.

Definition no_offsets : boringssl_offsets := BoringOffsets 0 0 0 false false false.

(** Where the handshake function is; [None] when it is wanted and missing. *)
Definition find_handshake (want : bool) (data : bytes) (read_off : nat) : option nat :=
  let expected_hs := (read_off - READ_HANDSHAKE_DELTA)%nat in
  let near := if (READ_HANDSHAKE_DELTA <=? read_off)%nat && memeq_at data expected_hs handshake_pat then expected_hs else 0%nat in
  if (near =? 0)%nat then
    match find_pattern data handshake_pat with
    | Some hs_off => Some hs_off
    | None => if want then None else Some 0%nat
    end
  else Some near.

(** Where the write function is. *)
Definition find_write (data : bytes) (read_off : nat) : option nat :=
  let expected_wr := (read_off + WRITE_READ_DELTA)%nat in
  if (expected_wr + length write_pat <=? length data)%nat && memeq_at data expected_wr write_pat then Some expected_wr
  else
    let near := Z.to_nat 0x10000 in
    let search_start := if (near <? read_off)%nat then (read_off - near)%nat else 0%nat in
    let search_end := Nat.min (read_off + near) (length data) in
    match find_pattern (take (search_end - search_start) (drop search_start data)) write_pat with
    | None => None
    | Some wr_off => Some (search_start + wr_off)%nat
    end.

(** [st] is the size of the binary, [None] when it cannot be opened or
    examined; the offsets of a result that is not [found] are not used. *)
Definition find_boringssl_offsets (want_handshake : bool) (st : option Z) (reads : list read_result) : boringssl_offsets :=
  match st with
  | None => no_offsets
  | Some st_size =>
      if st_size <=? 0 then no_offsets
      else match read_fully (Z.to_nat st_size) reads [] with
      | None => no_offsets
      | Some data =>
          match find_pattern data read_pat with
          | None => no_offsets
          | Some read_off =>
              match find_handshake want_handshake data read_off with
              | None => no_offsets
              | Some hs =>
                  match find_write data read_off with
                  | None => BoringOffsets 0 read_off hs false false false
                  | Some wr => BoringOffsets wr read_off hs false false true
                  end
              end
          end
      end
  end.
