(* ===== verification/OffsetsSpec.v ===== *)
(** * The offsets found are the occurrences of the patterns

    Both searches return the first occurrence; the Rustls tables list the
    occurrences in order; the scan for markers, made in chunks, decides what a
    scan of the whole binary would; the BoringSSL detector is exact. *)

From S2P Require Import Prelude CLib Offsets.

(** ** Occurrences *)

Definition occurs (data pattern : bytes) (k : nat) : Prop := memeq_at data k pattern = true.

#[global] Instance occurs_dec data pattern k : Decision (occurs data pattern k).
Proof. unfold occurs. apply _. Defined.

Lemma occurs_iff data pattern k : occurs data pattern k <-> take (length pattern) (drop k data) = pattern.
Proof. apply bool_decide_eq_true. Qed.

Lemma occurs_false data pattern k : memeq_at data k pattern = false <-> ~ occurs data pattern k.
Proof. unfold occurs. by destruct (memeq_at _ _ _). Qed.

Lemma occurs_in data pattern k : pattern <> [] -> occurs data pattern k -> (k + length pattern <= length data)%nat.
Proof.
  intros Hp Ho%occurs_iff%(f_equal length). rewrite length_take, length_drop in Ho. destruct pattern; [done|]. cbn [length] in *. lia.
Qed.

Lemma occurs_drop data pattern i k : occurs (drop i data) pattern k <-> occurs data pattern (i + k).
Proof. by rewrite !occurs_iff, drop_drop. Qed.

Lemma occurs_take data pattern n k :
  pattern <> [] -> occurs (take n data) pattern k <-> occurs data pattern k /\ (k + length pattern <= n)%nat.
Proof.
  intros Hp. split.
  - intros Ho. pose proof (occurs_in _ _ _ Hp Ho) as Hin. rewrite length_take in Hin. split; [|lia].
    rewrite occurs_iff in *. rewrite skipn_firstn_comm, take_take in Ho. by rewrite Nat.min_l in Ho by lia.
  - intros [Ho Hk]. rewrite occurs_iff in *. rewrite skipn_firstn_comm, take_take. by rewrite Nat.min_l by lia.
Qed.

Lemma occurs_head data pattern k : pattern <> [] -> occurs data pattern k -> data !! k = Some (default 0 (head pattern)).
Proof.
  intros Hp Ho%occurs_iff. destruct pattern as [|c p]; [done|]. cbn [head default]. 
  rewrite <- (Nat.add_0_r k), <- lookup_drop, <- (lookup_take_lt _ (length (c :: p)) 0) by (cbn; lia). by rewrite Ho.
Qed.

(** The result of a search: the first occurrence. *)
Definition first_from (i : nat) (data pattern : bytes) (r : option nat) : Prop :=
  match r with
  | Some k => (i <= k)%nat /\ occurs data pattern k /\ forall j, (i <= j < k)%nat -> ~ occurs data pattern j
  | None => forall j, (i <= j)%nat -> ~ occurs data pattern j
  end.

Lemma first_from_unique i data pattern r1 r2 : first_from i data pattern r1 -> first_from i data pattern r2 -> r1 = r2.
Proof.
  destruct r1 as [k1|], r2 as [k2|]; cbn; try done.
  - intros (H1 & O1 & F1) (H2 & O2 & F2). f_equal. destruct (Nat.lt_trichotomy k1 k2) as [|[|]]; [exfalso|done|exfalso].
    + by apply (F2 k1).
    + by apply (F1 k2).
  - intros (H1 & O1 & F1) F2. by destruct (F2 k1).
  - intros F1 (H2 & O2 & F2). by destruct (F1 k2).
Qed.

Lemma find_loop_first n data pattern i :
  pattern <> [] -> (length data - length pattern < i + n)%nat -> first_from i data pattern (pattern_loop n data pattern i).
Proof.
  intros Hp. revert i. induction n as [|n IH]; intros i Hn; cbn [pattern_loop].
  - intros j Hj Ho. pose proof (occurs_in _ _ _ Hp Ho). pose proof (length_zero_iff_nil pattern). lia.
  - destruct (memeq_at data i pattern) eqn:E; [by split_and!; try done; lia|]. apply occurs_false in E.
    specialize (IH (S i) ltac:(lia)). destruct (pattern_loop n data pattern (S i)) as [k|]; cbn in *.
    + destruct IH as (Hk & Ho & Hf). split_and!; [lia|done|]. intros j Hj. destruct (decide (j = i)) as [->|]; [done|apply Hf; lia].
    + intros j Hj. destruct (decide (j = i)) as [->|]; [done|apply IH; lia].
Qed.

Lemma find_pattern_first data pattern : pattern <> [] -> first_from 0 data pattern (find_pattern data pattern).
Proof.
  intros Hp. unfold find_pattern. destruct (Nat.ltb_spec (length data) (length pattern)).
  - intros j _ Ho. pose proof (occurs_in _ _ _ Hp Ho). lia.
  - apply find_loop_first; [done|lia].
Qed.

Lemma memchr_first l c :
  match memchr l c with
  | Some j => l !! j = Some c /\ forall i, (i < j)%nat -> l !! i <> Some c
  | None => forall i, l !! i <> Some c
  end.
Proof.
  unfold memchr. destruct (list_find _ l) as [[j x]|] eqn:E; cbn [fmap option_fmap option_map fst].
  - apply list_find_Some in E as (Hj & -> & Hi). split; [done|]. intros i Hlt Hc. by apply (Hi i c Hc Hlt).
  - apply list_find_None in E. intros i Hc. rewrite Forall_lookup in E. by apply (E i c Hc).
Qed.

Lemma codex_find_loop_first fuel data pattern i :
  pattern <> [] -> (length data < i + fuel)%nat -> first_from i data pattern (codex_find_loop fuel data pattern i).
Proof.
  intros Hp. revert i. induction fuel as [|f IH]; intros i Hf; cbn [codex_find_loop].
  - intros j Hj Ho. pose proof (occurs_in _ _ _ Hp Ho). lia.
  - destruct (Nat.leb_spec (i + length pattern) (length data)) as [Hle|Hgt].
    2: { intros j Hj Ho. pose proof (occurs_in _ _ _ Hp Ho). lia. }
    set (n := (length data - i - length pattern + 1)%nat). set (c := default 0 (head pattern)).
    pose proof (memchr_first (take n (drop i data)) c) as Hm.
    assert (forall j, (i <= j)%nat -> occurs data pattern j -> take n (drop i data) !! (j - i)%nat = Some c) as Hocc.
    { intros j Hj Ho. pose proof (occurs_in _ _ _ Hp Ho). rewrite lookup_take_lt, lookup_drop by lia.
      replace (i + (j - i))%nat with j by lia. by apply occurs_head. }
    destruct (memchr _ c) as [j|]; [|intros k Hk Ho; by apply (Hm (k - i)%nat), Hocc].
    destruct Hm as [Hj Hbefore]. cbv zeta.
    assert (forall k, (i <= k < i + j)%nat -> ~ occurs data pattern k) as Hnone.
    { intros k Hk Ho. apply (Hbefore (k - i)%nat); [lia|]. apply Hocc; [lia|done]. }
    destruct (memeq_at data (i + j) pattern) eqn:E; [split_and!; [lia|done|done]|]. apply occurs_false in E.
    assert (i + j < length data)%nat as Hlt.
    { apply lookup_lt_Some in Hj. rewrite length_take, length_drop in Hj. lia. }
    specialize (IH (S (i + j)) ltac:(lia)). destruct (codex_find_loop f data pattern _) as [k|]; cbn in *.
    + destruct IH as (Hk & Ho & Hn). split_and!; [lia|done|]. intros x Hx.
      destruct (Nat.lt_trichotomy x (i + j)) as [|[->|]]; [apply Hnone; lia|done|apply Hn; lia].
    + intros x Hx. destruct (Nat.lt_trichotomy x (i + j)) as [|[->|]]; [apply Hnone; lia|done|apply IH; lia].
Qed.

Lemma codex_find_pattern_first data pattern : pattern <> [] -> first_from 0 data pattern (codex_find_pattern data pattern).
Proof. intros Hp. apply codex_find_loop_first; [done|lia]. Qed.

(** The two pattern searches of the program agree: the one that skips with
    memchr to the next first byte returns what the byte-by-byte one returns, the
    first occurrence of the pattern, or none exactly when there is none. *)
Theorem pattern_searches_agree data pattern :
  pattern <> [] ->
  codex_find_pattern data pattern = find_pattern data pattern /\
  (forall k, find_pattern data pattern = Some k <->
     occurs data pattern k /\ forall j, (j < k)%nat -> ~ occurs data pattern j) /\
  (find_pattern data pattern = None <-> forall k, ~ occurs data pattern k).
Proof.
  intros Hp. pose proof (find_pattern_first data pattern Hp) as Hf.
  split; [by apply (first_from_unique 0 data pattern); [apply codex_find_pattern_first|]|]. split.
  - intros k. split.
    + intros E. rewrite E in Hf. destruct Hf as (_ & Ho & Hn). split; [done|]. intros j Hj. apply Hn. lia.
    + intros [Ho Hn]. apply (first_from_unique 0 data pattern _ (Some k) Hf). split_and!; [lia|done|]. intros j Hj. apply Hn. lia.
  - split.
    + intros E. rewrite E in Hf. intros k. apply Hf. lia.
    + intros Hn. apply (first_from_unique 0 data pattern _ None Hf). by intros j _.
Qed.

(** ** Tables of offsets *)

(** The positions of a binary where [P] holds, in order, from [s]. *)
Definition positions (P : nat -> Prop) `{!forall k, Decision (P k)} (s n : nat) : list nat := filter P (seq s (n - s)).

Lemma positions_none (P : nat -> Prop) `{!forall k, Decision (P k)} s n : (forall j, (s <= j < n)%nat -> ~ P j) -> positions P s n = [].
Proof.
  intros Hn. unfold positions. assert (forall x, x ∈ seq s (n - s) -> ~ P x) as Hx by (intros x Hx%elem_of_seq; apply Hn; lia).
  induction (seq s (n - s)) as [|x l IH]; [done|]. rewrite filter_cons, decide_False by (apply Hx; left).
  apply IH. intros y Hy. apply Hx. by right.
Qed.

Lemma positions_next (P : nat -> Prop) `{!forall k, Decision (P k)} s n k :
  (s <= k < n)%nat -> (forall j, (s <= j < k)%nat -> ~ P j) ->
  positions P s n = (if decide (P k) then [k] else []) ++ positions P (S k) n.
Proof.
  intros Hk Hn. unfold positions. replace (n - s)%nat with ((k - s) + (1 + (n - S k)))%nat by lia.
  rewrite !seq_app, !filter_app. fold (positions P s k). rewrite positions_none by done.
  replace (s + (k - s))%nat with k by lia. cbn [app seq]. rewrite filter_cons, filter_nil, Nat.add_1_r. by case_decide.
Qed.

(** The entries after those of [l] were added until the table is full. *)
Definition fill (out : codex_rustls_offsets) (l : list codex_rustls_offset) : codex_rustls_offsets :=
  out ++ take (CODEX_MAX_RUSTLS_OFFSETS - length out) l.

Lemma fill_nil out : fill out [] = out.
Proof. unfold fill. by rewrite take_nil, app_nil_r. Qed.

Lemma fill_add out out' k v l : codex_add_rustls_offset out k v = Some out' -> (length out <= CODEX_MAX_RUSTLS_OFFSETS)%nat ->
  fill out (RustlsOffset k v :: l) = fill out' l /\ (length out' <= CODEX_MAX_RUSTLS_OFFSETS)%nat.
Proof.
  unfold codex_add_rustls_offset, fill. destruct (Nat.eqb_spec (length out) CODEX_MAX_RUSTLS_OFFSETS); [done|]. intros [= <-] Hl.
  rewrite length_app. cbn [length]. replace (CODEX_MAX_RUSTLS_OFFSETS - length out)%nat with (S (CODEX_MAX_RUSTLS_OFFSETS - (length out + 1))) by lia.
  cbn [firstn]. rewrite <- app_assoc. split; [done|lia].
Qed.

Lemma fill_full out k v l : codex_add_rustls_offset out k v = None -> fill out l = out.
Proof.
  unfold codex_add_rustls_offset, fill. destruct (Nat.eqb_spec (length out) CODEX_MAX_RUSTLS_OFFSETS) as [->|]; [|done].
  by rewrite Nat.sub_diag, app_nil_r.
Qed.

(** A search of the rest of a binary finds the next occurrence. *)
Lemma find_in_rest data pattern s : pattern <> [] -> (s <= length data)%nat ->
  match codex_find_pattern (drop s data) pattern with
  | Some r => (s + r < length data)%nat /\ occurs data pattern (s + r) /\ forall j, (s <= j < s + r)%nat -> ~ occurs data pattern j
  | None => forall j, (s <= j)%nat -> ~ occurs data pattern j
  end.
Proof.
  intros Hp Hs. pose proof (codex_find_pattern_first (drop s data) pattern Hp) as Hf.
  destruct (codex_find_pattern _ _) as [r|]; cbn in Hf.
  - destruct Hf as (_ & Ho%occurs_drop & Hn). pose proof (occurs_in _ _ _ Hp Ho). split_and!; [|done|].
    + destruct pattern; [done|]. cbn [length] in *. lia.
    + intros j Hj Hoj. apply (Hn (j - s)%nat); [lia|]. apply occurs_drop. by replace (s + (j - s))%nat with j by lia.
  - intros j Hj Hoj. apply (Hf (j - s)%nat); [lia|]. apply occurs_drop. by replace (s + (j - s))%nat with j by lia.
Qed.

Definition is_write_vectored (data : bytes) (k : nat) : Prop :=
  occurs data codex_rustls_writev_prefix k /\ writev_blocks data k = true.

Lemma writev_loop_fill fuel data s out :
  (length data < s + fuel)%nat -> (length out <= CODEX_MAX_RUSTLS_OFFSETS)%nat ->
  writev_loop fuel data s out = fill out (map (fun k => RustlsOffset k true) (positions (is_write_vectored data) s (length data))).
Proof.
  assert (codex_rustls_writev_prefix <> []) as Hp by done.
  revert s out. induction fuel as [|f IH]; intros s out Hf Hl; cbn [writev_loop].
  - rewrite positions_none by lia. by rewrite fill_nil.
  - destruct (Nat.leb_spec (s + length codex_rustls_writev_prefix) (length data)) as [Hs|Hs].
    2: { rewrite positions_none, fill_nil; [done|]. intros j Hj [Ho _]. pose proof (occurs_in _ _ _ Hp Ho). lia. }
    pose proof (find_in_rest data _ s Hp ltac:(lia)) as Hr. destruct (codex_find_pattern _ _) as [r|].
    2: { rewrite positions_none, fill_nil; [done|]. intros j Hj [Ho _]. apply (Hr j); [lia|done]. }
    destruct Hr as (Hlt & Ho & Hn). cbv zeta.
    rewrite (positions_next _ s _ (s + r)) by (lia || intros j Hj [? _]; by apply (Hn j)).
    rewrite Nat.add_1_r. destruct (decide _) as [[_ Hb]|Hd]; cbn [app map].
    + rewrite Hb. destruct (codex_add_rustls_offset out (s + r) true) as [out'|] eqn:Ea; [|by erewrite fill_full].
      destruct (fill_add _ _ _ _ (map (fun k => RustlsOffset k true) (positions (is_write_vectored data) (S (s + r)) (length data))) Ea Hl) as [-> Hl'].
      apply IH; [lia|done].
    + assert (writev_blocks data (s + r) = false) as -> by (apply not_true_is_false; intros Hb; by apply Hd).
      apply IH; [lia|done].
Qed.

Lemma write_loop_fill fuel data s out :
  (length data < s + fuel)%nat -> (length out <= CODEX_MAX_RUSTLS_OFFSETS)%nat ->
  write_loop fuel data s out = fill out (map (fun k => RustlsOffset k false) (positions (occurs data codex_rustls_write_prefix) s (length data))).
Proof.
  assert (codex_rustls_write_prefix <> []) as Hp by done.
  revert s out. induction fuel as [|f IH]; intros s out Hf Hl; cbn [write_loop].
  - rewrite positions_none by lia. by rewrite fill_nil.
  - destruct (Nat.leb_spec (s + length codex_rustls_write_prefix) (length data)) as [Hs|Hs].
    2: { rewrite positions_none, fill_nil; [done|]. intros j Hj Ho. pose proof (occurs_in _ _ _ Hp Ho). lia. }
    pose proof (find_in_rest data _ s Hp ltac:(lia)) as Hr. destruct (codex_find_pattern _ _) as [r|].
    2: { rewrite positions_none, fill_nil; [done|]. intros j Hj Ho. apply (Hr j); [lia|done]. }
    destruct Hr as (Hlt & Ho & Hn). rewrite (positions_next _ s _ (s + r)) by (lia || done).
    rewrite Nat.add_1_r, decide_True by done. cbn [app map].
    destruct (codex_add_rustls_offset out (s + r) false) as [out'|] eqn:Ea; [|by erewrite fill_full].
    destruct (fill_add _ _ _ _ (map (fun k => RustlsOffset k false) (positions (occurs data codex_rustls_write_prefix) (S (s + r)) (length data))) Ea Hl) as [-> Hl'].
    apply IH; [lia|done].
Qed.

(** C39: the table of Rustls offsets is exact: the first 64 of, in order, the
    positions of the vectored writes (prefix and both stable blocks), then
    those of the plain writes; it is reported found when it is not empty. *)
Theorem rustls_offsets_exact data :
  codex_find_rustls_offsets (Some data) =
    (let all := map (fun k => RustlsOffset k true) (positions (is_write_vectored data) 0 (length data))
                ++ map (fun k => RustlsOffset k false) (positions (occurs data codex_rustls_write_prefix) 0 (length data)) in
     (take CODEX_MAX_RUSTLS_OFFSETS all, negb (bool_decide (all = [])))).
Proof.
  cbv zeta. set (v := map _ (positions (is_write_vectored data) _ _)). set (w := map _ (positions (occurs data _) _ _)).
  assert (write_loop (S (length data)) data 0 (writev_loop (S (length data)) data 0 []) = take CODEX_MAX_RUSTLS_OFFSETS (v ++ w)) as E.
  { rewrite writev_loop_fill by (cbn; lia). fold v. assert (fill [] v = take CODEX_MAX_RUSTLS_OFFSETS v) as ->.
    { unfold fill. cbn [app length]. by rewrite Nat.sub_0_r. }
    rewrite write_loop_fill by (cbn [length]; rewrite ?length_take; lia). fold w. unfold fill. rewrite length_take, take_app. f_equal. f_equal. lia. }
  unfold codex_find_rustls_offsets. destruct data as [|b data']; [done|]. set (data := b :: data') in *. rewrite E. f_equal.
  destruct (v ++ w) as [|x l]; [done|]. by rewrite bool_decide_eq_false_2.
Qed.

(** ** The scan for markers *)

Definition mentions (data needle : bytes) : Prop := needle <> [] /\ exists k, occurs data needle k.

Lemma buf_contains_iff buf needle : codex_buf_contains buf needle = true <-> mentions buf needle.
Proof.
  unfold codex_buf_contains, mentions. destruct needle as [|c n]; [by split; [|intros [? _]]|]. set (needle := c :: n).
  assert (needle <> []) as Hn by done. cbn [length Nat.ltb Nat.leb andb]. pose proof (codex_find_pattern_first buf needle Hn) as Hf.
  destruct (codex_find_pattern buf needle) as [k|]; cbn in Hf.
  - destruct Hf as (_ & Ho & _). pose proof (occurs_in _ _ _ Hn Ho) as Hin. split; [intros _; split; [done|by exists k]|].
    intros _. rewrite andb_true_r. apply Nat.leb_le. unfold needle in *. cbn [length] in *. lia.
  - rewrite andb_false_r. split; [done|]. intros [_ [k Ho]]. destruct (Hf k); [lia|done].
Qed.

(** What a read leaves in front of the buffer. *)
Definition carried (seen : bytes) : bytes := drop (length seen - 32) seen.

Lemma carried_app seen l : carried seen ++ l = drop (length seen - 32) (seen ++ l).
Proof. unfold carried. rewrite skipn_app. by replace (length seen - 32 - length seen)%nat with 0%nat by lia. Qed.

Lemma carried_step seen l :
  let buf := carried seen ++ l in
  drop (length buf - (if (length buf <? 32)%nat then length buf else 32)) buf = carried (seen ++ l).
Proof.
  cbv zeta. rewrite carried_app. remember (drop (length seen - 32) (seen ++ l)) as buf eqn:Hb2. assert (length buf = length seen + length l - (length seen - 32))%nat as Hb.
  { by rewrite Hb2, length_drop, length_app. }
  set (n := (length buf - _)%nat). unfold carried. rewrite Hb2, drop_drop, length_app. f_equal. unfold n. destruct (Nat.ltb_spec (length buf) 32); lia.
Qed.

(** A marker of at most 33 bytes shows in the buffer that its last byte
    completes. *)
Lemma mentions_step seen l needle :
  (length needle <= 33)%nat -> mentions (seen ++ l) needle <-> mentions seen needle \/ mentions (carried seen ++ l) needle.
Proof.
  intros Hl. unfold mentions. split.
  - intros [Hn [k Ho]]. destruct (decide (k + length needle <= length seen)%nat) as [Hk|Hk].
    + left. split; [done|]. exists k. rewrite <- (take_app_length seen l). by apply occurs_take.
    + right. split; [done|]. exists (k - (length seen - 32))%nat. rewrite carried_app. apply occurs_drop.
      by replace (length seen - 32 + (k - (length seen - 32)))%nat with k by lia.
  - intros [[Hn [k Ho]]|[Hn [k Ho]]]; (split; [done|]).
    + exists k. rewrite <- (take_app_length seen l) in Ho. by apply occurs_take in Ho as [Ho _].
    + rewrite carried_app in Ho. exists (length seen - 32 + k)%nat. by apply occurs_drop.
Qed.

(** The bytes the reads deliver before the end of the file or an error. *)
Fixpoint delivered (reads : list read_result) : bytes :=
  match reads with
  | [] | RError :: _ | RData [] :: _ => []
  | REintr :: reads => delivered reads
  | RData l :: reads => l ++ delivered reads
  end.

Definition agent_mentioned (data a : bytes) (b : option bytes) : Prop :=
  mentions data a \/ match b with Some b => mentions data b | None => False end.

Definition short_marker (a : bytes) : Prop := (length a <= 33)%nat.

Lemma agent_test buf a b :
  codex_buf_contains buf a || match b with Some b => codex_buf_contains buf b | None => false end = true <-> agent_mentioned buf a b.
Proof. unfold agent_mentioned. rewrite orb_true_iff, buf_contains_iff. destruct b; [by rewrite buf_contains_iff|naive_solver]. Qed.

Lemma agent_step seen l a b : short_marker a -> from_option short_marker True b ->
  agent_mentioned (seen ++ l) a b <-> agent_mentioned seen a b \/ agent_mentioned (carried seen ++ l) a b.
Proof.
  unfold agent_mentioned. intros Ha Hb. rewrite (mentions_step seen l a Ha). destruct b as [b|]; [|naive_solver].
  rewrite (mentions_step seen l b Hb). naive_solver.
Qed.

Lemma marker_loop_spec reads a b seen ha hr :
  short_marker a -> from_option short_marker True b ->
  (ha = true <-> agent_mentioned seen a b) -> (hr = true <-> mentions seen (lit "rustls")) -> ha && hr = false ->
  marker_loop reads a b (carried seen) ha hr = true <->
  agent_mentioned (seen ++ delivered reads) a b /\ mentions (seen ++ delivered reads) (lit "rustls").
Proof.
  intros Ha Hb. assert (length (lit "rustls") <= 33)%nat as Hr by (cbn; lia).
  revert seen ha hr. induction reads as [|r reads IH]; intros seen ha hr Hha Hhr Hnot.
  { cbn [marker_loop delivered]. rewrite app_nil_r, <- Hha, <- Hhr. destruct ha, hr; naive_solver. }
  assert (false = true <-> agent_mentioned (seen ++ []) a b /\ mentions (seen ++ []) (lit "rustls")) as Hstop.
  { rewrite app_nil_r, <- Hha, <- Hhr. destruct ha, hr; naive_solver. }
  destruct r as [[|x l]| |]; cbn [marker_loop delivered]; [done| |by apply IH|done].
  set (l' := x :: l) in *. clearbody l'. cbv zeta. set (buf := carried seen ++ l'). rewrite app_assoc.
  set (ha' := ha || _). set (hr' := hr || _).
  assert (ha' = true <-> agent_mentioned (seen ++ l') a b) as Hha'.
  { unfold ha'. rewrite orb_true_iff, agent_test, Hha. by rewrite agent_step. }
  assert (hr' = true <-> mentions (seen ++ l') (lit "rustls")) as Hhr'.
  { unfold hr'. rewrite orb_true_iff, buf_contains_iff, Hhr. by rewrite mentions_step. }
  clearbody ha' hr'. destruct (ha' && hr') eqn:E.
  - apply andb_true_iff in E as [-> ->]. split; [intros _|done].
    assert (forall d n, mentions d n -> forall r, mentions (d ++ r) n) as Hmore.
    { intros d n [Hn [k Ho]] r. split; [done|]. exists k. rewrite <- (take_app_length d r) in Ho. by apply occurs_take in Ho as [Ho _]. }
    destruct Hha' as [Hha' _], Hhr' as [Hhr' _]. split; [|by apply Hmore, Hhr']. destruct (Hha' eq_refl) as [?|?]; [left; by apply Hmore|right].
    destruct b; [by apply Hmore|done].
  - unfold buf. rewrite carried_step. by apply IH.
Qed.

(** C18: the scan of a binary in chunks misses no marker: whatever the sizes of
    the reads, and however the markers fall across their boundaries, a binary
    is taken for Codex exactly when the bytes delivered, taken as a whole,
    mention "rustls" and one of "codex-cli" and "@openai/codex"; and for Grok
    exactly when they mention "rustls" and "grok-cli". *)
Theorem marker_scan_whole_file reads :
  (codex_binary_has_tls_markers (Some reads) = true <->
     (mentions (delivered reads) (lit "codex-cli") \/ mentions (delivered reads) (lit "@openai/codex")) /\
     mentions (delivered reads) (lit "rustls")) /\
  (grok_binary_has_tls_markers (Some reads) = true <->
     mentions (delivered reads) (lit "grok-cli") /\ mentions (delivered reads) (lit "rustls")).
Proof.
  assert (forall n, ~ mentions [] n) as Hnone.
  { intros [|c n] [Hn [k Ho]]; [done|]. apply (occurs_in _ _ _ Hn) in Ho. cbn in Ho. lia. }
  split.
  - apply (marker_loop_spec reads (lit "codex-cli") (Some (lit "@openai/codex")) [] false false); unfold short_marker; cbn; try lia; try done.
    + split; [done|]. intros [?|?]; exfalso; by eapply Hnone.
    + split; [done|]. intros ?; exfalso; by eapply Hnone.
  - etransitivity; [apply (marker_loop_spec reads (lit "grok-cli") None [] false false); unfold short_marker; cbn; try lia; try done|].
    + split; [done|]. intros [?|?]; [exfalso; by eapply Hnone|done].
    + split; [done|]. intros ?; exfalso; by eapply Hnone.
    + unfold agent_mentioned. cbn [app]. naive_solver.
Qed.

(** ** BoringSSL *)

Lemma find_handshake_spec want data rd :
  match find_handshake want data rd with
  | Some hs => occurs data handshake_pat hs \/ (want = false /\ forall k, ~ occurs data handshake_pat k)
  | None => want = true /\ forall k, ~ occurs data handshake_pat k
  end.
Proof.
  unfold find_handshake. cbv zeta. pose proof (find_pattern_first data handshake_pat ltac:(done)) as Hf.
  destruct ((READ_HANDSHAKE_DELTA <=? rd)%nat && _) eqn:E; [destruct (Nat.eqb_spec (rd - READ_HANDSHAKE_DELTA) 0)|cbn [Nat.eqb]].
  2: { left. by apply andb_true_iff in E as [_ E]. }
  all: destruct (find_pattern data handshake_pat) as [hs|]; cbn in Hf; [left; apply Hf|].
  all: destruct want; [|right]; (split; [done|]; intros k; apply Hf; lia).
Qed.

(** The window that is searched when the write function is not where it is
    expected. *)
Definition near_read (rd wr : nat) : Prop :=
  Z.of_nat rd <= Z.of_nat wr + 0x10000 /\ Z.of_nat wr + Z.of_nat (length write_pat) <= Z.of_nat rd + 0x10000.

Lemma find_write_spec data rd :
  match find_write data rd with
  | Some wr => occurs data write_pat wr /\ near_read rd wr
  | None => forall wr, occurs data write_pat wr -> ~ near_read rd wr
  end.
Proof.
  unfold find_write. cbv zeta. assert (write_pat <> []) as Hp by done. set (near := Z.to_nat 0x10000).
  assert (Z.of_nat near = 0x10000) as Hnear by (unfold near; by rewrite Z2Nat.id). clearbody near.
  assert (length write_pat = 26%nat) as Hlen by done.
  destruct (_ && memeq_at _ _ _) eqn:E.
  - apply andb_true_iff in E as [_ E]. split; [exact E|]. unfold near_read, WRITE_READ_DELTA. lia.
  - clear E. set (a := if (near <? rd)%nat then (rd - near)%nat else 0%nat).
    assert (a = (rd - near)%nat) as Ha by (unfold a; destruct (Nat.ltb_spec near rd); lia). clearbody a.
    set (b := Nat.min (rd + near) (length data)). pose proof (find_pattern_first (take (b - a) (drop a data)) write_pat Hp) as Hf.
    destruct (find_pattern _ _) as [w|]; cbn in Hf.
    + destruct Hf as (_ & [Ho%occurs_drop Hw]%(occurs_take _ _ _ _ Hp) & _). split; [done|]. unfold near_read. lia.
    + intros wr Ho [H1 H2]. pose proof (occurs_in _ _ _ Hp Ho). apply (Hf (wr - a)%nat); [lia|].
      apply occurs_take; [done|]. split; [apply occurs_drop; by replace (a + (wr - a))%nat with wr by lia|lia].
Qed.

(** C19: the BoringSSL detector is exact on a binary it could read: when it
    reports the functions found, the pattern of SSL_read occurs at [ssl_read]
    and nowhere before, that of SSL_write at [ssl_write], less than 64 KB away,
    and that of SSL_do_handshake at its offset, or nowhere when handshakes are
    not wanted; and it reports them found whenever there are such places. *)
Theorem boringssl_offsets_exact want size reads data :
  0 < size -> read_fully (Z.to_nat size) reads [] = Some data ->
  let r := find_boringssl_offsets want (Some size) reads in
  (bo_found r = true ->
     (occurs data read_pat (bo_ssl_read r) /\ forall j, (j < bo_ssl_read r)%nat -> ~ occurs data read_pat j) /\
     (occurs data write_pat (bo_ssl_write r) /\ near_read (bo_ssl_read r) (bo_ssl_write r)) /\
     (occurs data handshake_pat (bo_ssl_do_handshake r) \/ (want = false /\ forall k, ~ occurs data handshake_pat k))) /\
  (forall rd, occurs data read_pat rd -> (forall j, (j < rd)%nat -> ~ occurs data read_pat j) ->
     (want = true -> exists k, occurs data handshake_pat k) ->
     (exists wr, occurs data write_pat wr /\ near_read rd wr) -> bo_found r = true /\ bo_ssl_read r = rd).
Proof.
  intros Hs Hd. cbv zeta. unfold find_boringssl_offsets. decide_tests. rewrite Hd.
  pose proof (find_pattern_first data read_pat ltac:(done)) as Hf. destruct (find_pattern data read_pat) as [rd|]; cbn in Hf.
  2: { split; [done|]. intros rd Ho. destruct (Hf rd); [lia|done]. }
  destruct Hf as (_ & Ho & Hn). pose proof (find_handshake_spec want data rd) as Hh.
  assert (forall rd', occurs data read_pat rd' -> (forall j, (j < rd')%nat -> ~ occurs data read_pat j) -> rd' = rd) as Huniq.
  { intros rd' Ho' Hn'. destruct (Nat.lt_trichotomy rd' rd) as [|[|]]; [|done|].
    - exfalso. apply (Hn rd'); [lia|done].
    - exfalso. by apply (Hn' rd). }
  destruct (find_handshake want data rd) as [hs|].
  2: { split; [done|]. intros rd' Ho' Hn' Hw _. destruct Hh as [-> Hh]. destruct (Hw eq_refl) as [k Hk]. by destruct (Hh k). }
  pose proof (find_write_spec data rd) as Hw. destruct (find_write data rd) as [wr|]; cbn.
  - split; [|intros rd' Ho' Hn' _ _; split; [done|symmetry; by apply Huniq]]. intros _. split; [split; [done|]|by split].
    intros j Hj. apply Hn. lia.
  - split; [done|]. intros rd' Ho' Hn' _ (wr & Hwr & Hnear). rewrite (Huniq rd' Ho' Hn') in Hnear. by destruct (Hw wr).
Qed.

(** ** Grok *)

(** The offset found is the first occurrence of the prefix, and the three
    instructions that read the fields of OutboundChunks are in their places. *)
Lemma grok_offset_exact data k :
  grok_find_rustls_buffer_plaintext_offset (Some data) = Some k <->
  first_from 0 data grok_rustls_buffer_plaintext_prefix (Some k) /\
  occurs data grok_rustls_outbound_tag (k + GROK_RUSTLS_OUTBOUND_TAG_OFFSET) /\
  occurs data grok_rustls_outbound_range (k + GROK_RUSTLS_OUTBOUND_RANGE_OFFSET) /\
  occurs data grok_rustls_outbound_data (k + GROK_RUSTLS_OUTBOUND_DATA_OFFSET).
Proof.
  assert (grok_rustls_buffer_plaintext_prefix <> []) as Hp by done. assert (grok_rustls_outbound_data <> []) as Hpd by done.
  destruct data as [|b data'].
  { split; [done|]. intros ((_ & Ho & _) & _). apply (occurs_in _ _ _ Hp) in Ho. cbn in Ho. lia. }
  set (data := b :: data'). unfold grok_find_rustls_buffer_plaintext_offset.
  pose proof (codex_find_pattern_first data _ Hp) as Hf. destruct (codex_find_pattern data _) as [found|].
  2: { split; [done|]. intros ((_ & Ho & _) & _). by destruct (Hf k); [lia|]. }
  unfold occurs at 1 2 3. split.
  - destruct (_ || _) eqn:E; [done|]. intros [= <-]. rewrite !orb_false_iff, !negb_false_iff in E. by destruct E as ((((_ & _) & ->) & ->) & ->).
  - intros (Hk & Ht & Hr & Hd). assert (Some found = Some k) as [= ->] by by eapply first_from_unique.
    rewrite Ht, Hr, Hd. pose proof (occurs_in _ _ _ Hpd Hd). cbn [negb]. rewrite !orb_false_r.
    rewrite (proj2 (Nat.ltb_ge _ _)), (proj2 (Nat.ltb_ge _ _)) by lia. done.
Qed.

(** ** Witnesses *)

Lemma pattern_searches_agree_witness :
  codex_find_pattern [1; 2; 1; 2; 3] [1; 2; 3] = find_pattern [1; 2; 1; 2; 3] [1; 2; 3] /\
  find_pattern [1; 2; 1; 2; 3] [1; 2; 3] = Some 2%nat.
Proof.
  destruct (pattern_searches_agree [1; 2; 1; 2; 3] [1; 2; 3]) as [E _]; [discriminate|]. split; [exact E|reflexivity].
Defined.

Lemma boringssl_offsets_exact_witness :
  let r := find_boringssl_offsets false (Some 45) [RData read_pat; REintr; RData write_pat] in
  bo_found r = true /\ occurs (read_pat ++ write_pat) write_pat (bo_ssl_write r).
Proof.
  cbv zeta. destruct (boringssl_offsets_exact false 45 [RData read_pat; REintr; RData write_pat] (read_pat ++ write_pat)) as [H _].
  - reflexivity.
  - vm_compute. reflexivity.
  - assert (bo_found (find_boringssl_offsets false (Some 45) [RData read_pat; REintr; RData write_pat]) = true) as Hf by (vm_compute; reflexivity).
    split; [exact Hf|]. apply (H Hf).
Defined.
