(* ===== verification/CFloat.v ===== *)
(** * Doubles, as the tracers print them

    IEEE 754 doubles are the Standard Library's [SpecFloat] with 53 bits of
    precision and exponents below 1024, rounding to nearest even; [printf] of
    [%.3f] rounds the exact value to thousandths, ties to even. *)

From Stdlib Require Import Floats.SpecFloat.
From S2P Require Import Prelude CLib Unicode.

(** [(double)n] *)
Definition double_of_Z (n : Z) : spec_float := binary_normalize 53 1024 n 0 false.

Definition double_div (x y : spec_float) : spec_float := SFdiv 53 1024 x y.

(** The rational [a / b] to the nearest integer, ties to even. *)
Definition round_half_even (a b : Z) : Z :=
  let q := a / b in
  let r := 2 * (a mod b) in
  if (b <? r) || ((r =? b) && Z.odd q) then q + 1 else q.

(** The thousandths of [m * 2^e]. *)
Definition thousandths (m e : Z) : Z :=
  if 0 <=? e then m * 2 ^ e * 1000 else round_half_even (m * 1000) (2 ^ (- e)).

Definition fmt_thousandths (n : Z) : bytes :=
  fmt_u (n / 1000) ++ [46] ++ map (fun p => 48 + n / p mod 10) [100; 10; 1].

(** [printf("%.3f")] *)
Definition fmt_3f (x : spec_float) : bytes :=
  match x with
  | S754_zero s => (if s then lit "-" else []) ++ fmt_thousandths 0
  | S754_finite s m e => (if s then lit "-" else []) ++ fmt_thousandths (thousandths (Zpos m) e)
  | S754_infinity s => (if s then lit "-" else []) ++ lit "inf"
  | S754_nan => lit "nan"
  end.

Example fmt_3f_ex :
  map (fun ns => fmt_3f (double_div (double_of_Z ns) (double_of_Z 1000000))) [1; 500; 501; 1500; 2500; 1234567; 2 ^ 64 - 1]
  = map lit ["0.000"; "0.001"; "0.001"; "0.002"; "0.003"; "1.235"; "18446744073709.551"]%string.
Proof. vm_compute. reflexivity. Qed.

(** ** A quotient of two integers is finite *)

(** A non-negative finite value of a moderate size. *)
Definition moderate (k lo hi : Z) (x : spec_float) : Prop :=
  match x with
  | S754_zero s => s = false
  | S754_finite s m e => s = false /\ Zpos m < 2 ^ k /\ lo <= e <= hi
  | _ => False
  end.

Lemma moderate_weaken k lo hi k' lo' hi' x : moderate k lo hi x -> lo' <= lo -> hi <= hi' -> k <= k' -> moderate k' lo' hi' x.
Proof.
  intros Hx Hlo Hhi Hk. destruct x; cbn in *; try done. destruct Hx as (? & ? & ?). split; [done|]. split; [|lia].
  eapply Z.lt_le_trans; [done|]. apply Z.pow_le_mono_r; lia.
Qed.

Lemma digits2_size p : digits2_pos p = Pos.size p.
Proof. induction p; cbn; congruence. Qed.

Lemma pos_shift p q : Zpos (Pos.iter xO p q) = Zpos p * 2 ^ Zpos q.
Proof.
  induction q as [|q IH] using Pos.peano_ind; [cbn; lia|]. rewrite Pos.iter_succ, Pos2Z.inj_succ, Z.pow_succ_r by lia. lia.
Qed.

Lemma Zdigits2_bound k m : 0 <= k -> 0 <= m < 2 ^ k -> 0 <= Zdigits2 m <= k.
Proof.
  intros Hk [H0 Hm]. destruct m as [|p|p]; cbn [Zdigits2]; [lia| |lia].
  rewrite digits2_size.
  split; [lia|]. pose proof (Pos.size_le p) as Hs. assert (2 ^ Zpos (Pos.size p) <= 2 * Zpos p) as Hs2 by lia.
  assert (Zpos (Pos.size p) < k + 1); [|lia]. apply (Z.pow_lt_mono_r_iff 2); [lia..|].
  rewrite Z.pow_add_r by lia. change (2 ^ 1) with 2. lia.
Qed.

Lemma shr_1_bound mrs k : 0 <= shr_m mrs < k -> 0 <= shr_m (shr_1 mrs) < k.
Proof. destruct mrs as [[|[p|p|]|p] r s]; cbn; lia. Qed.

Lemma iter_shr_bound p mrs k : 0 <= shr_m mrs < k -> 0 <= shr_m (SpecFloat.iter_pos shr_1 p mrs) < k.
Proof. revert mrs. induction p as [p IH|p IH|]; intros mrs Hm; cbn [SpecFloat.iter_pos]; [apply IH, IH| apply IH, IH|]; by apply shr_1_bound || done. Qed.

(** One alignment: the mantissa does not grow, the exponent grows at most by
    the size of the mantissa. *)
Lemma shr_fexp_bound k m e l mrs e' :
  0 <= k -> -1074 <= e -> 0 <= m < 2 ^ k -> shr_fexp 53 1024 m e l = (mrs, e') -> 0 <= shr_m mrs < 2 ^ k /\ e <= e' <= e + k.
Proof.
  intros Hk He Hm. unfold shr_fexp. pose proof (Zdigits2_bound k m Hk Hm) as Hd.
  assert (0 <= shr_m (shr_record_of_loc m l) < 2 ^ k) as Hr by (by destruct l as [|[]]).
  unfold fexp, emin. destruct (_ - e) as [|p|p] eqn:E; cbn [shr]; intros [= <- <-]; (split; [done || by apply iter_shr_bound|lia]).
Qed.

Lemma round_aux_moderate k m e l :
  0 <= k -> -1074 <= e -> e + 2 * k + 1 <= 971 -> 0 <= m < 2 ^ k ->
  moderate (k + 1) e (e + 2 * k + 1) (binary_round_aux 53 1024 false m e l).
Proof.
  intros Hk He Hhi Hm. unfold binary_round_aux. destruct (shr_fexp 53 1024 m e l) as [mrs e1] eqn:E1.
  destruct (shr_fexp_bound k m e l mrs e1 Hk He Hm E1) as [Hm1 He1].
  set (m1 := round_nearest_even _ _). assert (0 <= m1 < 2 ^ (k + 1)) as Hm1'.
  { rewrite Z.pow_add_r by lia. change (2 ^ 1) with 2. unfold m1, round_nearest_even. repeat case_match; lia. }
  destruct (shr_fexp 53 1024 m1 e1 loc_Exact) as [mrs2 e2] eqn:E2.
  destruct (shr_fexp_bound (k + 1) m1 e1 loc_Exact mrs2 e2) as [Hm2 He2]; [lia|lia|done|done|].
  destruct (shr_m mrs2) as [|p|p]; [done| |lia]. decide_tests. cbn [moderate]. split; [done|]. split; lia.
Qed.

Lemma double_of_Z_moderate n : 0 <= n < 2 ^ 64 -> moderate 65 (-53) 129 (double_of_Z n).
Proof.
  intros Hn. unfold double_of_Z. destruct n as [|p|p]; [done| |lia]. cbn [binary_normalize]. unfold binary_round, shl_align.
  pose proof (Zdigits2_bound 64 (Zpos p) ltac:(lia) Hn) as Hd. cbn [Zdigits2] in Hd.
  assert (fexp 53 1024 (Zpos (digits2_pos p) + 0) = Zpos (digits2_pos p) - 53) as -> by (unfold fexp, emin; lia). rewrite Z.sub_0_r.
  destruct (Zpos (digits2_pos p) - 53) as [|q|q] eqn:E.
  1-2: apply (moderate_weaken 65 0 129); [apply (round_aux_moderate 64)|..]; lia.
  apply (moderate_weaken (53 + 1) (Zneg q) (Zneg q + 2 * 53 + 1)); [|lia..]. apply (round_aux_moderate 53); [lia..|].
  rewrite pos_shift. split; [lia|]. replace 53 with (Zpos (digits2_pos p) + Zpos q) by lia. rewrite Z.pow_add_r by lia.
  apply Z.mul_lt_mono_pos_r; [lia|]. rewrite digits2_size. pose proof (Pos.size_gt p). lia.
Qed.

(** The quotient of a 64-bit count by a million. *)
Lemma div_million_moderate n : 0 <= n < 2 ^ 64 -> moderate 171 (-125) 504 (double_div (double_of_Z n) (double_of_Z 1000000)).
Proof.
  intros Hn. pose proof (double_of_Z_moderate n Hn) as Hx. destruct (double_of_Z n) as [s| | |s m e]; cbn in Hx; try done.
  - subst s. reflexivity.
  - destruct Hx as (-> & Hm & He). change (double_of_Z 1000000) with (S754_finite false 8589934592000000 (-33)).
    unfold double_div, SFdiv, SFdiv_core_binary. pose proof (Zdigits2_bound 65 (Zpos m) ltac:(lia) ltac:(lia)) as Hd.
    assert (1 <= Zdigits2 (Zpos m)) as Hd1 by (cbn [Zdigits2]; lia).
    change (Zdigits2 (Zpos 8589934592000000)) with 53. set (d := Zdigits2 (Zpos m)) in *. clearbody d.
    set (e' := Z.min _ _). assert (e - 72 <= e' <= e + 33 /\ -125 <= e') as [He' He2] by (unfold e', fexp, emin; lia).
    clearbody e'. set (m' := match _ with Z0 => _ | Zpos _ => _ | Zneg _ => _ end).
    assert (0 <= m' < 2 ^ 170) as Hm'.
    { assert (m' = Z.shiftl (Zpos m) (e - -33 - e')) as -> by (unfold m'; destruct (e - -33 - e') eqn:E; [done..|lia]).
      rewrite Z.shiftl_mul_pow2 by lia. split; [lia|]. change (2 ^ 170) with (2 ^ 65 * 2 ^ 105).
      assert (2 ^ (e - -33 - e') <= 2 ^ 105) by (apply Z.pow_le_mono_r; lia). nia. }
    clearbody m'. pose proof (Z_div_mod m' (Zpos 8589934592000000) ltac:(lia)) as Hq.
    destruct (Z.div_eucl m' _) as [q r]. cbn [xorb].
    apply (moderate_weaken (170 + 1) e' (e' + 2 * 170 + 1)); [|lia..]. apply round_aux_moderate; lia.
Qed.

(** ** The text *)

Lemma fmt_thousandths_value n : 0 <= n -> value_text (fmt_thousandths n) (JNum (fmt_thousandths n)).
Proof.
  intros Hn. unfold fmt_thousandths. set (i := n / 1000). assert (0 <= i) as Hi by (apply Z.div_pos; lia).
  set (f := map _ _). assert (Forall (fun d => is_digit d = true) f /\ f <> []) as [Hf Hne].
  { split; [|done]. unfold f. cbn [map]. repeat constructor; unfold is_digit; apply andb_true_iff; split; apply Z.leb_le;
      match goal with |- context [?x mod 10] => pose proof (Z.mod_pos_bound x 10 ltac:(lia)) end; lia. }
  clearbody f. destruct (fmt_u_spec i Hi) as (Hd & Hl & _ & _). apply vt_num.
  - assert (frac_text (fmt_u i ++ [46] ++ f) = true) as Hfr.
    { unfold frac_text. rewrite take_while_digits by done. rewrite drop_app_length. cbn [app].
      rewrite (fmt_u_int i Hi). change (46 =? 46) with true. rewrite bool_decide_eq_false_2 by done. cbn [negb andb].
      apply forallb_forall. intros x Hx. rewrite Forall_forall in Hf. apply Hf. by apply list_elem_of_In. }
    destruct (fmt_u i) as [|d ds] eqn:E; [cbn in Hl; lia|]. cbn [app] in *. unfold num_text.
    inversion_clear Hd as [|? ? Hd0 _]. by destruct (digit_not_sign d Hd0) as [-> _].
  - apply Forall_app. split; [|apply Forall_app; split; [by repeat constructor|]].
    + eapply Forall_impl; [exact Hd|]. intros. by apply digit_num_char.
    + eapply Forall_impl; [exact Hf|]. intros. by apply digit_num_char.
Qed.

(** What [%.3f] prints of milliseconds is a JSON number. *)
Lemma fmt_ms_value n : 0 <= n < 2 ^ 64 ->
  let t := fmt_3f (double_div (double_of_Z n) (double_of_Z 1000000)) in value_text t (JNum t).
Proof.
  intros Hn. cbv zeta. pose proof (div_million_moderate n Hn) as Hx. destruct (double_div _ _) as [s| | |s m e]; cbn [moderate] in Hx; try done.
  - subst s. by apply fmt_thousandths_value.
  - destruct Hx as (-> & _). apply fmt_thousandths_value. unfold thousandths, round_half_even.
    destruct (Z.leb_spec 0 e); [lia|]. pose proof (Z.div_pos (Zpos m * 1000) (2 ^ (- e)) ltac:(lia) ltac:(lia)). destruct (_ || _); lia.
Qed.
