(* ===== verification/SslSniff.v ===== *)
(** * The TLS tracer's userspace program (src/bpf/sslsniff.c)

    Options, the libraries and binaries to attach to, the attachments in the
    order they are made, the printer of a sample, and the program from the
    arguments to the exit status.  libbpf, the shell, the file system and
    getsid are parameters. *)

From Stdlib Require Import Floats.SpecFloat.
From S2P Require Import Prelude CLib Unicode Jsonl BpfMap SslBpf ProcUtils Offsets CFloat.

(** ** Options *)

Record ssl_env := SslEnv {
  sv_pid : Z;
  sv_session_id : Z;
  sv_uid : Z;
  sv_comm : option bytes;
  sv_openssl : bool;
  sv_gnutls : bool;
  sv_nss : bool;
  sv_handshake : bool;
  sv_extra_lib : option bytes;
  sv_verbose : bool;
}.

Definition INVALID_UID : Z := -1.
Definition INVALID_PID : Z := -1.

Definition ssl_env0 : ssl_env :=
  SslEnv INVALID_PID INVALID_PID INVALID_UID None true false false false None false.

Inductive ssl_option := OPT_p | OPT_session | OPT_u | OPT_c | OPT_o | OPT_g | OPT_n | OPT_h | OPT_v | OPT_binary_path | OPT_unknown.

(** The usage message ends the program. *)
Inductive ssl_parsed := SNext (e : ssl_env) | SUsage | SUnknown.

Definition ssl_parse_arg (key : ssl_option) (arg : bytes) (e : ssl_env) : ssl_parsed :=
  let 'SslEnv pid session_id uid comm openssl gnutls nss handshake extra_lib verbose := e in
  match key with
  | OPT_p => SNext (SslEnv (atoi (cstr arg)) session_id uid comm openssl gnutls nss handshake extra_lib verbose)
  | OPT_session =>
      let r := strtol10 (cstr arg) in
      let sid := s32 (st_val r) in
      if st_erange r || (sid <=? 0) then SUsage
      else SNext (SslEnv pid sid uid comm openssl gnutls nss handshake extra_lib verbose)
  | OPT_u => SNext (SslEnv pid session_id (atoi (cstr arg)) comm openssl gnutls nss handshake extra_lib verbose)
  | OPT_c => SNext (SslEnv pid session_id uid (Some (cstr arg)) openssl gnutls nss handshake extra_lib verbose)
  | OPT_o => SNext (SslEnv pid session_id uid comm false gnutls nss handshake extra_lib verbose)
  | OPT_g => SNext (SslEnv pid session_id uid comm openssl false nss handshake extra_lib verbose)
  | OPT_n => SNext (SslEnv pid session_id uid comm openssl gnutls false handshake extra_lib verbose)
  | OPT_h => SNext (SslEnv pid session_id uid comm openssl gnutls nss true extra_lib verbose)
  | OPT_v => SNext (SslEnv pid session_id uid comm openssl gnutls nss handshake extra_lib true)
  | OPT_binary_path => SNext (SslEnv pid session_id uid comm openssl gnutls nss handshake (Some (cstr arg)) verbose)
  | OPT_unknown => SUnknown
  end.

(** argp_parse: the options in order, until one is refused. *)
Definition ssl_parse_args (l : list (ssl_option * bytes)) : ssl_parsed :=
  foldl (fun r o => match r with SNext e => ssl_parse_arg o.1 o.2 e | _ => r end) (SNext ssl_env0) l.

(** What the loader gives to the probes. *)
Definition ssl_rodata (e : ssl_env) : ssl_config :=
  SslConfig (if sv_pid e =? INVALID_PID then 0 else sv_pid e) (u32 (sv_uid e)).

(** ** Attachments *)

Definition ENOENT : Z := 2.
Definition EIO : Z := 5.

Inductive attach_target := BySymbol (sym_name : bytes) | ByOffset (offset : nat).

Record attach_req := AttachReq {
  ar_prog : ssl_probe;
  ar_pid : Z;
  ar_binary : bytes;
  ar_target : attach_target;
  ar_ret : bool;
}.

(** A link, an error pointer, or NULL with errno. *)
Inductive attach_reply := AttLink | AttErr (err : Z) | AttNull (errno : Z).

Section program.
Context (attach : attach_req -> attach_reply) (popen : bytes -> option bytes) (getsid : Z -> Z) (proc : procfs).

(** The checked attachments of a function, in order: those made, and what the
    function returns. *)
Fixpoint attach_checked (l : list attach_req) : list attach_req * Z :=
  match l with
  | [] => ([], 0)
  | r :: l =>
      match attach r with
      | AttLink => let '(made, err) := attach_checked l in (r :: made, err)
      | AttErr err => ([], s32 err)
      | AttNull errno => ([], - (if errno =? 0 then ENOENT else errno))
      end
  end.

(** The entry and the exit program of one function. *)
Definition uprobe_pair (e : ssl_env) (lib : bytes) (t : attach_target) (enter exit : ssl_probe) : list attach_req :=
  [AttachReq enter (sv_pid e) lib t false; AttachReq exit (sv_pid e) lib t true].

Definition openssl_reqs (e : ssl_env) (lib : bytes) : list attach_req :=
  uprobe_pair e lib (BySymbol (lit "SSL_write")) SP_rw_enter SP_write_exit
  ++ uprobe_pair e lib (BySymbol (lit "SSL_read")) SP_rw_enter SP_read_exit
  ++ uprobe_pair e lib (BySymbol (lit "SSL_write_ex")) SP_write_ex_enter SP_write_ex_exit
  ++ uprobe_pair e lib (BySymbol (lit "SSL_read_ex")) SP_read_ex_enter SP_read_ex_exit
  ++ uprobe_pair e lib (BySymbol (lit "SSL_do_handshake")) SP_handshake_enter SP_handshake_exit.

Definition attach_openssl (e : ssl_env) (lib : bytes) := attach_checked (openssl_reqs e lib).

Definition attach_gnutls (e : ssl_env) (lib : bytes) :=
  attach_checked (uprobe_pair e lib (BySymbol (lit "gnutls_record_send")) SP_rw_enter SP_write_exit
    ++ uprobe_pair e lib (BySymbol (lit "gnutls_record_recv")) SP_rw_enter SP_read_exit).

Definition attach_nss (e : ssl_env) (lib : bytes) :=
  attach_checked (uprobe_pair e lib (BySymbol (lit "PR_Write")) SP_rw_enter SP_write_exit
    ++ uprobe_pair e lib (BySymbol (lit "PR_Send")) SP_rw_enter SP_write_exit
    ++ uprobe_pair e lib (BySymbol (lit "PR_Read")) SP_rw_enter SP_read_exit
    ++ uprobe_pair e lib (BySymbol (lit "PR_Recv")) SP_rw_enter SP_read_exit).

Definition offset_reqs (e : ssl_env) (lib : bytes) (offsets : boringssl_offsets) : list attach_req :=
  (if bo_write_is_ex offsets
   then uprobe_pair e lib (ByOffset (bo_ssl_write offsets)) SP_write_ex_enter SP_write_ex_exit
   else uprobe_pair e lib (ByOffset (bo_ssl_write offsets)) SP_rw_enter SP_write_exit)
  ++ (if bo_read_is_ex offsets
      then uprobe_pair e lib (ByOffset (bo_ssl_read offsets)) SP_read_ex_enter SP_read_ex_exit
      else uprobe_pair e lib (ByOffset (bo_ssl_read offsets)) SP_rw_enter SP_read_exit)
  ++ (if sv_handshake e
      then uprobe_pair e lib (ByOffset (bo_ssl_do_handshake offsets)) SP_handshake_enter SP_handshake_exit
      else []).

Definition attach_openssl_by_offset (e : ssl_env) (lib : bytes) (offsets : boringssl_offsets) :=
  attach_checked (offset_reqs e lib offsets).

Definition link_error (r : attach_reply) : Z :=
  match r with
  | AttLink => 0
  | AttErr err => err
  | AttNull errno => - (if errno =? 0 then EIO else errno)
  end.

Definition rustls_req (e : ssl_env) (binary : bytes) (o : codex_rustls_offset) : attach_req :=
  AttachReq (if ro_vectored o then SP_rustls_write_vectored else SP_rustls_write) (sv_pid e) binary (ByOffset (ro_offset o)) false.

(** The links made so far are [codex_rustls_links]; an error destroys them. *)
Fixpoint codex_loop (e : ssl_env) (binary : bytes) (offsets : list codex_rustls_offset) (codex_rustls_links : list attach_req)
    : list attach_req * Z :=
  match offsets with
  | [] => (codex_rustls_links, 0)
  | o :: offsets =>
      let r := rustls_req e binary o in
      match attach r with
      | AttLink => codex_loop e binary offsets (codex_rustls_links ++ [r])
      | reply => ([], s32 (link_error reply))
      end
  end.

Definition attach_codex_rustls (e : ssl_env) (binary : bytes) (offsets : codex_rustls_offsets) := codex_loop e binary offsets [].

Definition attach_grok_rustls (e : ssl_env) (binary : bytes) (offset : nat) : list attach_req * Z :=
  let r := AttachReq SP_rustls_buffer_plaintext (sv_pid e) binary (ByOffset offset) false in
  match attach r with
  | AttLink => ([r], 0)
  | reply => ([], s32 (link_error reply))
  end.

(** ** Libraries *)

(** [strrchr]: what follows the last [c] of a string. *)
Definition after_last (c : Z) (l : bytes) : option bytes :=
  foldl (fun acc i => if bool_decide (l !! i = Some c) then Some (drop (S i) l) else acc) None (seq 0 (length l)).

Definition find_library_path (libname : bytes) : option bytes :=
  let cmd := snprintf_s 128 (lit "ldconfig -p | grep " ++ libname) in
  match popen cmd with
  | None => None
  | Some [] => None
  | Some output =>
      let path := cstr (fst (fgets_one 510 output)) in
      match after_last 62 path with
      | Some (32 :: p) => Some (take_while (fun c => negb (c =? 10)) p)
      | _ => None
      end
  end.

(** ** Samples *)

Definition rw_event : list bytes := [lit "READ/RECV"; lit "WRITE/SEND"; lit "HANDSHAKE"].

(** The unmasked start of a WebSocket frame a client sends. *)
Definition masked_frame (b : bytes) : bool :=
  match b with
  | b0 :: b1 :: _ =>
      negb (Z.land b0 0x80 =? 0) && (Z.land b0 0x30 =? 0) && (Z.land b0 0x0f <=? 2) && negb (Z.land b1 0x80 =? 0)
  | _ => false
  end.

(** The bytes of the sample that are printed. *)
Definition event_buf (event : probe_SSL_data_t) : bytes :=
  let buf_size :=
    if d_buf_filled event =? 1 then if MAX_BUF_SIZE <? d_buf_size event then MAX_BUF_SIZE else d_buf_size event
    else 0 in
  take (Z.to_nat buf_size) (d_buf event).

(** None is an access beyond the array of names. *)
Definition print_event (e : ssl_env) (event : probe_SSL_data_t) : option bytes :=
  let data := event_buf event in
  let buf_size := Z.of_nat (length data) in
  if match sv_comm e with Some comm => negb (streq comm (d_comm event)) | None => false end then Some []
  else if (0 <? sv_session_id e) && negb (getsid (s32 (d_pid event)) =? sv_session_id e) then Some []
  else
    name ← rw_event !! Z.to_nat (d_rw event);
    Some (lit "{" ++ jlit "'function':'" ++ name ++ jlit "'," ++ jlit "'timestamp_ns':" ++ fmt_u (d_timestamp_ns event) ++ lit ","
      ++ jlit "'comm':'" ++ cstr (d_comm event) ++ jlit "'," ++ jlit "'pid':" ++ fmt_d (s32 (d_pid event)) ++ lit ","
      ++ jlit "'len':" ++ fmt_d (s32 (d_len event)) ++ lit "," ++ jlit "'buf_size':" ++ fmt_u (d_buf_size event) ++ lit ","
      ++ jlit "'uid':" ++ fmt_d (s32 (d_uid event)) ++ lit "," ++ jlit "'tid':" ++ fmt_d (s32 (d_tid event)) ++ lit ","
      ++ jlit "'latency_ms':"
      ++ (if d_delta_ns event =? 0 then lit "0" else fmt_3f (double_div (double_of_Z (d_delta_ns event)) (double_of_Z 1000000))) ++ lit ","
      ++ jlit "'is_handshake':" ++ (if d_is_handshake event then lit "true" else lit "false") ++ lit ","
      ++ (if 0 <? buf_size then
            jlit "'data':" ++ json_print_escaped_quoted data ++ lit ","
            ++ (if masked_frame data then jlit "'data_hex':'" ++ concat (map fmt_x2 data) ++ jlit "'," else [])
            ++ (if buf_size <? d_len event
                then jlit "'truncated':true,'bytes_lost':" ++ fmt_d (s32 (d_len event - buf_size))
                else jlit "'truncated':false")
          else jlit "'data':null,'truncated':false")
      ++ print_container_fields proc (s32 (d_pid event)) ++ lit "}" ++ [10]).

Definition ssl_handle_event (e : ssl_env) (event : probe_SSL_data_t) : option bytes :=
  if d_is_handshake event then if sv_handshake e then print_event e event else Some []
  else print_event e event.

(** ** The binary of --binary-path *)

(** What the system calls on it return. *)
Record binary_file := BinaryFile {
  bin_access : Z;  (* 0, or errno *)
  bin_codex_reads : option (list read_result);
  bin_grok_reads : option (list read_result);
  bin_codex_map : option bytes;
  bin_grok_map : option bytes;
  bin_size : option Z;
  bin_reads : list read_result;
}.

Record rustls_plan := RustlsPlan {
  is_codex : bool;
  codex_rustls : option codex_rustls_offsets;
  is_grok : bool;
  grok_rustls : option nat;
}.

Definition no_plan : rustls_plan := RustlsPlan false None false None.

(** The detection before the probes are loaded. *)
Definition detect_rustls (e : ssl_env) (f : binary_file) : rustls_plan :=
  match sv_extra_lib e with
  | None => no_plan
  | Some _ =>
      let is_codex := codex_binary_has_tls_markers (bin_codex_reads f) in
      let is_grok := grok_binary_has_tls_markers (bin_grok_reads f) in
      RustlsPlan is_codex
        (if is_codex then let '(offsets, found) := codex_find_rustls_offsets (bin_codex_map f) in if found then Some offsets else None
         else None)
        is_grok
        (if is_grok then grok_find_rustls_buffer_plaintext_offset (bin_grok_map f) else None)
  end.

(** The programs the plan leaves loaded. *)
Definition autoload (pl : rustls_plan) (p : ssl_probe) : bool :=
  match p with
  | SP_rustls_write | SP_rustls_write_vectored => bool_decide (is_Some (codex_rustls pl))
  | SP_rustls_buffer_plaintext => bool_decide (is_Some (grok_rustls pl))
  | _ => true
  end.

Definition attach_binary (e : ssl_env) (path : bytes) (f : binary_file) (pl : rustls_plan) : list attach_req * Z :=
  if negb (bin_access f =? 0) then ([], - bin_access f)
  else match attach (AttachReq SP_rw_enter (sv_pid e) path (BySymbol (lit "SSL_write")) false) with
  | AttLink => attach_openssl e path
  | reply =>
      if negb (link_error reply =? - ENOENT) then ([], s32 (link_error reply))
      else match codex_rustls pl, grok_rustls pl with
      | Some offsets, _ => attach_codex_rustls e path offsets
      | None, Some offset => attach_grok_rustls e path offset
      | None, None =>
          let offsets := find_boringssl_offsets (sv_handshake e) (bin_size f) (bin_reads f) in
          if bo_found offsets then attach_openssl_by_offset e path offsets else ([], - ENOENT)
      end
  end.

(** The libraries of the system: a failure to attach is not an error. *)
Definition attach_library (wanted : bool) (libname : bytes) (f : bytes -> list attach_req * Z) : list attach_req :=
  if wanted then match find_library_path libname with Some path => fst (f path) | None => [] end else [].

Definition attach_libraries (e : ssl_env) : list attach_req :=
  attach_library (sv_openssl e) (lit "libssl.so") (attach_openssl e)
  ++ attach_library (sv_gnutls e) (lit "libgnutls.so") (attach_gnutls e)
  ++ attach_library (sv_nss e) (lit "libnspr4.so") (attach_nss e).

(** ** The program *)

(** One turn of the loop: the samples a poll delivers and what it returns;
    the signal handler may have set [exiting] before. *)
Record ssl_turn := SslTurn { sn_exiting : bool; sn_samples : list probe_SSL_data_t; sn_err : Z }.

Definition EINTR : Z := 4.

(** The output, and the exit status when the program has ended. *)
Fixpoint ssl_loop (e : ssl_env) (turns : list ssl_turn) (out : bytes) : option (bytes * option Z) :=
  match turns with
  | [] => Some (out, None)
  | t :: turns =>
      if sn_exiting t then Some (out, Some 0)
      else
        lines ← mapM (ssl_handle_event e) (sn_samples t);
        let out := out ++ concat lines in
        if (sn_err t <? 0) && negb (sn_err t =? - EINTR) then Some (out, Some 1)
        else ssl_loop e turns out
  end.

(** What libbpf, malloc and signal answer at startup; 0 is success. *)
Record ssl_startup := SslStartup {
  ss_open : bool;
  ss_load_err : Z;
  ss_malloc : bool;
  ss_ring_buffer_errno : Z;
  ss_signal : bool;
}.

(** The attachments made when the loop starts, the output, and the status once
    the program has ended. *)
Record ssl_outcome := SslOutcome { so_attached : list attach_req; so_out : bytes; so_status : option Z }.

Definition ssl_stopped (status : Z) : option ssl_outcome := Some (SslOutcome [] [] (Some status)).

Definition ssl_main (e : ssl_env) (f : binary_file) (su : ssl_startup) (turns : list ssl_turn) : option ssl_outcome :=
  let pl := detect_rustls e f in
  if negb (ss_open su) then ssl_stopped 0  (* err is still that of argp_parse *)
  else if negb (ss_load_err su =? 0) then ssl_stopped 1
  else if negb (ss_malloc su) then ssl_stopped 1
  else
    let libraries := attach_libraries e in
    let '(binary, err) :=
      match sv_extra_lib e with Some path => attach_binary e path f pl | None => ([], 0) end in
    if negb (err =? 0) then ssl_stopped 1
    else if negb (ss_ring_buffer_errno su =? 0) then ssl_stopped 1
    else if negb (ss_signal su) then ssl_stopped 1
    else
      '(out, status) ← ssl_loop e turns [];
      Some (SslOutcome (libraries ++ binary) out status).

End program.
