(* ===== verification/SslSniffSpec.v ===== *)
(** * What the TLS tracer prints and attaches to

    A printed line parses back to the sample and its data; the program's
    output over a run of the probes is one such line per sample it shows; a
    binary is traced completely or not at all. *)

From Stdlib Require Import Floats.SpecFloat.
From S2P Require Import Prelude CLib Unicode Jsonl BpfMap Tracer UserMem SslBpf SslBpfSpec ProcUtils SslCalls Offsets CFloat SslSniff.

(** ** Hexadecimal *)

Fixpoint hex_decode (fuel : nat) (t : bytes) : option bytes :=
  match fuel, t with
  | _, [] => Some []
  | S f, h :: l :: t => a ← hex_val h; b ← hex_val l; r ← hex_decode f t; Some (16 * a + b :: r)
  | _, _ => None
  end.

Definition hex_text (b : bytes) : bytes := concat (map fmt_x2 b).

Lemma hex_decode_text b : bytes_ok b -> hex_decode (length b) (hex_text b) = Some b.
Proof.
  induction 1 as [|c b Hc _ IH]; [done|]. unfold hex_text in *. cbn [map concat length fmt_x2 app hex_decode].
  unfold byte_ok in Hc. pose proof (Z.div_mod c 16 ltac:(lia)). pose proof (Z.mod_pos_bound c 16 ltac:(lia)).
  rewrite !hex_digit_val by lia. cbn [mbind option_bind]. rewrite IH. cbn [mbind option_bind]. do 2 f_equal. lia.
Qed.

Lemma hex_text_body b : bytes_ok b -> json_body (hex_text b) = Some (hex_text b).
Proof.
  intros Hb. apply ascii_body. unfold hex_text. induction Hb as [|c b Hc _ IH]; [constructor|]. cbn [map concat].
  apply Forall_app. split; [|exact IH]. unfold byte_ok in Hc. pose proof (Z.mod_pos_bound c 16 ltac:(lia)).
  assert (forall d, 0 <= d < 16 -> 32 <= hex_digit d < 128 /\ hex_digit d <> 34 /\ hex_digit d <> 92) as Hd.
  { intros d Hd. unfold hex_digit. destruct (d <? 10) eqn:E; bool_to_prop; lia. }
  assert (0 <= c / 16 < 16) by lia_mod.
  unfold fmt_x2. apply Forall_cons_2; [by apply Hd|]. apply Forall_cons_2; [by apply Hd|constructor].
Qed.

(** ** A line *)

Section line.
Context (getsid : Z -> Z) (proc : procfs) (e : ssl_env).

(** The sample is of the command and session asked for. *)
Definition wanted_sample (d : probe_SSL_data_t) : Prop :=
  match sv_comm e with Some comm => streq comm (d_comm d) = true | None => True end /\
  (0 < sv_session_id e -> getsid (s32 (d_pid d)) = sv_session_id e).

Definition plain_comm (d : probe_SSL_data_t) : Prop := Forall (fun c => 32 <= c < 128 /\ c <> 34 /\ c <> 92) (cstr (d_comm d)).

Definition direction_name (rw : Z) : bytes :=
  if rw =? 0 then lit "READ/RECV" else if rw =? 1 then lit "WRITE/SEND" else lit "HANDSHAKE".

Definition latency_text (d : probe_SSL_data_t) : bytes :=
  if d_delta_ns d =? 0 then lit "0" else fmt_3f (double_div (double_of_Z (d_delta_ns d)) (double_of_Z 1000000)).

(** The members of a line, as texts and as values. *)
Definition head_texts (d : probe_SSL_data_t) : list (bytes * bytes) :=
  [(lit "function", quoted (direction_name (d_rw d))); (lit "timestamp_ns", fmt_u (d_timestamp_ns d));
   (lit "comm", quoted (cstr (d_comm d))); (lit "pid", fmt_d (s32 (d_pid d))); (lit "len", fmt_d (s32 (d_len d)));
   (lit "buf_size", fmt_u (d_buf_size d)); (lit "uid", fmt_d (s32 (d_uid d))); (lit "tid", fmt_d (s32 (d_tid d)));
   (lit "latency_ms", latency_text d); (lit "is_handshake", if d_is_handshake d then lit "true" else lit "false")].

Definition head_values (d : probe_SSL_data_t) : list (list Z * jval) :=
  [(lit "function", JStr (direction_name (d_rw d))); (lit "timestamp_ns", JNum (fmt_u (d_timestamp_ns d)));
   (lit "comm", JStr (cstr (d_comm d))); (lit "pid", JNum (fmt_d (s32 (d_pid d)))); (lit "len", JNum (fmt_d (s32 (d_len d))));
   (lit "buf_size", JNum (fmt_u (d_buf_size d))); (lit "uid", JNum (fmt_d (s32 (d_uid d)))); (lit "tid", JNum (fmt_d (s32 (d_tid d))));
   (lit "latency_ms", JNum (latency_text d)); (lit "is_handshake", JBool (d_is_handshake d))].

Definition data_texts (d : probe_SSL_data_t) (data : bytes) : list (bytes * bytes) :=
  if bool_decide (data = []) then [(lit "data", lit "null"); (lit "truncated", lit "false")]
  else (lit "data", json_print_escaped_quoted data)
    :: (if masked_frame data then [(lit "data_hex", quoted (hex_text data))] else [])
    ++ (if Z.of_nat (length data) <? d_len d
        then [(lit "truncated", lit "true"); (lit "bytes_lost", fmt_d (s32 (d_len d - Z.of_nat (length data))))]
        else [(lit "truncated", lit "false")]).

Definition data_values (d : probe_SSL_data_t) (data : bytes) : list (list Z * jval) :=
  if bool_decide (data = []) then [(lit "data", JNull); (lit "truncated", JBool false)]
  else (lit "data", JStr (utf8_latin1 data))
    :: (if masked_frame data then [(lit "data_hex", JStr (hex_text data))] else [])
    ++ (if Z.of_nat (length data) <? d_len d
        then [(lit "truncated", JBool true); (lit "bytes_lost", JNum (fmt_d (s32 (d_len d - Z.of_nat (length data)))))]
        else [(lit "truncated", JBool false)]).

Lemma head_ok d : ssl_sample_ok d -> plain_comm d -> Forall2 member_text (head_texts d) (head_values d).
Proof.
  intros Hd Hc. pose proof (sok_time _ Hd). pose proof (sok_data _ Hd) as (x & _ & Hx). pose proof (holds_le _ _ _ Hx).
  assert (forall k v val, json_body k = Some k -> value_text v val -> member_text (k, v) (k, val)) as Hm by done.
  unfold head_texts, head_values. repeat apply Forall2_cons_2; try apply Forall2_nil_2; apply Hm; try reflexivity.
  all: try (apply fmt_u_value; lia); try apply fmt_d_value; try apply vt_bool.
  - apply vt_str. unfold direction_name. destruct (d_rw d =? 0); [reflexivity|]. by destruct (d_rw d =? 1).
  - apply vt_str. by apply ascii_body.
  - unfold latency_text. destruct (_ =? 0); [apply vt_num; [reflexivity|by repeat constructor]|]. apply fmt_ms_value. lia.
Qed.

Lemma data_ok d data : bytes_ok data -> Forall2 member_text (data_texts d data) (data_values d data).
Proof.
  intros Hb. assert (forall k v val, json_body k = Some k -> value_text v val -> member_text (k, v) (k, val)) as Hm by done.
  unfold data_texts, data_values. case_bool_decide.
  - repeat apply Forall2_cons_2; try apply Forall2_nil_2; apply Hm; try reflexivity; (apply vt_null || apply vt_false).
  - apply Forall2_cons_2; [apply Hm; [reflexivity|by apply json_print_escaped_quoted_value]|]. apply Forall2_app.
    + destruct (masked_frame data); [|constructor]. apply Forall2_cons_2; [|constructor]. apply Hm; [reflexivity|]. by apply vt_str, hex_text_body.
    + destruct (_ <? _); repeat apply Forall2_cons_2; try apply Forall2_nil_2; apply Hm; try reflexivity; (apply vt_true || apply vt_false || apply fmt_d_value).
Qed.

(** The bytes printed are the capture. *)
Lemma event_buf_capture d data : ssl_sample_ok d -> holds (d_buf d) (d_buf_size d) data -> event_buf d = data.
Proof.
  intros Hd Hh. pose proof (holds_le _ _ _ Hh) as Hle. destruct Hh as (_ & Hl & Ht). unfold event_buf.
  destruct (sok_filled _ Hd) as [Hf|[Hf Hz]]; rewrite Hf; cbn [Z.eqb Pos.eqb].
  - decide_tests. rewrite <- Hl, Nat2Z.id. exact Ht.
  - destruct data; [done|]. cbn [length] in Hl. lia.
Qed.

Lemma name_lookup d : ssl_sample_ok d -> rw_event !! Z.to_nat (d_rw d) = Some (direction_name (d_rw d)).
Proof.
  intros Hd. pose proof (sok_rw _ Hd) as Hr. assert (d_rw d = 0 \/ d_rw d = 1 \/ d_rw d = 2) as [->|[->| ->]]; [|reflexivity..].
  destruct (d_is_handshake d); lia.
Qed.

Lemma print_event_render d data : ssl_sample_ok d -> holds (d_buf d) (d_buf_size d) data -> wanted_sample d ->
  exists tail, print_event getsid proc e d = Some (render_line (head_texts d ++ data_texts d data ++ tail)) /\ members_ok tail.
Proof.
  intros Hd Hh [Hc Hs]. destruct (container_fields_members proc (s32 (d_pid d))) as (tail & Et & Htail). exists tail. split; [|done].
  unfold print_event. rewrite (event_buf_capture d data Hd Hh), (name_lookup d Hd), Et. cbv zeta.
  replace (match sv_comm e with Some comm => negb (streq comm (d_comm d)) | None => false end) with false
    by (destruct (sv_comm e); [by rewrite Hc|done]).
  replace ((0 <? sv_session_id e) && _) with false
    by (destruct (Z.ltb_spec 0 (sv_session_id e)); [rewrite Hs by done; by rewrite Z.eqb_refl|done]).
  cbn [mbind option_bind]. f_equal. fold (latency_text d).
  change (head_texts d ++ data_texts d data ++ tail)
    with (((lit "function", quoted (direction_name (d_rw d))) :: tl (head_texts d)) ++ data_texts d data ++ tail).
  rewrite <- line_tail_render, members_tail_app. unfold head_texts. cbn [tl]. 
  set (T := members_tail tail). clearbody T. unfold members_tail, data_texts.
  case_bool_decide as Hdata.
  - subst data. cbn [length]. unfold quoted. cbn [map concat fst snd app]. repeat (rewrite <- ?app_assoc; cbn [app]). reflexivity.
  - pose proof (length_pos data Hdata). decide_tests. fold (hex_text data).
    destruct (masked_frame data), (_ <? _); unfold quoted; cbn [map concat fst snd app]; repeat (rewrite <- ?app_assoc; cbn [app]); reflexivity.
Qed.
Lemma print_event_values d data : ssl_sample_ok d -> plain_comm d -> bytes_ok data -> holds (d_buf d) (d_buf_size d) data -> wanted_sample d ->
  exists line tail, print_event getsid proc e d = Some line /\ parse_line line = Some (head_values d ++ data_values d data ++ tail).
Proof.
  intros Hd Hc Hb Hh Hw. destruct (print_event_render d data Hd Hh Hw) as (tail & -> & vals & Hv). eexists _, vals.
  split; [reflexivity|]. apply parse_line_render; [done|]. apply Forall2_app; [by apply head_ok|]. apply Forall2_app; [by apply data_ok|done].
Qed.

(** A sample of another command or session prints nothing. *)
Lemma print_event_unwanted d : ssl_sample_ok d -> ~ wanted_sample d -> print_event getsid proc e d = Some [].
Proof.
  intros Hd Hw. unfold print_event. rewrite (name_lookup d Hd). cbv zeta.
  destruct (match sv_comm e with Some comm => negb (streq comm (d_comm d)) | None => false end) eqn:Ec; [done|].
  destruct (_ && _) eqn:Es; [done|]. exfalso. apply Hw. split.
  - destruct (sv_comm e) as [comm|]; [by apply negb_false_iff in Ec|done].
  - intros Hpos. apply andb_false_iff in Es as [Es|Es]; bool_to_prop; [lia|done].
Qed.

(** What the tracer was asked to show. *)
Definition shown (d : probe_SSL_data_t) : Prop := (d_is_handshake d = true -> sv_handshake e = true) /\ wanted_sample d.

(** The line of a sample: its fields and its data, or nothing. *)
Definition line_of (d : probe_SSL_data_t) (line : bytes) : Prop :=
  (shown d -> exists data tail, bytes_ok data /\ holds (d_buf d) (d_buf_size d) data /\
     parse_line line = Some (head_values d ++ data_values d data ++ tail)) /\
  (~ shown d -> line = []).

Lemma handle_event_line d : ssl_sample_ok d -> plain_comm d -> exists line, ssl_handle_event getsid proc e d = Some line /\ line_of d line.
Proof.
  intros Hd Hc. assert (Decision (wanted_sample d)) as Hdec.
  { unfold wanted_sample. apply and_dec; [destruct (sv_comm e); apply _|].
    destruct (decide (0 < sv_session_id e)); [destruct (decide (getsid (s32 (d_pid d)) = sv_session_id e)) |]; [left|right|left]; tauto. }
  destruct (sok_data _ Hd) as (data & Hb & Hh). unfold ssl_handle_event.
  assert (d_is_handshake d = true /\ sv_handshake e = false \/ (d_is_handshake d = true -> sv_handshake e = true)) as [[Eh Es]|Hs]
    by (destruct (d_is_handshake d), (sv_handshake e); tauto).
  - rewrite Eh, Es. exists []. split; [done|]. split; [|done]. intros [Hs _]. specialize (Hs Eh). congruence.
  - assert ((if d_is_handshake d then if sv_handshake e then print_event getsid proc e d else Some [] else print_event getsid proc e d)
            = print_event getsid proc e d) as -> by (destruct (d_is_handshake d); [by rewrite Hs|done]).
    destruct Hdec as [Hw|Hw].
    + destruct (print_event_values d data Hd Hc Hb Hh Hw) as (line & tail & E & Hp). exists line. split; [done|].
      split; [intros _; by exists data, tail|]. intros Hns. by destruct Hns.
    + exists []. split; [by apply print_event_unwanted|]. split; [by intros [_ ?]|done].
Qed.
End line.


(** ** From the probes to the output *)

Section trace.
Context `{BpfHash hmap} (cfg : ssl_config).
Implicit Types (s : ssl_state hmap) (c : ssl_ctx).

(** The name in a sample is that of the current command. *)
Definition named_after c s s' : Prop := adds_one (fun d => d_comm d = x_comm c) (ssl_rb s) (ssl_rb s').

Lemma exit_common_named s c rw len size : named_after c s (exit_common cfg s c rw len size).
Proof. unfold exit_common. repeat case_match; try (by left); by apply adds_sample. Qed.

Lemma run_ssl_named p s c : named_after c s (run_ssl cfg p s c).
Proof.
  destruct p; cbn [run_ssl]; try apply exit_common_named.
  - unfold probe_rustls_write. repeat case_match; try (by left); by apply adds_sample.
  - unfold probe_rustls_write_vectored. repeat case_match; try (by left); by apply adds_sample.
  - unfold probe_rustls_buffer_plaintext. repeat case_match; try (by left); by apply adds_sample.
  - unfold probe_SSL_rw_enter. case_match; by left.
  - unfold probe_SSL_write_ex_enter. case_match; by left.
  - unfold probe_SSL_read_ex_enter, probe_SSL_write_ex_enter. case_match; by left.
  - unfold probe_SSL_write_ex_exit, ex_exit_common. case_match; [|by left]. apply (exit_common_named (set_readbytes s _)).
  - unfold probe_SSL_read_ex_exit, ex_exit_common. case_match; [|by left]. apply (exit_common_named (set_readbytes s _)).
  - unfold probe_SSL_do_handshake_enter. case_match; by left.
  - unfold probe_SSL_do_handshake_exit. repeat case_match; try (by left); by apply adds_sample.
Qed.

(** Commands with printable names. *)
Definition plain_command c : Prop := Forall (fun b => 32 <= b < 128 /\ b <> 34 /\ b <> 92) (cstr (x_comm c)).

#[export] Instance ssl_samples_named : SampleLaws (ssl_system cfg) plain_command plain_comm.
Proof.
  intros p s c Hc. eapply adds_one_impl; [|apply run_ssl_named]. intros d Hd. unfold plain_comm. by rewrite Hd.
Qed.
End trace.

(** The loop over turns that deliver the samples [ds] in order. *)
Definition calm_turn (t : ssl_turn) : Prop := sn_exiting t = false /\ (0 <= sn_err t \/ sn_err t = - EINTR).

Lemma ssl_loop_lines getsid proc e turns out :
  Forall calm_turn turns ->
  Forall (fun d => ssl_sample_ok d /\ plain_comm d) (concat (map sn_samples turns)) ->
  exists lines, ssl_loop getsid proc e turns out = Some (out ++ concat lines, None) /\
    Forall2 (line_of getsid e) (concat (map sn_samples turns)) lines.
Proof.
  intros Ht. revert out. induction Ht as [|t turns [Hx He] _ IH]; intros out Hs.
  - exists []. cbn. by rewrite app_nil_r.
  - cbn [map concat ssl_loop] in *. apply Forall_app in Hs as [Hs1 Hs2]. rewrite Hx.
    assert (exists ls, mapM (ssl_handle_event getsid proc e) (sn_samples t) = Some ls /\ Forall2 (line_of getsid e) (sn_samples t) ls) as (ls & E & Hls).
    { clear -Hs1. induction Hs1 as [|d ds [Hd Hc] _ IH]; [by exists []|]. destruct IH as (ls & E & Hls).
      destruct (handle_event_line getsid proc e d Hd Hc) as (line & El & Hl). exists (line :: ls).
      split; [|by constructor]. cbn. rewrite El. cbn. by rewrite E. }
    rewrite E. cbn [mbind option_bind].
    replace ((sn_err t <? 0) && negb (sn_err t =? - EINTR)) with false
      by (destruct He as [He| ->]; [by rewrite (proj2 (Z.ltb_ge _ _) He)|done]).
    destruct (IH (out ++ concat ls) Hs2) as (ls2 & E2 & Hls2). exists (ls ++ ls2). rewrite E2, concat_app, <- app_assoc.
    split; [done|by apply Forall2_app].
Qed.


(** ** Attachments *)

(** libbpf's errors are negative errno values. *)
Definition replies_ok (attach : attach_req -> attach_reply) : Prop :=
  forall r, match attach r with AttLink => True | AttErr err => -4096 < err < 0 | AttNull errno => 0 <= errno < 4096 end.

Section attach.
Context (attach : attach_req -> attach_reply) (Hreplies : replies_ok attach).

Definition all_linked (l : list attach_req) : Prop := Forall (fun r => attach r = AttLink) l.

Lemma s32_error x : -4096 < x < 0 -> s32 x = x.
Proof. intros Hx. unfold wraps. rewrite Z.mod_small by lia. lia. Qed.

(** A function of checked attachments makes all of them or fails. *)
Lemma attach_checked_all l made err : attach_checked attach l = (made, err) -> err = 0 -> made = l /\ all_linked l.
Proof.
  revert made err. induction l as [|r l IH]; intros made err; cbn [attach_checked]; [intros [= <- <-] _; by split; [|constructor]|].
  pose proof (Hreplies r) as Hr. destruct (attach r) as [|e|n] eqn:E.
  - destruct (attach_checked attach l) as [m x]. intros [= <- <-] Hx. destruct (IH m x eq_refl Hx) as [-> ?]. split; [done|by constructor].
  - intros [= <- <-]. rewrite s32_error by done. lia.
  - intros [= <- <-]. destruct (Z.eqb_spec n 0); unfold ENOENT; lia.
Qed.

Lemma link_error_bound r : attach r <> AttLink -> -4096 < link_error (attach r) < 0.
Proof. pose proof (Hreplies r). unfold link_error, EIO. destruct (attach r); [done|lia|]. intros _. destruct (Z.eqb_spec errno 0); lia. Qed.

Lemma codex_loop_all e path offsets links made err :
  codex_loop attach e path offsets links = (made, err) -> err = 0 ->
  made = links ++ map (rustls_req e path) offsets /\ all_linked (map (rustls_req e path) offsets).
Proof.
  revert links. induction offsets as [|o offsets IH]; intros links; cbn [codex_loop map].
  - intros [= <- <-] _. rewrite app_nil_r. split; [done|constructor].
  - pose proof (link_error_bound (rustls_req e path o)) as Hb. destruct (attach (rustls_req e path o)) eqn:E.
    + intros Hc He. destruct (IH _ Hc He) as [-> ?]. rewrite <- app_assoc. split; [done|by constructor].
    + intros [= <- <-]. rewrite s32_error by (by apply Hb). specialize (Hb ltac:(done)). cbn [link_error] in Hb. lia.
    + intros [= <- <-]. rewrite s32_error by (by apply Hb). specialize (Hb ltac:(done)). cbn [link_error] in Hb. lia.
Qed.

(** The complete sets of probes of a binary. *)
Inductive complete_plan (e : ssl_env) (path : bytes) (f : binary_file) : list attach_req -> Prop :=
  | plan_symbols : complete_plan e path f (openssl_reqs e path)
  | plan_codex offsets : codex_find_rustls_offsets (bin_codex_map f) = (offsets, true) ->
      complete_plan e path f (map (rustls_req e path) offsets)
  | plan_grok k : grok_find_rustls_buffer_plaintext_offset (bin_grok_map f) = Some k ->
      complete_plan e path f [AttachReq SP_rustls_buffer_plaintext (sv_pid e) path (ByOffset k) false]
  | plan_boringssl offsets : offsets = find_boringssl_offsets (sv_handshake e) (bin_size f) (bin_reads f) -> bo_found offsets = true ->
      complete_plan e path f (offset_reqs e path offsets).

Lemma attach_binary_complete e path f made err :
  sv_extra_lib e = Some path -> 0 <= bin_access f ->
  attach_binary attach e path f (detect_rustls e f) = (made, err) -> err = 0 -> complete_plan e path f made /\ all_linked made.
Proof.
  intros Hp Hacc. unfold attach_binary. destruct (Z.eqb_spec (bin_access f) 0); cbn [negb]; [|intros [= <- <-]; lia].
  set (r := AttachReq SP_rw_enter _ _ _ _). pose proof (link_error_bound r) as Hb.
  assert (forall reply, attach r = reply -> reply <> AttLink -> s32 (link_error reply) <> 0) as Hne.
  { intros reply <- Hl. rewrite s32_error by (by apply Hb). specialize (Hb Hl). lia. }
  assert (forall plan : list attach_req * Z, (if negb (link_error (attach r) =? - ENOENT) then ([], s32 (link_error (attach r))) else plan) = (made, err) ->
    err = 0 -> attach r <> AttLink -> plan = (made, err)) as Helse.
  { intros plan. destruct (negb _); [|done]. intros [= <- <-] Hz Hl. by destruct (Hne _ eq_refl Hl). }
  assert (forall plan : list attach_req * Z, match attach r with
     | AttLink => attach_openssl attach e path
     | reply => if negb (link_error reply =? - ENOENT) then ([], s32 (link_error reply)) else plan end = (made, err) ->
     err = 0 -> attach_openssl attach e path = (made, err) \/ plan = (made, err)) as Hsplit.
  { intros plan. destruct (attach r) eqn:E; [by left|intros Hm Hz; right; by apply Helse..]. }
  intros Hm Hz. apply Hsplit in Hm; [|done]. clear Hsplit Helse Hne Hb. destruct Hm as [Hm|Hm].
  - apply attach_checked_all in Hm as [-> ?]; [|done]. split; [constructor|done].
  - revert Hm. unfold detect_rustls. rewrite Hp. cbn [codex_rustls grok_rustls].
    destruct (codex_binary_has_tls_markers _); [destruct (codex_find_rustls_offsets _) as [offsets [|]] eqn:Eo|].
    1: { intros Hm. apply codex_loop_all in Hm as [-> ?]; [|done]. split; [by apply plan_codex|done]. }
    all: destruct (grok_binary_has_tls_markers _); [destruct (grok_find_rustls_buffer_plaintext_offset _) as [k|] eqn:Ek|].
    1, 4: unfold attach_grok_rustls; set (g := AttachReq SP_rustls_buffer_plaintext _ _ _ _); pose proof (link_error_bound g) as Hg;
      destruct (attach g) eqn:Eg; intros [= <- <-];
      [split; [by apply plan_grok|by repeat constructor]|rewrite s32_error in Hz by (by apply Hg); specialize (Hg ltac:(done)); cbn [link_error] in *; lia..].
    all: destruct (bo_found _) eqn:Ef; [|intros [= <- <-]; done].
    all: intros Hm; apply attach_checked_all in Hm as [-> ?]; [|done]; (split; [by eapply plan_boringssl|done]).
Qed.
End attach.

(** Well-typed samples never stop the loop by themselves. *)
Lemma ssl_loop_total getsid proc e turns out : Forall ssl_sample_ok (concat (map sn_samples turns)) ->
  exists out' status, ssl_loop getsid proc e turns out = Some (out', status).
Proof.
  assert (forall d, ssl_sample_ok d -> is_Some (ssl_handle_event getsid proc e d)) as Hev.
  { intros d Hd. assert (is_Some (print_event getsid proc e d)) as Hp; [|unfold ssl_handle_event; by repeat case_match].
    unfold print_event. destruct (match sv_comm e with Some _ => _ | None => _ end); [done|]. destruct (_ && _); [done|].
    destruct (rw_event !! Z.to_nat (d_rw d)) as [name|] eqn:En; [done|]. apply lookup_ge_None in En. pose proof (sok_rw _ Hd). cbn in En. destruct (d_is_handshake d); lia. }
  revert out. induction turns as [|t turns IH]; intros out Hs; cbn [ssl_loop]; [by do 2 eexists|]. cbn [map concat] in Hs. apply Forall_app in Hs as [Hs1 Hs2].
  destruct (sn_exiting t); [by do 2 eexists|].
  assert (is_Some (mapM (ssl_handle_event getsid proc e) (sn_samples t))) as [ls ->].
  { apply mapM_is_Some_2. eapply Forall_impl; [exact Hs1|]. exact Hev. }
  cbn [mbind option_bind]. destruct (_ && _); [by do 2 eexists|]. by apply IH.
Qed.


(** ** Libraries *)

Lemma after_last_app c l r : c ∉ r -> after_last c (l ++ c :: r) = Some r.
Proof.
  intros Hr. unfold after_last. rewrite length_app. cbn [length]. rewrite seq_app, foldl_app. cbn [Nat.add seq foldl].
  rewrite list_lookup_middle, bool_decide_eq_true_2 by done.
  replace (drop (S (length l)) (l ++ c :: r)) with r.
  2: { replace (S (length l)) with (length (l ++ [c])) by (rewrite length_app; cbn; lia).
       change (c :: r) with ([c] ++ r). by rewrite app_assoc, drop_app_length. }
  assert (forall i, (length l < i)%nat -> (l ++ c :: r) !! i <> Some c) as Hno.
  { intros i Hi Hc. rewrite lookup_app_r in Hc by lia. destruct (i - length l)%nat as [|j] eqn:E; [lia|]. cbn in Hc.
    apply Hr. by eapply list_elem_of_lookup_2. }
  assert (forall i, i ∈ seq (S (length l)) (length r) -> (length l < i)%nat) as Hi by (intros i Hi%elem_of_seq; lia).
  revert Hi. generalize (Some r). induction (seq (S (length l)) (length r)) as [|i is_ IH]; intros acc Hi; [done|]. cbn [foldl].
  rewrite bool_decide_eq_false_2 by (apply Hno, Hi; left). apply IH. intros j Hj. apply Hi. by right.
Qed.

(** The path of a library is the one ldconfig prints on the first line that
    matches its name: what follows "> ", without the newline. *)
Theorem find_library_path_first_line popen libname pre path rest :
  let line := pre ++ lit "> " ++ path in
  (length libname <= 107)%nat ->
  popen (lit "ldconfig -p | grep " ++ libname) = Some (line ++ 10 :: rest) ->
  (length line < 510)%nat -> 62 ∉ path -> 10 ∉ line -> no_nul line ->
  find_library_path popen libname = Some path.
Proof.
  cbv zeta. intros Hn Ho Hl Hgt Hnl Hnul. unfold find_library_path, snprintf_s.
  rewrite take_ge by (rewrite length_app; cbn [length lit map String.list_ascii_of_string]; lia). rewrite Ho.
  destruct (_ ++ 10 :: rest) as [|b t] eqn:E; [by destruct pre|]. rewrite <- E, fgets_one_line by done. cbn [fst].
  assert (cstr ((pre ++ lit "> " ++ path) ++ [10]) = (pre ++ lit "> " ++ path) ++ [10]) as ->.
  { rewrite <- (app_nil_r ((pre ++ _) ++ [10])) at 1. apply take_while_app; [|done]. apply Forall_app. split; [|by repeat constructor].
    eapply Forall_impl; [exact Hnul|]. intros c Hc. cbn. by apply negb_true_iff, Z.eqb_neq. }
  rewrite <- !app_assoc. change (lit "> " ++ path ++ [10]) with (62 :: 32 :: path ++ [10]).
  rewrite after_last_app.
  - f_equal. apply take_while_app; [|done]. rewrite !not_elem_of_app in Hnl. destruct Hnl as (_ & _ & Hp).
    apply list.Forall_forall. intros c Hc. cbn. apply negb_true_iff, Z.eqb_neq. by intros ->.
  - apply not_elem_of_cons. split; [done|]. apply not_elem_of_app. split; [done|]. apply not_elem_of_cons. split; [done|]. by intros ?%elem_of_nil.
Qed.

(** ** Findings *)

(** When the BPF object cannot be opened the program reports success. *)
Lemma open_failure_exits_zero attach popen getsid proc e f su turns :
  ss_open su = false -> ssl_main attach popen getsid proc e f su turns = Some (SslOutcome [] [] (Some 0)).
Proof. intros Ho. unfold ssl_main. by rewrite Ho. Qed.

(** No option attaches GnuTLS or NSS: they are off, and the options only turn
    them off. *)
Lemma gnutls_never_attached l e : ssl_parse_args l = SNext e -> sv_gnutls e = false /\ sv_nss e = false.
Proof.
  unfold ssl_parse_args. assert (forall r, (forall e, r = SNext e -> sv_gnutls e = false /\ sv_nss e = false) ->
    foldl (fun r o => match r with SNext e => ssl_parse_arg o.1 o.2 e | _ => r end) r l = SNext e -> sv_gnutls e = false /\ sv_nss e = false) as H.
  { induction l as [|[k a] l IH]; intros r Hr; [apply Hr|]. cbn [foldl fst snd]. apply IH. destruct r as [e0| |]; [|done..].
    intros e1. destruct (Hr e0 eq_refl) as [Hg Hn]. destruct e0. cbn in Hg, Hn. subst. destruct k; cbn; repeat case_match; intros; simplify_eq; by split. }
  apply H. intros e0 [= <-]. by split.
Qed.

(** A sample whose data could not be read is shown as not truncated. *)
Lemma lost_data_not_truncated d : ssl_sample_ok d -> d_buf_filled d = 0 -> event_buf d = [] /\ (lit "truncated", JBool false) ∈ data_values d [].
Proof. intros _ Hf. unfold event_buf, data_values. rewrite Hf. split; [done|]. right. left. Qed.

(** ** Witnesses *)

Definition sample_ssl : probe_SSL_data_t :=
  SslData 5 1500 7 7 1000 4 3 1 1 (lit "curl" ++ replicate 12 0) (copy_at stale_slot 0 [129; 131; 84]) false.

Definition no_proc : procfs := Procfs (fun _ => None) (fun _ => None).

(** The command name is printed as it is: one of fifteen bytes ends its string and
    adds a member with the pid of another process to the line. *)
Lemma comm_forges_pid :
  let comm := jlit "','pid':1,'a':'" ++ [0] in
  let d := SslData 5 1500 7 7 1000 4 3 1 1 comm (copy_at stale_slot 0 [129; 131; 84]) false in
  length comm = 16%nat /\
  option_map (fun line => option_map (List.filter (fun m => bool_decide (m.1 = lit "pid"))) (parse_line line))
    (print_event (fun _ => 0) no_proc ssl_env0 d) = Some (Some [(lit "pid", JNum (lit "1")); (lit "pid", JNum (lit "7"))]).
Proof. vm_compute. split; reflexivity. Qed.

Lemma sample_ssl_holds : holds (d_buf sample_ssl) (d_buf_size sample_ssl) [129; 131; 84].
Proof. apply (holds_copy0 stale_slot [129; 131; 84] 3); [apply stale_slot_length|reflexivity|split; discriminate]. Qed.

Lemma sample_ssl_ok : ssl_sample_ok sample_ssl.
Proof.
  split; cbn; try lia; try reflexivity.
  - exists [129; 131; 84]. split; [by apply bytes_ok_test|apply sample_ssl_holds].
Qed.




Lemma find_library_path_first_line_witness :
  find_library_path (fun _ => Some (lit "libssl.so.3 (libc6,x86-64) => /lib/libssl.so.3" ++ 10 :: lit "next")) (lit "libssl.so") = Some (lit "/lib/libssl.so.3").
Proof.
  apply (find_library_path_first_line _ _ (lit "libssl.so.3 (libc6,x86-64) =") _ (lit "next")).
  - vm_compute. lia.
  - reflexivity.
  - vm_compute. lia.
  - apply not_elem_test. reflexivity.
  - apply not_elem_test. reflexivity.
  - apply no_nul_test. reflexivity.
Defined.
