(* ===== verification/Stdiocap.v ===== *)
(** * The standard-stream tracer (src/bpf/stdiocap.bpf.c, src/bpf/stdiocap.c,
    src/bpf/stdiocap.h)

    The probes on read and write, with the filter that follows the descendants
    of the tracked processes; and the userspace program: options, the scan of
    /proc for the processes of a session, the printer and the loop. *)

From Stdlib Require Import Floats.SpecFloat.
From S2P Require Import Prelude CLib Unicode Jsonl BpfMap UserMem CFloat.

(** ** Data *)

Definition STDIO_MAX_BUF_SIZE : Z := 8192.

Record io_args_t := IoArgs { io_buf : Z; io_start_ns : Z; io_fd : Z; io_is_read : bool }.

Record stdiocap_event_t := StdioEvent {
  se_timestamp_ns : Z;
  se_delta_ns : Z;
  se_pid : Z;
  se_tid : Z;
  se_uid : Z;
  se_fd : Z;
  se_len : Z;
  se_buf_size : Z;
  se_is_read : bool;
  se_comm : bytes;
  se_buf : bytes;
}.

(** An invocation: [y_parents] are the process ids along [real_parent] from
    the current task, [y_slot] the reserved sample's stale buffer (None when
    the ring buffer is full), [y_fault] its buffer after a read that faults. *)
Record stdio_ctx := StdioCtx {
  y_pid_tgid : Z;
  y_uid_gid : Z;
  y_ktime : Z;
  y_comm : bytes;
  y_mem : Z -> option Z;
  y_parents : list Z;
  y_slot : option bytes;
  y_fault : bytes;
  y_arg : nat -> Z;
  y_ret : Z;
}.

Definition y_pid (c : stdio_ctx) : Z := Z.shiftr (y_pid_tgid c) 32.
Definition y_tid (c : stdio_ctx) : Z := u32 (y_pid_tgid c).
Definition y_uid (c : stdio_ctx) : Z := u32 (y_uid_gid c).

Record stdio_config := StdioConfig {
  sc_targ_pid : Z;
  sc_targ_uid : Z;
  sc_trace_stdio_only : bool;
  sc_max_capture_bytes : Z;
  sc_use_tracked_pids : bool;
}.

(** ** Probes *)

Section probes.
Context `{BpfHash hmap} (cfg : stdio_config).

Record stdio_state := StdioState {
  io_args : hmap Z io_args_t;
  stdio_tracked : hmap Z Z;
  stdio_rb : list stdiocap_event_t;  (* the samples not yet consumed, oldest first *)
}.

Definition set_io_args (s : stdio_state) m := StdioState m (stdio_tracked s) (stdio_rb s).
Definition set_stdio_tracked (s : stdio_state) m := StdioState (io_args s) m (stdio_rb s).
Definition stdio_submit (s : stdio_state) e := StdioState (io_args s) (stdio_tracked s) (stdio_rb s ++ [e]).

(** The walk to the ancestors: the map after it, and whether one is tracked. *)
Fixpoint ancestor_loop (fuel : nat) (tracked : hmap Z Z) (pid : Z) (parents : list Z) : hmap Z Z * bool :=
  match fuel, parents with
  | O, _ | _, [] => (tracked, false)
  | S f, ppid :: parents =>
      if (ppid =? 0) || (ppid =? pid) then (tracked, false)
      else match bpf_map_lookup_elem tracked ppid with
      | Some _ => (bpf_map_set tracked pid 1, true)
      | None => ancestor_loop f tracked pid parents
      end
  end.

Definition tracked_or_descendant (s : stdio_state) (c : stdio_ctx) (pid : Z) : stdio_state * bool :=
  match bpf_map_lookup_elem (stdio_tracked s) pid with
  | Some _ => (s, true)
  | None =>
      let '(m, found) := ancestor_loop 8 (stdio_tracked s) pid (y_parents c) in
      (set_stdio_tracked s m, found)
  end.

Definition stdio_trace_allowed (s : stdio_state) (c : stdio_ctx) (uid pid fd : Z) : stdio_state * bool :=
  if negb (sc_targ_uid cfg =? 2 ^ 32 - 1) && negb (sc_targ_uid cfg =? uid) then (s, false)
  else if sc_trace_stdio_only cfg && ((fd <? 0) || (2 <? fd)) then (s, false)
  else if sc_use_tracked_pids cfg then tracked_or_descendant s c pid
  else if negb (sc_targ_pid cfg =? 0) && negb (sc_targ_pid cfg =? pid) then (s, false)
  else (s, true).

Definition stdio_enter_common (s : stdio_state) (c : stdio_ctx) (fd buf : Z) (is_read : bool) : stdio_state :=
  let '(s, allowed) := stdio_trace_allowed s c (y_uid c) (y_pid c) fd in
  if negb allowed then s
  else set_io_args s (bpf_map_set (io_args s) (y_pid_tgid c) (IoArgs buf (y_ktime c) fd is_read)).

Definition stdio_exit_common (s : stdio_state) (c : stdio_ctx) (ret : Z) : stdio_state :=
  match bpf_map_lookup_elem (io_args s) (y_pid_tgid c) with
  | None => s
  | Some args =>
      let s := set_io_args s (bpf_map_delete_elem (io_args s) (y_pid_tgid c)) in
      if ret <=? 0 then s
      else match y_slot c with
      | None => s
      | Some slot =>
          let len := if 2 ^ 32 - 1 <? ret then 2 ^ 32 - 1 else ret in
          let copy_size := if sc_max_capture_bytes cfg <? len then sc_max_capture_bytes cfg else len in
          let copy_size := if STDIO_MAX_BUF_SIZE <? copy_size then STDIO_MAX_BUF_SIZE else copy_size in
          let buf := if 0 <? copy_size then
                       match user_read (y_mem c) (io_buf args) copy_size with
                       | Some l => copy_at slot 0 l
                       | None => y_fault c  (* the result of the read is not looked at *)
                       end
                     else slot in
          stdio_submit s (StdioEvent (y_ktime c) (u64 (y_ktime c - io_start_ns args)) (y_pid c) (y_tid c) (y_uid c) (io_fd args)
                            len copy_size (io_is_read args) (y_comm c) buf)
      end
  end.

Inductive stdio_probe := SE_enter_read | SE_exit_read | SE_enter_write | SE_exit_write.

Definition run_stdio (p : stdio_probe) (s : stdio_state) (c : stdio_ctx) : stdio_state :=
  match p with
  | SE_enter_read => stdio_enter_common s c (s32 (y_arg c 0)) (y_arg c 1) true
  | SE_enter_write => stdio_enter_common s c (s32 (y_arg c 0)) (y_arg c 1) false
  | SE_exit_read | SE_exit_write => stdio_exit_common s c (y_ret c)
  end.

Definition run_stdio_probes (l : list (stdio_probe * stdio_ctx)) (s : stdio_state) : stdio_state :=
  foldl (fun s pc => run_stdio pc.1 s pc.2) s l.
End probes.

Arguments stdio_state : clear implicits.
Arguments StdioState {hmap}.
Arguments io_args {hmap}.
Arguments stdio_tracked {hmap}.
Arguments stdio_rb {hmap}.

(** ** Options *)

Record stdio_env := StdioEnv {
  so_pid : Z;
  so_session_id : Z;
  so_uid : Z;
  so_comm : option bytes;
  so_all_fds : bool;
  so_max_bytes : Z;
}.

Definition stdio_env0 : stdio_env := StdioEnv (-1) (-1) (-1) None false STDIO_MAX_BUF_SIZE.

Inductive stdio_option := SO_p | SO_session | SO_u | SO_c | SO_v | SO_all_fds | SO_max_bytes | SO_end | SO_unknown.

(** None is a refused option: an unknown one, or the missing target at the
    end. *)
Definition stdio_parse_arg (key : stdio_option) (arg : bytes) (e : stdio_env) : option stdio_env :=
  let 'StdioEnv pid session_id uid comm all_fds max_bytes := e in
  match key with
  | SO_p => Some (StdioEnv (atoi (cstr arg)) session_id uid comm all_fds max_bytes)
  | SO_session => Some (StdioEnv pid (atoi (cstr arg)) uid comm all_fds max_bytes)
  | SO_u => Some (StdioEnv pid session_id (atoi (cstr arg)) comm all_fds max_bytes)
  | SO_c => Some (StdioEnv pid session_id uid (Some (cstr arg)) all_fds max_bytes)
  | SO_v => Some e
  | SO_all_fds => Some (StdioEnv pid session_id uid comm true max_bytes)
  | SO_max_bytes =>
      let n := atoi (cstr arg) in
      let n := if n <=? 0 then STDIO_MAX_BUF_SIZE else n in
      let n := if STDIO_MAX_BUF_SIZE <? n then STDIO_MAX_BUF_SIZE else n in
      Some (StdioEnv pid session_id uid comm all_fds n)
  | SO_end => if (pid =? -1) && (session_id =? -1) then None else Some e
  | SO_unknown => None
  end.

Definition stdio_parse_args (l : list (stdio_option * bytes)) : option stdio_env :=
  fold_opt (fun e o => stdio_parse_arg o.1 o.2 e) stdio_env0 (l ++ [(SO_end, [])]).

Definition stdio_rodata (e : stdio_env) : stdio_config :=
  StdioConfig (if so_pid e =? -1 then 0 else u32 (so_pid e)) (if so_uid e =? -1 then 2 ^ 32 - 1 else u32 (so_uid e))
    (negb (so_all_fds e)) (u32 (so_max_bytes e)) (negb (so_session_id e =? -1)).

(** ** The processes of a session *)

Definition is_numeric_name (name : bytes) : bool := negb (bool_decide (name = [])) && forallb is_digit name.

(** One entry of /proc. *)
Definition session_step `{BpfHash hmap} (getsid : Z -> Z) (session_id : Z) (m : hmap Z Z) (name : bytes) : hmap Z Z :=
  if negb (is_numeric_name name) then m
  else
    let raw_pid := dec_value name in
    if (raw_pid =? 0) || (2 ^ 32 - 1 <? raw_pid) then m
    else if negb (getsid (s32 raw_pid) =? session_id) then m
    else bpf_map_set m raw_pid 1.

(** [dir] are the names readdir returns, None when /proc cannot be opened. *)
Definition refresh_session_pids `{BpfHash hmap} (getsid : Z -> Z) (dir : option (list bytes)) (session_id : Z) (m : hmap Z Z) : hmap Z Z :=
  if session_id <=? 0 then m
  else match dir with None => m | Some names => foldl (session_step getsid session_id) m names end.

(** ** The printer *)

Definition fd_role (fd : Z) : bytes :=
  if fd =? 0 then lit "stdin" else if fd =? 1 then lit "stdout" else if fd =? 2 then lit "stderr" else lit "fd".

Definition resolve_fd_target (readlink : bytes -> option bytes) (pid fd : Z) : option bytes :=
  let proc_fd := snprintf_s 128 (lit "/proc/" ++ fmt_d pid ++ lit "/fd/" ++ fmt_d fd) in
  target ← readlink proc_fd; Some (cstr (take (PATH_MAX - 1) target)).

Definition stdio_event_buf (event : stdiocap_event_t) : bytes :=
  take (Z.to_nat (if STDIO_MAX_BUF_SIZE <? se_buf_size event then STDIO_MAX_BUF_SIZE else se_buf_size event)) (se_buf event).

Definition stdio_print_event (readlink : bytes -> option bytes) (e : stdio_env) (event : stdiocap_event_t) : bytes :=
  if match so_comm e with Some comm => negb (streq comm (se_comm event)) | None => false end then []
  else
    let data := stdio_event_buf event in
    let buf_size := Z.of_nat (length data) in
    lit "{" ++ jlit "'direction':'" ++ (if se_is_read event then lit "READ" else lit "WRITE") ++ jlit "',"
    ++ jlit "'timestamp_ns':" ++ fmt_u (se_timestamp_ns event) ++ lit "," ++ jlit "'comm':'" ++ cstr (se_comm event) ++ jlit "',"
    ++ jlit "'pid':" ++ fmt_u (se_pid event) ++ lit "," ++ jlit "'tid':" ++ fmt_u (se_tid event) ++ lit ","
    ++ jlit "'uid':" ++ fmt_u (se_uid event) ++ lit "," ++ jlit "'fd':" ++ fmt_d (se_fd event) ++ lit ","
    ++ jlit "'fd_role':'" ++ fd_role (se_fd event) ++ jlit "',"
    ++ (match resolve_fd_target readlink (s32 (se_pid event)) (se_fd event) with
        | Some fd_target => jlit "'fd_target':" ++ json_print_escaped_quoted fd_target ++ lit ","
        | None => jlit "'fd_target':null,"
        end)
    ++ jlit "'len':" ++ fmt_u (se_len event) ++ lit "," ++ jlit "'buf_size':" ++ fmt_u buf_size ++ lit ","
    ++ jlit "'latency_ms':" ++ fmt_3f (double_div (double_of_Z (se_delta_ns event)) (double_of_Z 1000000)) ++ lit ","
    ++ jlit "'data':"
    ++ (if buf_size =? 0 then jlit "null,'truncated':false}"
        else json_print_escaped_quoted data
          ++ (if buf_size <? se_len event
              then jlit ",'truncated':true,'bytes_lost':" ++ fmt_u (se_len event - buf_size) ++ lit "}"
              else jlit ",'truncated':false}")) ++ [10].

(** ** The program *)

(** One turn of the loop: the listing of /proc, the probes that run until the
    poll returns, how many samples it delivers and what it returns. *)
Record stdio_turn := StdioTurn {
  st_exiting : bool;
  st_dir : option (list bytes);
  st_probes : list (stdio_probe * stdio_ctx);
  st_delivered : nat;
  st_err : Z;
}.

Section program.
Context `{BpfHash hmap} (readlink : bytes -> option bytes) (getsid : Z -> Z) (e : stdio_env).

Definition stdio_refresh (dir : option (list bytes)) (s : stdio_state hmap) : stdio_state hmap :=
  if so_session_id e =? -1 then s
  else set_stdio_tracked s (refresh_session_pids getsid dir (so_session_id e) (stdio_tracked s)).

(** The state, the output, and the exit status once the program has ended. *)
Fixpoint stdio_loop (turns : list stdio_turn) (s : stdio_state hmap) (out : bytes) : stdio_state hmap * bytes * option Z :=
  match turns with
  | [] => (s, out, None)
  | t :: turns =>
      if st_exiting t then (s, out, Some 0)
      else
        let s := run_stdio_probes (stdio_rodata e) (st_probes t) (stdio_refresh (st_dir t) s) in
        let out := out ++ concat (map (stdio_print_event readlink e) (take (st_delivered t) (stdio_rb s))) in
        let s := StdioState (io_args s) (stdio_tracked s) (drop (st_delivered t) (stdio_rb s)) in
        if st_err t =? -4 then (s, out, Some 0)
        else if st_err t <? 0 then (s, out, Some 1)
        else stdio_loop turns s out
  end.

(** What libbpf, malloc and signal answer at startup; 0 is success. *)
Record stdio_startup := StdioStartup {
  sp_open : bool;
  sp_load_err : Z;
  sp_attach_err : Z;
  sp_dir : option (list bytes);
  sp_malloc : bool;
  sp_ring_buffer_errno : Z;
  sp_signal : bool;
}.

(** The probes run from the attachment on: [early] and [later] are those before
    and after the first scan of /proc. *)
Definition stdio_main (su : stdio_startup) (early later : list (stdio_probe * stdio_ctx)) (turns : list stdio_turn) (s : stdio_state hmap)
    : stdio_state hmap * bytes * option Z :=
  if negb (sp_open su) then (s, [], Some 0)  (* err is still that of argp_parse *)
  else if negb (sp_load_err su =? 0) then (s, [], Some 1)
  else if negb (sp_attach_err su =? 0) then (s, [], Some 1)
  else
    let s := stdio_refresh (sp_dir su) (run_stdio_probes (stdio_rodata e) early s) in
    let s := run_stdio_probes (stdio_rodata e) later s in
    if negb (sp_malloc su) then (s, [], Some 1)
    else if negb (sp_ring_buffer_errno su =? 0) then (s, [], Some 1)
    else if negb (sp_signal su) then (s, [], Some 1)
    else stdio_loop turns s [].
End program.
