(* ===== verification/StdiocapSpec.v ===== *)
(** * What the standard-stream tracer captures and prints

    A sample belongs to the call of its own thread; the filter accepts exactly
    the tracked processes and their near descendants; a line parses back to the
    sample and its data. *)

From Stdlib Require Import Floats.SpecFloat.
From S2P Require Import Prelude CLib Unicode Jsonl BpfMap Tracer UserMem CFloat Stdiocap.

(** ** The filter *)

Section filter.
Context `{BpfHashLaws hmap} (cfg : stdio_config).
Implicit Types (s : stdio_state hmap) (c : stdio_ctx) (m : hmap Z Z).

(** Among the first [n] of the ancestors, before one that is 0 or [pid]
    itself, there is a tracked one. *)
Definition near_tracked (n : nat) m (pid : Z) (parents : list Z) : Prop :=
  exists i p, (i < n)%nat /\ parents !! i = Some p /\ is_Some (bpf_map m !! p) /\
    forall j q, (j <= i)%nat -> parents !! j = Some q -> q <> 0 /\ q <> pid.

Lemma near_tracked_nil n m pid : ~ near_tracked n m pid [].
Proof. by intros (i & p & _ & Hp & _). Qed.

Lemma near_tracked_cons n m pid p parents :
  near_tracked (S n) m pid (p :: parents) <->
  p <> 0 /\ p <> pid /\ (is_Some (bpf_map m !! p) \/ near_tracked n m pid parents).
Proof.
  split.
  - intros (i & q & Hi & Hq & Ht & Hj). destruct (Hj 0%nat p ltac:(lia) eq_refl) as [Hz Hp]. do 2 (split; [done|]).
    destruct i as [|i]; [cbn in Hq; injection Hq as ->; by left|]. right. exists i, q. split_and!; [lia|done|done|].
    intros j r Hji Hr. apply (Hj (S j)); [lia|done].
  - intros (Hz & Hp & [Ht|(i & q & Hi & Hq & Ht & Hj)]).
    + exists 0%nat, p. split_and!; [lia|done|done|]. intros j q Hj Hq. replace j with 0%nat in Hq by lia. by injection Hq as <-.
    + exists (S i), q. split_and!; [lia|done|done|]. intros [|j] r Hji Hr; [by injection Hr as <-|]. apply (Hj j); [lia|done].
Qed.

Lemma ancestor_loop_spec n m pid parents :
  ((ancestor_loop n m pid parents).2 = true <-> near_tracked n m pid parents) /\
  (ancestor_loop n m pid parents).1 = if (ancestor_loop n m pid parents).2 then bpf_map_set m pid 1 else m.
Proof.
  revert parents. induction n as [|n IH]; intros parents; cbn [ancestor_loop].
  - split; [|done]. split; [done|]. by intros (i & p & Hi & _); lia.
  - destruct parents as [|p parents]; [split; [split; [done|by intros ?%near_tracked_nil]|done]|].
    rewrite near_tracked_cons. destruct (Z.eqb_spec p 0); cbn [orb]; [split; [naive_solver|done]|].
    destruct (Z.eqb_spec p pid); [split; [naive_solver|done]|]. rewrite bpf_lookup. destruct (bpf_map m !! p) eqn:E.
    + split; [|done]. split; [|done]. intros _. do 2 (split; [done|]). left. by eexists.
    + destruct (IH parents) as [Hi Hm]. split; [|done]. rewrite Hi. split; [intros Hn; by auto|].
      intros (_ & _ & [[x Hx]|Hn]); [congruence|done].
Qed.

Definition selected_process m (c : stdio_ctx) (pid : Z) : Prop :=
  if sc_use_tracked_pids cfg then is_Some (bpf_map m !! pid) \/ near_tracked 8 m pid (y_parents c)
  else sc_targ_pid cfg = 0 \/ sc_targ_pid cfg = pid.

Lemma tracked_or_descendant_spec s c pid :
  let r := tracked_or_descendant s c pid in
  (r.2 = true <-> is_Some (bpf_map (stdio_tracked s) !! pid) \/ near_tracked 8 (stdio_tracked s) pid (y_parents c)) /\
  io_args r.1 = io_args s /\ stdio_rb r.1 = stdio_rb s /\
  (forall k, k <> pid -> bpf_map (stdio_tracked r.1) !! k = bpf_map (stdio_tracked s) !! k).
Proof.
  cbv zeta. unfold tracked_or_descendant. rewrite bpf_lookup. destruct (bpf_map (stdio_tracked s) !! pid) as [v|] eqn:E.
  { cbn [fst snd]. split; [|done]. split; [|done]. intros _. left. by eexists. }
  destruct (ancestor_loop_spec 8 (stdio_tracked s) pid (y_parents c)) as [Hf Hm].
  destruct (ancestor_loop 8 _ _ _) as [m found]. cbn [fst snd set_stdio_tracked io_args stdio_rb stdio_tracked] in *.
  split; [rewrite Hf; split; [by right|intros [[x Hx]|?]; [done|done]]|]. do 2 (split; [done|]).
  intros k Hk. subst m. destruct found; [by apply bpf_set_other|done].
Qed.
End filter.

(** The filter of the standard-stream tracer is exact: an event on [fd] is
    accepted exactly when its user is the one asked for, the descriptor is
    stdin, stdout or stderr unless all are traced, and its process is the one
    asked for, or in session mode a tracked process or one of whose eight
    nearest ancestors is tracked; deciding changes no entry but that of the
    process itself. *)
Theorem stdio_filter_exact `{BpfHashLaws hmap} cfg (s : stdio_state hmap) c uid pid fd :
  let r := stdio_trace_allowed cfg s c uid pid fd in
  (r.2 = true <->
     (sc_targ_uid cfg = 2 ^ 32 - 1 \/ sc_targ_uid cfg = uid) /\
     (sc_trace_stdio_only cfg = true -> 0 <= fd <= 2) /\
     selected_process cfg (stdio_tracked s) c pid) /\
  io_args r.1 = io_args s /\ stdio_rb r.1 = stdio_rb s /\
  (forall k, k <> pid -> bpf_map (stdio_tracked r.1) !! k = bpf_map (stdio_tracked s) !! k).
Proof.
  cbv zeta. unfold stdio_trace_allowed, selected_process.
  destruct (negb (sc_targ_uid cfg =? 2 ^ 32 - 1) && _) eqn:Eu.
  { split; [|done]. split; [done|]. intros ([?|?] & _); bool_to_prop; lia. }
  assert (sc_targ_uid cfg = 2 ^ 32 - 1 \/ sc_targ_uid cfg = uid) as Hu.
  { apply andb_false_iff in Eu as [Eu|Eu]; bool_to_prop; tauto. }
  destruct (sc_trace_stdio_only cfg && _) eqn:Ef.
  { split; [|done]. split; [done|]. intros (_ & Hf & _). apply andb_true_iff in Ef as [Ef1 Ef2]. specialize (Hf Ef1).
    apply orb_true_iff in Ef2 as [?|?]; bool_to_prop; lia. }
  assert (sc_trace_stdio_only cfg = true -> 0 <= fd <= 2) as Hf.
  { intros Ht. rewrite Ht in Ef. cbn [andb] in Ef. apply orb_false_iff in Ef as [??]. bool_to_prop. lia. }
  destruct (sc_use_tracked_pids cfg).
  - destruct (tracked_or_descendant_spec s c pid) as (Hr & Hrest). split; [|exact Hrest]. rewrite Hr. tauto.
  - destruct (negb (sc_targ_pid cfg =? 0) && _) eqn:Ep; cbn [fst snd]; (split; [|done]).
    + split; [done|]. intros (_ & _ & [?|?]); bool_to_prop; lia.
    + split; [|done]. intros _. do 2 (split; [done|]). apply andb_false_iff in Ep as [Ep|Ep]; bool_to_prop; tauto.
Qed.

(** ** The processes of the session *)

Section session.
Context `{BpfRoom hmap} (getsid : Z -> Z) (sid : Z).
Implicit Types (m : hmap Z Z).

Definition in_session (names : list bytes) (pid : Z) : Prop :=
  exists name, name ∈ names /\ is_numeric_name name = true /\ dec_value name = pid /\ 0 < pid < 2 ^ 32 /\ getsid (s32 pid) = sid.

Lemma dec_value_pos ds : all_digits ds -> 0 <= dec_value ds.
Proof.
  unfold dec_value. assert (forall a, 0 <= a -> all_digits ds -> 0 <= foldl (fun a d => a * 10 + (d - 48)) a ds) as Hg; [|intros; apply Hg; [lia|done]].
  induction ds as [|d ds IH]; intros a Ha Hd; [done|]. inversion_clear Hd as [|? ? Hd0 Hds]. cbn [foldl]. apply IH; [|done].
  apply is_digit_spec in Hd0. lia.
Qed.

Lemma numeric_digits name : is_numeric_name name = true -> all_digits name.
Proof.
  unfold is_numeric_name. intros [_ Hd]%andb_true_iff. apply list.Forall_forall. intros d Hin.
  apply (proj1 (forallb_forall _ _) Hd). by apply list_elem_of_In.
Qed.

Lemma session_step_other m name :
  ~ (is_numeric_name name = true /\ 0 < dec_value name < 2 ^ 32 /\ getsid (s32 (dec_value name)) = sid) ->
  session_step getsid sid m name = m.
Proof.
  intros Hn. unfold session_step. destruct (is_numeric_name name) eqn:E; [|done]. cbn [negb].
  pose proof (dec_value_pos name (numeric_digits name E)). destruct (_ || _) eqn:Eb; [done|]. bool_to_prop.
  destruct (Z.eqb_spec (getsid (s32 (dec_value name))) sid); [|done]. exfalso. apply Hn. split; [done|]. split; [lia|done].
Qed.

Lemma session_step_in m name :
  is_numeric_name name = true -> 0 < dec_value name < 2 ^ 32 -> getsid (s32 (dec_value name)) = sid ->
  session_step getsid sid m name = bpf_map_set m (dec_value name) 1.
Proof. intros E Hr Hs. unfold session_step. rewrite E, Hs, Z.eqb_refl. cbn [negb]. by decide_tests. Qed.

Lemma session_fold names m :
  (size (bpf_map m) + length names <= bpf_max_entries m)%nat ->
  forall pid, is_Some (bpf_map (foldl (session_step getsid sid) m names) !! pid) <-> is_Some (bpf_map m !! pid) \/ in_session names pid.
Proof.
  revert m. induction names as [|name names IH]; intros m Hroom pid; cbn [foldl length] in *.
  - split; [by left|]. intros [?|(n & Hn%elem_of_nil & _)]; done.
  - assert (forall q, in_session (name :: names) q <->
      (is_numeric_name name = true /\ dec_value name = q /\ 0 < q < 2 ^ 32 /\ getsid (s32 q) = sid) \/ in_session names q) as Hcons.
    { intros q. split.
      - intros (n & [->|Hn]%elem_of_cons & Hq); [by left|]. right. by exists n.
      - intros [Hq|(n & Hn & Hq)]; [exists name; split; [left|done]|exists n; split; [by right|done]]. }
    rewrite Hcons. assert (Decision (is_numeric_name name = true /\ 0 < dec_value name < 2 ^ 32 /\ getsid (s32 (dec_value name)) = sid)) as [(E & Hr & Hs)|Hn] by apply _.
    + rewrite session_step_in by done. rewrite IH.
      * rewrite bpf_set_map_room by (left; lia). destruct (decide (dec_value name = pid)) as [<-|Hne].
        -- rewrite lookup_insert_eq. split; [|intros _; left; by eexists]. intros _. right. by left.
        -- rewrite lookup_insert_ne by done. split; [intros [?|?]; tauto|]. intros [?|[(_ & ? & _)|?]]; [tauto|done|tauto].
      * rewrite bpf_set_max. rewrite bpf_set_map_room by (left; lia).
        destruct (bpf_map m !! dec_value name) as [v|] eqn:Ev.
        -- rewrite map_size_insert_Some by (by eexists). lia.
        -- rewrite map_size_insert_None by done. lia.
    + rewrite session_step_other by done. rewrite IH by lia. split; [intros [?|?]; tauto|].
      intros [?|[(E & <- & Hr & Hs)|?]]; [tauto|exfalso; by apply Hn|tauto].
Qed.
End session.


(** ** Calls *)

Section calls.
Context `{BpfRoom hmap} (cfg : stdio_config).
Implicit Types (s : stdio_state hmap) (c : stdio_ctx).

Lemma enter_other s c fd buf is_read k :
  k <> y_pid_tgid c -> bpf_map (io_args (stdio_enter_common cfg s c fd buf is_read)) !! k = bpf_map (io_args s) !! k.
Proof.
  intros Hk. unfold stdio_enter_common, stdio_trace_allowed.
  assert (io_args (tracked_or_descendant s c (y_pid c)).1 = io_args s) as Ht by apply tracked_or_descendant_spec.
  destruct (_ && _); [done|]. destruct (_ && _); [done|].
  destruct (sc_use_tracked_pids cfg); [destruct (tracked_or_descendant s c _) as [s' [|]]|destruct (_ && _)]; cbn in *; rewrite ?Ht; try done; by apply bpf_set_other.
Qed.

Lemma exit_other s c ret k :
  k <> y_pid_tgid c -> bpf_map (io_args (stdio_exit_common cfg s c ret)) !! k = bpf_map (io_args s) !! k.
Proof.
  intros Hk. unfold stdio_exit_common. repeat case_match; cbn; try done; by rewrite bpf_delete_map, lookup_delete_ne.
Qed.

(** The probes as a tracer. *)
Definition stdio_system : probe_system stdio_probe stdio_ctx (stdio_state hmap) stdiocap_event_t := ProbeSystem (run_stdio cfg) y_pid_tgid stdio_rb.

Definition stdio_entry s (k : Z) : option io_args_t := bpf_map (io_args s) !! k.

#[export] Instance stdio_frame : FrameLaws stdio_system stdio_entry.
Proof. intros p s c k Hk. apply not_eq_sym in Hk. cbn [stdio_system ps_run ps_thread] in *. destruct p; cbn [run_stdio]; by apply enter_other || apply exit_other. Qed.

Definition entry_of (is_read : bool) : stdio_probe := if is_read then SE_enter_read else SE_enter_write.
Definition exit_of (is_read : bool) : stdio_probe := if is_read then SE_exit_read else SE_exit_write.

(** What a call of [ret] bytes is captured to. *)
Definition capture_size (ret : Z) : Z := Z.min (Z.min (Z.min ret (2 ^ 32 - 1)) (sc_max_capture_bytes cfg)) STDIO_MAX_BUF_SIZE.

Lemma enter_records s c is_read :
  (stdio_trace_allowed cfg s c (y_uid c) (y_pid c) (s32 (y_arg c 0))).2 = true -> has_room (io_args s) (y_pid_tgid c) ->
  bpf_map (io_args (run_stdio cfg (entry_of is_read) s c)) !! y_pid_tgid c = Some (IoArgs (y_arg c 1) (y_ktime c) (s32 (y_arg c 0)) is_read).
Proof.
  intros Ha Hr. assert (run_stdio cfg (entry_of is_read) s c = stdio_enter_common cfg s c (s32 (y_arg c 0)) (y_arg c 1) is_read) as -> by (by destruct is_read).
  unfold stdio_enter_common.
  assert (io_args (stdio_trace_allowed cfg s c (y_uid c) (y_pid c) (s32 (y_arg c 0))).1 = io_args s) as Hio.
  { unfold stdio_trace_allowed. assert (io_args (tracked_or_descendant s c (y_pid c)).1 = io_args s) as Ht by apply tracked_or_descendant_spec.
    by repeat case_match. }
  destruct (stdio_trace_allowed _ _ _ _ _ _) as [s' ok]. cbn [fst snd] in *. subst ok. cbn. rewrite Hio, bpf_set_map_room by done. by rewrite lookup_insert_eq.
Qed.
End calls.


(** ** Lines *)

Section line.
Context (readlink : bytes -> option bytes) (e : stdio_env).

(** A sample with its fields in the range of their types. *)
Record stdio_sample_ok (d : stdiocap_event_t) (data : bytes) : Prop := {
  tok_time : 0 <= se_timestamp_ns d /\ 0 <= se_delta_ns d < 2 ^ 64;
  tok_ids : 0 <= se_pid d /\ 0 <= se_tid d /\ 0 <= se_uid d;
  tok_len : 0 <= se_len d;
  tok_size : 0 <= se_buf_size d <= STDIO_MAX_BUF_SIZE;
  tok_data : take (Z.to_nat (se_buf_size d)) (se_buf d) = data /\ Z.of_nat (length data) = se_buf_size d /\ bytes_ok data;
  tok_comm : Forall (fun c => 32 <= c < 128 /\ c <> 34 /\ c <> 92) (cstr (se_comm d));
}.

Definition readlink_ok : Prop := forall p t, readlink p = Some t -> bytes_ok t.

Definition stdio_target (d : stdiocap_event_t) : option bytes := resolve_fd_target readlink (s32 (se_pid d)) (se_fd d).

Definition stdio_latency (d : stdiocap_event_t) : bytes := fmt_3f (double_div (double_of_Z (se_delta_ns d)) (double_of_Z 1000000)).

Definition stdio_texts (d : stdiocap_event_t) (data : bytes) : list (bytes * bytes) :=
  [(lit "direction", quoted (if se_is_read d then lit "READ" else lit "WRITE")); (lit "timestamp_ns", fmt_u (se_timestamp_ns d));
   (lit "comm", quoted (cstr (se_comm d))); (lit "pid", fmt_u (se_pid d)); (lit "tid", fmt_u (se_tid d)); (lit "uid", fmt_u (se_uid d));
   (lit "fd", fmt_d (se_fd d)); (lit "fd_role", quoted (fd_role (se_fd d)));
   (lit "fd_target", match stdio_target d with Some t => json_print_escaped_quoted t | None => lit "null" end);
   (lit "len", fmt_u (se_len d)); (lit "buf_size", fmt_u (Z.of_nat (length data))); (lit "latency_ms", stdio_latency d);
   (lit "data", if bool_decide (data = []) then lit "null" else json_print_escaped_quoted data)].

Definition stdio_values (d : stdiocap_event_t) (data : bytes) : list (list Z * jval) :=
  [(lit "direction", JStr (if se_is_read d then lit "READ" else lit "WRITE")); (lit "timestamp_ns", JNum (fmt_u (se_timestamp_ns d)));
   (lit "comm", JStr (cstr (se_comm d))); (lit "pid", JNum (fmt_u (se_pid d))); (lit "tid", JNum (fmt_u (se_tid d))); (lit "uid", JNum (fmt_u (se_uid d)));
   (lit "fd", JNum (fmt_d (se_fd d))); (lit "fd_role", JStr (fd_role (se_fd d)));
   (lit "fd_target", match stdio_target d with Some t => JStr (utf8_latin1 t) | None => JNull end);
   (lit "len", JNum (fmt_u (se_len d))); (lit "buf_size", JNum (fmt_u (Z.of_nat (length data)))); (lit "latency_ms", JNum (stdio_latency d));
   (lit "data", if bool_decide (data = []) then JNull else JStr (utf8_latin1 data))].

(** Whether the call moved more bytes than were captured. *)
Definition trunc_texts (d : stdiocap_event_t) (data : bytes) : list (bytes * bytes) :=
  if bool_decide (data <> []) && (Z.of_nat (length data) <? se_len d)
  then [(lit "truncated", lit "true"); (lit "bytes_lost", fmt_u (se_len d - Z.of_nat (length data)))]
  else [(lit "truncated", lit "false")].

Definition trunc_values (d : stdiocap_event_t) (data : bytes) : list (list Z * jval) :=
  if bool_decide (data <> []) && (Z.of_nat (length data) <? se_len d)
  then [(lit "truncated", JBool true); (lit "bytes_lost", JNum (fmt_u (se_len d - Z.of_nat (length data))))]
  else [(lit "truncated", JBool false)].

Lemma target_ok d t : readlink_ok -> stdio_target d = Some t -> bytes_ok t.
Proof.
  intros Hr. unfold stdio_target, resolve_fd_target. destruct (readlink _) as [t0|] eqn:E; [|done]. cbn [mbind option_bind].
  intros [= <-]. apply Hr in E. apply cstr_bytes_ok. unfold bytes_ok. by apply Forall_take.
Qed.

Lemma stdio_texts_ok d data : stdio_sample_ok d data -> readlink_ok -> Forall2 member_text (stdio_texts d data ++ trunc_texts d data) (stdio_values d data ++ trunc_values d data).
Proof.
  intros [Ht Hi Hl Hs (Hd & Hn & Hb) Hc] Hr.
  assert (forall k v val, json_body k = Some k -> value_text v val -> member_text (k, v) (k, val)) as Hm by done.
  apply Forall2_app.
  - unfold stdio_texts, stdio_values. repeat apply Forall2_cons_2; try apply Forall2_nil_2; apply Hm; try reflexivity.
    all: try (apply fmt_u_value; lia); try apply fmt_d_value.
    + apply vt_str. by destruct (se_is_read d).
    + by apply vt_str, ascii_body.
    + apply vt_str. unfold fd_role. repeat case_match; reflexivity.
    + destruct (stdio_target d) as [t|] eqn:E; [|apply vt_null]. apply json_print_escaped_quoted_value. by eapply target_ok.
    + apply fmt_ms_value. lia.
    + case_bool_decide; [apply vt_null|by apply json_print_escaped_quoted_value].
  - unfold trunc_texts, trunc_values. destruct (bool_decide (data <> []) && _) eqn:E; repeat apply Forall2_cons_2; try apply Forall2_nil_2; apply Hm;
      try reflexivity; try apply vt_true; try apply vt_false. apply andb_true_iff in E as [_ E]. bool_to_prop. apply fmt_u_value. lia.
Qed.

Lemma stdio_print_render d data :
  stdio_sample_ok d data -> match so_comm e with Some comm => streq comm (se_comm d) = true | None => True end ->
  stdio_print_event readlink e d = render_line (stdio_texts d data ++ trunc_texts d data).
Proof.
  intros [Ht Hi Hl Hs (Hd & Hn & Hb) Hc] Hw. unfold stdio_print_event.
  replace (match so_comm e with Some comm => negb (streq comm (se_comm d)) | None => false end) with false
    by (destruct (so_comm e); [by rewrite Hw|done]).
  assert (stdio_event_buf d = data) as -> by (unfold stdio_event_buf; by decide_tests). cbv zeta.
  change (stdio_texts d data ++ trunc_texts d data)
    with (((lit "direction", quoted (if se_is_read d then lit "READ" else lit "WRITE")) :: tl (stdio_texts d data)) ++ trunc_texts d data).
  rewrite <- line_tail_render. fold (stdio_target d). fold (stdio_latency d). unfold stdio_texts. cbn [tl]. unfold members_tail, trunc_texts.
  case_bool_decide as Hdata; [rewrite bool_decide_eq_false_2 by (intros Hx; by apply Hx)|rewrite bool_decide_eq_true_2 by done]; cbn [andb].
  - clear Hd Hn Hb. subst data. cbn [length Z.of_nat Z.eqb]. destruct (stdio_target d); unfold quoted; cbn [map concat fst snd app]; repeat (rewrite <- ?app_assoc; cbn [app]); reflexivity.
  - assert (0 < Z.of_nat (length data)) by (destruct data; [done|cbn [length]; lia]). rewrite (proj2 (Z.eqb_neq (Z.of_nat (length data)) 0)) by lia.
    destruct (_ <? _), (stdio_target d); unfold quoted; cbn [map concat fst snd app]; repeat (rewrite <- ?app_assoc; cbn [app]); reflexivity.
Qed.
End line.

(** A line of the standard-stream tracer is faithful: it parses to exactly
    the fields of its sample, the data and the target of the descriptor as the
    text their bytes decode to, and "truncated" with the number of lost bytes
    exactly when the call moved more bytes than were captured. *)
Theorem stdio_line_roundtrip readlink e d data :
  stdio_sample_ok d data -> readlink_ok readlink ->
  match so_comm e with Some comm => streq comm (se_comm d) = true | None => True end ->
  parse_line (stdio_print_event readlink e d) = Some (stdio_values readlink d data ++ trunc_values d data) /\
  (data <> [] -> ((lit "truncated", JBool true) ∈ trunc_values d data <-> se_buf_size d < se_len d)).
Proof.
  intros Hd Hr Hw. split.
  - rewrite (stdio_print_render readlink e d data Hd Hw). apply parse_line_render; [done|]. by apply stdio_texts_ok.
  - intros Hne. unfold trunc_values. rewrite bool_decide_eq_true_2 by done. cbn [andb]. destruct (tok_data _ _ Hd) as (_ & Hl & _). rewrite Hl.
    destruct (Z.ltb_spec (se_buf_size d) (se_len d)) as [Hlt|Hge]; split; try done; try lia; [left|].
    intros Hin. by apply list_elem_of_singleton in Hin.
Qed.

(** ** Findings *)

(** A read of the buffer that faults is reported as a full capture. *)
Lemma faulted_read_reported `{BpfHash hmap} cfg (s : stdio_state hmap) c args slot :
  bpf_map_lookup_elem (io_args s) (y_pid_tgid c) = Some args -> 0 < y_ret c -> y_slot c = Some slot -> 0 < sc_max_capture_bytes cfg ->
  (forall n, user_read (y_mem c) (io_buf args) n = None) ->
  exists d, stdio_rb (stdio_exit_common cfg s c (y_ret c)) = stdio_rb s ++ [d] /\ 0 < se_buf_size d /\ se_buf d = y_fault c.
Proof.
  intros Ha Hr Hs Hm Hf. unfold stdio_exit_common. rewrite Ha, Hs. cbv zeta. decide_tests.
  match goal with |- context [0 <? ?x] => assert (0 < x) as Hx by (unfold STDIO_MAX_BUF_SIZE; repeat case_match; bool_to_prop; lia) end.
  rewrite (proj2 (Z.ltb_lt _ _) Hx), Hf. eexists. split; [reflexivity|]. by split.
Qed.

(** ** Witnesses *)

Definition stdio_ctx_at (tgid tid t : Z) (parents : list Z) (arg : nat -> Z) (ret : Z) : stdio_ctx :=
  StdioCtx (tgid * 2 ^ 32 + tid) 0 t (replicate 16 0) (fun a => Some (wrapu 8 a)) parents (Some (replicate 64 0)) [] arg ret.

Definition stdio_state0 : stdio_state bounded := StdioState (bd_empty 64) (bd_empty 64) [].

Definition session_env : stdio_env := StdioEnv (-1) 50 (-1) None false 8192.



Definition sample_stdio : stdiocap_event_t := StdioEvent 5 1500 7 7 1000 1 4 3 false (lit "cat" ++ [0]) ([72; 105; 10] ++ replicate 61 0).

Lemma stdio_line_roundtrip_witness :
  parse_line (stdio_print_event (fun _ => Some (lit "/dev/null")) stdio_env0 sample_stdio)
    = Some (stdio_values (fun _ => Some (lit "/dev/null")) sample_stdio [72; 105; 10] ++ trunc_values sample_stdio [72; 105; 10]).
Proof.
  apply (stdio_line_roundtrip (fun _ => Some (lit "/dev/null")) stdio_env0 sample_stdio [72; 105; 10]).
  - split; cbn; try lia.
    + unfold STDIO_MAX_BUF_SIZE. lia.
    + split; [reflexivity|]. split; [reflexivity|]. apply bytes_ok_test. reflexivity.
    + apply ascii_test. reflexivity.
  - intros p t [= <-]. apply bytes_ok_test. reflexivity.
  - exact I.
Defined.
