(* ===== verification/StdioTrace.v ===== *)
(** * The standard-stream tracer from the kernel to its output

    The samples the probes submit are well formed and belong to their threads,
    the probes do not look at the ring buffer, and the program prints every
    sample it is delivered, in order, and loses none. *)

From Stdlib Require Import Floats.SpecFloat.
From S2P Require Import Prelude CLib Unicode Jsonl BpfMap Tracer UserMem CFloat Stdiocap StdiocapSpec.

(** ** Samples *)

(** What the kernel guarantees of an invocation, by a command with a printable
    name; what a faulting read leaves in the destination are some bytes. *)
Record stdio_ctx_ok (c : stdio_ctx) : Prop := {
  yok_ids : 0 <= y_pid_tgid c < 2 ^ 64;
  yok_time : 0 <= y_ktime c < 2 ^ 64;
  yok_comm : Forall (fun b => 32 <= b < 128 /\ b <> 34 /\ b <> 92) (cstr (y_comm c));
  yok_mem : mem_ok (y_mem c);
  yok_fault : Z.of_nat (length (y_fault c)) = STDIO_MAX_BUF_SIZE /\ bytes_ok (y_fault c);
}.

Definition good_stdio (d : stdiocap_event_t) : Prop := exists data, stdio_sample_ok d data.

Section samples.
Context `{BpfHash hmap}.
Implicit Types (s : stdio_state hmap) (c : stdio_ctx).

(** The filter submits nothing. *)
Lemma allowed_same_rb cfg s c uid pid fd : stdio_rb (stdio_trace_allowed cfg s c uid pid fd).1 = stdio_rb s.
Proof.
  unfold stdio_trace_allowed, tracked_or_descendant. repeat case_match; try done.
Qed.

Lemma enter_same_rb cfg s c fd buf is_read : stdio_rb (stdio_enter_common cfg s c fd buf is_read) = stdio_rb s.
Proof.
  unfold stdio_enter_common. pose proof (allowed_same_rb cfg s c (y_uid c) (y_pid c) fd) as Hr.
  destruct (stdio_trace_allowed _ _ _ _ _ _) as [s' [|]]; exact Hr.
Qed.

(** The buffer of a sample: what was read, the cleared buffer, or nothing. *)
Lemma stdio_capture_bytes c addr n slot :
  stdio_ctx_ok c -> 0 <= n <= STDIO_MAX_BUF_SIZE ->
  let buf := if 0 <? n then match user_read (y_mem c) addr n with Some l => copy_at slot 0 l | None => y_fault c end else slot in
  let data := take (Z.to_nat n) buf in
  Z.of_nat (length data) = n /\ bytes_ok data.
Proof.
  intros Hc Hn. cbv zeta. destruct (yok_fault _ Hc) as [Hl Hb]. destruct (Z.ltb_spec 0 n).
  - destruct (user_read (y_mem c) addr n) as [l|] eqn:E.
    + pose proof (user_read_length _ _ _ _ E) as Hlen. unfold copy_at. change (take (Z.to_nat 0) slot) with (@nil Z). cbn [app].
      rewrite <- Hlen, take_app_length. split; [lia|]. eapply user_read_ok; [apply Hc|exact E].
    + split; [rewrite length_take; lia|]. by apply Forall_take.
  - replace n with 0 by lia. change (take (Z.to_nat 0) slot) with (@nil Z). split; [done|constructor].
Qed.

#[export] Instance stdio_samples_good e : SampleLaws (stdio_system (stdio_rodata e)) stdio_ctx_ok good_stdio.
Proof.
  intros p s c Hc. cbn [stdio_system ps_run ps_samples].
  assert (adds_one good_stdio (stdio_rb s) (stdio_rb (stdio_exit_common (stdio_rodata e) s c (y_ret c)))) as Hexit;
    [|destruct p; cbn [run_stdio]; rewrite ?enter_same_rb; auto with tracer].
  unfold stdio_exit_common. destruct (bpf_map_lookup_elem _ _) as [args|]; [|by left]. cbv zeta.
  destruct (Z.leb_spec (y_ret c) 0); [by left|]. destruct (y_slot c) as [slot|]; [|by left]. cbn [set_io_args stdio_submit stdio_rb].
  apply adds_sample. set (len := if _ <? y_ret c then _ else _). assert (0 < len) by (unfold len; case_match; lia). clearbody len.
  set (k1 := if sc_max_capture_bytes _ <? len then _ else _).
  assert (0 <= k1) by (unfold k1; pose proof (wrapu_bound 32 (so_max_bytes e) eq_refl); cbn [stdio_rodata sc_max_capture_bytes]; case_match; lia). clearbody k1.
  set (k2 := if STDIO_MAX_BUF_SIZE <? k1 then _ else _).
  assert (0 <= k2 <= STDIO_MAX_BUF_SIZE) as Hk by (assert (0 < STDIO_MAX_BUF_SIZE) by done; unfold k2; case_match; bool_to_prop; lia). clearbody k2.
  destruct (stdio_capture_bytes c (io_buf args) k2 slot Hc Hk) as [Hl Hb].
  eexists. pose proof (wrapu_bound 64 (y_ktime c - io_start_ns args) eq_refl) as Hd. destruct Hc as [Hid Ht Hcm _ _].
  split; cbn; [lia| |lia|done|split; [reflexivity|by split]|done].
  split; [unfold y_pid; rewrite Z.shiftr_div_pow2 by lia; apply Z.div_pos; lia|]. split; by apply wrapu_bound.
Qed.
End samples.

(** ** Locality *)

Section local.
Context `{BpfRoom hmap} (cfg : stdio_config).
Implicit Types (s : stdio_state hmap) (c : stdio_ctx).

(** The thread of a sample. *)
Definition stdio_from (d : stdiocap_event_t) : Z := se_pid d * 2 ^ 32 + se_tid d.

Lemma stdio_from_ctx c : y_pid c * 2 ^ 32 + y_tid c = y_pid_tgid c.
Proof. unfold y_pid, y_tid, wrapu. rewrite Z.shiftr_div_pow2 by lia. pose proof (Z.div_mod (y_pid_tgid c) (2 ^ 32)). lia. Qed.

(** Outside of session mode the filter looks at its arguments only. *)
Lemma allowed_no_session s c uid pid fd :
  sc_use_tracked_pids cfg = false -> exists ok, forall s, stdio_trace_allowed cfg s c uid pid fd = (s, ok).
Proof. intros Hn. unfold stdio_trace_allowed. rewrite Hn. repeat case_match; by eexists. Qed.

#[export] Instance stdio_local :
  LocalLaws (stdio_system cfg) stdio_entry (fun _ => tt) (fun _ => sc_use_tracked_pids cfg = false) stdio_from (fun n s => bpf_room n (io_args s)).
Proof.
  split; [done| |by eauto with room|].
  - intros n p s c Hr. cbn [stdio_system ps_run].
    assert (forall fd, io_args (stdio_trace_allowed cfg s c (y_uid c) (y_pid c) fd).1 = io_args s) as Hio.
    { intros fd. unfold stdio_trace_allowed, tracked_or_descendant. repeat case_match; try done. }
    destruct p; cbn [run_stdio]; unfold stdio_enter_common, stdio_exit_common; cbv zeta.
    1, 3: specialize (Hio (s32 (y_arg c 0))); destruct (stdio_trace_allowed _ _ _ _ _ _) as [s' [|]]; cbn in *; rewrite Hio; auto with room.
    all: repeat case_match; cbn; auto with room.
  - intros n p s1 s2 c Hn Hr1 Hr2 _ He. cbn [stdio_system ps_run ps_thread ps_samples] in *. unfold stdio_entry in *.
    destruct (allowed_no_session s1 c (y_uid c) (y_pid c) (s32 (y_arg c 0)) Hn) as [ok Ha].
    destruct p; cbn [run_stdio]; unfold stdio_enter_common, stdio_exit_common; rewrite ?Ha, ?bpf_lookup, ?He; cbv zeta.
    1, 3: destruct ok; cbn; (split; [rewrite ?bpf_set_map_room, ?lookup_insert_eq by (by eauto with room); done|exists []; by rewrite !app_nil_r]).
    all: destruct (bpf_map (io_args s2) !! _) eqn:E; [|split; [congruence|exists []; by rewrite !app_nil_r]];
      destruct (_ <=? _), (y_slot c); cbn; rewrite !bpf_delete_map, !lookup_delete_eq; (split; [done|]);
      try (exists []; by rewrite !app_nil_r); eexists; (split; [reflexivity|]); (split; [reflexivity|]);
      (apply Forall_singleton, stdio_from_ctx).
Qed.
End local.

(** Without a session the capture does not depend on scheduling: two
    interleavings of the same calls of the threads submit for every thread the
    same samples in the same order. *)
Theorem stdio_interleaving_independent `{BpfRoom hmap} cfg (l1 l2 : list (stdio_probe * stdio_ctx)) (s : stdio_state hmap) :
  sc_use_tracked_pids cfg = false -> bpf_room (length l1) (io_args s) -> bpf_room (length l2) (io_args s) ->
  (forall t, filter (fun pc => y_pid_tgid pc.2 = t) l1 = filter (fun pc => y_pid_tgid pc.2 = t) l2) ->
  let s1 := run_stdio_probes cfg l1 s in
  let s2 := run_stdio_probes cfg l2 s in
  stdio_rb s1 ≡ₚ stdio_rb s2 /\ forall t, filter (fun d => stdio_from d = t) (stdio_rb s1) = filter (fun d => stdio_from d = t) (stdio_rb s2).
Proof.
  cbv zeta. intros Hn Hr1 Hr2 Ho.
  assert (forall l : list (stdio_probe * stdio_ctx), Forall (fun pc => sc_use_tracked_pids cfg = false) l) as Hq by (intros; by apply list.Forall_true).
  destruct (interleavings_agree (stdio_system cfg) stdio_entry (fun _ => tt) (fun _ => sc_use_tracked_pids cfg = false) stdio_from
    (fun n s => bpf_room n (io_args s)) l1 l2 s (Hq _) (Hq _) Hr1 Hr2 Ho) as [Hs Hp].
  split; [exact Hp|]. intros t. apply (Hs t).
Qed.

(** ** The ring buffer *)

Section past.
Context `{BpfHash hmap}.
Implicit Types (s : stdio_state hmap) (c : stdio_ctx).

(** The state when the samples [pre] have not been consumed. *)
Definition stdio_past (pre : list stdiocap_event_t) s : stdio_state hmap := StdioState (io_args s) (stdio_tracked s) (pre ++ stdio_rb s).

Lemma stdio_past_app p1 p2 s : stdio_past (p1 ++ p2) s = stdio_past p1 (stdio_past p2 s).
Proof. unfold stdio_past. cbn. by rewrite app_assoc. Qed.

Lemma allowed_past cfg pre s c uid pid fd :
  stdio_trace_allowed cfg (stdio_past pre s) c uid pid fd
    = (stdio_past pre (stdio_trace_allowed cfg s c uid pid fd).1, (stdio_trace_allowed cfg s c uid pid fd).2).
Proof. unfold stdio_trace_allowed, tracked_or_descendant. cbn [stdio_past stdio_tracked]. repeat case_match; done. Qed.

(** The probes do not look at the samples. *)
Lemma run_stdio_past cfg pre p s c : run_stdio cfg p (stdio_past pre s) c = stdio_past pre (run_stdio cfg p s c).
Proof.
  assert (forall fd buf is_read, stdio_enter_common cfg (stdio_past pre s) c fd buf is_read = stdio_past pre (stdio_enter_common cfg s c fd buf is_read)) as He.
  { intros fd buf is_read. unfold stdio_enter_common. rewrite allowed_past. by destruct (stdio_trace_allowed cfg s c _ _ _) as [s' [|]]. }
  assert (forall ret, stdio_exit_common cfg (stdio_past pre s) c ret = stdio_past pre (stdio_exit_common cfg s c ret)) as Hx.
  { intros ret. unfold stdio_exit_common. cbn [stdio_past io_args]. destruct (bpf_map_lookup_elem _ _); [|done]. cbv zeta.
    destruct (ret <=? 0); [done|]. destruct (y_slot c); [|done]. unfold stdio_past, stdio_submit. cbn. by rewrite app_assoc. }
  destruct p; cbn [run_stdio]; by rewrite ?He, ?Hx.
Qed.

Lemma run_probes_past cfg pre l s : run_stdio_probes cfg l (stdio_past pre s) = stdio_past pre (run_stdio_probes cfg l s).
Proof.
  revert s. induction l as [|[p c] l IH]; intros s; [done|]. cbn [run_stdio_probes foldl fst snd]. rewrite run_stdio_past. apply IH.
Qed.

Context (getsid : Z -> Z) (e : stdio_env).

Lemma refresh_past pre dir s : stdio_refresh getsid e dir (stdio_past pre s) = stdio_past pre (stdio_refresh getsid e dir s).
Proof. unfold stdio_refresh. by destruct (_ =? _). Qed.

(** What happens in the kernel until the poll of a turn returns. *)
Definition stdio_turn_run s (t : stdio_turn) : stdio_state hmap :=
  run_stdio_probes (stdio_rodata e) (st_probes t) (stdio_refresh getsid e (st_dir t) s).

(** The turns with nobody reading the ring buffer. *)
Definition stdio_unread (turns : list stdio_turn) s : stdio_state hmap := foldl stdio_turn_run s turns.

Lemma stdio_unread_past pre turns s : stdio_unread turns (stdio_past pre s) = stdio_past pre (stdio_unread turns s).
Proof.
  revert s. induction turns as [|t turns IH]; intros s; [done|]. cbn [stdio_unread foldl]. unfold stdio_turn_run at 2 4.
  rewrite refresh_past, run_probes_past. apply IH.
Qed.
End past.

(** ** Output *)

Section output.
Context `{BpfHash hmap} (readlink : bytes -> option bytes) (Hlinks : readlink_ok readlink) (getsid : Z -> Z) (e : stdio_env).
Implicit Types (s : stdio_state hmap).

(** The line of a sample of the command asked for. *)
Definition stdio_wanted (d : stdiocap_event_t) : bool := match so_comm e with Some comm => streq comm (se_comm d) | None => true end.

Definition stdio_line_of (d : stdiocap_event_t) (line : bytes) : Prop :=
  if stdio_wanted d
  then exists data, stdio_sample_ok d data /\ parse_line line = Some (stdio_values readlink d data ++ trunc_values d data)
  else line = [].

Lemma stdio_print_line d : good_stdio d -> stdio_line_of d (stdio_print_event readlink e d).
Proof.
  intros [data Hd]. unfold stdio_line_of, stdio_wanted. pose proof (stdio_print_render readlink e d data Hd) as Hr.
  destruct (so_comm e) as [comm|] eqn:E; [destruct (streq comm (se_comm d)) eqn:Ec|].
  2: { unfold stdio_print_event. by rewrite E, Ec. }
  all: exists data; split; [done|]; rewrite Hr by done; apply parse_line_render; [done|by apply stdio_texts_ok].
Qed.

Lemma stdio_print_lines ds : Forall good_stdio ds -> Forall2 stdio_line_of ds (map (stdio_print_event readlink e) ds).
Proof. induction 1; cbn [map]; constructor; auto using stdio_print_line. Qed.

(** A turn in which the poll succeeds. *)
Definition stdio_calm (t : stdio_turn) : Prop :=
  st_exiting t = false /\ 0 <= st_err t /\ Forall (fun pc => stdio_ctx_ok pc.2) (st_probes t).

Lemma turn_run_good s t : stdio_calm t -> Forall good_stdio (stdio_rb s) -> Forall good_stdio (stdio_rb (stdio_turn_run getsid e s t)).
Proof.
  intros (_ & _ & Hl) Hs. apply (run_all_good (stdio_system (stdio_rodata e)) (ok:=stdio_ctx_ok)); [done|].
  cbn [stdio_system ps_samples]. unfold stdio_refresh. by destruct (_ =? _).
Qed.

(** What has been printed and what is pending are together what the probes
    submitted, in their order. *)
Lemma stdio_loop_lines turns s out :
  Forall stdio_calm turns -> Forall good_stdio (stdio_rb s) ->
  exists printed lines s', stdio_loop readlink getsid e turns s out = (s', out ++ concat lines, None) /\
    Forall2 stdio_line_of printed lines /\ stdio_unread getsid e turns s = stdio_past printed s'.
Proof.
  intros Ht. revert s out. induction Ht as [|t turns Hc _ IH]; intros s out Hs.
  - exists [], [], s. cbn. rewrite app_nil_r. split; [done|]. split; [constructor|by destruct s].
  - cbn [stdio_loop]. pose proof (turn_run_good s t Hc Hs) as Hg. destruct Hc as (-> & He & _). rewrite (proj2 (Z.ltb_ge _ _) He).
    replace (st_err t =? -4) with false by (symmetry; apply Z.eqb_neq; lia). fold (stdio_turn_run getsid e s t).
    set (s1 := stdio_turn_run getsid e s t) in *. set (n := st_delivered t).
    set (s2 := StdioState (io_args s1) (stdio_tracked s1) (drop n (stdio_rb s1))).
    assert (s1 = stdio_past (take n (stdio_rb s1)) s2) as E1 by (unfold stdio_past, s2; cbn; rewrite take_drop; by destruct s1).
    destruct (IH s2 (out ++ concat (map (stdio_print_event readlink e) (take n (stdio_rb s1))))) as (printed & lines & s' & El & Hl & Hu).
    { cbn. by apply Forall_drop. }
    exists (take n (stdio_rb s1) ++ printed), (map (stdio_print_event readlink e) (take n (stdio_rb s1)) ++ lines), s'.
    rewrite El, concat_app, app_assoc. split; [done|]. split.
    + apply Forall2_app; [|done]. apply stdio_print_lines. by apply Forall_take.
    + cbn [stdio_unread foldl]. fold s1. fold (stdio_unread getsid e turns s1). rewrite E1 at 1. by rewrite stdio_unread_past, Hu, stdio_past_app.
Qed.
End output.

(** A startup in which nothing fails. *)
Definition stdio_started (su : stdio_startup) : Prop :=
  sp_open su = true /\ sp_load_err su = 0 /\ sp_attach_err su = 0 /\ sp_malloc su = true /\ sp_ring_buffer_errno su = 0 /\ sp_signal su = true.


(** ** Witnesses *)

Definition cleared : bytes := replicate (Z.to_nat STDIO_MAX_BUF_SIZE) 0.

Lemma cleared_ok : Z.of_nat (length cleared) = STDIO_MAX_BUF_SIZE /\ bytes_ok cleared.
Proof. unfold cleared. rewrite length_replicate. split; [done|]. by apply Forall_replicate. Qed.
#[global] Opaque cleared.

(** Thread 7 of process 7, whose memory holds the byte [a mod 256] at each
    address. *)
Definition cat_ctx (t : Z) (arg : nat -> Z) (ret : Z) : stdio_ctx :=
  StdioCtx (7 * 2 ^ 32 + 7) 0 t (lit "cat" ++ [0]) (fun a => Some (wrapu 8 a)) [] (Some (replicate 64 0)) cleared arg ret.

Lemma cat_ctx_ok t arg ret : 0 <= t < 2 ^ 64 -> stdio_ctx_ok (cat_ctx t arg ret).
Proof.
  intros Ht. split; cbn [cat_ctx y_pid_tgid y_ktime y_comm y_mem y_fault]; [lia|done|by apply ascii_test| |apply cleared_ok].
  intros a b [= <-]. by apply (wrapu_bound 8).
Qed.

(** A write of three bytes, whose sample waits for the second poll, and a read
    in progress. *)
Definition one_write : list stdio_turn :=
  [StdioTurn false None [(SE_enter_write, cat_ctx 10 (fun _ => 1) 0); (SE_exit_write, cat_ctx 15 (fun _ => 0) 3)] 0 0;
   StdioTurn false None [(SE_enter_read, cat_ctx 20 (fun _ => 0) 0)] 1 1].

