(* ===== verification/BrowserBpf.v ===== *)
(** * The browser tracer's kernel probes (src/bpf/browsertrace.bpf.c,
    browsertrace.h)

    Firefox is traced at the read and write functions of NSPR, on the file
    descriptors that NSS imported; Chrome at three copies of a request and one
    of a response.  The invocations and the samples are those of [SslBpf]; the
    sample's buffer has 512 KB here. *)

From S2P Require Import Prelude CLib BpfMap UserMem SslBpf.

(** ** Data *)

Definition BROWSER_MAX_BUF_SIZE : Z := 512 * 1024.

Section probes.
Context `{BpfHash hmap} (cfg : ssl_config).

Record browser_state := BrowserState {
  b_start_ns : hmap Z Z;
  b_bufs : hmap Z Z;
  nss_import_fds : hmap Z Z;  (* by thread: the descriptor SSL_ImportFD was given *)
  nss_ssl_fds : hmap Z Z;     (* the traced descriptors, by their address *)
  b_rb : list probe_SSL_data_t;
}.

Definition set_b_start (s : browser_state) m := BrowserState m (b_bufs s) (nss_import_fds s) (nss_ssl_fds s) (b_rb s).
Definition set_b_bufs (s : browser_state) m := BrowserState (b_start_ns s) m (nss_import_fds s) (nss_ssl_fds s) (b_rb s).
Definition set_import_fds (s : browser_state) m := BrowserState (b_start_ns s) (b_bufs s) m (nss_ssl_fds s) (b_rb s).
Definition set_ssl_fds (s : browser_state) m := BrowserState (b_start_ns s) (b_bufs s) (nss_import_fds s) m (b_rb s).
Definition browser_submit (s : browser_state) d :=
  BrowserState (b_start_ns s) (b_bufs s) (nss_import_fds s) (nss_ssl_fds s) (b_rb s ++ [d]).

(** ** Helpers *)

Definition browser_trace_allowed (uid pid : Z) : bool :=
  if negb (targ_pid cfg =? 0) && negb (u32 (targ_pid cfg) =? pid) then false
  else if negb (targ_uid cfg =? NO_UID) && negb (targ_uid cfg =? uid) then false
  else true.

Definition store_rw_enter (s : browser_state) (c : ssl_ctx) (buf : Z) : browser_state :=
  if negb (browser_trace_allowed (x_uid c) (x_pid c)) then s
  else
    let s := set_b_bufs s (bpf_map_set (b_bufs s) (x_tid c) buf) in
    set_b_start s (bpf_map_set (b_start_ns s) (x_tid c) (x_ktime c)).

Definition emit_plaintext_buffer (s : browser_state) (c : ssl_ctx) (buf len rw : Z) : browser_state :=
  if negb (browser_trace_allowed (x_uid c) (x_pid c)) then s
  else if (s64 len <=? 0) || (BROWSER_MAX_BUF_SIZE * 8 <? len) then s
  else match x_slot c with
  | None => s
  | Some slot =>
      let data_len := if 2 ^ 32 - 1 <? len then 2 ^ 32 - 1 else len in
      let buf_copy_size := if BROWSER_MAX_BUF_SIZE <? data_len then BROWSER_MAX_BUF_SIZE else data_len in
      let mk size filled data :=
        SslData (x_ktime c) 0 (x_pid c) (x_tid c) (x_uid c) data_len size filled rw (x_comm c) data false in
      browser_submit s (match user_read (x_mem c) buf buf_copy_size with
                        | Some l => mk buf_copy_size 1 (copy_at slot 0 l)
                        | None => mk 0 0 slot
                        end)
  end.

Definition is_tracked_nss_fd (s : browser_state) (fd : Z) : bool :=
  match bpf_map_lookup_elem (nss_ssl_fds s) fd with Some _ => true | None => false end.

Definition browsertrace_exit (rw : Z) (s : browser_state) (c : ssl_ctx) : browser_state :=
  if negb (browser_trace_allowed (x_uid c) (x_pid c)) then s
  else match bpf_map_lookup_elem (b_bufs s) (x_tid c) with
  | None => s
  | Some bufp =>
      match bpf_map_lookup_elem (b_start_ns s) (x_tid c) with
      | None => s
      | Some tsp =>
          let len := s32 (x_rc c) in
          if len <=? 0 then s
          else match x_slot c with
          | None => s
          | Some slot =>
              let buf_copy_size := if BROWSER_MAX_BUF_SIZE <? len then BROWSER_MAX_BUF_SIZE else len in
              let ret := user_read (x_mem c) bufp buf_copy_size in
              let s := set_b_bufs s (bpf_map_delete_elem (b_bufs s) (x_tid c)) in
              let s := set_b_start s (bpf_map_delete_elem (b_start_ns s) (x_tid c)) in
              let mk size filled data :=
                SslData (x_ktime c) (u64 (x_ktime c - tsp)) (x_pid c) (x_tid c) (x_uid c) len size filled rw (x_comm c) data false in
              browser_submit s (match ret with
                                | Some l => mk buf_copy_size 1 (copy_at slot 0 l)
                                | None => mk 0 0 slot
                                end)
          end
      end
  end.

(** ** Probes *)

Definition probe_nss_rw_enter (s : browser_state) (c : ssl_ctx) : browser_state :=
  if negb (is_tracked_nss_fd s (x_arg c 0)) then s else store_rw_enter s c (x_arg c 1).

Definition probe_nss_import_fd_enter (s : browser_state) (c : ssl_ctx) : browser_state :=
  set_import_fds s (bpf_map_set (nss_import_fds s) (x_tid c) (x_arg c 1)).

Definition probe_nss_import_fd_exit (s : browser_state) (c : ssl_ctx) : browser_state :=
  let ret_fd := x_rc c in
  let imported_fd := bpf_map_lookup_elem (nss_import_fds s) (x_tid c) in
  let s := if negb (ret_fd =? 0) then set_ssl_fds s (bpf_map_set (nss_ssl_fds s) ret_fd 1) else s in
  let s := match imported_fd with
           | Some fd => if negb (fd =? 0) then set_ssl_fds s (bpf_map_set (nss_ssl_fds s) fd 1) else s
           | None => s
           end in
  set_import_fds s (bpf_map_delete_elem (nss_import_fds s) (x_tid c)).

Definition probe_nss_close_enter (s : browser_state) (c : ssl_ctx) : browser_state :=
  set_ssl_fds s (bpf_map_delete_elem (nss_ssl_fds s) (x_arg c 0)).

Definition probe_chrome_plaintext_request (s : browser_state) (c : ssl_ctx) := emit_plaintext_buffer s c (x_arg c 1) (x_arg c 2) 1.
Definition probe_chrome_plaintext_response (s : browser_state) (c : ssl_ctx) := emit_plaintext_buffer s c (x_arg c 1) (x_arg c 2) 0.
Definition probe_nss_read_exit := browsertrace_exit 0.
Definition probe_nss_write_exit := browsertrace_exit 1.

Inductive browser_probe :=
  | BP_nss_rw_enter | BP_nss_import_fd_enter | BP_nss_import_fd_exit | BP_nss_close_enter
  | BP_chrome_request_1 | BP_chrome_request_2 | BP_chrome_request_3 | BP_chrome_response
  | BP_nss_read_exit | BP_nss_write_exit.

Definition run_browser (p : browser_probe) : browser_state -> ssl_ctx -> browser_state :=
  match p with
  | BP_nss_rw_enter => probe_nss_rw_enter
  | BP_nss_import_fd_enter => probe_nss_import_fd_enter
  | BP_nss_import_fd_exit => probe_nss_import_fd_exit
  | BP_nss_close_enter => probe_nss_close_enter
  | BP_chrome_request_1 | BP_chrome_request_2 | BP_chrome_request_3 => probe_chrome_plaintext_request
  | BP_chrome_response => probe_chrome_plaintext_response
  | BP_nss_read_exit => probe_nss_read_exit
  | BP_nss_write_exit => probe_nss_write_exit
  end.

Definition run_browser_probes (l : list (browser_probe * ssl_ctx)) (s : browser_state) : browser_state :=
  foldl (fun s pc => run_browser pc.1 s pc.2) s l.

End probes.

Arguments browser_state : clear implicits.
Arguments BrowserState {hmap}.
Arguments b_start_ns {hmap}.
Arguments b_bufs {hmap}.
Arguments nss_import_fds {hmap}.
Arguments nss_ssl_fds {hmap}.
Arguments b_rb {hmap}.
