(* ===== verification/BrowserBpfSpec.v ===== *)
(** * What the browser probes capture

    The set of traced NSS descriptors as an abstract specification that the
    probes implement, the sample of an NSPR call, and the copies of Chrome. *)

From S2P Require Import Prelude CLib BpfMap Tracer UserMem SslBpf BrowserBpf.

(** ** The traced descriptors *)

(** What the probes keep of the imports: the imports in progress, by thread,
    and the set of traced descriptors. *)
Record nss_view := NssView { nv_importing : gmap Z Z; nv_traced : gset Z }.

(** The descriptors an import adds: a null pointer is none. *)
Definition fd_set (fd : Z) : gset Z := if fd =? 0 then ∅ else {[fd]}.

Definition nss_step (v : nss_view) (pc : browser_probe * ssl_ctx) : nss_view :=
  let '(p, c) := pc in
  match p with
  | BP_nss_import_fd_enter => NssView (<[x_tid c := x_arg c 1]> (nv_importing v)) (nv_traced v)
  | BP_nss_import_fd_exit =>
      NssView (delete (x_tid c) (nv_importing v))
        (nv_traced v ∪ fd_set (x_rc c) ∪ default ∅ (fd_set <$> nv_importing v !! x_tid c))
  | BP_nss_close_enter => NssView (nv_importing v) (nv_traced v ∖ {[x_arg c 0]})
  | _ => v
  end.

Section nss.
Context `{BpfRoom hmap} (cfg : ssl_config).
Implicit Types (s : browser_state hmap) (c : ssl_ctx).

Definition nss_abs s : nss_view := NssView (bpf_map (nss_import_fds s)) (dom (bpf_map (nss_ssl_fds s))).

(** Room for [n] more probes: each adds at most two descriptors. *)
Definition nss_room (n : nat) s : Prop :=
  (size (bpf_map (nss_import_fds s)) + n <= bpf_max_entries (nss_import_fds s))%nat /\
  (size (bpf_map (nss_ssl_fds s)) + 2 * n <= bpf_max_entries (nss_ssl_fds s))%nat.

(** A probe on data leaves the descriptors alone. *)
Definition same_fds s s' : Prop := nss_import_fds s' = nss_import_fds s /\ nss_ssl_fds s' = nss_ssl_fds s.

Lemma emit_same_fds s c buf len rw : same_fds s (emit_plaintext_buffer cfg s c buf len rw).
Proof. unfold emit_plaintext_buffer. repeat case_match; by split. Qed.

Lemma rw_enter_same_fds s c : same_fds s (probe_nss_rw_enter cfg s c).
Proof. unfold probe_nss_rw_enter, store_rw_enter. repeat case_match; by split. Qed.

Lemma exit_same_fds rw s c : same_fds s (browsertrace_exit cfg rw s c).
Proof. unfold browsertrace_exit. repeat case_match; by split. Qed.

Lemma size_delete_le (k : Z) (m : gmap Z Z) : (size (delete k m) <= size m)%nat.
Proof. rewrite map_size_delete. destruct (m !! k); unfold id; lia. Qed.

(** A set of the map of descriptors with room. *)
Lemma track_fd (m : hmap Z Z) fd n :
  (size (bpf_map m) + S n <= bpf_max_entries m)%nat ->
  let m' := if negb (fd =? 0) then bpf_map_set m fd 1 else m in
  dom (bpf_map m') = dom (bpf_map m) ∪ fd_set fd /\ (size (bpf_map m') + n <= bpf_max_entries m')%nat.
Proof.
  intros Hn. unfold fd_set. destruct (fd =? 0); cbn [negb]; [split; [set_solver|lia]|].
  rewrite bpf_set_max, bpf_set_map_room by (left; lia). split; [rewrite dom_insert_L; set_solver|].
  rewrite map_size_insert. case_match; unfold id; lia.
Qed.

Lemma run_browser_nss n s p c :
  nss_room (S n) s -> nss_abs (run_browser cfg p s c) = nss_step (nss_abs s) (p, c) /\ nss_room n (run_browser cfg p s c).
Proof.
  intros [Hi Hf].
  assert (forall s', same_fds s s' -> nss_abs s' = nss_abs s /\ nss_room n s') as Hsame.
  { intros s' [E1 E2]. unfold nss_abs, nss_room. rewrite E1, E2. split; [done|lia]. }
  destruct p; cbn [run_browser nss_step]; try (apply Hsame; (apply rw_enter_same_fds || apply emit_same_fds || apply exit_same_fds)).
  - unfold probe_nss_import_fd_enter, nss_abs, nss_room. cbn. rewrite bpf_set_max, bpf_set_map_room by (left; lia).
    split; [done|]. rewrite map_size_insert. case_match; unfold id; lia.
  - unfold probe_nss_import_fd_exit. cbv zeta. rewrite bpf_lookup.
    set (m1 := if negb (x_rc c =? 0) then bpf_map_set (nss_ssl_fds s) (x_rc c) 1 else nss_ssl_fds s).
    replace (if negb (x_rc c =? 0) then set_ssl_fds s (bpf_map_set (nss_ssl_fds s) (x_rc c) 1) else s) with (set_ssl_fds s m1)
      by (unfold m1; destruct (negb _); [done|by destruct s]).
    destruct (track_fd (nss_ssl_fds s) (x_rc c) (2 * n + 1) ltac:(lia)) as [Hd1 Hs1]. fold m1 in Hd1, Hs1.
    destruct (bpf_map (nss_import_fds s) !! x_tid c) as [fd|] eqn:E.
    + set (m2 := if negb (fd =? 0) then bpf_map_set m1 fd 1 else m1).
      replace (if negb (fd =? 0) then set_ssl_fds (set_ssl_fds s m1) (bpf_map_set (nss_ssl_fds (set_ssl_fds s m1)) fd 1) else set_ssl_fds s m1)
        with (set_ssl_fds s m2) by (unfold m2; by destruct (fd =? 0)).
      destruct (track_fd m1 fd (2 * n) ltac:(lia)) as [Hd2 Hs2]. fold m2 in Hd2, Hs2. unfold nss_abs, nss_room. cbn.
      rewrite bpf_delete_max, bpf_delete_map, Hd2, Hd1. rewrite E. split; [done|]. pose proof (size_delete_le (x_tid c) (bpf_map (nss_import_fds s))). lia.
    + unfold nss_abs, nss_room. cbn. rewrite bpf_delete_max, bpf_delete_map, Hd1, E. split; [f_equal; cbn; set_solver|].
      pose proof (size_delete_le (x_tid c) (bpf_map (nss_import_fds s))). lia.
  - unfold probe_nss_close_enter, nss_abs, nss_room. cbn. rewrite bpf_delete_max, bpf_delete_map, dom_delete_L. split; [done|].
    pose proof (size_delete_le (x_arg c 0) (bpf_map (nss_ssl_fds s))). lia.
Qed.

Lemma run_browser_probes_nss l s :
  nss_room (length l) s -> nss_abs (run_browser_probes cfg l s) = foldl nss_step (nss_abs s) l.
Proof.
  revert s. induction l as [|[p c] l IH]; intros s Hr; [done|]. cbn [length] in Hr.
  destruct (run_browser_nss (length l) s p c Hr) as [E Hr']. cbn [run_browser_probes foldl fst snd]. rewrite <- E. by apply IH.
Qed.

Lemma tracked_fd_abs s fd : is_tracked_nss_fd s fd = bool_decide (fd ∈ nv_traced (nss_abs s)).
Proof.
  unfold is_tracked_nss_fd. rewrite bpf_lookup. cbn. symmetry.
  destruct (bpf_map (nss_ssl_fds s) !! fd) eqn:E; [apply bool_decide_eq_true_2, elem_of_dom; by eexists|].
  by apply bool_decide_eq_false_2, not_elem_of_dom.
Qed.
End nss.

(** C23: the traced descriptors are exactly the imported ones: over any sequence
    of probes within the capacity of the maps, the two descriptor maps follow
    the abstract specification [nss_step] (an import that returns adds the
    descriptor it was given and the one it returns, unless null; a close
    removes its own; nothing else changes them), and a read or write is
    recorded, for the buffer it was given, exactly when its descriptor is in
    that set and the process passes the filter. *)
Theorem nss_traces_imported_fds `{BpfRoom hmap} cfg l (s : browser_state hmap) c :
  nss_room (length l) s -> has_room (b_bufs (run_browser_probes cfg l s)) (x_tid c) ->
  let s' := run_browser_probes cfg l s in
  let traced := nv_traced (foldl nss_step (nss_abs s) l) in
  nss_abs s' = foldl nss_step (nss_abs s) l /\
  (x_arg c 0 ∈ traced -> browser_trace_allowed cfg (x_uid c) (x_pid c) = true ->
     bpf_map (b_bufs (probe_nss_rw_enter cfg s' c)) = <[x_tid c := x_arg c 1]> (bpf_map (b_bufs s'))) /\
  (x_arg c 0 ∉ traced \/ browser_trace_allowed cfg (x_uid c) (x_pid c) = false -> probe_nss_rw_enter cfg s' c = s').
Proof.
  cbv zeta. intros Hr Hb. pose proof (run_browser_probes_nss cfg l s Hr) as E. split; [done|]. rewrite <- E.
  set (s' := run_browser_probes cfg l s) in *. unfold probe_nss_rw_enter, store_rw_enter. rewrite (tracked_fd_abs s').
  split.
  - intros Hin Ha. rewrite bool_decide_eq_true_2, Ha by done. cbn. by apply bpf_set_map_room.
  - intros [Hin|Ha]; [by rewrite bool_decide_eq_false_2|]. rewrite Ha. by destruct (negb _).
Qed.

(** ** Samples *)

(** The sample holds [data], all of what its size says. *)
Definition captured (d : probe_SSL_data_t) (data : bytes) : Prop :=
  d_buf_filled d = 1 /\ d_buf_size d = Z.of_nat (length data) /\ take (length data) (d_buf d) = data.

Lemma captured_copy0 (slot data : bytes) : take (length data) (copy_at slot 0 data) = data.
Proof. unfold copy_at. change (take (Z.to_nat 0) slot) with (@nil Z). cbn [app]. by rewrite take_app_length. Qed.

Section calls.
Context `{BpfRoom hmap} (cfg : ssl_config).
Implicit Types (s : browser_state hmap) (c : ssl_ctx).

(** The entries of a thread, and the descriptors the threads share. *)
Definition browser_entries s (t : Z) : option Z * option Z * option Z :=
  (bpf_map (b_bufs s) !! t, bpf_map (b_start_ns s) !! t, bpf_map (nss_import_fds s) !! t).

Definition traced_fds s : gmap Z Z := bpf_map (nss_ssl_fds s).

(** The probes that leave the descriptors alone. *)
Definition data_probe (p : browser_probe) : Prop :=
  match p with BP_nss_import_fd_exit | BP_nss_close_enter => False | _ => True end.

(** The probes as a tracer. *)
Definition browser_system : probe_system browser_probe ssl_ctx (browser_state hmap) probe_SSL_data_t := ProbeSystem (run_browser cfg) x_tid b_rb.

#[export] Instance browser_frame : FrameLaws browser_system browser_entries.
Proof.
  intros p s c t Ht. cbn [browser_system ps_run ps_thread] in *. apply not_eq_sym in Ht. unfold browser_entries.
  destruct p; cbn [run_browser]; unfold probe_nss_rw_enter, store_rw_enter, probe_nss_import_fd_exit, probe_chrome_plaintext_request,
    probe_chrome_plaintext_response, emit_plaintext_buffer, probe_nss_read_exit, probe_nss_write_exit, browsertrace_exit; cbv zeta;
    repeat case_match; cbn; rewrite ?bpf_set_other, ?bpf_delete_map, ?lookup_delete_ne by done; done.
Qed.

Definition nss_exit (write : bool) : browser_probe := if write then BP_nss_write_exit else BP_nss_read_exit.

Lemma browsertrace_exit_entry rw s c bufp tsp slot data :
  browser_trace_allowed cfg (x_uid c) (x_pid c) = true ->
  bpf_map (b_bufs s) !! x_tid c = Some bufp -> bpf_map (b_start_ns s) !! x_tid c = Some tsp ->
  0 < s32 (x_rc c) -> x_slot c = Some slot -> user_read (x_mem c) bufp (Z.min BROWSER_MAX_BUF_SIZE (s32 (x_rc c))) = Some data ->
  let s' := browsertrace_exit cfg rw s c in
  (exists d, b_rb s' = b_rb s ++ [d] /\ d_timestamp_ns d = x_ktime c /\ d_delta_ns d = u64 (x_ktime c - tsp) /\
     d_pid d = x_pid c /\ d_tid d = x_tid c /\ d_uid d = x_uid c /\ d_comm d = x_comm c /\ d_rw d = rw /\
     d_is_handshake d = false /\ d_len d = s32 (x_rc c) /\ captured d data) /\
  bpf_map (b_bufs s') !! x_tid c = None.
Proof.
  cbv zeta. intros Ha Hb Ht Hn Hs Hd. unfold browsertrace_exit. rewrite Ha, !bpf_lookup, Hb, Ht, Hs. cbn [negb]. cbv zeta. decide_tests.
  set (k := if _ <? _ then _ else _). assert (k = Z.min BROWSER_MAX_BUF_SIZE (s32 (x_rc c))) as ->
    by (unfold k; destruct (Z.ltb_spec BROWSER_MAX_BUF_SIZE (s32 (x_rc c))); lia).
  rewrite Hd. pose proof (user_read_length _ _ _ _ Hd) as Hl.
  assert (0 < BROWSER_MAX_BUF_SIZE) by done. cbn [browser_submit b_rb b_bufs set_b_bufs set_b_start].
  split; [|by rewrite bpf_delete_map, lookup_delete_eq].
  eexists. split; [reflexivity|]. cbn. do 9 (split; [done|]). split; [done|]. split; [cbn; lia|]. apply captured_copy0.
Qed.

Lemma browser_entries_inj s1 s2 t : browser_entries s1 t = browser_entries s2 t ->
  bpf_map (b_bufs s1) !! t = bpf_map (b_bufs s2) !! t /\ bpf_map (b_start_ns s1) !! t = bpf_map (b_start_ns s2) !! t /\
  bpf_map (nss_import_fds s1) !! t = bpf_map (nss_import_fds s2) !! t.
Proof. by intros [= -> -> ->]. Qed.

Lemma browsertrace_exit_idle rw s c : bpf_map (b_bufs s) !! x_tid c = None -> browsertrace_exit cfg rw s c = s.
Proof. intros Hb. unfold browsertrace_exit. rewrite bpf_lookup, Hb. by destruct (browser_trace_allowed _ _ _). Qed.
End calls.


(** ** Locality *)

Section local.
Context `{BpfRoom hmap} (cfg : ssl_config).
Implicit Types (s : browser_state hmap) (c : ssl_ctx).

Definition browser_room (n : nat) s : Prop := bpf_room n (b_bufs s) /\ bpf_room n (b_start_ns s) /\ bpf_room n (nss_import_fds s).

(** The samples of the data probes depend on the descriptors and on the entries
    of their own thread. *)
#[export] Instance browser_local : LocalLaws (browser_system cfg) browser_entries traced_fds data_probe d_tid browser_room.
Proof.
  assert (forall n s, browser_room (S n) s -> browser_room n s) as Hless by (intros n s (? & ? & ?); split_and!; auto with room).
  split; [|intros n p s c Hr|exact Hless|].
  - intros p s c Hq. unfold traced_fds. cbn [browser_system ps_run]. destruct p; try done; cbn [run_browser];
      unfold probe_nss_rw_enter, store_rw_enter, probe_chrome_plaintext_request, probe_chrome_plaintext_response, emit_plaintext_buffer,
        probe_nss_read_exit, probe_nss_write_exit, browsertrace_exit; cbv zeta; repeat case_match; done.
  - pose proof (Hless n s Hr) as Hl. destruct Hr as (Hb & Hs & Hi). cbn [browser_system ps_run].
    destruct p; cbn [run_browser]; unfold probe_nss_rw_enter, store_rw_enter, probe_nss_import_fd_enter, probe_nss_import_fd_exit, probe_nss_close_enter,
      probe_chrome_plaintext_request, probe_chrome_plaintext_response, emit_plaintext_buffer, probe_nss_read_exit, probe_nss_write_exit,
      browsertrace_exit; cbv zeta; repeat case_match; try exact Hl; split_and!; cbn; auto with room.
  - intros n p s1 s2 c Hq (Hb1 & Hs1 & Hi1) (Hb2 & Hs2 & Hi2) Hf He. cbn [browser_system ps_run ps_thread ps_samples] in *.
    destruct (browser_entries_inj _ _ _ He) as (Eb & Es & Ei). unfold traced_fds in Hf.
    assert (forall fd, is_tracked_nss_fd s1 fd = is_tracked_nss_fd s2 fd) as Ht by (intros fd; unfold is_tracked_nss_fd; by rewrite !bpf_lookup, Hf).
    destruct p; try done; cbn [run_browser];
      unfold probe_nss_rw_enter, store_rw_enter, probe_nss_import_fd_enter, probe_chrome_plaintext_request, probe_chrome_plaintext_response,
        emit_plaintext_buffer, probe_nss_read_exit, probe_nss_write_exit, browsertrace_exit; cbv zeta; rewrite ?Ht, ?bpf_lookup, ?Eb, ?Es;
      repeat case_match; split; try exact He; try (exists []; by rewrite !app_nil_r);
      try (eexists; split; [reflexivity|]; split; [reflexivity|]; by repeat constructor);
      unfold browser_entries; cbn; rewrite ?bpf_set_map_room, ?bpf_delete_map, ?lookup_insert_eq, ?lookup_delete_eq, ?Eb, ?Es, ?Ei by (eauto with room); done.
Qed.
End local.

(** Once the descriptors are known the capture does not depend on scheduling:
    two interleavings of the same calls and copies of the threads submit for
    every thread the same samples in the same order. *)
Theorem browser_interleaving_independent `{BpfRoom hmap} cfg (l1 l2 : list (browser_probe * ssl_ctx)) (s : browser_state hmap) :
  Forall (fun pc => data_probe pc.1) l1 -> Forall (fun pc => data_probe pc.1) l2 -> browser_room (length l1) s -> browser_room (length l2) s ->
  (forall t, filter (fun pc => x_tid pc.2 = t) l1 = filter (fun pc => x_tid pc.2 = t) l2) ->
  let s1 := run_browser_probes cfg l1 s in
  let s2 := run_browser_probes cfg l2 s in
  b_rb s1 ≡ₚ b_rb s2 /\ forall t, filter (fun d => d_tid d = t) (b_rb s1) = filter (fun d => d_tid d = t) (b_rb s2).
Proof.
  cbv zeta. intros Hq1 Hq2 Hr1 Hr2 Ho.
  destruct (interleavings_agree (browser_system cfg) browser_entries traced_fds data_probe d_tid browser_room l1 l2 s Hq1 Hq2 Hr1 Hr2 Ho) as [Hs Hp].
  split; [exact Hp|]. intros t. apply (Hs t).
Qed.

(** C30: what a Chrome copy is captured to: a copy of [n] bytes by an admitted
    process is reported exactly when [0 < n <= 4 MB] and the ring buffer has
    room, in one sample with the direction of the copy, the length [n] and as
    data the first [min n 512K] bytes of the source; when the source cannot be
    read the sample says so and holds no data; and no copy touches the entries
    of the calls in progress or the descriptors. *)
Theorem chrome_copy_capture `{BpfHash hmap} cfg (s : browser_state hmap) c (response : bool) :
  let n := x_arg c 2 in
  let k := Z.min BROWSER_MAX_BUF_SIZE n in
  let s' := run_browser cfg (if response then BP_chrome_response else BP_chrome_request_1) s c in
  0 <= n < 2 ^ 64 -> browser_trace_allowed cfg (x_uid c) (x_pid c) = true ->
  (n = 0 \/ 2 ^ 22 < n \/ x_slot c = None -> s' = s) /\
  (forall slot, 0 < n <= 2 ^ 22 -> x_slot c = Some slot -> exists d, s' = browser_submit s d /\
     d_rw d = Z.b2z (negb response) /\ d_len d = n /\ d_pid d = x_pid c /\ d_timestamp_ns d = x_ktime c /\
     match user_read (x_mem c) (x_arg c 1) k with
     | Some data => captured d data /\ d_buf_size d = k
     | None => d_buf_filled d = 0 /\ d_buf_size d = 0
     end).
Proof.
  cbv zeta. intros Hn Ha.
  assert (run_browser cfg (if response then BP_chrome_response else BP_chrome_request_1) s c
          = emit_plaintext_buffer cfg s c (x_arg c 1) (x_arg c 2) (Z.b2z (negb response))) as -> by (by destruct response).
  unfold emit_plaintext_buffer. rewrite Ha. cbn [negb]. change (BROWSER_MAX_BUF_SIZE * 8) with (2 ^ 22).
  assert (x_arg c 2 < 2 ^ 63 -> s64 (x_arg c 2) = x_arg c 2) as H64 by (intros; apply wraps_id; lia).
  split.
  - intros [Hz|[Hbig|Hsl]].
    + rewrite Hz. done.
    + destruct (s64 _ <=? 0); cbn [orb]; [done|]. by decide_tests.
    + rewrite Hsl. by destruct (_ || _).
  - intros slot Hr Hs. rewrite H64 by lia. decide_tests. cbn [orb]. rewrite Hs. cbv zeta.
    assert (BROWSER_MAX_BUF_SIZE = 2 ^ 19) as HB by done.
    set (k := if BROWSER_MAX_BUF_SIZE <? _ then _ else _). assert (k = Z.min BROWSER_MAX_BUF_SIZE (x_arg c 2)) as ->
      by (unfold k; destruct (Z.ltb_spec BROWSER_MAX_BUF_SIZE (x_arg c 2)); lia).
    eexists. split; [reflexivity|]. destruct (user_read _ _ _) as [data|] eqn:E; cbn; do 4 (split; [done|]); [|done].
    pose proof (user_read_length _ _ _ _ E). split; [|done]. split; [done|]. split; [cbn; lia|]. apply captured_copy0.
Qed.

(** ** Findings *)

(** A traced call that moves no data leaves its entry behind, and the next call
    of the thread on a descriptor that is not traced is reported as if it had
    used that entry's buffer. *)
Lemma stale_entry_reported `{BpfRoom hmap} cfg rw (s : browser_state hmap) c0 ce cx bufp tsp slot data :
  browser_trace_allowed cfg (x_uid cx) (x_pid cx) = true ->
  s32 (x_rc c0) <= 0 -> is_tracked_nss_fd s (x_arg ce 0) = false ->
  bpf_map (b_bufs s) !! x_tid cx = Some bufp -> bpf_map (b_start_ns s) !! x_tid cx = Some tsp ->
  0 < s32 (x_rc cx) -> x_slot cx = Some slot -> user_read (x_mem cx) bufp (Z.min BROWSER_MAX_BUF_SIZE (s32 (x_rc cx))) = Some data ->
  let s1 := probe_nss_rw_enter cfg (browsertrace_exit cfg rw s c0) ce in
  exists d, b_rb (browsertrace_exit cfg rw s1 cx) = b_rb s ++ [d] /\ captured d data.
Proof.
  cbv zeta. intros Ha Hempty Hfd Hb Ht Hn Hs Hd.
  assert (browsertrace_exit cfg rw s c0 = s) as ->.
  { unfold browsertrace_exit. repeat case_match; try done; bool_to_prop; lia. }
  unfold probe_nss_rw_enter. rewrite Hfd. cbn [negb].
  destruct (browsertrace_exit_entry cfg rw s cx bufp tsp slot data Ha Hb Ht Hn Hs Hd) as [(d & E & _ & _ & _ & _ & _ & _ & _ & _ & _ & Hc) _].
  by exists d.
Qed.

(** ** Witnesses *)

(** A process whose memory holds the byte [a mod 256] at each address. *)
Definition browser_ctx (tgid tid t : Z) (arg : nat -> Z) (rc : Z) : ssl_ctx :=
  SslCtx (tgid * 2 ^ 32 + tid) 0 t (replicate 16 0) (fun a => Some (wrapu 8 a)) (Some (replicate 64 0)) arg rc.

Definition browser_state0 : browser_state bounded := BrowserState (bd_empty 64) (bd_empty 64) (bd_empty 64) (bd_empty 64) [].

Definition no_filter : ssl_config := SslConfig 0 NO_UID.

(** Thread 7 imports descriptor 900 as 901, and thread 8 closes 901. *)
Definition imports : list (browser_probe * ssl_ctx) :=
  [(BP_nss_import_fd_enter, browser_ctx 7 7 10 (fun _ => 900) 0); (BP_nss_import_fd_exit, browser_ctx 7 7 11 (fun _ => 0) 901);
   (BP_nss_close_enter, browser_ctx 7 8 12 (fun _ => 901) 0)].

Definition one_import : browser_state bounded := run_browser_probes no_filter imports browser_state0.

Lemma nss_traces_imported_fds_witness :
  nv_traced (nss_abs one_import) = {[900]} /\
  bpf_map (b_bufs (probe_nss_rw_enter no_filter one_import (browser_ctx 7 9 13 (fun i => match i with O => 900 | _ => 65 end) 0)))
    = <[9 := 65]> (bpf_map (b_bufs one_import)) /\
  probe_nss_rw_enter no_filter one_import (browser_ctx 7 9 13 (fun _ => 901) 0) = one_import.
Proof.
  assert (nss_room (length imports) browser_state0) as Hr by (vm_compute; lia).
  assert (forall c, has_room (b_bufs (run_browser_probes no_filter imports browser_state0)) (x_tid c)) as Hb by (intros c; left; vm_compute; lia).
  assert (nv_traced (foldl nss_step (nss_abs browser_state0) imports) = {[900]}) as Ht by (vm_compute; reflexivity).
  destruct (nss_traces_imported_fds no_filter imports browser_state0 (browser_ctx 7 9 13 (fun i => match i with O => 900 | _ => 65 end) 0) Hr (Hb _))
    as (E & Hin & _).
  destruct (nss_traces_imported_fds no_filter imports browser_state0 (browser_ctx 7 9 13 (fun _ => 901) 0) Hr (Hb _)) as (_ & _ & Hout).
  unfold one_import. split; [by rewrite E|]. split.
  - apply Hin; [rewrite Ht; by apply elem_of_singleton|reflexivity].
  - apply Hout. left. rewrite Ht. by intros ?%elem_of_singleton.
Defined.


Lemma chrome_copy_capture_witness :
  exists d, run_browser no_filter BP_chrome_response browser_state0 (browser_ctx 7 7 20 (fun i => match i with 1%nat => 65 | _ => 3 end) 0)
      = browser_submit browser_state0 d /\ d_rw d = 0 /\ captured d [65; 66; 67].
Proof.
  destruct (chrome_copy_capture no_filter browser_state0 (browser_ctx 7 7 20 (fun i => match i with 1%nat => 65 | _ => 3 end) 0) true) as [_ H].
  - vm_compute. split; [discriminate|reflexivity].
  - reflexivity.
  - destruct (H (replicate 64 0)) as (d & E & Hrw & _ & _ & _ & Hd).
    + vm_compute. split; [reflexivity|discriminate].
    + reflexivity.
    + exists d. split; [exact E|]. split; [exact Hrw|]. apply Hd.
Defined.
