(* ===== verification/Browser.v ===== *)
(** * The browser tracer's userspace program (src/bpf/browsertrace.c)

    From the path of a browser, or of a wrapper script, to its executable; the
    filter on the executable of the traced processes, with its cache; the copy
    points of Chrome; the attachments; the printer and the program.  The file
    system, the shell, libbpf and /proc are parameters. *)

From Stdlib Require Import Floats.SpecFloat.
From S2P Require Import Prelude CLib Unicode Jsonl SslBpf CFloat SslSniff BrowserBpf.

(** ** Options *)

Record browser_env := BrowserEnv { be_pid : Z; be_uid : Z; be_comm : option bytes; be_binary_path : option bytes }.

Definition browser_env0 : browser_env := BrowserEnv INVALID_PID INVALID_UID None None.

Inductive browser_option := BO_p | BO_u | BO_c | BO_v | BO_binary_path | BO_end | BO_unknown.

(** None is a refused option, or the missing path at the end. *)
Definition browser_parse_arg (key : browser_option) (arg : bytes) (e : browser_env) : option browser_env :=
  let 'BrowserEnv pid uid comm binary_path := e in
  match key with
  | BO_p => Some (BrowserEnv (atoi (cstr arg)) uid comm binary_path)
  | BO_u => Some (BrowserEnv pid (atoi (cstr arg)) comm binary_path)
  | BO_c => Some (BrowserEnv pid uid (Some (cstr arg)) binary_path)
  | BO_v => Some e
  | BO_binary_path => Some (BrowserEnv pid uid comm (Some (cstr arg)))
  | BO_end => match binary_path with Some _ => Some e | None => None end
  | BO_unknown => None
  end.

Definition browser_parse_args (l : list (browser_option * bytes)) : option browser_env :=
  fold_opt (fun e o => browser_parse_arg o.1 o.2 e) browser_env0 (l ++ [(BO_end, [])]).

Definition browser_rodata (e : browser_env) : ssl_config :=
  SslConfig (if be_pid e =? INVALID_PID then 0 else be_pid e) (u32 (be_uid e)).

(** ** Paths

    A path is a C string: the bytes before the NUL. *)

Definition SLASH : Z := 47.

Definition copy_string (dst_size : nat) (src : bytes) : bytes := snprintf_s dst_size src.

Definition path_basename_ptr (path : bytes) : bytes :=
  match strrchr path SLASH with Some slash => drop (S slash) path | None => path end.

Definition path_has_basename (path name : bytes) : bool := streq (path_basename_ptr path) name.

Definition target_is_chromium_family (path : bytes) : bool :=
  path_has_basename path (lit "chrome") || path_has_basename path (lit "chromium")
  || path_has_basename path (lit "chromium-browser") || path_has_basename path (lit "google-chrome")
  || path_has_basename path (lit "google-chrome-stable").

Definition target_is_firefox (path : bytes) : bool :=
  path_has_basename path (lit "firefox") || path_has_basename path (lit "firefox-bin").

Definition path_dirname_copy (dir_size : nat) (path : bytes) : option bytes :=
  match strrchr path SLASH with
  | None => Some (copy_string dir_size (lit "."))
  | Some slash =>
      let len := if bool_decide (slash = 0%nat) then 1%nat else slash in
      if (dir_size <=? len)%nat then None else Some (take len path)
  end.

Definition path_join (out_size : nat) (dir leaf : bytes) : option bytes :=
  let out := dir ++ SLASH :: leaf in
  if (out_size <=? length out)%nat then None else Some out.

(** ** The system

    [fs_file] are the bytes a reader of a file gets, None when it cannot be
    opened or read; [fs_exec] and [fs_readable] are access with X_OK and R_OK,
    [fs_dir] the names readdir returns, [fs_popen] what a command writes. *)
Record browser_fs := BrowserFs {
  fs_file : bytes -> option bytes;
  fs_exec : bytes -> bool;
  fs_readable : bytes -> bool;
  fs_realpath : bytes -> option bytes;
  fs_dir : bytes -> option (list bytes);
  fs_popen : bytes -> option bytes;
}.

Section system.
Context (fs : browser_fs).

Definition file_is_elf (path : bytes) : bool :=
  match fs_file fs path with
  | Some (127 :: 69 :: 76 :: 70 :: _) => true
  | _ => false
  end.

Definition read_first_matching_line (cmd : bytes) (out_size : nat) : option bytes :=
  match fs_popen fs cmd with
  | None | Some [] => None
  | Some output =>
      let out := take_while (fun c => negb (c =? 10)) (cstr (fst (fgets_one (out_size - 1) output))) in
      if bool_decide (out = []) then None else Some out
  end.

(** ** The binary behind a wrapper *)

Definition skip_blanks : bytes -> bytes :=
  fix go l := match l with c :: l' => if (c =? 32) || (c =? 9) then go l' else l | [] => [] end.

Definition until_space (l : bytes) : bytes := take_while (fun c => negb (is_space c)) l.

(** What one line of a script says: None, nothing, and the next one is read. *)
Definition script_line (dir line : bytes) : option (option bytes) :=
  match strstr line (lit "$HERE/") with
  | Some here =>
      let suffix := take (PATH_MAX - 1) (take_while (fun c => negb (c =? 34) && negb (is_space c)) (drop (here + 6) line)) in
      Some (path_join PATH_MAX dir suffix)
  | None =>
      exec ← strstr line (lit "exec ");
      let exec_pos := skip_blanks (drop (exec + 5) line) in
      exec_pos ← (if strneq exec_pos (lit "-a ") 3
                  then after ← memchr (drop 3 exec_pos) 32; Some (skip_blanks (drop (S after) (drop 3 exec_pos)))
                  else Some exec_pos);
      match exec_pos with
      | c :: quoted_ =>
          if (c =? 34) || (c =? 39) then
            end_ ← memchr quoted_ c; Some (Some (copy_string PATH_MAX (take end_ quoted_)))
          else if c =? SLASH then Some (Some (copy_string PATH_MAX (take (PATH_MAX - 1) (until_space exec_pos))))
          else None
      | [] => None
      end
  end.

Fixpoint script_lines (dir : bytes) (lines : list bytes) : option bytes :=
  match lines with
  | [] => None
  | line :: lines => match script_line dir (cstr line) with Some r => r | None => script_lines dir lines end
  end.

Definition parse_exec_target_from_script (script_path : bytes) : option bytes :=
  contents ← fs_file fs script_path;
  dir ← path_dirname_copy PATH_MAX script_path;
  script_lines dir (fgets_lines 1024 contents).

Definition find_snap_packaged_binary (app_name : bytes) : option bytes :=
  let candidate := lit "/snap/" ++ app_name ++ lit "/current/usr/lib/" ++ app_name ++ lit "/" ++ app_name in
  if (length candidate <? PATH_MAX)%nat && fs_exec fs candidate then Some (copy_string PATH_MAX candidate)
  else
    let candidate := lit "find /snap/" ++ app_name ++ lit "/current -type f -name '" ++ app_name ++ lit "' 2>/dev/null | head -n 1" in
    if (PATH_MAX <=? length candidate)%nat then None else read_first_matching_line candidate PATH_MAX.

(** The next path, or the end with the binary or without. *)
Inductive resolve_step_result := Resolved (path : bytes) | Follow (path : bytes) | Unresolved.

Definition resolve_step (current : bytes) : resolve_step_result :=
  if file_is_elf current then Resolved (copy_string PATH_MAX current)
  else match parse_exec_target_from_script current with
  | Some next => Follow (copy_string PATH_MAX next)
  | None =>
      match (if strneq current (lit "/snap/bin/") 10 then find_snap_packaged_binary (path_basename_ptr current) else None) with
      | Some next => Follow (copy_string PATH_MAX next)
      | None =>
          match fs_realpath fs current with
          | Some real =>
              if negb (streq (path_basename_ptr real) (lit "snap")) then
                if file_is_elf real then Resolved (copy_string PATH_MAX real) else Follow (copy_string PATH_MAX real)
              else Unresolved
          | None => Unresolved
          end
      end
  end.

Fixpoint resolve_loop (depth : nat) (current : bytes) : option bytes :=
  match depth with
  | O => None
  | S depth =>
      match resolve_step current with
      | Resolved path => Some path
      | Follow next => resolve_loop depth next
      | Unresolved => None
      end
  end.

Definition resolve_target_binary (input_path : bytes) : option bytes := resolve_loop 4 (copy_string PATH_MAX input_path).

(** ** The libraries of Firefox *)

Fixpoint dir_entries (dir prefix : bytes) (entries : list bytes) : option bytes :=
  match entries with
  | [] => None
  | d_name :: entries =>
      if negb (strneq d_name prefix (length prefix)) then dir_entries dir prefix entries
      else match path_join PATH_MAX dir d_name with
      | None => dir_entries dir prefix entries
      | Some candidate =>
          if fs_readable fs candidate then Some (copy_string PATH_MAX candidate) else dir_entries dir prefix entries
      end
  end.

Definition find_library_in_dir (binary_path prefix : bytes) : option bytes :=
  dir ← path_dirname_copy PATH_MAX binary_path;
  entries ← fs_dir fs dir;
  dir_entries dir prefix entries.

(** The path on one line of ldd, when the library is found. *)
Definition ldd_line (lib_prefix line : bytes) : option bytes :=
  _ ← strstr line lib_prefix;
  arrow ← strstr line (lit "=>");
  let path := skip_blanks (drop (arrow + 2) line) in
  if strneq path (lit "not found") 9 then None else Some (copy_string PATH_MAX (until_space path)).

Fixpoint ldd_lines (lib_prefix : bytes) (lines : list bytes) : option bytes :=
  match lines with
  | [] => None
  | line :: lines => match ldd_line lib_prefix (cstr line) with Some p => Some p | None => ldd_lines lib_prefix lines end
  end.

Definition find_linked_library (binary_path lib_prefix : bytes) : option bytes :=
  let cmd := lit "ldd '" ++ binary_path ++ lit "' 2>/dev/null" in
  if (PATH_MAX + 64 <=? length cmd)%nat then None
  else
    output ← fs_popen fs cmd;
    ldd_lines lib_prefix (fgets_lines (PATH_MAX * 2) output).

(** Empty when not found. *)
Record linked_tls_libraries := LinkedTlsLibraries { nspr : bytes; nss_ssl3 : bytes }.

Definition detect_library (binary_path name : bytes) : bytes :=
  let found := default [] (find_library_in_dir binary_path name) in
  if bool_decide (found = []) then default [] (find_linked_library binary_path name) else found.

Definition detect_linked_tls_libraries (binary_path : bytes) : linked_tls_libraries :=
  LinkedTlsLibraries (detect_library binary_path (lit "libnspr4.so")) (detect_library binary_path (lit "libssl3.so")).

End system.

(** ** The filter on the traced processes *)

Definition TARGET_PID_CACHE_SIZE : nat := 256.

Record target_pid_cache_entry := PidEntry { pe_pid : Z; pe_valid : bool; pe_matched : bool }.

Definition no_entry : target_pid_cache_entry := PidEntry 0 false false.

(** The two globals the filter compares with, and the cache. *)
Record target_filter := TargetFilter {
  target_exec_path : bytes;
  target_exec_basename : bytes;
  target_pid_cache : list target_pid_cache_entry;
}.

Definition setup_target_process_filter (requested_path resolved_target : bytes) : target_filter :=
  TargetFilter
    (if bool_decide (resolved_target = []) then [] else copy_string PATH_MAX resolved_target)
    (if negb (bool_decide (resolved_target = [])) then copy_string PATH_MAX (path_basename_ptr resolved_target)
     else if negb (bool_decide (requested_path = [])) then copy_string PATH_MAX (path_basename_ptr requested_path)
     else [])
    (replicate TARGET_PID_CACHE_SIZE no_entry).

Definition target_pid_cache_slot (pid : Z) : nat := Z.to_nat (u32 pid mod Z.of_nat TARGET_PID_CACHE_SIZE).

Definition cache_index (start i : nat) : nat := ((start + i) mod TARGET_PID_CACHE_SIZE)%nat.

(** The loop over the next [n] slots, from [start + i]. *)
Fixpoint cache_lookup_loop (n : nat) (cache : list target_pid_cache_entry) (pid : Z) (start i : nat) : option bool :=
  match n with
  | O => None
  | S n =>
      let entry := nth (cache_index start i) cache no_entry in
      if negb (pe_valid entry) then None
      else if negb (pe_pid entry =? pid) then cache_lookup_loop n cache pid start (S i)
      else Some (pe_matched entry)
  end.

Definition lookup_target_pid_cache (cache : list target_pid_cache_entry) (pid : Z) : option bool :=
  cache_lookup_loop TARGET_PID_CACHE_SIZE cache pid (target_pid_cache_slot pid) 0.

(** The slot the pid goes to: the first that is free or its own. *)
Fixpoint cache_store_loop (n : nat) (cache : list target_pid_cache_entry) (pid : Z) (start i : nat) : option nat :=
  match n with
  | O => None
  | S n =>
      let entry := nth (cache_index start i) cache no_entry in
      if pe_valid entry && negb (pe_pid entry =? pid) then cache_store_loop n cache pid start (S i)
      else Some (cache_index start i)
  end.

Definition store_target_pid_cache (cache : list target_pid_cache_entry) (pid : Z) (matched : bool) : list target_pid_cache_entry :=
  let start := target_pid_cache_slot pid in
  <[default start (cache_store_loop TARGET_PID_CACHE_SIZE cache pid start 0) := PidEntry pid true matched]> cache.

(** The answer for the executable [readlink] gives; None is an error. *)
Definition exe_matches (f : target_filter) (exe : option bytes) : bool :=
  match exe with
  | None => false
  | Some exe =>
      let exe_path := take (PATH_MAX - 1) exe in
      if bool_decide (exe_path = []) then false
      else
        let exe_path := cstr exe_path in
        if negb (bool_decide (target_exec_path f = [])) && streq exe_path (target_exec_path f) then true
        else if negb (bool_decide (target_exec_basename f = [])) && streq (path_basename_ptr exe_path) (target_exec_basename f) then true
        else false
  end.

Definition proc_exe (pid : Z) : bytes := snprintf_s 64 (lit "/proc/" ++ fmt_d pid ++ lit "/exe").

Definition target_process_matches (readlink : bytes -> option bytes) (f : target_filter) (pid : Z) : target_filter * bool :=
  if bool_decide (target_exec_path f = []) && bool_decide (target_exec_basename f = []) then (f, true)
  else match lookup_target_pid_cache (target_pid_cache f) pid with
  | Some matched => (f, matched)
  | None =>
      let matched := exe_matches f (readlink (proc_exe pid)) in
      (TargetFilter (target_exec_path f) (target_exec_basename f) (store_target_pid_cache (target_pid_cache f) pid matched), matched)
  end.

(** ** The copy points of Chrome *)

(** The inner loop at one position: an [x] of the mask compares, a [?] does
    not. *)
Fixpoint mask_matches (data pattern mask : bytes) : bool :=
  match pattern, mask, data with
  | p :: pattern, m :: mask, d :: data =>
      if (m =? 120) && negb (d =? p) then false else mask_matches data pattern mask
  | [], _, _ => true
  | _, _, _ => false
  end.

(** The outer loop: [n] positions are left, [data] is what is at [i]. *)
Fixpoint masked_loop (n : nat) (data pattern mask : bytes) (i : nat) : option nat :=
  match n with
  | O => None
  | S n => if mask_matches data pattern mask then Some i else masked_loop n (tl data) pattern mask (S i)
  end.

Definition find_masked_pattern (data pattern mask : bytes) : option nat :=
  if (length data <? length pattern)%nat || negb (length mask =? length pattern)%nat then None
  else masked_loop (S (length data - length pattern)) data pattern mask 0.

Definition request_copy_1_pat : bytes :=
  [0x4c; 0x89; 0xe7; 0x4c; 0x89; 0xf6; 0x4c; 0x89; 0xfa; 0xe8; 0x00; 0x00; 0x00; 0x00; 0x43; 0xc6;
   0x04; 0x3c; 0x00; 0x48; 0x8d; 0x5d; 0xb8; 0x80; 0x7b; 0x17; 0x00].
Definition request_copy_1_mask : bytes := lit "xxxxxxxxxx????xxxxxxxxxxxxx".
Definition request_copy_2_pat : bytes :=
  [0x4c; 0x89; 0xf7; 0x48; 0x89; 0xde; 0x4c; 0x89; 0xea; 0xe8; 0x00; 0x00; 0x00; 0x00; 0x43; 0xc6;
   0x04; 0x2e; 0x00; 0x49; 0xbd; 0xf6; 0xff; 0xff; 0xff; 0xff; 0xff; 0xff; 0x7f].
Definition request_copy_2_mask : bytes := lit "xxxxxxxxxx????xxxxxxxxxxxxxxx".
Definition request_copy_3_pat : bytes :=
  [0x48; 0x89; 0xdf; 0x4c; 0x89; 0xe6; 0x4c; 0x89; 0xfa; 0xe8; 0x00; 0x00; 0x00; 0x00; 0x42; 0xc6;
   0x04; 0x3b; 0x00; 0x4c; 0x8b; 0x65; 0x90; 0x4d; 0x8b; 0x7c; 0x24; 0x08].
Definition request_copy_3_mask : bytes := lit "xxxxxxxxxx????xxxxxxxxxxxxxx".
Definition response_copy_pat : bytes :=
  [0x48; 0x8b; 0xb0; 0x80; 0x00; 0x00; 0x00; 0x48; 0x8b; 0x7d; 0xb8; 0x4c; 0x89; 0xfa; 0xe8; 0x00;
   0x00; 0x00; 0x00; 0x49; 0x8b; 0x46; 0x30; 0x48; 0x8b; 0x88; 0x88; 0x00; 0x00; 0x00].
Definition response_copy_mask : bytes := lit "xxxxxxxxxxxxxxx????xxxxxxxxxxx".

(** None is the size -1. *)
Record chrome_plaintext_offsets := ChromeOffsets {
  request_copy_1 : option nat;
  request_copy_2 : option nat;
  request_copy_3 : option nat;
  response_copy : option nat;
  co_found : bool;
}.

Definition found_at (r : option nat) (delta : nat) : option nat := (fun i => i + delta)%nat <$> r.

(** [data] is the mapped file, None when it cannot be opened or mapped. *)
Definition find_chrome_plaintext_offsets (data : option bytes) : chrome_plaintext_offsets :=
  match data with
  | None | Some [] => ChromeOffsets (Some 0%nat) (Some 0%nat) (Some 0%nat) (Some 0%nat) false
  | Some data =>
      let r1 := found_at (find_masked_pattern data request_copy_1_pat request_copy_1_mask) 9 in
      let r2 := found_at (find_masked_pattern data request_copy_2_pat request_copy_2_mask) 9 in
      let r3 := found_at (find_masked_pattern data request_copy_3_pat request_copy_3_mask) 9 in
      let r4 := found_at (find_masked_pattern data response_copy_pat response_copy_mask) 14 in
      ChromeOffsets r1 r2 r3 r4
        (bool_decide (is_Some r1) && bool_decide (is_Some r2) && bool_decide (is_Some r3) && bool_decide (is_Some r4))
  end.

(** ** Attachments *)

Definition BROWSER_EXTRA_LINK_CAP : nat := 16.
Definition ENOSPC : Z := 28.
Definition EINVAL : Z := 22.

Record browser_req := BrowserReq {
  br_prog : browser_probe;
  br_pid : Z;
  br_binary : bytes;
  br_target : attach_target;
  br_ret : bool;
}.

(** The links of the skeleton, and the extra ones in their slots. *)
Record browser_links := BrowserLinks { bl_named : list browser_req; bl_extra : list (option browser_req) }.

Definition no_links : browser_links := BrowserLinks [] (replicate BROWSER_EXTRA_LINK_CAP None).

Definition destroy_browser_links (ls : browser_links) : browser_links := no_links.

(** The slots with the link in the first free one, None when there is none. *)
Fixpoint remember_extra_link (r : browser_req) (extra : list (option browser_req)) : option (list (option browser_req)) :=
  match extra with
  | [] => None
  | None :: extra => Some (Some r :: extra)
  | Some r' :: extra => extra' ← remember_extra_link r extra; Some (Some r' :: extra')
  end.

Section program.
Context (attach : browser_req -> attach_reply) (readlink : bytes -> option bytes) (fs : browser_fs).

(** 0, or the error of an attachment. *)
Definition attach_error (r : browser_req) : Z :=
  match attach r with
  | AttLink => 0
  | AttErr err => s32 err
  | AttNull errno => - errno
  end.

(** One attachment by symbol or offset; [extra] ones go to the extra slots. *)
Definition attach_program (extra : bool) (r : browser_req) (ls : browser_links) : browser_links * Z :=
  match attach r with
  | AttLink =>
      if extra then
        match remember_extra_link r (bl_extra ls) with
        | Some extra' => (BrowserLinks (bl_named ls) extra', 0)
        | None => (ls, - ENOSPC)
        end
      else (BrowserLinks (bl_named ls ++ [r]) (bl_extra ls), 0)
  | _ => (ls, attach_error r)
  end.

(** Attachments in order; the first error destroys all links. *)
Fixpoint attach_steps (l : list (bool * browser_req)) (ls : browser_links) : browser_links * Z :=
  match l with
  | [] => (ls, 0)
  | (extra, r) :: l =>
      let '(ls, err) := attach_program extra r ls in
      if negb (err =? 0) then (destroy_browser_links ls, err) else attach_steps l ls
  end.

Definition nss_steps (pid : Z) (nspr_lib nss_ssl3_lib : bytes) : list (bool * browser_req) :=
  let import p ret := (false, BrowserReq p pid nss_ssl3_lib (BySymbol (lit "SSL_ImportFD")) ret) in
  let rw name p := [(true, BrowserReq BP_nss_rw_enter pid nspr_lib (BySymbol name) false); (true, BrowserReq p pid nspr_lib (BySymbol name) true)] in
  [import BP_nss_import_fd_enter false; import BP_nss_import_fd_exit true]
  ++ rw (lit "PR_Write") BP_nss_write_exit ++ rw (lit "PR_Send") BP_nss_write_exit
  ++ rw (lit "PR_Read") BP_nss_read_exit ++ rw (lit "PR_Recv") BP_nss_read_exit
  ++ [(false, BrowserReq BP_nss_close_enter pid nspr_lib (BySymbol (lit "PR_Close")) false)].

Definition attach_browser_nss (pid : Z) (nspr_lib nss_ssl3_lib : bytes) (ls : browser_links) : browser_links * Z :=
  if bool_decide (nspr_lib = []) then (ls, - ENOENT)
  else if bool_decide (nss_ssl3_lib = []) then (ls, - ENOENT)
  else attach_steps (nss_steps pid nspr_lib nss_ssl3_lib) ls.

(** [size_t] of an offset. *)
Definition by_offset (o : option nat) : attach_target := ByOffset (default 0%nat o).

Definition chrome_steps (pid : Z) (binary_path : bytes) (offsets : chrome_plaintext_offsets) : list (bool * browser_req) :=
  [(false, BrowserReq BP_chrome_request_1 pid binary_path (by_offset (request_copy_1 offsets)) false);
   (false, BrowserReq BP_chrome_request_2 pid binary_path (by_offset (request_copy_2 offsets)) false);
   (false, BrowserReq BP_chrome_request_3 pid binary_path (by_offset (request_copy_3 offsets)) false);
   (false, BrowserReq BP_chrome_response pid binary_path (by_offset (response_copy offsets)) false)].

Definition attach_chrome_plaintext (pid : Z) (binary_path : bytes) (offsets : chrome_plaintext_offsets) (ls : browser_links) :=
  attach_steps (chrome_steps pid binary_path offsets) ls.

Definition attach_browser_target (e : browser_env) (attach_target : bytes) (libs : linked_tls_libraries) (ls : browser_links)
    : browser_links * Z :=
  if target_is_chromium_family attach_target then
    let offsets := find_chrome_plaintext_offsets (fs_file fs attach_target) in
    if negb (co_found offsets) then (ls, - ENOENT) else attach_chrome_plaintext (be_pid e) attach_target offsets ls
  else if target_is_firefox attach_target then
    if bool_decide (nspr libs = []) || bool_decide (nss_ssl3 libs = []) then (ls, - ENOENT)
    else attach_browser_nss (be_pid e) (nspr libs) (nss_ssl3 libs) ls
  else (ls, - EINVAL).

(** ** Samples *)

Definition browser_event_buf (event : probe_SSL_data_t) : bytes :=
  let buf_size :=
    if d_buf_filled event =? 1 then if BROWSER_MAX_BUF_SIZE <? d_buf_size event then BROWSER_MAX_BUF_SIZE else d_buf_size event
    else 0 in
  take (Z.to_nat buf_size) (d_buf event).

(** The loop over the data is that of [json_print_escaped], character by
    character. *)
Definition browser_print_event (e : browser_env) (f : target_filter) (event : probe_SSL_data_t) : target_filter * bytes :=
  let data := browser_event_buf event in
  let buf_size := Z.of_nat (length data) in
  if match be_comm e with Some comm => negb (streq comm (d_comm event)) | None => false end then (f, [])
  else
    let '(f, matches) := target_process_matches readlink f (s32 (d_pid event)) in
    if negb matches then (f, [])
    else
      (f, lit "{" ++ jlit "'function':'" ++ (if d_rw event =? 0 then lit "READ/RECV" else lit "WRITE/SEND") ++ jlit "',"
       ++ jlit "'timestamp_ns':" ++ fmt_u (d_timestamp_ns event) ++ lit "," ++ jlit "'comm':'" ++ cstr (d_comm event) ++ jlit "',"
       ++ jlit "'pid':" ++ fmt_d (s32 (d_pid event)) ++ lit "," ++ jlit "'len':" ++ fmt_d (s32 (d_len event)) ++ lit ","
       ++ jlit "'buf_size':" ++ fmt_u (d_buf_size event) ++ lit "," ++ jlit "'uid':" ++ fmt_d (s32 (d_uid event)) ++ lit ","
       ++ jlit "'tid':" ++ fmt_d (s32 (d_tid event)) ++ lit ","
       ++ jlit "'latency_ms':" ++ fmt_3f (double_div (double_of_Z (d_delta_ns event)) (double_of_Z 1000000)) ++ lit ","
       ++ jlit "'data':"
       ++ (if buf_size =? 0 then jlit "null,'truncated':false}"
           else [34] ++ json_print_escaped data ++ jlit "',"
             ++ (if buf_size <? d_len event
                 then jlit "'truncated':true,'bytes_lost':" ++ fmt_d (s32 (d_len event - buf_size)) ++ lit "}"
                 else jlit "'truncated':false}")) ++ [10]).

Fixpoint browser_print_events (e : browser_env) (f : target_filter) (events : list probe_SSL_data_t) : target_filter * bytes :=
  match events with
  | [] => (f, [])
  | event :: events =>
      let '(f, line) := browser_print_event e f event in
      let '(f, lines) := browser_print_events e f events in
      (f, line ++ lines)
  end.

(** ** The program *)

Fixpoint browser_loop (e : browser_env) (turns : list ssl_turn) (f : target_filter) (out : bytes) : bytes * option Z :=
  match turns with
  | [] => (out, None)
  | t :: turns =>
      if sn_exiting t then (out, Some 0)
      else
        let '(f, lines) := browser_print_events e f (sn_samples t) in
        let out := out ++ lines in
        if (sn_err t <? 0) && negb (sn_err t =? - EINTR) then (out, Some 1)
        else browser_loop e turns f out
  end.

(** The links when the loop starts, the output, and the status once the program
    has ended. *)
Record browser_outcome := BrowserOutcome { bo_links : browser_links; bo_out : bytes; bo_status : option Z }.

Definition browser_stopped (status : Z) : browser_outcome := BrowserOutcome no_links [] (Some status).

(** [e] are the parsed options: argp ends the program without a path. *)
Definition browser_main (e : browser_env) (su : ssl_startup) (turns : list ssl_turn) : browser_outcome :=
  let binary_path := default [] (be_binary_path e) in
  if negb (ss_open su) then browser_stopped 0  (* err is still that of argp_parse *)
  else if negb (ss_load_err su =? 0) then browser_stopped 1
  else if negb (ss_malloc su) then browser_stopped 1
  else match resolve_target_binary fs binary_path with
  | None => browser_stopped 1
  | Some attach_target =>
      let f := setup_target_process_filter binary_path attach_target in
      let '(ls, err) := attach_browser_target e attach_target (detect_linked_tls_libraries fs attach_target) no_links in
      if negb (err =? 0) then browser_stopped 1
      else if negb (ss_ring_buffer_errno su =? 0) then browser_stopped 1
      else if negb (ss_signal su) then browser_stopped 1
      else
        let '(out, status) := browser_loop e turns f [] in
        BrowserOutcome ls out status
  end.

End program.
