(* ===== verification/BrowserSpec.v ===== *)
(** * What the browser tracer shows and attaches to

    The cached filter on the executable answers what an uncached one would; a
    printed line parses back to the sample; the output of the loop is the
    lines of the samples of the browser's processes; and the attachments of a
    browser are complete or none. *)

From Stdlib Require Import Floats.SpecFloat.
From S2P Require Import Prelude CLib Unicode Jsonl BpfMap Tracer UserMem SslBpf CFloat SslSniff BrowserBpf BrowserBpfSpec Browser.

(** ** The cache *)

(** Every entry holds the answer for its pid. *)
Definition cache_ok (answer : Z -> bool) (cache : list target_pid_cache_entry) : Prop :=
  length cache = TARGET_PID_CACHE_SIZE /\ forall i, let e := nth i cache no_entry in pe_valid e = true -> pe_matched e = answer (pe_pid e).

Lemma cache_index_lt start i : (cache_index start i < TARGET_PID_CACHE_SIZE)%nat.
Proof. unfold cache_index. by apply Nat.mod_upper_bound. Qed.

Lemma cache_slot_lt pid : (target_pid_cache_slot pid < TARGET_PID_CACHE_SIZE)%nat.
Proof.
  unfold target_pid_cache_slot, TARGET_PID_CACHE_SIZE.
  pose proof (Z.mod_pos_bound (u32 pid) (Z.of_nat 256) ltac:(lia)). lia.
Qed.

Lemma cache_ok_empty answer : cache_ok answer (replicate TARGET_PID_CACHE_SIZE no_entry).
Proof.
  split; [apply length_replicate|]. intros i. cbn zeta. replace (nth i _ no_entry) with no_entry; [done|].
  generalize TARGET_PID_CACHE_SIZE. intros n. revert i. induction n as [|n IH]; intros [|i]; cbn; done || apply IH.
Qed.

Lemma nth_insert (cache : list target_pid_cache_entry) i j e :
  (j < length cache)%nat -> nth i (<[j := e]> cache) no_entry = if decide (i = j) then e else nth i cache no_entry.
Proof.
  intros Hj. rewrite !nth_lookup. case_decide as Hi.
  - subst. by rewrite list_lookup_insert_eq.
  - by rewrite list_lookup_insert_ne by congruence.
Qed.

Section cache.
Context (answer : Z -> bool).

Lemma cache_lookup_answer n cache pid start i b :
  cache_ok answer cache -> cache_lookup_loop n cache pid start i = Some b -> b = answer pid.
Proof.
  intros [_ Hc]. revert i. induction n as [|n IH]; intros i; cbn [cache_lookup_loop]; [done|]. cbv zeta.
  pose proof (Hc (cache_index start i)) as He. cbv zeta in He. set (e := nth _ _ _) in *.
  destruct (pe_valid e) eqn:Ev; cbn [negb]; [|done]. destruct (Z.eqb_spec (pe_pid e) pid) as [Hp|]; cbn [negb]; [|apply IH].
  intros [= <-]. rewrite <- Hp. by apply He.
Qed.

(** The slot of a store is free or the pid's own. *)
Lemma cache_store_slot n cache pid start i j :
  cache_store_loop n cache pid start i = Some j ->
  let e := nth j cache no_entry in (j < TARGET_PID_CACHE_SIZE)%nat /\ (pe_valid e && negb (pe_pid e =? pid)) = false.
Proof.
  cbv zeta. revert i. induction n as [|n IH]; intros i; cbn [cache_store_loop]; [done|]. cbv zeta.
  destruct (pe_valid (nth (cache_index start i) cache no_entry) && _) eqn:E; [apply IH|]. intros [= <-]. split; [apply cache_index_lt|done].
Qed.

Lemma cache_store_ok cache pid : cache_ok answer cache -> cache_ok answer (store_target_pid_cache cache pid (answer pid)).
Proof.
  intros [Hl Hc]. unfold store_target_pid_cache. set (j := default _ _).
  assert (j < length cache)%nat as Hj.
  { rewrite Hl. unfold j. destruct (cache_store_loop _ _ _ _ _) as [k|] eqn:E; [|apply cache_slot_lt].
    by apply cache_store_slot in E as [Hk _]. }
  split; [by rewrite length_insert|]. intros i. cbv zeta. rewrite nth_insert by done. case_decide; [done|apply Hc].
Qed.

(** What was stored is found. *)
Lemma cache_lookup_stored n cache pid start i j b :
  length cache = TARGET_PID_CACHE_SIZE -> cache_store_loop n cache pid start i = Some j ->
  cache_lookup_loop n (<[j := PidEntry pid true b]> cache) pid start i = Some b.
Proof.
  intros Hl. revert i. induction n as [|n IH]; intros i Hs; cbn [cache_store_loop cache_lookup_loop] in *; [done|]. cbv zeta in *.
  destruct (cache_store_slot (S n) cache pid start i j Hs) as [Hj Hfree].
  rewrite nth_insert by lia. case_decide as Hi; cbn [pe_valid pe_pid pe_matched].
  - by rewrite Z.eqb_refl.
  - revert Hs. destruct (pe_valid (nth (cache_index start i) cache no_entry) && _) eqn:E; [|by intros [= Hx]].
    apply andb_true_iff in E as [-> ->]. cbn [negb]. apply IH.
Qed.

Lemma cache_store_lookup cache pid b :
  length cache = TARGET_PID_CACHE_SIZE -> lookup_target_pid_cache (store_target_pid_cache cache pid b) pid = Some b.
Proof.
  intros Hl. unfold lookup_target_pid_cache, store_target_pid_cache.
  destruct (cache_store_loop _ cache _ _ _) as [j|] eqn:E; cbn [default from_option id]; [by apply cache_lookup_stored|].
  change TARGET_PID_CACHE_SIZE with (S 255). cbn [cache_lookup_loop]. cbv zeta.
  unfold cache_index. rewrite Nat.add_0_r, Nat.mod_small by apply cache_slot_lt.
  rewrite nth_insert by (rewrite Hl; apply cache_slot_lt). rewrite decide_True by done. cbn [pe_valid pe_pid pe_matched negb]. by rewrite Z.eqb_refl.
Qed.
End cache.

(** ** The filter *)

(** The filter without its cache. *)
Definition process_matches (readlink : bytes -> option bytes) (f : target_filter) (pid : Z) : bool :=
  bool_decide (target_exec_path f = []) && bool_decide (target_exec_basename f = []) || exe_matches f (readlink (proc_exe pid)).

(** The answers to a sequence of processes. *)
Fixpoint filter_answers (readlink : bytes -> option bytes) (f : target_filter) (pids : list Z) : target_filter * list bool :=
  match pids with
  | [] => (f, [])
  | pid :: pids =>
      let '(f, b) := target_process_matches readlink f pid in
      let '(f, bs) := filter_answers readlink f pids in (f, b :: bs)
  end.

Section filter.
Context (readlink : bytes -> option bytes).

(** The filter has the targets of [f0], and a cache of right answers. *)
Definition filter_ok (f0 f : target_filter) : Prop :=
  target_exec_path f = target_exec_path f0 /\ target_exec_basename f = target_exec_basename f0 /\
  cache_ok (process_matches readlink f0) (target_pid_cache f).

Lemma filter_ok_setup requested resolved : let f := setup_target_process_filter requested resolved in filter_ok f f.
Proof. split; [done|]. split; [done|]. apply cache_ok_empty. Qed.

Lemma process_matches_same f0 f pid : filter_ok f0 f -> process_matches readlink f pid = process_matches readlink f0 pid.
Proof. intros (Hp & Hb & _). unfold process_matches, exe_matches. by rewrite Hp, Hb. Qed.

Lemma target_process_matches_ok f0 f pid :
  filter_ok f0 f -> exists f', target_process_matches readlink f pid = (f', process_matches readlink f0 pid) /\ filter_ok f0 f'.
Proof.
  intros Hf. rewrite <- (process_matches_same f0 f) by done. unfold target_process_matches.
  destruct (bool_decide _ && bool_decide _) eqn:En; [exists f; unfold process_matches; rewrite En; done|].
  destruct (lookup_target_pid_cache _ _) as [b|] eqn:El.
  - exists f. split; [|done]. f_equal. rewrite (process_matches_same f0 f) by done. destruct Hf as (_ & _ & Hc).
    unfold lookup_target_pid_cache in El. by eapply cache_lookup_answer.
  - assert (exe_matches f (readlink (proc_exe pid)) = process_matches readlink f pid) as E by (unfold process_matches; by rewrite En).
    cbv zeta. rewrite E. eexists. split; [reflexivity|]. rewrite (process_matches_same f0 f) by done. destruct Hf as (Hp & Hb & Hc).
    split; [done|]. split; [done|]. by apply cache_store_ok.
Qed.

Lemma filter_answers_ok f0 f pids :
  filter_ok f0 f -> exists f', filter_answers readlink f pids = (f', map (process_matches readlink f0) pids) /\ filter_ok f0 f'.
Proof.
  revert f. induction pids as [|pid pids IH]; intros f Hf; [by exists f|]. cbn [filter_answers map].
  destruct (target_process_matches_ok f0 f pid Hf) as (f1 & -> & Hf1). destruct (IH f1 Hf1) as (f2 & -> & Hf2). by exists f2.
Qed.
End filter.

(** A path without NUL that fits. *)
Definition path_ok (p : bytes) : Prop := no_nul p /\ (length p < PATH_MAX)%nat.

Lemma strrchr_basename p : path_basename_ptr p = p \/ exists n, path_basename_ptr p = drop n p.
Proof. unfold path_basename_ptr. destruct (strrchr p SLASH); [right; by eexists|by left]. Qed.

Lemma basename_ok p : path_ok p -> path_ok (path_basename_ptr p).
Proof.
  intros [Hn Hl]. destruct (strrchr_basename p) as [-> |[n ->]]; [done|]. split; [by apply Forall_drop|]. rewrite length_drop. lia.
Qed.

Lemma snprintf_fits n p : (length p < n)%nat -> snprintf_s n p = p.
Proof. intros. unfold snprintf_s. apply take_ge. lia. Qed.

(** The file name decides: an equal path has the same name. *)
Lemma exe_matches_basename requested resolved exe :
  path_ok resolved -> path_basename_ptr resolved <> [] -> path_ok exe -> exe <> [] ->
  exe_matches (setup_target_process_filter requested resolved) (Some exe)
  = bool_decide (path_basename_ptr exe = path_basename_ptr resolved).
Proof.
  intros Hr Hb He Hne. assert (resolved <> []) as Hr0 by (intros ->; by apply Hb).
  destruct (basename_ok _ Hr) as [Hbn Hbl], (basename_ok _ He) as [Hen _], Hr as [Hrn Hrl], He as [Hxn Hxl].
  unfold setup_target_process_filter, exe_matches, copy_string. cbn [target_exec_path target_exec_basename].
  rewrite !(bool_decide_eq_false_2 (resolved = [])) by done. cbn [negb]. rewrite !snprintf_fits by done.
  rewrite (take_ge exe) by lia. rewrite (bool_decide_eq_false_2 (exe = [])), (cstr_id exe) by done.
  rewrite !(bool_decide_eq_false_2 (resolved = [])), (bool_decide_eq_false_2 (path_basename_ptr resolved = [])) by done.
  unfold streq. rewrite !cstr_id by done. cbn [negb andb].
  case_bool_decide as H1; [subst; by rewrite bool_decide_eq_true_2|]. by case_bool_decide.
Qed.


(** ** Lines *)

(** A sample with its fields in the range of their types, that holds [data]. *)
Record browser_sample_ok (d : probe_SSL_data_t) (data : bytes) : Prop := {
  bk_time : 0 <= d_timestamp_ns d /\ 0 <= d_delta_ns d < 2 ^ 64;
  bk_size : 0 <= d_buf_size d <= BROWSER_MAX_BUF_SIZE;
  bk_bytes : bytes_ok data;
  bk_data : captured d data \/ d_buf_filled d = 0 /\ data = [];
  bk_comm : Forall (fun c => 32 <= c < 128 /\ c <> 34 /\ c <> 92) (cstr (d_comm d));
}.

Definition browser_latency (d : probe_SSL_data_t) : bytes := fmt_3f (double_div (double_of_Z (d_delta_ns d)) (double_of_Z 1000000)).

Definition browser_texts (d : probe_SSL_data_t) (data : bytes) : list (bytes * bytes) :=
  [(lit "function", quoted (if d_rw d =? 0 then lit "READ/RECV" else lit "WRITE/SEND")); (lit "timestamp_ns", fmt_u (d_timestamp_ns d));
   (lit "comm", quoted (cstr (d_comm d))); (lit "pid", fmt_d (s32 (d_pid d))); (lit "len", fmt_d (s32 (d_len d)));
   (lit "buf_size", fmt_u (d_buf_size d)); (lit "uid", fmt_d (s32 (d_uid d))); (lit "tid", fmt_d (s32 (d_tid d)));
   (lit "latency_ms", browser_latency d); (lit "data", if bool_decide (data = []) then lit "null" else json_print_escaped_quoted data)]
  ++ (if bool_decide (data <> []) && (Z.of_nat (length data) <? d_len d)
      then [(lit "truncated", lit "true"); (lit "bytes_lost", fmt_d (s32 (d_len d - Z.of_nat (length data))))]
      else [(lit "truncated", lit "false")]).

(** Whether the call moved more bytes than were captured. *)
Definition lost_values (d : probe_SSL_data_t) (data : bytes) : list (list Z * jval) :=
  if bool_decide (data <> []) && (Z.of_nat (length data) <? d_len d)
  then [(lit "truncated", JBool true); (lit "bytes_lost", JNum (fmt_d (s32 (d_len d - Z.of_nat (length data)))))]
  else [(lit "truncated", JBool false)].

Definition browser_values (d : probe_SSL_data_t) (data : bytes) : list (list Z * jval) :=
  [(lit "function", JStr (if d_rw d =? 0 then lit "READ/RECV" else lit "WRITE/SEND")); (lit "timestamp_ns", JNum (fmt_u (d_timestamp_ns d)));
   (lit "comm", JStr (cstr (d_comm d))); (lit "pid", JNum (fmt_d (s32 (d_pid d)))); (lit "len", JNum (fmt_d (s32 (d_len d))));
   (lit "buf_size", JNum (fmt_u (d_buf_size d))); (lit "uid", JNum (fmt_d (s32 (d_uid d)))); (lit "tid", JNum (fmt_d (s32 (d_tid d))));
   (lit "latency_ms", JNum (browser_latency d)); (lit "data", if bool_decide (data = []) then JNull else JStr (utf8_latin1 data))]
  ++ lost_values d data.

Lemma browser_event_buf_data d data : browser_sample_ok d data -> browser_event_buf d = data.
Proof.
  intros [_ Hs _ Hd _]. unfold browser_event_buf. destruct Hd as [(Hf & Hn & Ht)|[Hf ->]]; rewrite Hf; cbn [Z.eqb Pos.eqb]; [|done].
  decide_tests. by rewrite Hn, Nat2Z.id.
Qed.

Lemma browser_texts_ok d data : browser_sample_ok d data -> Forall2 member_text (browser_texts d data) (browser_values d data).
Proof.
  intros [Ht Hs Hb Hd Hc].
  assert (forall k v val, json_body k = Some k -> value_text v val -> member_text (k, v) (k, val)) as Hm by done.
  unfold browser_texts, browser_values, lost_values. apply Forall2_app.
  - repeat apply Forall2_cons_2; try apply Forall2_nil_2; apply Hm; try reflexivity.
    all: try (apply fmt_u_value; lia); try apply fmt_d_value.
    + apply vt_str. by destruct (d_rw d =? 0).
    + by apply vt_str, ascii_body.
    + apply fmt_ms_value. lia.
    + case_bool_decide; [apply vt_null|by apply json_print_escaped_quoted_value].
  - destruct (_ && _); repeat apply Forall2_cons_2; try apply Forall2_nil_2; apply Hm; try reflexivity;
      (apply vt_true || apply vt_false || apply fmt_d_value).
Qed.

Section line.
Context (readlink : bytes -> option bytes) (e : browser_env).

Definition comm_wanted (d : probe_SSL_data_t) : bool :=
  match be_comm e with Some comm => streq comm (d_comm d) | None => true end.

(** The line of a sample when it is shown. *)
Lemma browser_print_render f d data f' :
  browser_sample_ok d data -> comm_wanted d = true -> target_process_matches readlink f (s32 (d_pid d)) = (f', true) ->
  browser_print_event readlink e f d = (f', render_line (browser_texts d data)).
Proof.
  intros Hd Hc Hm. unfold browser_print_event. rewrite (browser_event_buf_data d data Hd), Hm. cbv zeta.
  replace (match be_comm e with Some comm => negb (streq comm (d_comm d)) | None => false end) with false
    by (unfold comm_wanted in Hc; destruct (be_comm e); [by rewrite Hc|done]).
  cbn [negb]. f_equal. fold (browser_latency d).
  change (browser_texts d data)
    with ((lit "function", quoted (if d_rw d =? 0 then lit "READ/RECV" else lit "WRITE/SEND")) :: tl (browser_texts d data)).
  pose proof (line_tail_render (lit "function") (quoted (if d_rw d =? 0 then lit "READ/RECV" else lit "WRITE/SEND")) (tl (browser_texts d data)) []) as R.
  rewrite !app_nil_r in R. rewrite <- R. unfold browser_texts. cbn [tl app]. unfold members_tail.
  case_bool_decide as Hdata; [rewrite bool_decide_eq_false_2 by (intros Hx; by apply Hx)|rewrite bool_decide_eq_true_2 by done]; cbn [andb].
  - clear Hd Hc R. subst data. cbn [length Z.of_nat Z.eqb]. unfold quoted. cbn [map concat fst snd app]. repeat (rewrite <- ?app_assoc; cbn [app]). reflexivity.
  - assert (0 < Z.of_nat (length data)) by (destruct data; [done|cbn [length]; lia]). rewrite (proj2 (Z.eqb_neq (Z.of_nat (length data)) 0)) by lia.
    destruct (_ <? _); unfold quoted, json_print_escaped_quoted; cbn [map concat fst snd app]; repeat (rewrite <- ?app_assoc; cbn [app]); reflexivity.
Qed.
End line.

(** A browser line is faithful: it parses to exactly the fields of its
    sample and the text its data decode to, with "truncated" and the number of
    lost bytes exactly when the call moved more bytes than were captured; and a
    sample of another command, or of a process that is not the browser's,
    prints nothing. *)
Theorem browser_line_roundtrip readlink e f d data :
  browser_sample_ok d data ->
  let line := snd (browser_print_event readlink e f d) in
  let shown := comm_wanted e d && snd (target_process_matches readlink f (s32 (d_pid d))) in
  (shown = true -> parse_line line = Some (browser_values d data) /\
     (data <> [] -> ((lit "truncated", JBool true) ∈ lost_values d data <-> d_buf_size d < d_len d))) /\
  (shown = false -> line = []).
Proof.
  intros Hd. cbv zeta. destruct (target_process_matches readlink f (s32 (d_pid d))) as [f' b] eqn:Em. cbn [snd]. split.
  - intros [Hc ->]%andb_true_iff. rewrite (browser_print_render readlink e f d data f' Hd Hc Em). cbn [snd]. split.
    + apply parse_line_render; [done|by apply browser_texts_ok].
    + intros Hne. destruct (bk_data _ _ Hd) as [(_ & Hn & _)|[_ ?]]; [|done]. rewrite Hn.
      unfold lost_values. rewrite bool_decide_eq_true_2 by done. cbn [andb].
      destruct (Z.ltb_spec (Z.of_nat (length data)) (d_len d)) as [Hlt|Hge]; split; try done; try lia; [left|].
      intros Hin. by apply list_elem_of_singleton in Hin.
  - intros Hs. unfold browser_print_event. cbv zeta. rewrite Em. unfold comm_wanted in Hs.
    destruct (be_comm e) as [comm|]; [destruct (streq comm (d_comm d))|]; cbn [negb andb] in *; try done; by subst b.
Qed.

(** ** From the probes to the output *)

(** What the kernel guarantees of an invocation by a process with a printable
    command name. *)
Record browser_ctx_ok (c : ssl_ctx) : Prop := {
  cok_time : 0 <= x_ktime c < 2 ^ 64;
  cok_mem : mem_ok (x_mem c);
  cok_arg : forall i, 0 <= x_arg c i < 2 ^ 64;
  cok_comm : Forall (fun b => 32 <= b < 128 /\ b <> 34 /\ b <> 92) (cstr (x_comm c));
}.

Definition good_sample (d : probe_SSL_data_t) : Prop := exists data, browser_sample_ok d data.

Section trace.
Context `{BpfHash hmap} (cfg : ssl_config).
Implicit Types (s : browser_state hmap) (c : ssl_ctx).

(** The samples both kinds of probe submit. *)
Lemma submitted_good c slot l delta len size rw :
  browser_ctx_ok c -> 0 <= delta < 2 ^ 64 -> 0 <= size <= BROWSER_MAX_BUF_SIZE ->
  (forall x, l = Some x -> bytes_ok x /\ length x = Z.to_nat size) ->
  let mk size filled data := SslData (x_ktime c) delta (x_pid c) (x_tid c) (x_uid c) len size filled rw (x_comm c) data false in
  good_sample (match l with Some x => mk size 1 (copy_at slot 0 x) | None => mk 0 0 slot end).
Proof.
  intros [Ht _ _ Hc] Hd Hs Hl. cbv zeta. destruct l as [x|].
  - destruct (Hl x eq_refl) as [Hb Hn]. exists x. split; cbn; [lia|done|done| |done]. left. split; [done|]. split; [cbn; lia|]. apply captured_copy0.
  - exists []. split; cbn; [lia|by split|constructor|by right|done].
Qed.

Lemma user_read_good mem a n x : mem_ok mem -> user_read mem a n = Some x -> bytes_ok x /\ length x = Z.to_nat n.
Proof. intros Hm E. split; [by eapply user_read_ok|by eapply user_read_length]. Qed.

(** A probe submits at most one sample, a good one. *)
Definition adds_good s s' : Prop := adds_one good_sample (b_rb s) (b_rb s').

Lemma emit_good s c i j rw : browser_ctx_ok c -> adds_good s (emit_plaintext_buffer cfg s c (x_arg c i) (x_arg c j) rw).
Proof.
  intros Hc. pose proof (cok_arg _ Hc j) as Ha. unfold emit_plaintext_buffer. destruct (negb _); [by left|].
  destruct (_ || _) eqn:E; [by left|]. bool_to_prop. destruct (x_slot c) as [slot|]; [|by left]. cbv zeta. apply adds_sample.
  set (n := if 2 ^ 32 - 1 <? _ then _ else _). set (k := if BROWSER_MAX_BUF_SIZE <? n then _ else _).
  assert (0 <= k <= BROWSER_MAX_BUF_SIZE) as Hk.
  { assert (0 < BROWSER_MAX_BUF_SIZE) by done. assert (0 <= n) by (unfold n; case_match; lia). unfold k. case_match; bool_to_prop; lia. }
  apply submitted_good; [done|lia|done|]. intros x. apply user_read_good. apply Hc.
Qed.

Lemma exit_good rw s c : browser_ctx_ok c -> adds_good s (browsertrace_exit cfg rw s c).
Proof.
  intros Hc. unfold browsertrace_exit. destruct (negb _); [by left|]. destruct (bpf_map_lookup_elem (b_bufs s) _) as [bufp|]; [|by left].
  destruct (bpf_map_lookup_elem (b_start_ns s) _) as [tsp|]; [|by left]. cbv zeta. destruct (Z.leb_spec (s32 (x_rc c)) 0); [by left|].
  destruct (x_slot c) as [slot|]; [|by left]. apply adds_sample. set (k := if _ <? _ then _ else _).
  assert (0 <= k <= BROWSER_MAX_BUF_SIZE) as Hk by (assert (0 < BROWSER_MAX_BUF_SIZE) by done; unfold k; case_match; bool_to_prop; lia).
  apply submitted_good; [done|by apply wrapu_bound|done|]. intros x. apply user_read_good. apply Hc.
Qed.

#[export] Instance browser_samples_good : SampleLaws (browser_system cfg) browser_ctx_ok good_sample.
Proof.
  intros p s c Hc. change (adds_good s (run_browser cfg p s c)). destruct p; cbn [run_browser]; try (by apply emit_good); try (by apply exit_good); left.
  - unfold probe_nss_rw_enter, store_rw_enter. by repeat case_match.
  - done.
  - unfold probe_nss_import_fd_exit. cbv zeta. by repeat case_match.
  - done.
Qed.

End trace.

Section output.
Context (readlink : bytes -> option bytes) (e : browser_env) (f0 : target_filter).

(** The samples that are asked for. *)
Definition browser_shown (d : probe_SSL_data_t) : bool := comm_wanted e d && process_matches readlink f0 (s32 (d_pid d)).

Definition browser_line_of (d : probe_SSL_data_t) (line : bytes) : Prop :=
  if browser_shown d then exists data, browser_sample_ok d data /\ parse_line line = Some (browser_values d data) else line = [].

Lemma browser_print_event_line f d :
  good_sample d -> filter_ok readlink f0 f ->
  exists f' line, browser_print_event readlink e f d = (f', line) /\ browser_line_of d line /\ filter_ok readlink f0 f'.
Proof.
  intros [data Hd] Hf. destruct (target_process_matches_ok readlink f0 f (s32 (d_pid d)) Hf) as (f' & E & Hf').
  pose proof (browser_print_render readlink e f d data f' Hd) as Hr. rewrite E in Hr. unfold browser_line_of, browser_shown.
  destruct (comm_wanted e d) eqn:Ec; cbn [andb].
  - destruct (process_matches readlink f0 (s32 (d_pid d))) eqn:Em.
    + exists f'. eexists. split; [by apply Hr|]. split; [|done]. exists data. split; [done|].
      apply parse_line_render; [done|by apply browser_texts_ok].
    + exists f', []. split; [|done]. unfold browser_print_event. cbv zeta. rewrite E. unfold comm_wanted in Ec.
      destruct (be_comm e) as [comm|]; [by rewrite Ec|done].
  - exists f, []. split; [|done]. unfold browser_print_event. cbv zeta. unfold comm_wanted in Ec. destruct (be_comm e) as [comm|]; [by rewrite Ec|done].
Qed.

Lemma browser_print_events_lines f ds :
  Forall good_sample ds -> filter_ok readlink f0 f ->
  exists f' lines, browser_print_events readlink e f ds = (f', concat lines) /\ Forall2 browser_line_of ds lines /\ filter_ok readlink f0 f'.
Proof.
  intros Hds. revert f. induction Hds as [|d ds Hd _ IH]; intros f Hf; [exists f, []; by split|]. cbn [browser_print_events].
  destruct (browser_print_event_line f d Hd Hf) as (f1 & line & -> & Hl & Hf1). destruct (IH f1 Hf1) as (f2 & lines & -> & Hls & Hf2).
  exists f2, (line :: lines). split; [done|]. split; [by constructor|done].
Qed.

Lemma browser_loop_lines turns f out :
  Forall (fun t => sn_exiting t = false /\ (0 <= sn_err t \/ sn_err t = - EINTR)) turns ->
  Forall good_sample (concat (map sn_samples turns)) -> filter_ok readlink f0 f ->
  exists lines, browser_loop readlink e turns f out = (out ++ concat lines, None) /\ Forall2 browser_line_of (concat (map sn_samples turns)) lines.
Proof.
  intros Ht. revert f out. induction Ht as [|t turns [Hx He] _ IH]; intros f out Hs Hf.
  - exists []. cbn. by rewrite app_nil_r.
  - cbn [map concat browser_loop] in *. apply Forall_app in Hs as [Hs1 Hs2]. rewrite Hx.
    destruct (browser_print_events_lines f _ Hs1 Hf) as (f1 & ls & -> & Hls & Hf1).
    replace ((sn_err t <? 0) && negb (sn_err t =? - EINTR)) with false
      by (destruct He as [He| ->]; [by rewrite (proj2 (Z.ltb_ge _ _) He)|done]).
    destruct (IH f1 (out ++ concat ls) Hs2 Hf1) as (ls2 & -> & Hls2). exists (ls ++ ls2). rewrite concat_app, <- app_assoc.
    split; [done|by apply Forall2_app].
Qed.
End output.


(** ** Attachments *)

(** libbpf answers an error with a negative errno, or with NULL and errno. *)
Definition browser_replies_ok (attach : browser_req -> attach_reply) : Prop :=
  forall r, match attach r with AttLink => True | AttErr err => -4096 < err < 0 | AttNull errno => 0 < errno < 4096 end.

(** The links of a list of attachments that were all made. *)
Definition links_of (l : list (bool * browser_req)) : browser_links :=
  let named := List.filter (fun x => negb x.1) l in
  let extra := List.filter fst l in
  BrowserLinks (map snd named) (map (fun x => Some x.2) extra ++ replicate (BROWSER_EXTRA_LINK_CAP - length extra) None).

(** What a browser is traced with. *)
Inductive browser_plan (fs : browser_fs) (e : browser_env) (path : bytes) : list (bool * browser_req) -> Prop :=
  | plan_chrome offsets :
      target_is_chromium_family path = true -> offsets = find_chrome_plaintext_offsets (fs_file fs path) -> co_found offsets = true ->
      browser_plan fs e path (chrome_steps (be_pid e) path offsets)
  | plan_firefox libs :
      target_is_chromium_family path = false -> target_is_firefox path = true ->
      libs = detect_linked_tls_libraries fs path -> nspr libs <> [] -> nss_ssl3 libs <> [] ->
      browser_plan fs e path (nss_steps (be_pid e) (nspr libs) (nss_ssl3 libs)).

Lemma remember_first_free r xs m :
  remember_extra_link r (map Some xs ++ replicate (S m) None) = Some (map Some (xs ++ [r]) ++ replicate m None).
Proof. induction xs as [|x xs IH]; [done|]. cbn [map app remember_extra_link]. by rewrite IH. Qed.

Section attach.
Context (attach : browser_req -> attach_reply) (Hreplies : browser_replies_ok attach).

Lemma attach_program_link extra r done_ :
  (length (List.filter fst done_) < BROWSER_EXTRA_LINK_CAP)%nat -> attach r = AttLink ->
  attach_program attach extra r (links_of done_) = (links_of (done_ ++ [(extra, r)]), 0).
Proof.
  intros Hn E. unfold attach_program, links_of. rewrite E, !List.filter_app. cbn [bl_named bl_extra].
  destruct extra; cbn [List.filter fst negb]; rewrite ?app_nil_r; [|by rewrite map_app].
  rewrite length_app. cbn [length]. set (xs := List.filter fst done_) in *.
  replace (BROWSER_EXTRA_LINK_CAP - length xs)%nat with (S (BROWSER_EXTRA_LINK_CAP - (length xs + 1)))%nat by lia.
  rewrite <- !(map_map snd Some), remember_first_free, (map_app snd xs). done.
Qed.

Lemma attach_error_nonzero r : attach r <> AttLink -> attach_error attach r <> 0.
Proof.
  pose proof (Hreplies r). unfold attach_error. destruct (attach r); [done| |lia]. intros _.
  unfold wraps. rewrite Z.mod_small by lia. lia.
Qed.

Lemma attach_steps_all l done_ ls err :
  (length (List.filter fst (done_ ++ l)) <= BROWSER_EXTRA_LINK_CAP)%nat ->
  attach_steps attach l (links_of done_) = (ls, err) -> err = 0 ->
  ls = links_of (done_ ++ l) /\ Forall (fun x => attach x.2 = AttLink) l.
Proof.
  revert done_. induction l as [|[extra r] l IH]; intros done_ Hn; cbn [attach_steps].
  - intros [= <- <-] _. rewrite app_nil_r. by split.
  - assert (attach r = AttLink \/ attach r <> AttLink) as [E|E] by (destruct (attach r); auto).
    + rewrite List.filter_app, length_app in Hn. destruct (decide (length (List.filter fst done_) < BROWSER_EXTRA_LINK_CAP)%nat) as [Hlt|Hge].
      * rewrite attach_program_link by done. cbn [Z.eqb negb]. intros Ha He.
        change ((extra, r) :: l) with ([(extra, r)] ++ l). rewrite app_assoc.
        destruct (IH (done_ ++ [(extra, r)])) as [-> ?]; try done; [|split; [done|by constructor]].
        rewrite <- app_assoc, List.filter_app, length_app. exact Hn.
      * assert (extra = false) as -> by (destruct extra; [cbn in Hn; lia|done]).
        unfold attach_program at 1. rewrite E. cbn [Z.eqb negb]. intros Ha He. change ((false, r) :: l) with ([(false, r)] ++ l). rewrite app_assoc.
        destruct (IH (done_ ++ [(false, r)])) as [-> ?]; try done; [..|split; [done|by constructor]].
        -- rewrite <- app_assoc, List.filter_app, length_app. exact Hn.
        -- rewrite <- Ha. f_equal. unfold links_of. rewrite !List.filter_app, map_app. cbn [List.filter fst negb]. by rewrite app_nil_r.
    + assert (attach_program attach extra r (links_of done_) = (links_of done_, attach_error attach r)) as ->
        by (unfold attach_program; by destruct (attach r)).
      pose proof (attach_error_nonzero r E). rewrite (proj2 (Z.eqb_neq _ _)) by done. cbn [negb]. intros [= <- <-] ?. done.
Qed.

Lemma attach_browser_target_all fs e path ls err :
  attach_browser_target attach fs e path (detect_linked_tls_libraries fs path) no_links = (ls, err) -> err = 0 ->
  exists steps, browser_plan fs e path steps /\ Forall (fun x => attach x.2 = AttLink) steps /\ ls = links_of steps.
Proof.
  change no_links with (links_of []). unfold attach_browser_target. destruct (target_is_chromium_family path) eqn:Ec.
  - cbv zeta. destruct (co_found _) eqn:Ef; cbn [negb]; [|intros [= <- <-]; done]. intros Ha He. eexists.
    split; [by apply plan_chrome|]. unfold attach_chrome_plaintext in Ha. apply attach_steps_all in Ha as [-> ?]; [by split|vm_compute; lia|done].
  - destruct (target_is_firefox path) eqn:Ef; [|intros [= <- <-]; done].
    destruct (_ || _) eqn:El; [intros [= <- <-]; done|]. apply orb_false_iff in El as [E1%bool_decide_eq_false E2%bool_decide_eq_false].
    unfold attach_browser_nss. rewrite !bool_decide_eq_false_2 by done. intros Ha He. eexists. split; [by apply plan_firefox|].
    apply attach_steps_all in Ha as [-> ?]; [by split| |done]. change (8 <= BROWSER_EXTRA_LINK_CAP)%nat. unfold BROWSER_EXTRA_LINK_CAP. lia.
Qed.
End attach.


(** ** Witnesses *)

Lemma path_ok_test p : forallb (fun b => negb (b =? 0)) p = true -> (length p <? PATH_MAX)%nat = true -> path_ok p.
Proof. intros Hn Hl. split; [by apply no_nul_test|by apply Nat.ltb_lt]. Qed.

(** Process 7 runs the browser, the others a shell. *)
Definition two_exes (p : bytes) : option bytes :=
  Some (if bool_decide (p = lit "/proc/7/exe") then lit "/usr/lib/firefox/firefox" else lit "/bin/sh").

Lemma two_exes_ok p exe : two_exes p = Some exe -> path_ok exe /\ exe <> [].
Proof. intros [= <-]. case_bool_decide; (split; [by apply path_ok_test|discriminate]). Qed.


Definition sample_browser : probe_SSL_data_t :=
  SslData 5 1500 7 7 1000 4 3 1 1 (lit "Socket Thread" ++ [0; 0; 0]) ([71; 69; 84] ++ replicate 61 0) false.

Lemma browser_line_roundtrip_witness :
  parse_line (snd (browser_print_event two_exes browser_env0 (setup_target_process_filter [] (lit "/opt/firefox")) sample_browser))
    = Some (browser_values sample_browser [71; 69; 84]).
Proof.
  destruct (browser_line_roundtrip two_exes browser_env0 (setup_target_process_filter [] (lit "/opt/firefox")) sample_browser [71; 69; 84]) as [H _].
  - split; cbn.
    + lia.
    + unfold BROWSER_MAX_BUF_SIZE. lia.
    + by apply bytes_ok_test.
    + left. by split.
    + by apply ascii_test.
  - apply H. vm_compute. reflexivity.
Defined.


(** Chrome as it is installed: a script next to the binary, whose copy points
    are in [chrome_elf]. *)
Definition chrome_elf : bytes :=
  [127; 69; 76; 70] ++ request_copy_1_pat ++ response_copy_pat ++ request_copy_3_pat ++ request_copy_2_pat.

Definition chrome_script : bytes := lit "#!/bin/bash" ++ [10] ++ lit "exec -a " ++ [34] ++ lit "$0" ++ [34; 32; 34] ++ lit "$HERE/chrome" ++ [34; 32; 34] ++ lit "$@" ++ [34; 10].

Definition chrome_fs : browser_fs :=
  BrowserFs (fun p => if bool_decide (p = lit "/opt/google/chrome/google-chrome") then Some chrome_script
                      else if bool_decide (p = lit "/opt/google/chrome/chrome") then Some chrome_elf else None)
    (fun _ => false) (fun _ => false) (fun p => Some p) (fun _ => None) (fun _ => None).

Definition chrome_env : browser_env := BrowserEnv (-1) (-1) None (Some (lit "/opt/google/chrome/google-chrome")).

