(* ===== verification/BrowserFind.v ===== *)
(** * How the browser tracer finds its target

    The copy points of Chrome are the first occurrences of their masked
    patterns; a wrapper is followed to the executable it runs; and what the
    resolution returns is an executable. *)

From S2P Require Import Prelude CLib SslBpf SslSniff BrowserBpf Browser.

(** ** Masked patterns *)

(** The pattern is at [k], up to the bytes the mask leaves open. *)
Definition masked_at (data pattern mask : bytes) (k : nat) : Prop :=
  (k + length pattern <= length data)%nat /\
  forall j, mask !! j = Some 120 -> data !! (k + j)%nat = pattern !! j.

Lemma mask_matches_spec data pattern mask :
  length mask = length pattern -> (length pattern <= length data)%nat ->
  mask_matches data pattern mask = true <-> forall j, mask !! j = Some 120 -> data !! j = pattern !! j.
Proof.
  revert pattern mask. induction data as [|d data IH]; intros [|p pattern] [|m mask] Hm Hl; cbn [length] in *; try lia.
  1-2: split; [intros _ j Hj; by rewrite lookup_nil in Hj|done].
  cbn [mask_matches]. split.
  - destruct (_ && _) eqn:E; [done|]. intros Ht j Hj. destruct j as [|j].
    + cbn in Hj. injection Hj as ->. apply andb_false_iff in E as [E|E]; bool_to_prop; cbn; congruence.
    + cbn in *. by apply (proj1 (IH pattern mask ltac:(lia) ltac:(lia)) Ht).
  - intros Hj. destruct (_ && _) eqn:E.
    + bool_to_prop. subst m. specialize (Hj 0%nat eq_refl). cbn in Hj. congruence.
    + apply IH; [lia..|]. intros j. apply (Hj (S j)).
Qed.

Lemma masked_at_drop data pattern mask k :
  length mask = length pattern -> (k + length pattern <= length data)%nat ->
  mask_matches (drop k data) pattern mask = true <-> masked_at data pattern mask k.
Proof.
  intros Hm Hl. rewrite mask_matches_spec by (rewrite ?length_drop; lia). unfold masked_at.
  split; [intros H; split; [done|]|intros [_ H]]; intros j Hj; specialize (H j Hj); by rewrite lookup_drop in *.
Qed.

(** The first occurrence, when there is one. *)
Definition first_masked (data pattern mask : bytes) (r : option nat) : Prop :=
  match r with
  | Some k => masked_at data pattern mask k /\ forall j, (j < k)%nat -> ~ masked_at data pattern mask j
  | None => forall j, ~ masked_at data pattern mask j
  end.

Lemma tl_drop i (l : bytes) : tl (drop i l) = drop (S i) l.
Proof. revert l. induction i as [|i IH]; intros [|b l]; try done. apply IH. Qed.

Lemma masked_loop_first n i data pattern mask :
  length mask = length pattern -> (i + n + length pattern = S (length data))%nat ->
  (forall j, (j < i)%nat -> ~ masked_at data pattern mask j) ->
  first_masked data pattern mask (masked_loop n (drop i data) pattern mask i).
Proof.
  intros Hm. revert i. induction n as [|n IH]; intros i Hn Hno; cbn [masked_loop].
  - intros j Hj. destruct (decide (j < i)%nat); [by apply (Hno j)|]. destruct Hj as [Hj _]. lia.
  - destruct (mask_matches _ _ _) eqn:E.
    + split; [|done]. apply masked_at_drop; [done|lia|done].
    + rewrite tl_drop. apply IH; [lia|]. intros j Hj. destruct (decide (j = i)) as [->|]; [|apply Hno; lia].
      intros Ho. apply masked_at_drop in Ho; [congruence|done|lia].
Qed.

Lemma find_masked_pattern_first data pattern mask :
  length mask = length pattern -> first_masked data pattern mask (find_masked_pattern data pattern mask).
Proof.
  intros Hm. unfold find_masked_pattern. rewrite Hm, Nat.eqb_refl. cbn [negb orb]. rewrite orb_false_r.
  destruct (Nat.ltb_spec (length data) (length pattern)).
  - intros j [Hj _]. lia.
  - apply (masked_loop_first _ 0 data); [done|lia|lia].
Qed.

(** C28: the copy points of Chrome are found exactly: the tracer accepts an
    executable precisely when each of the four masked patterns occurs in it,
    and then the offsets it attaches to are the call instructions in the first
    occurrences: 9 bytes into each of the requests', 14 into the response's. *)
Theorem chrome_offsets_exact data :
  let r := find_chrome_plaintext_offsets (Some data) in
  (co_found r = true <->
     (exists k, masked_at data request_copy_1_pat request_copy_1_mask k) /\ (exists k, masked_at data request_copy_2_pat request_copy_2_mask k) /\
     (exists k, masked_at data request_copy_3_pat request_copy_3_mask k) /\ (exists k, masked_at data response_copy_pat response_copy_mask k)) /\
  (co_found r = true -> exists k1 k2 k3 k4,
     first_masked data request_copy_1_pat request_copy_1_mask (Some k1) /\ request_copy_1 r = Some (k1 + 9)%nat /\
     first_masked data request_copy_2_pat request_copy_2_mask (Some k2) /\ request_copy_2 r = Some (k2 + 9)%nat /\
     first_masked data request_copy_3_pat request_copy_3_mask (Some k3) /\ request_copy_3 r = Some (k3 + 9)%nat /\
     first_masked data response_copy_pat response_copy_mask (Some k4) /\ response_copy r = Some (k4 + 14)%nat).
Proof.
  cbv zeta. pose proof (find_masked_pattern_first data request_copy_1_pat request_copy_1_mask eq_refl) as F1.
  pose proof (find_masked_pattern_first data request_copy_2_pat request_copy_2_mask eq_refl) as F2.
  pose proof (find_masked_pattern_first data request_copy_3_pat request_copy_3_mask eq_refl) as F3.
  pose proof (find_masked_pattern_first data response_copy_pat response_copy_mask eq_refl) as F4.
  assert (data = [] \/ data <> []) as [-> |Hne] by (destruct data; auto).
  { split; [|done]. split; [done|]. intros [(k & Hk & _) _]. cbn in Hk. lia. }
  destruct data as [|b l]; [done|]. unfold find_chrome_plaintext_offsets. cbv zeta. set (data := b :: l) in *. clearbody data. clear Hne b l.
  cbn [co_found request_copy_1 request_copy_2 request_copy_3 response_copy].
  destruct (find_masked_pattern data request_copy_1_pat _) as [k1|]; cbn [first_masked] in F1.
  2: { split; [|done]. split; [done|]. intros [[k Hk] _]. by destruct (F1 k). }
  destruct (find_masked_pattern data request_copy_2_pat _) as [k2|]; cbn [first_masked] in F2.
  2: { split; [|done]. split; [done|]. intros (_ & [k Hk] & _). by destruct (F2 k). }
  destruct (find_masked_pattern data request_copy_3_pat _) as [k3|]; cbn [first_masked] in F3.
  2: { split; [|done]. split; [done|]. intros (_ & _ & [k Hk] & _). by destruct (F3 k). }
  destruct (find_masked_pattern data response_copy_pat _) as [k4|]; cbn [first_masked] in F4.
  2: { split; [|done]. split; [done|]. intros (_ & _ & _ & k & Hk). by destruct (F4 k). }
  split.
  - split; [intros _|done]. split_and!; eexists; [apply F1|apply F2|apply F3|apply F4].
  - intros _. exists k1, k2, k3, k4. by repeat (split; [done|]).
Qed.

(** ** Strings *)

Lemma strstr_Some hay needle i :
  needle <> [] -> strstr hay needle = Some i <->
  memeq_at hay i needle = true /\ forall j, (j < i)%nat -> memeq_at hay j needle = false.
Proof.
  intros Hn. unfold strstr. rewrite fmap_Some. split.
  - intros ([k b] & Hf & ->). apply list_find_Some in Hf as (H1 & Hm & H2). apply lookup_seq in H1 as [-> _].
    split; [done|]. intros j Hj. cbn in Hj. apply not_true_iff_false. apply (H2 j j); [|done]. apply lookup_seq. cbn.
    apply memeq_at_spec in Hm as [r Hr]. apply (f_equal length) in Hr. rewrite length_drop, length_app in Hr. cbn in Hr. destruct needle; [done|]. cbn in *. lia.
  - intros [Hm Hno]. exists (i, i). split; [|done]. apply list_find_Some.
    pose proof Hm as [r Hr]%memeq_at_spec. apply (f_equal length) in Hr. rewrite length_drop, length_app in Hr. destruct needle as [|c needle]; [done|]. cbn [length] in *.
    split; [apply lookup_seq; lia|]. split; [done|]. intros j y Hy Hj. apply lookup_seq in Hy as [-> _]. apply not_true_iff_false. by apply Hno.
Qed.

Lemma strrchr_last c l r : c ∉ r -> strrchr (l ++ c :: r) c = Some (length l).
Proof.
  intros Hr. unfold strrchr. assert (memchr (rev (l ++ c :: r)) c = Some (length r)) as ->.
  - apply memchr_Some. rewrite rev_app_distr. cbn [rev]. rewrite <- app_assoc. cbn [app].
    replace (length r) with (length (rev r)) by apply length_rev. split; [by apply list_lookup_middle|].
    intros j Hj Hc. rewrite lookup_app_l in Hc by done. apply Hr. apply list_elem_of_In, in_rev, list_elem_of_In. by eapply list_elem_of_lookup_2.
  - cbn. rewrite length_app. cbn [length]. f_equal. lia.
Qed.

(** A path in a directory. *)
Lemma dirname_of dir base :
  dir <> [] -> SLASH ∉ base -> (length dir < PATH_MAX)%nat -> path_dirname_copy PATH_MAX (dir ++ SLASH :: base) = Some dir.
Proof.
  intros Hd Hb Hl. unfold path_dirname_copy. rewrite strrchr_last by done. destruct dir as [|c dir]; [done|].
  rewrite bool_decide_eq_false_2 by (cbn; lia). rewrite (proj2 (Nat.leb_gt _ _)) by done. by rewrite take_app_length.
Qed.

(** ** Wrapper scripts *)

Lemma fgets_lines_prefix size (lines : list bytes) rest :
  (2 <= size)%nat -> Forall (fun l => (10 ∉ l) /\ (length l + 1 < size)%nat) lines ->
  fgets_lines size (concat (map (fun l => l ++ [10]) lines) ++ rest) = map (fun l => l ++ [10]) lines ++ fgets_lines size rest.
Proof.
  intros Hs. induction 1 as [|l lines [Hl Hn] _ IH]; [done|]. cbn [map concat app]. rewrite <- !app_assoc. cbn [app].
  rewrite fgets_lines_line by done. by rewrite IH.
Qed.

(** A line of a script: no newline, no NUL, and it fits the buffer. *)
Definition line_ok (l : bytes) : Prop := (10 ∉ l) /\ no_nul l /\ (length l + 1 < 1024)%nat.

(** It names no target. *)
Definition silent_line (l : bytes) : Prop :=
  line_ok l /\ strstr (l ++ [10]) (lit "$HERE/") = None /\ strstr (l ++ [10]) (lit "exec ") = None.

Lemma cstr_line l : no_nul l -> cstr (l ++ [10]) = l ++ [10].
Proof. intros Hl. apply cstr_id, no_nul_app; [done|by repeat constructor]. Qed.

Lemma script_lines_silent dir lines rest :
  Forall silent_line lines -> script_lines dir (map (fun l => l ++ [10]) lines ++ rest) = script_lines dir rest.
Proof.
  induction 1 as [|l lines [(_ & Hn & _) [Hh He]] _ IH]; [done|]. cbn [map app script_lines]. rewrite cstr_line by done.
  unfold script_line. rewrite Hh, He. cbn [mbind option_bind]. exact IH.
Qed.

(** The characters of a name that is not quoted. *)
Definition name_char (c : Z) : bool := negb (c =? 34) && negb (is_space c).

Lemma script_line_here dir line pre name q post :
  line = pre ++ lit "$HERE/" ++ name ++ q :: post -> strstr (line ++ [10]) (lit "$HERE/") = Some (length pre) ->
  Forall (fun c => name_char c = true) name -> name_char q = false -> (length name < PATH_MAX)%nat ->
  script_line dir (line ++ [10]) = Some (path_join PATH_MAX dir name).
Proof.
  intros -> Hs Hn Hq Hl. unfold script_line. rewrite Hs. f_equal.
  assert (drop (length pre + 6) ((pre ++ lit "$HERE/" ++ name ++ q :: post) ++ [10]) = name ++ q :: post ++ [10]) as ->.
  { rewrite <- !app_assoc. rewrite <- drop_drop, drop_app_length. change 6%nat with (length (lit "$HERE/")). rewrite drop_app_length. done. }
  fold (name_char). rewrite (take_while_app _ name (q :: post ++ [10])) by done. by rewrite take_ge by lia.
Qed.

Lemma wrapper_target fs dir base silent line rest pre name q post :
  dir <> [] -> SLASH ∉ base -> (length dir < PATH_MAX)%nat ->
  fs_file fs (dir ++ SLASH :: base) = Some (concat (map (fun l => l ++ [10]) silent) ++ line ++ 10 :: rest) ->
  Forall silent_line silent -> line_ok line ->
  line = pre ++ lit "$HERE/" ++ name ++ q :: post -> strstr (line ++ [10]) (lit "$HERE/") = Some (length pre) ->
  Forall (fun c => name_char c = true) name -> name_char q = false -> (length (dir ++ SLASH :: name) < PATH_MAX)%nat ->
  parse_exec_target_from_script fs (dir ++ SLASH :: base) = Some (dir ++ SLASH :: name).
Proof.
  intros Hd Hb Hl Hf Hs Hline E Hh Hn Hq Hlen. unfold parse_exec_target_from_script. rewrite Hf. cbn [mbind option_bind].
  rewrite dirname_of by done. cbn [mbind option_bind]. destruct Hline as (H10 & Hnul & Hsz).
  rewrite fgets_lines_prefix, fgets_lines_line, script_lines_silent; try done; try lia.
  - cbn [script_lines]. rewrite cstr_line by done.
    rewrite (script_line_here _ _ _ _ _ _ E Hh Hn Hq) by (rewrite length_app in Hlen; cbn [length] in Hlen; lia).
    unfold path_join. by rewrite (proj2 (Nat.leb_gt _ _)) by done.
  - eapply Forall_impl; [exact Hs|]. by intros l [(? & _ & ?) _].
Qed.

(** ** Resolution *)

Section resolve.
Context (fs : browser_fs).

(** One wrapper after another. *)
Inductive follows : nat -> bytes -> bytes -> Prop :=
  | follows_here p : follows 0 p p
  | follows_next n p q r : resolve_step fs p = Follow q -> follows n q r -> follows (S n) p r.

Lemma resolve_loop_spec depth p r :
  resolve_loop fs depth p = Some r <-> exists n q, (n < depth)%nat /\ follows n p q /\ resolve_step fs q = Resolved r.
Proof.
  revert p. induction depth as [|depth IH]; intros p; cbn [resolve_loop].
  - split; [done|]. intros (n & q & Hn & _). lia.
  - destruct (resolve_step fs p) as [path|next|] eqn:E.
    + split.
      * intros [= <-]. exists 0%nat, p. split; [lia|]. split; [constructor|done].
      * intros (n & q & _ & Hf & Hq). inversion Hf; subst; congruence.
    + rewrite IH. split.
      * intros (n & q & Hn & Hf & Hq). exists (S n), q. split; [lia|]. split; [by econstructor|done].
      * intros (n & q & Hn & Hf & Hq). inversion Hf as [|n' p' q' r' E' Hf']; subst; [congruence|]. exists n', q. split; [lia|]. split; [congruence|done].
    + split; [done|]. intros (n & q & _ & Hf & Hq). inversion Hf; subst; congruence.
Qed.

Definition realpath_ok : Prop := forall p r, fs_realpath fs p = Some r -> (length r < PATH_MAX)%nat.

Lemma copy_string_short n p : (0 < n)%nat -> (length (copy_string n p) < n)%nat.
Proof. intros Hn. unfold copy_string, snprintf_s. rewrite length_take. lia. Qed.

Lemma copy_string_fits n p : (length p < n)%nat -> copy_string n p = p.
Proof. intros. unfold copy_string, snprintf_s. apply take_ge. lia. Qed.

Lemma resolve_step_elf p r :
  realpath_ok -> (length p < PATH_MAX)%nat -> resolve_step fs p = Resolved r -> file_is_elf fs r = true.
Proof.
  intros Hr Hp. unfold resolve_step. destruct (file_is_elf fs p) eqn:E; [intros [= <-]; by rewrite copy_string_fits|].
  repeat case_match; try done; intros [= <-]; (rewrite copy_string_fits; [done|]; by eapply Hr).
Qed.

Lemma follows_short n p q : (length p < PATH_MAX)%nat -> follows n p q -> (length q < PATH_MAX)%nat.
Proof.
  intros Hp Hf. induction Hf as [|n p q r E _ IH]; [done|]. apply IH. revert E. unfold resolve_step.
  assert (0 < PATH_MAX)%nat by (vm_compute; lia).
  repeat case_match; try done; intros [= <-]; by apply copy_string_short.
Qed.
End resolve.

(** C27: the browser path is resolved to an executable: the resolution succeeds
    exactly when at most three wrappers lead from the path to one, always
    terminates (also on scripts that call each other), and what it returns is
    an ELF file; an executable is itself; and a script whose first line that
    names a target mentions "$HERE/name" leads to that file of its own
    directory. *)
Theorem resolution_finds_executable fs input :
  realpath_ok fs ->
  (forall path, resolve_target_binary fs input = Some path <->
     exists n q, (n < 4)%nat /\ follows fs n (copy_string PATH_MAX input) q /\ resolve_step fs q = Resolved path) /\
  (forall path, resolve_target_binary fs input = Some path -> file_is_elf fs path = true) /\
  ((length input < PATH_MAX)%nat -> file_is_elf fs input = true -> resolve_target_binary fs input = Some input) /\
  (forall dir base silent line rest pre name q post,
     input = dir ++ SLASH :: base -> dir <> [] -> SLASH ∉ base -> (length input < PATH_MAX)%nat -> file_is_elf fs input = false ->
     fs_file fs input = Some (concat (map (fun l => l ++ [10]) silent) ++ line ++ 10 :: rest) ->
     Forall silent_line silent -> line_ok line ->
     line = pre ++ lit "$HERE/" ++ name ++ q :: post -> strstr (line ++ [10]) (lit "$HERE/") = Some (length pre) ->
     Forall (fun c => name_char c = true) name -> name_char q = false -> (length (dir ++ SLASH :: name) < PATH_MAX)%nat ->
     file_is_elf fs (dir ++ SLASH :: name) = true -> resolve_target_binary fs input = Some (dir ++ SLASH :: name)).
Proof.
  intros Hr. assert (0 < PATH_MAX)%nat as H0 by (vm_compute; lia). split; [intros path; apply resolve_loop_spec|]. split; [|split].
  - intros path (n & q & _ & Hf & Hq)%resolve_loop_spec. apply (resolve_step_elf fs q); [done| |done].
    eapply follows_short; [|exact Hf]. by apply copy_string_short.
  - intros Hl He. unfold resolve_target_binary. rewrite copy_string_fits by done. cbn [resolve_loop]. unfold resolve_step.
    by rewrite He, copy_string_fits.
  - intros dir base silent line rest pre name q post Hi Hd Hb Hl Hne Hf Hs Hline E Hh Hn Hq Hlen He.
    assert (parse_exec_target_from_script fs input = Some (dir ++ SLASH :: name)) as Hp.
    { rewrite Hi in Hf, Hl |- *. eapply wrapper_target; try done. rewrite length_app in Hl. cbn [length] in Hl. lia. }
    unfold resolve_target_binary. rewrite (copy_string_fits PATH_MAX input) by done. cbn [resolve_loop]. unfold resolve_step at 1.
    rewrite Hne, Hp, copy_string_fits by done. cbn [resolve_loop]. unfold resolve_step. by rewrite He, copy_string_fits.
Qed.

(** ** Witnesses *)

Definition wrapper_fs : browser_fs :=
  BrowserFs (fun p => if bool_decide (p = lit "/opt/chrome/google-chrome")
                      then Some (concat (map (fun l => l ++ [10]) [lit "#!/bin/bash"; lit "set -e"]) ++ (lit "exec " ++ lit "$HERE/" ++ lit "chrome" ++ 32 :: lit "--flag") ++ 10 :: [])
                      else if bool_decide (p = lit "/opt/chrome/chrome") then Some [127; 69; 76; 70; 2] else None)
    (fun _ => false) (fun _ => false) (fun p => None) (fun _ => None) (fun _ => None).

Lemma line_ok_test l : existsb (Z.eqb 10) l = false -> forallb (fun b => negb (b =? 0)) l = true -> (length l + 1 <? 1024)%nat = true -> line_ok l.
Proof. intros Hn Hz Hl. split; [by apply not_elem_test|]. split; [by apply no_nul_test|by apply Nat.ltb_lt]. Qed.

Lemma resolution_finds_executable_witness :
  resolve_target_binary wrapper_fs (lit "/opt/chrome/google-chrome") = Some (lit "/opt/chrome/chrome") /\
  file_is_elf wrapper_fs (lit "/opt/chrome/chrome") = true.
Proof.
  destruct (resolution_finds_executable wrapper_fs (lit "/opt/chrome/google-chrome")) as (_ & Helf & _ & Hw).
  - intros p r Hp. discriminate Hp.
  - assert (resolve_target_binary wrapper_fs (lit "/opt/chrome/google-chrome") = Some (lit "/opt/chrome/chrome")) as E.
    { apply (Hw (lit "/opt/chrome") (lit "google-chrome") [lit "#!/bin/bash"; lit "set -e"] (lit "exec " ++ lit "$HERE/" ++ lit "chrome" ++ 32 :: lit "--flag") []
        (lit "exec ") (lit "chrome") 32 (lit "--flag")); try reflexivity.
      - discriminate.
      - by apply not_elem_test.
      - by apply Nat.ltb_lt.
      - repeat apply Forall_cons_2; try apply Forall_nil_2; (split; [by apply line_ok_test|split; vm_compute; reflexivity]).
      - by apply line_ok_test.
      - repeat apply Forall_cons_2; try apply Forall_nil_2; reflexivity.
      - by apply Nat.ltb_lt. }
    split; [exact E|by apply Helf].
Defined.
